(* ===== verification/_CoqProject ===== *)
-Q . S2P
Prelude.v
LinkedList.v
Traversal.v
HashList.v
Cookie.v
SipHash.v
Storage.v
Sha.v
Aes.v
Cbpf.v
Dissector.v
Reuseport.v
Bytecode.v
Flow.v
Race.v
Hooks.v
Creation.v
Host.v
Daemon.v
Registry.v
Serve.v
Net.v
Utils.v
Text.v
Bpffs.v
Pins.v
Main.v
Lifetime.v
Decoy.v
Listing.v
Flows.v
System.v
Handover.v
Activate.v
Crate.v
Quic.v
QuicCrypto.v
QuicPacket.v
QuicState.v
ClientHello.v
Bespoke.v
