(* ===== verification/Prelude.v ===== *)
(** * udpgrm: a verification development

    udpgrm keeps UDP flows on the process that owns them while a service restarts.
    Applications bind sockets of one reuseport group, declare a generation for each
    socket and move the group's working generation; eBPF programs hooked to socket calls
    and to packet reception keep the state of the group in BPF maps and choose a socket
    for each packet; a daemon steals the registered sockets from the applications, gives
    each a slot of its generation and hands sockets over to the Tubular service.

    ** Files and the code they model

    - this file: words as [Z] with their wrap-around, bytes, loads and stores on objects
      in memory, finite checks, shared tactics;
    - [LinkedList], [Traversal], [HashList]: [src/list.h], its two kinds of lists on a heap
      of nodes, and its traversal macros;
    - [Cookie]: [include/udpgrm_internal.h], the 16-bit cookie and [TO_WRK_GEN];
    - [SipHash]: [ebpf/siphash.h] and [count_ip_flow_hash];
    - [Storage]: the data of [include/udpgrm.h], [include/udpgrm_internal.h] and
      [ebpf/ebpf_internal.h]; the interface to the kernel ([BpfMap], [Kernel] and their
      laws); the state [world] that the programs share; logging, [get_state];
    - [Cbpf]: [ebpf/ebpf_inter.c], the interpreter of classic BPF;
    - [Dissector]: [dissector_flow] and [dissector_cbpf] of [ebpf/ebpf.c], and the
      interface [BespokeDissector] of the hard-coded dissectors;
    - [Reuseport]: [udpgrm_reuseport_prog], the socket selection of every packet;
    - [Bytecode]: the bytecode of [examples/cbpf-basic.sh] and [cbpf-naive-quic.sh] on it;
    - [Flow]: [flow_assure] and the sendmsg hooks;
    - [Race]: [flow_assure] and the flow lookup of the receive path on several CPUs at once;
    - [Hooks]: setsockopt, getsockopt and bind hooks, [udpgrm_cb_update_map];
    - [Creation]: [get_state] and the begin of setsockopt on several CPUs at once;
    - [Host]: descriptors and [src/pidfd.c]; the interface to the operating system;
    - [Daemon]: [handle_msg] and the delete command of [src/udpgrm.c], [src/uspace.c],
      [src/tubular.c] on sequences;
    - [Registry]: the registry of descriptors of [src/tubular.c] as it is, objects on the
      heap linked by [LinkedList];
    - [Serve]: the loop of the daemon in [src/udpgrm.c];
    - [Net]: [src/net.c] and the names of groups, as text;
    - [Utils]: [optstring_from_long_options] of [src/utils.c], the table of options, and
      what is used of [getopt_long];
    - [Text]: the printing helpers of [src/utils.c] and [src/net.c], the control message of
      [src/tubular.c];
    - [Bpffs]: the interface to pins, directories, links and maps that the set-up uses, and
      commands that may end the process;
    - [Pins]: [src/cgroup.c], the discovery of maps in [src/uspace.c], the version metric,
      and loading, pinning and installing in [src/udpgrm.c];
    - [Main]: [main] of [src/udpgrm.c] around all of that, and the descriptors that the loop
      waits for;
    - [Lifetime]: the daemon from its start through its loop to its end, among other processes;
    - [Decoy]: [tools/mmdecoy.c], with its child, as the system calls it makes;
    - [Listing]: the list command ([src/do_list.c]) and the metrics ([src/metrics.c]);
    - [Flows]: the flows command ([src/do_flows.c]) with its hash table on the heap;
    - [System]: everything together as a transition system, for any bespoke dissector that
      keeps the laws of its interface;
    - [Handover]: a service restart: the calls of a new instance on its sockets, the daemon
      and everybody else, one run of a program at a time;
    - [Activate]: [tools/udpgrm_activate.py], the option values it packs and its socket calls;
    - [Crate]: [crates/udpgrm/src/lib.rs] and [types.rs], the options from Rust;
    - [Sha], [Aes]: [ebpf/ebpf_sha256.c] and [ebpf/ebpf_aes128.c], with FIPS 180-4,
      RFC 2104 and FIPS 197 written from the standards ([Fips180], [Hmac], [Fips197]);
    - [Quic]: every operation of [ebpf/ebpf_quic.c];
    - [QuicCrypto]: its key derivation and decryption against RFC 9001 ([Rfc9001]);
    - [QuicPacket]: Initial packets as a sender builds them, and how the header is read;
    - [QuicState]: the type of the scratch page through all of it;
    - [ClientHello]: the TLS Client Hello and how it is read;
    - [Bespoke]: [ebpf/ebpf_bespoke.c], the implementation of [BespokeDissector].

    ** How the code is represented

    A C integer is a [Z] with the wrap of its width written where the code can leave it;
    structures whose bytes are copied or compared as such (the dissector, the messages of
    the daemon, the flow key) are lists of bytes read at their field offsets; the values
    of the maps are records. A program takes the [world] and returns its result with
    the new [world]; a store through a pointer that a map lookup returned is
    [map_value_write] on that map. The helpers of the kernel have no definition: they are
    operations of the class [Kernel], with the behaviour the code relies on as the laws
    of [KernelLaws] (a successful update is visible, an LRU map may evict but never
    changes an entry, a selected socket is in the sockhash, and so on). What a helper
    answers without the program being able to predict it (time, random numbers, space in
    the ring buffer) is a function of the number of helper calls made before. The same
    holds for the operating system of the daemon ([Host]). Concrete instances of both
    ([test_kernel], [test_host]) evaluate the programs in the witnesses.

    Where the code follows pointers ([LinkedList], [HashList], [Registry], the table of
    [Flows]) the model has a heap and fails on a pointer whose object is gone; refinement
    theorems relate it to sequences. The set-up of the process works on another state, [os]
    of [Bpffs]: every system call may fail and answer anything its law admits, and a
    command returns or ends the process.

    One run of a program is one step of [System]. The accesses of concurrent runs to one
    storage are interleaved in [Race], for the flow table, and in [Creation], for the
    creation of groups. [Serve] is about iterations of the daemon between which the rest of
    the machine does what it likes. [Handover] and [Activate] interleave the runs of the
    programs that one new instance causes with the daemon and with all other runs; [Lifetime]
    interleaves the daemon with other processes of udpgrm, each of which sees the shared pins,
    directories and hooks together with descriptors of its own. Ring-buffer messages are
    kept in the order of their reservation, which is the order they are consumed in.

    ** What the theorems show

    - service restarts: in every state of a hand-over, however the new instance, the daemon,
      packets, sends and other calls interleave, a known flow stays with its socket, a new
      flow goes to the old generation until the switch and to the new sockets after it, and
      the switch comes only after every new socket is registered ([flow_handover]); the same
      for dissectors that read cookies ([cookie_handover]). The activation tool follows that
      protocol ([activate_hands_over]), ends after a bounded number of calls
      ([calls_decrease]), and the bytecode it packs is the one that is interpreted
      ([activate_bytecode_loaded]);
    - packets: a flow that a socket sends on comes back to it ([flow_stickiness],
      [flow_assure_never_steals]); a packet that carries a registered cookie reaches its
      socket ([rx_cookie_affinity], [registered_cookie_dispatch]); a new flow goes to the
      hashed socket of the working generation ([rx_new_flow_dispatch]); every packet is
      counted once at each stage and changes nothing but counters ([rx_accounting]);
    - socket options: a refused call changes nothing ([setsockopt_failure_atomic]);
      options read back what was set ([dissector_roundtrip], [working_gen_roundtrip]), from
      the Rust crate too ([crate_options_roundtrip]), whose dissectors are those of the tool
      ([crate_dissector_is_tools]);
    - the process: [main] changes nothing outside its directory and leaves nothing there
      ([main_confined]); a finished installation is complete ([install_hooks_spec]) and lives
      as long as the daemon ([daemon_life]), whatever iterations of its loop and whatever
      other processes come in between ([daemon_lifetime]); short options mean what the long ones do
      ([short_options_spec]); the decoy starts its child with every signal blocked, passes
      signals on and gives it an environment of its own ([decoy_main_spec],
      [decoy_loop_spec], [fix_listen_pid_spec]);
    - texts and layouts: [net_ss_ntop_spec], [net_ss_size_spec], [scm_rights_roundtrip],
      [fprintf_hex_spec];
    - the daemon: its loop never keeps descriptors for long ([served_groups_young]); slot search ([cookies_find_empty_spec]), registration
      ([register_socket_keeps_live]), socket stealing ([pidfd_find_socket_spec]), critical
      errors ([metric_incr_critical_spec]), deletion ([cmd_delete_spec]); the list command
      is complete and prints names that delete understands ([list_names_every_group]), the
      flows command prints what a filter on the flow table selects ([do_flows_spec]);
    - pointers: [list_ops_refine], [hlist_ops_refine], [tubular_registry_refines];
    - the system, over all interleavings: the invariant of the group storages
      ([reachable_groups_wf]), groups keep their identity
      ([group_identity_immutable]), no packet meets an unknown dissector
      ([rx_internal_state_error_unreachable]), the daemon can handle whatever is queued
      ([daemon_handles_queue]);
    - components: the interpreter refines a machine with a program counter
      ([interpret_cbpf_refines_reference]) and its answers are
      classified ([dissector_cbpf_classifies]); the cookie code round-trips and detects
      every single-bit error; [TO_WRK_GEN] gives each application slots of its own;
      [hsiphash] is SipHash-1-2 truncated to 32 bits;
    - concurrency: under every interleaving the counters are exact ([interleaved_counters])
      and a flow has one owner ([interleaved_owner]), unless a call is overtaken between its
      reading of the clock and of the timestamp: [overtaken_send_steals] and
      [overtaken_packet_is_new] show what the code does then; a group that is there keeps
      its identity and every call on it is answered as if it ran alone ([settled_group]),
      whereas its creation is not atomic ([second_creator_resets_group],
      [unfinished_group_refuses]);
    - bytecode: whatever the kernel's checker of filters admits is run to its end
      ([interpret_cbpf_terminates]); the programs of the examples send packets where their
      comments say ([example_bytecode_routes]);
    - QUIC: an Initial packet with a server name goes to the application configured for
      that name ([server_name_routes]), any other packet is dispatched by its connection id
      ([connection_id_routes]). The chain behind it, each against a standard:
      [sha256_hmac_spec], [AES_ECB_encrypt_refines], [expand_client_keys_rfc9001],
      [quic_parse_hdr_unprotects], [decrypt_quic_inverts],
      [parse_client_hello_server_name], [varint_roundtrip]; and for packets nobody
      formatted: [quic_parsers_in_bounds], [varint_decode_bounds],
      [quic_operations_keep_page].

    ** Bounds and fuel

    [bpf_loop] calls its body at most 2^23 times, and the kernel refuses more; the
    interpreter asks for as many iterations as instructions, at most 64
    ([interpret_cbpf_terminates] needs that bound, which the validation gives). The
    descriptor search has the 16384 iterations of the source as fuel. Decryption asks for
    at most 64 iterations, one per block of the page. Every other loop has a
    constant number of iterations or follows a list. The walk over the groups in [Listing]
    has fuel, and one more than there are groups is enough; so has the walk over the flow
    table. Traversals of lists on the heap have fuel, and the length of the list is enough.

    ** Not modelled

    The scratch page of the bespoke dissector is read before each packet with arbitrary
    contents and not kept between packets: every packet derives its keys anew, and what
    the Client Hello parser may read of an earlier packet is any content. The source does
    not check the authentication tag of a packet, so no theorem is about forged packets.

    Usage and error texts and the generated skeleton beyond loading are input and output. Of
    the activation tool, the parsing of arguments and addresses, the regular expression for
    the file of bytecode, the creation of the sockets, the messages to systemd and the final
    [exec] are calls of the Python library. The trait of the Rust crate only forwards to
    the functions of [Crate]. The servers among the examples and the tests are in other languages
    and call what is modelled here.

    The descriptors in the state [os] of the set-up and those of the [world] of the daemon are
    separate: [Lifetime] steps both side by side, but a socket that the loop steals is no
    entry of [os]. An installation of another process that fails half-way is not among the
    steps of [Lifetime], since it may take the installation of a running daemon away
    ([failed_install_uninstalls]). Printed text is left out of the daemon; log messages of the
    eBPF programs are kept as format and arguments. *)

From stdpp Require Export base numbers list option functions gmap.
From Stdlib Require Export ZArith Lia.
#[global] Open Scope Z_scope.

(** ** Machine integers

    A C integer of width w is a [Z]; every operation that can leave the range
    is followed by the wrap of the width of its destination. *)

Definition u8 (x : Z) : Z := x mod 2 ^ 8.
Definition u16 (x : Z) : Z := x mod 2 ^ 16.
Definition u32 (x : Z) : Z := x mod 2 ^ 32.
Definition u64 (x : Z) : Z := x mod 2 ^ 64.

(** Equality of 64-bit counters that wrap around. *)
Definition eq64 (a b : Z) : Prop := u64 a = u64 b.
#[export] Instance eq64_equivalence : Equivalence eq64.
Proof. split; [done|by intros ? ?|intros ? ? ?; unfold eq64; congruence]. Qed.
#[export] Instance eq64_add : Proper (eq64 ==> eq64 ==> eq64) Z.add.
Proof. intros a a' Ha b b' Hb. unfold eq64, u64 in *. by rewrite Z.add_mod, Ha, Hb, <- Z.add_mod. Qed.
#[export] Instance eq64_sub : Proper (eq64 ==> eq64 ==> eq64) Z.sub.
Proof. intros a a' Ha b b' Hb. unfold eq64, u64 in *. by rewrite Zminus_mod, Ha, Hb, <- Zminus_mod. Qed.

(** Conversion of an unsigned 32-bit value to [int] (two's complement). *)
Definition s32 (x : Z) : Z := if u32 x <? 2 ^ 31 then u32 x else u32 x - 2 ^ 32.

(** Unsigned constants [-1U] and [-1ULL]. *)
Definition U32_MAX : Z := 2 ^ 32 - 1.
Definition U64_MAX : Z := 2 ^ 64 - 1.

Declare Scope c_scope.
Delimit Scope c_scope with c.
(** C's bitwise operators, binding as in C: shifts, then [&], [^], [|]. *)
Infix "<<" := Z.shiftl (at level 42, left associativity) : c_scope.
Infix ">>" := Z.shiftr (at level 42, left associativity) : c_scope.
Infix ".&" := Z.land (at level 44, left associativity) : c_scope.
Infix ".^" := Z.lxor (at level 46, left associativity) : c_scope.
Infix ".|" := Z.lor (at level 48, left associativity) : c_scope.

(** ** Bytes *)

Definition byte_ok (b : Z) : Prop := 0 <= b < 256.
Abbreviation bytes_ok := (Forall byte_ok).

(** Little-endian value of a byte string: what a load of that many bytes
    returns on the little-endian targets the program is built for. *)
Fixpoint le_combine (l : list Z) : Z :=
  match l with
  | [] => 0
  | b :: t => b + 256 * le_combine t
  end.

(** The [n] bytes of [x], least significant first. *)
Fixpoint le_bytes (n : nat) (x : Z) : list Z :=
  match n with
  | O => []
  | S n => x mod 256 :: le_bytes n (x / 256)
  end.

(** Big-endian (network order) versions. *)
Definition be_combine (l : list Z) : Z := le_combine (rev l).
Definition be_bytes (n : nat) (x : Z) : list Z := rev (le_bytes n x).

(** [__builtin_bswapN]: reverse the bytes. *)
Definition bswap (n : nat) (x : Z) : Z := le_combine (rev (le_bytes n x)).
Abbreviation bswap16 := (bswap 2).
Abbreviation bswap32 := (bswap 4).
Abbreviation bswap64 := (bswap 8).

(** Array read and memory access. [nthZ l i] is [l[i]]; an access outside the
    object reads 0 here, and the theorems about bounds show that no modelled
    access is outside. *)
Definition nthZ (l : list Z) (i : Z) : Z := nth (Z.to_nat i) l 0.
Definition slice (l : list Z) (off len : nat) : list Z := take len (drop off l).
Definition load (n : nat) (l : list Z) (off : nat) : Z := le_combine (slice l off n).
(** Overwrite [bs] at [off]. A store that passes the end of the object makes the list longer:
    that an object keeps its length says that no store to it overflows. *)
Definition store (l : list Z) (off : nat) (bs : list Z) : list Z := take off l ++ bs ++ drop (off + length bs) l.

Definition zeros (n : nat) : list Z := repeat 0 n.
Definition xor_bytes (a b : list Z) : list Z := zip_with Z.lxor a b.

(** ** Lemmas on words *)

Create HintDb words.

Lemma u8_range x : 0 <= u8 x < 2 ^ 8.
Proof. apply Z.mod_pos_bound; lia. Qed.
Lemma u16_range x : 0 <= u16 x < 2 ^ 16.
Proof. apply Z.mod_pos_bound; lia. Qed.
Lemma u32_range x : 0 <= u32 x < 2 ^ 32.
Proof. apply Z.mod_pos_bound; lia. Qed.
Lemma u64_range x : 0 <= u64 x < 2 ^ 64.
Proof. apply Z.mod_pos_bound; lia. Qed.
#[export] Hint Resolve u8_range u16_range u32_range u64_range : words.

Lemma u8_small x : 0 <= x < 2 ^ 8 → u8 x = x.
Proof. apply Z.mod_small. Qed.
Lemma u16_small x : 0 <= x < 2 ^ 16 → u16 x = x.
Proof. apply Z.mod_small. Qed.
Lemma u32_small x : 0 <= x < 2 ^ 32 → u32 x = x.
Proof. apply Z.mod_small. Qed.
Lemma u64_small x : 0 <= x < 2 ^ 64 → u64 x = x.
Proof. apply Z.mod_small. Qed.

(** A bitwise operation on two w-bit words is a w-bit word. *)
Lemma testbit_word_high w x i : 0 <= x < 2 ^ w → w <= i → Z.testbit x i = false.
Proof.
  intros Hx Hi. destruct (Z.leb_spec 0 w) as [Hw|Hw].
  - rewrite <-(Z.mod_small x (2 ^ w)) by done. by apply Z.mod_pow2_bits_high.
  - rewrite Z.pow_neg_r in Hx by lia. lia.
Qed.

Lemma word_range_testbit w x :
  0 <= w → 0 <= x → (∀ i, w <= i → Z.testbit x i = false) → 0 <= x < 2 ^ w.
Proof.
  intros Hw Hx Hb. split; [done|].
  assert (x = x mod 2 ^ w) as ->; [|apply Z.mod_pos_bound; lia].
  apply Z.bits_inj'. intros i Hi. destruct (Z.ltb_spec i w).
  - by rewrite Z.mod_pow2_bits_low.
  - rewrite Z.mod_pow2_bits_high by lia. by apply Hb.
Qed.

Lemma lxor_range w a b :
  0 <= w → 0 <= a < 2 ^ w → 0 <= b < 2 ^ w → 0 <= Z.lxor a b < 2 ^ w.
Proof.
  intros Hw Ha Hb. apply word_range_testbit; [done|apply Z.lxor_nonneg; lia|].
  intros i Hi. rewrite Z.lxor_spec.
  by rewrite (testbit_word_high w a), (testbit_word_high w b).
Qed.

Lemma lor_range w a b :
  0 <= w → 0 <= a < 2 ^ w → 0 <= b < 2 ^ w → 0 <= Z.lor a b < 2 ^ w.
Proof.
  intros Hw Ha Hb. apply word_range_testbit; [done|apply Z.lor_nonneg; lia|].
  intros i Hi. rewrite Z.lor_spec.
  by rewrite (testbit_word_high w a), (testbit_word_high w b).
Qed.

Lemma land_range w a b :
  0 <= w → 0 <= a < 2 ^ w → 0 <= b → 0 <= Z.land a b < 2 ^ w.
Proof.
  intros Hw Ha Hb. apply word_range_testbit; [done|apply Z.land_nonneg; lia|].
  intros i Hi. rewrite Z.land_spec. by rewrite (testbit_word_high w a).
Qed.

Lemma shiftr_range w a n : 0 <= w → 0 <= n → 0 <= a < 2 ^ w → 0 <= Z.shiftr a n < 2 ^ w.
Proof.
  intros Hw Hn Ha. split; [apply Z.shiftr_nonneg; lia|].
  rewrite Z.shiftr_div_pow2 by lia.
  apply Z.le_lt_trans with a; [|lia].
  apply Z.div_le_upper_bound; [lia|]. nia.
Qed.

Lemma land_ones_mod a n : 0 <= n → Z.land a (2 ^ n - 1) = a mod 2 ^ n.
Proof. intros. rewrite <-Z.land_ones by done. by rewrite Z.ones_equiv, <-Z.sub_1_r. Qed.

(** ** Lemmas on bytes *)

Lemma length_le_bytes n x : length (le_bytes n x) = n.
Proof. revert x. induction n as [|n IH]; intros x; simpl; [done|]. by rewrite IH. Qed.

Lemma le_bytes_ok n x : bytes_ok (le_bytes n x).
Proof.
  revert x. induction n as [|n IH]; intros x; simpl; constructor; [|done].
  apply Z.mod_pos_bound; lia.
Qed.

Lemma pow_bytes_succ n : 2 ^ (8 * Z.of_nat (S n)) = 256 * 2 ^ (8 * Z.of_nat n).
Proof.
  replace (8 * Z.of_nat (S n)) with (8 + 8 * Z.of_nat n) by lia.
  rewrite Z.pow_add_r by lia. lia.
Qed.

Lemma le_combine_le_bytes n x : le_combine (le_bytes n x) = x mod 2 ^ (8 * Z.of_nat n).
Proof.
  revert x. induction n as [|n IH]; intros x.
  - simpl. by rewrite Z.mod_1_r.
  - rewrite pow_bytes_succ. cbn [le_bytes le_combine]. rewrite IH.
    rewrite (Z.rem_mul_r x 256 (2 ^ (8 * Z.of_nat n))) by lia. lia.
Qed.

Lemma le_bytes_le_combine l : bytes_ok l → le_bytes (length l) (le_combine l) = l.
Proof.
  induction 1 as [|b l Hb Hl IH]; [done|]. cbn [length le_bytes le_combine].
  rewrite (Z.add_comm b), (Z.mul_comm 256), Z.add_comm.
  rewrite Z.mod_add, Z.div_add by lia. unfold byte_ok in Hb.
  by rewrite Z.mod_small, Z.div_small, Z.add_0_l, IH by lia.
Qed.

Lemma le_combine_range l : bytes_ok l → 0 <= le_combine l < 2 ^ (8 * Z.of_nat (length l)).
Proof.
  intros Hl. pose proof (le_combine_le_bytes (length l) (le_combine l)) as H.
  rewrite le_bytes_le_combine in H by done. rewrite H.
  apply Z.mod_pos_bound, Z.pow_pos_nonneg; lia.
Qed.

Lemma le_combine_inj l1 l2 :
  bytes_ok l1 → bytes_ok l2 → length l1 = length l2 →
  le_combine l1 = le_combine l2 → l1 = l2.
Proof.
  intros H1 H2 Hlen Heq.
  rewrite <-(le_bytes_le_combine l1), <-(le_bytes_le_combine l2) by done.
  by rewrite Hlen, Heq.
Qed.

Lemma le_combine_app l1 l2 :
  le_combine (l1 ++ l2) = le_combine l1 + 2 ^ (8 * Z.of_nat (length l1)) * le_combine l2.
Proof.
  induction l1 as [|b l1 IH]; [simpl; lia|].
  cbn [app le_combine length]. rewrite IH, pow_bytes_succ. ring.
Qed.

Lemma le_combine_zeros n : le_combine (zeros n) = 0.
Proof. unfold zeros. induction n as [|n IH]; cbn [repeat le_combine]; [done|]. by rewrite IH. Qed.

Lemma le_bytes_mod n x : le_bytes n (x mod 2 ^ (8 * Z.of_nat n)) = le_bytes n x.
Proof.
  rewrite <-le_combine_le_bytes.
  rewrite <-(length_le_bytes n x) at 1. apply le_bytes_le_combine, le_bytes_ok.
Qed.

Lemma bytes_ok_rev l : bytes_ok l → bytes_ok (rev l).
Proof. apply Forall_rev. Qed.

Lemma bytes_ok_zeros n : bytes_ok (zeros n).
Proof. unfold zeros. induction n; simpl; constructor; [unfold byte_ok; lia|done]. Qed.

Lemma length_zeros n : length (zeros n) = n.
Proof. apply repeat_length. Qed.

Lemma length_be_bytes n x : length (be_bytes n x) = n.
Proof. unfold be_bytes. by rewrite length_rev, length_le_bytes. Qed.

Lemma be_bytes_ok n x : bytes_ok (be_bytes n x).
Proof. apply bytes_ok_rev, le_bytes_ok. Qed.

Lemma be_combine_be_bytes n x : be_combine (be_bytes n x) = x mod 2 ^ (8 * Z.of_nat n).
Proof. unfold be_combine, be_bytes. rewrite rev_involutive. apply le_combine_le_bytes. Qed.

Lemma be_bytes_be_combine l : bytes_ok l → be_bytes (length l) (be_combine l) = l.
Proof.
  intros H. unfold be_combine, be_bytes.
  rewrite <-(length_rev l), le_bytes_le_combine by (by apply bytes_ok_rev).
  apply rev_involutive.
Qed.

Lemma be_combine_app l1 l2 :
  be_combine (l1 ++ l2) = be_combine l1 * 2 ^ (8 * Z.of_nat (length l2)) + be_combine l2.
Proof.
  unfold be_combine. rewrite rev_app_distr, le_combine_app, length_rev. lia.
Qed.

Lemma be_combine_range l : bytes_ok l → 0 <= be_combine l < 2 ^ (8 * Z.of_nat (length l)).
Proof.
  intros H. rewrite <-length_rev. by apply le_combine_range, bytes_ok_rev.
Qed.

(** [bswap] of a load is the big-endian value. *)
Lemma bswap_le_combine l : bytes_ok l → bswap (length l) (le_combine l) = be_combine l.
Proof. intros H. unfold bswap, be_combine. by rewrite le_bytes_le_combine. Qed.

Lemma le_bytes_bswap n x : le_bytes n (bswap n x) = be_bytes n x.
Proof.
  pose proof (le_bytes_le_combine _ (be_bytes_ok n x)) as H.
  rewrite length_be_bytes in H. exact H.
Qed.

Lemma bswap_bswap n x : bswap n (bswap n x) = x mod 2 ^ (8 * Z.of_nat n).
Proof.
  unfold bswap at 1. rewrite le_bytes_bswap. unfold be_bytes.
  by rewrite rev_involutive, le_combine_le_bytes.
Qed.

Lemma bswap_range n x : 0 <= bswap n x < 2 ^ (8 * Z.of_nat n).
Proof.
  pose proof (le_combine_range _ (be_bytes_ok n x)) as H.
  by rewrite length_be_bytes in H.
Qed.

(** ** Lemmas on objects in memory *)

Lemma length_store l off bs : (off + length bs <= length l)%nat → length (store l off bs) = length l.
Proof. intros H. unfold store. rewrite !length_app, length_take, length_drop. lia. Qed.
Lemma length_store_ge l off bs : (length l <= length (store l off bs))%nat.
Proof. unfold store. rewrite !length_app, length_take, length_drop. lia. Qed.
(** Lengths of objects after stores within them. *)
Ltac store_lengths := repeat rewrite length_store; rewrite ?length_le_bytes; try lia.
Lemma store_overflows l off bs : bs ≠ [] → (length l < off + length bs)%nat → (length l < length (store l off bs))%nat.
Proof.
  intros Hb H. assert (0 < length bs)%nat by (destruct bs; [done|cbn; lia]).
  unfold store. rewrite !length_app, length_take, length_drop. lia.
Qed.

Lemma length_slice l off len : (off + len <= length l)%nat → length (slice l off len) = len.
Proof. intros H. unfold slice. rewrite length_take, length_drop. lia. Qed.

Lemma bytes_ok_slice l off len : bytes_ok l → bytes_ok (slice l off len).
Proof. intros H. by apply Forall_take, Forall_drop. Qed.

Lemma store_spec l off bs :
  (off + length bs <= length l)%nat →
  store l off bs = take off l ++ bs ++ drop (off + length bs) l.
Proof. done. Qed.

Lemma bytes_ok_store l off bs : bytes_ok l → bytes_ok bs → bytes_ok (store l off bs).
Proof.
  intros Hl Hb. unfold store. apply Forall_app. split; [by apply Forall_take|].
  apply Forall_app. split; [done|by apply Forall_drop].
Qed.

Lemma slice_store_same l off bs :
  (off + length bs <= length l)%nat → slice (store l off bs) off (length bs) = bs.
Proof.
  intros H. rewrite store_spec by done. unfold slice.
  rewrite drop_app_length' by (rewrite length_take; lia). by rewrite take_app_length.
Qed.

Lemma slice_store_before l off bs o n :
  (o + n <= off)%nat → (off + length bs <= length l)%nat →
  slice (store l off bs) o n = slice l o n.
Proof.
  intros Ho H. rewrite store_spec by done. unfold slice.
  rewrite drop_app_le by (rewrite length_take; lia).
  rewrite take_app_le by (rewrite length_drop, length_take; lia).
  rewrite !take_drop_commute, take_take. by rewrite Nat.min_l by lia.
Qed.

Lemma slice_store_after l off bs o n :
  (off + length bs <= o)%nat → (off + length bs <= length l)%nat →
  slice (store l off bs) o n = slice l o n.
Proof.
  intros Ho H. rewrite store_spec by done. unfold slice.
  rewrite app_assoc, drop_app_ge by (rewrite length_app, length_take; lia).
  rewrite drop_drop. do 2 f_equal. rewrite length_app, length_take. lia.
Qed.

Lemma load_range n l off : bytes_ok l → 0 <= load n l off < 2 ^ (8 * Z.of_nat n).
Proof.
  intros H. unfold load. pose proof (le_combine_range _ (bytes_ok_slice l off n H)) as Hr.
  split; [lia|]. eapply Z.lt_le_trans; [apply Hr|]. apply Z.pow_le_mono_r; [lia|].
  unfold slice. rewrite length_take. lia.
Qed.

Lemma load_store_same n l off x :
  (off + n <= length l)%nat → load n (store l off (le_bytes n x)) off = x mod 2 ^ (8 * Z.of_nat n).
Proof.
  intros H. unfold load. rewrite <-(length_le_bytes n x) at 2.
  rewrite slice_store_same by (by rewrite length_le_bytes). apply le_combine_le_bytes.
Qed.

(** Fields of a structure built by concatenation. *)
Lemma slice_store_in l bs off n :
  (off + n <= length bs)%nat → (length bs <= length l)%nat →
  slice (store l 0 bs) off n = slice bs off n.
Proof.
  intros Hn Hl. rewrite store_spec by (cbn; lia). unfold slice. rewrite take_0, app_nil_l.
  rewrite drop_app_le by lia. rewrite take_app_le by (rewrite length_drop; lia). done.
Qed.
Lemma load_store_in n l bs off :
  (off + n <= length bs)%nat → (length bs <= length l)%nat → load n (store l 0 bs) off = load n bs off.
Proof. intros. unfold load. by rewrite slice_store_in. Qed.
Lemma load_app_here n x r : load n (le_bytes n x ++ r) 0 = x mod 2 ^ (8 * Z.of_nat n).
Proof.
  unfold load, slice. rewrite drop_0, take_app_le by (by rewrite length_le_bytes).
  rewrite take_ge by (by rewrite length_le_bytes). apply le_combine_le_bytes.
Qed.
Lemma load_app_skip n a r off : (length a <= off)%nat → load n (a ++ r) off = load n r (off - length a).
Proof. intros H. unfold load, slice. by rewrite drop_app_ge. Qed.
Lemma load_app_end n x : load n (le_bytes n x) 0 = x mod 2 ^ (8 * Z.of_nat n).
Proof. rewrite <- (app_nil_r (le_bytes n x)). apply load_app_here. Qed.

(** A NUL-terminated string: the characters before the first 0. *)
Fixpoint c_string (l : list Z) : list Z :=
  match l with
  | [] => []
  | c :: l => if c =? 0 then [] else c :: c_string l
  end.

(** ** Finite checks

    [forall_below n P] evaluates a decidable predicate on [0 .. n-1]; a check
    by computation becomes a quantified statement. *)
Fixpoint forall_from (n : nat) (i : Z) (P : Z → bool) : bool :=
  match n with O => true | S n => P i && forall_from n (i + 1) P end.
Definition forall_below (n : nat) (P : Z → bool) : bool := forall_from n 0 P.

Lemma forall_from_spec n i P :
  forall_from n i P = true → ∀ j, i <= j < i + Z.of_nat n → P j = true.
Proof.
  revert i. induction n as [|n IH]; intros i H j Hj; [lia|].
  cbn [forall_from] in H. apply andb_prop in H as [Hi Hr].
  destruct (Z.eq_dec j i) as [->|Hne]; [done|]. apply (IH (i + 1) Hr). lia.
Qed.

Lemma forall_below_spec n P :
  forall_below n P = true → ∀ i, 0 <= i < Z.of_nat n → P i = true.
Proof. intros H i Hi. apply (forall_from_spec n 0 P H). lia. Qed.

(** The same over pairs. *)
Lemma forall_below2_spec n m (P : Z → Z → bool) :
  forall_below n (λ i, forall_below m (P i)) = true →
  ∀ i j, 0 <= i < Z.of_nat n → 0 <= j < Z.of_nat m → P i j = true.
Proof.
  intros H i j Hi Hj. apply (forall_below_spec m (P i)); [|done].
  apply (forall_below_spec n _ H i Hi).
Qed.

(** [bool_decide]-style equality test on [Z], with its reflection. *)
Ltac zeqb x y := destruct (Z.eqb_spec x y).
(** Case analysis on the first boolean comparison of the goal. *)
Ltac zcase :=
  match goal with
  | |- context [Z.eqb ?x ?y] => destruct (Z.eqb_spec x y)
  | |- context [Z.ltb ?x ?y] => destruct (Z.ltb_spec x y)
  | |- context [Z.leb ?x ?y] => destruct (Z.leb_spec x y)
  end.

Lemma land_lxor_distr_l a b m : Z.land (Z.lxor a b) m = Z.lxor (Z.land a m) (Z.land b m).
Proof.
  apply Z.bits_inj'. intros i Hi. rewrite Z.lxor_spec, !Z.land_spec, Z.lxor_spec.
  by destruct (Z.testbit a i), (Z.testbit b i), (Z.testbit m i).
Qed.

Lemma lxor_cancel_l a b c : Z.lxor a b = Z.lxor a c → b = c.
Proof.
  intros H. rewrite <-(Z.lxor_0_l b), <-(Z.lxor_0_l c), <-(Z.lxor_nilpotent a).
  by rewrite !Z.lxor_assoc, H.
Qed.

Lemma lxor_swap a b c : Z.lxor a (Z.lxor b c) = Z.lxor b (Z.lxor a c).
Proof. by rewrite <-!Z.lxor_assoc, (Z.lxor_comm a b). Qed.

(** Bits of disjoint parts of a word add up. *)
Lemma lor_shiftl_add a b n : 0 <= n → 0 <= a < 2 ^ n → 0 <= b → Z.lor (Z.shiftl b n) a = a + 2 ^ n * b.
Proof.
  intros Hn Ha Hb. rewrite (Z.shiftl_mul_pow2 b n Hn), (Z.mul_comm b).
  assert (Z.land (2 ^ n * b) a = 0) as Hl.
  { apply Z.bits_inj'. intros i Hi. rewrite Z.land_spec, Z.bits_0.
    rewrite Z.mul_comm, <-Z.shiftl_mul_pow2 by lia. destruct (Z.ltb_spec i n).
    - by rewrite Z.shiftl_spec_low.
    - by rewrite (testbit_word_high n a), andb_false_r by lia. }
  rewrite <-Z.lxor_lor by done. rewrite <-Z.add_nocarry_lxor by done. lia.
Qed.

(** A load in network order. *)
Lemma bswap_load n l : bytes_ok l → length l = n → bswap n (le_combine l) = be_combine l.
Proof. intros H <-. by apply bswap_le_combine. Qed.

Lemma land_15 x : Z.land x 15 = x mod 16.
Proof. apply (Z.land_ones x 4). lia. Qed.

Lemma pair_of_fst {A B} (x : A * B) a : fst x = a → x = (a, snd x).
Proof. destruct x. cbn. congruence. Qed.

(** ** Strings of bytes as numbers, continued *)
Lemma le_bytes_app a b x : le_bytes (a + b) x = le_bytes a x ++ le_bytes b (x / 2 ^ (8 * Z.of_nat a)).
Proof.
  revert x. induction a as [|a IH]; intros x.
  - cbn [Nat.add le_bytes app]. by rewrite Z.div_1_r.
  - cbn [Nat.add le_bytes app]. rewrite IH, pow_bytes_succ, Z.div_div by lia. done.
Qed.
Lemma be_bytes_app a b x : be_bytes (a + b) x = be_bytes a (x / 2 ^ (8 * Z.of_nat b)) ++ be_bytes b x.
Proof. unfold be_bytes. by rewrite Nat.add_comm, le_bytes_app, rev_app_distr. Qed.
Lemma be_bytes_mod n x : be_bytes n (x mod 2 ^ (8 * Z.of_nat n)) = be_bytes n x.
Proof. unfold be_bytes. by rewrite le_bytes_mod. Qed.
Lemma be_bytes_combine n l : bytes_ok l → length l = n → be_bytes n (be_combine l) = l.
Proof. intros Hl <-. by apply be_bytes_be_combine. Qed.
Lemma bswap_0_iff n x : bswap n x = 0 ↔ x mod 2 ^ (8 * Z.of_nat n) = 0.
Proof.
  assert (bswap n 0 = 0) as H0.
  { unfold bswap. assert (le_bytes n 0 = zeros n) as ->.
    { unfold zeros. induction n as [|n IH]; [done|]. cbn [le_bytes repeat].
      change (0 mod 256) with 0. change (0 / 256) with 0. by rewrite IH. }
    assert (rev (zeros n) = zeros n) as ->; [|apply le_combine_zeros].
    unfold zeros. induction n as [|n IH]; [done|]. cbn [repeat rev]. by rewrite IH, <-repeat_cons. }
  rewrite <-bswap_bswap. split; [by intros ->|]. intros H. rewrite <-(Z.mod_small (bswap n x) (2 ^ (8 * Z.of_nat n))).
  - rewrite <-bswap_bswap, H. done.
  - apply bswap_range.
Qed.

(** Bitwise operations on loaded words act on the bytes. *)
Lemma lxor_add_shift a b x y n : 0 <= n → 0 <= a < 2 ^ n → 0 <= b < 2 ^ n → 0 <= x → 0 <= y →
  Z.lxor (a + 2 ^ n * x) (b + 2 ^ n * y) = Z.lxor a b + 2 ^ n * Z.lxor x y.
Proof.
  intros Hn Ha Hb Hx Hy. pose proof (lxor_range n a b Hn Ha Hb) as Hab.
  assert (0 <= Z.lxor x y) by (apply Z.lxor_nonneg; lia).
  rewrite <-!lor_shiftl_add by done. apply Z.bits_inj'. intros i Hi.
  rewrite !Z.lxor_spec, !Z.lor_spec, !Z.lxor_spec, !Z.shiftl_spec by done.
  destruct (Z.ltb_spec i n).
  - rewrite !(Z.testbit_neg_r _ (i - n)) by lia. by destruct (Z.testbit a i), (Z.testbit b i).
  - rewrite (testbit_word_high n a), (testbit_word_high n b), !orb_false_r by lia. by rewrite Z.lxor_spec.
Qed.
Lemma le_combine_lxor a b : bytes_ok a → bytes_ok b → length a = length b →
  Z.lxor (le_combine a) (le_combine b) = le_combine (xor_bytes a b).
Proof.
  intros Ha. revert b. induction Ha as [|x a Hx Ha IH]; intros [|y b] Hb Hl; try done.
  apply Forall_cons in Hb as [Hy Hb]. unfold xor_bytes. cbn [le_combine zip_with].
  change 256 with (2 ^ 8). pose proof (le_combine_range a Ha). pose proof (le_combine_range b Hb).
  rewrite (lxor_add_shift x y _ _ 8) by (done || lia). f_equal. f_equal. apply IH; [done|]. by injection Hl.
Qed.
Lemma xor_bytes_ok a b : bytes_ok a → bytes_ok b → bytes_ok (xor_bytes a b).
Proof.
  unfold xor_bytes. intros Ha Hb. apply Forall_forall. intros z Hz.
  apply elem_of_lookup_zip_with in Hz as (i & x & y & -> & Hx & Hy).
  exact (lxor_range 8 x y ltac:(lia) (Forall_lookup_1 _ _ _ _ Ha Hx) (Forall_lookup_1 _ _ _ _ Hb Hy)).
Qed.
Lemma xor_bytes_involutive a b : (length a <= length b)%nat → xor_bytes (xor_bytes a b) b = a.
Proof.
  unfold xor_bytes. revert b. induction a as [|x a IH]; intros [|y b] H; cbn [zip_with length] in *; try done; [lia|].
  rewrite IH by lia. by rewrite Z.lxor_assoc, Z.lxor_nilpotent, Z.lxor_0_r.
Qed.
Lemma length_xor_bytes a b : length (xor_bytes a b) = Nat.min (length a) (length b).
Proof. apply length_zip_with. Qed.
Lemma le_bytes_lxor n a b : bytes_ok a → bytes_ok b → length a = n → length b = n →
  le_bytes n (Z.lxor (le_combine a) (le_combine b)) = xor_bytes a b.
Proof.
  intros Ha Hb Hla Hlb. rewrite le_combine_lxor by (done || lia).
  assert (length (xor_bytes a b) = n) as <- by (rewrite length_xor_bytes; lia).
  by apply le_bytes_le_combine, xor_bytes_ok.
Qed.
(** The low [r] bytes of a word. *)
Lemma le_bytes_low n r a : bytes_ok a → length a = n → (r <= n)%nat →
  le_bytes n (Z.land (le_combine a) (2 ^ (8 * Z.of_nat r) - 1)) = take r a ++ zeros (n - r).
Proof.
  intros Ha Hl Hr. rewrite land_ones_mod by lia.
  assert (le_combine a mod 2 ^ (8 * Z.of_nat r) = le_combine (take r a ++ zeros (n - r))) as ->.
  { rewrite <-(take_drop r a) at 1. rewrite !le_combine_app, le_combine_zeros.
    pose proof (le_combine_range (take r a) ltac:(by apply Forall_take)) as Hx.
    rewrite length_take, Nat.min_l in * by lia. rewrite Z.mul_comm, Z.mod_add, Z.mod_small; lia. }
  assert (length (take r a ++ zeros (n - r)) = n) as Hn by (rewrite length_app, length_take, length_zeros; lia).
  rewrite <-Hn at 1. apply le_bytes_le_combine, Forall_app. split; [by apply Forall_take|apply bytes_ok_zeros].
Qed.

(** Adjacent stores and slices. *)
Lemma store_store_app l off a b : (off + length a + length b <= length l)%nat →
  store (store l off a) (off + length a) b = store l off (a ++ b).
Proof.
  intros H. rewrite (store_spec (store l off a)) by (rewrite length_store; lia).
  rewrite !store_spec by (rewrite ?length_app; lia). rewrite length_app.
  assert (length (take off l ++ a) = (off + length a)%nat) as Ht by (rewrite length_app, length_take; lia).
  rewrite (app_assoc _ a). rewrite take_app_length' by done. rewrite drop_app_ge by lia. rewrite Ht, drop_drop.
  rewrite <-!app_assoc. do 4 f_equal. lia.
Qed.
Lemma slice_app l off a b : slice l off (a + b) = slice l off a ++ slice l (off + a) b.
Proof. unfold slice. by rewrite <-take_take_drop, drop_drop. Qed.

(** Concrete bytes. *)
Lemma bytes_by_check l : forallb (λ b, (0 <=? b) && (b <? 256)) l = true → bytes_ok l.
Proof.
  intros H. apply Forall_forall. intros b Hb. apply list_elem_of_In in Hb.
  apply (proj1 (forallb_forall _ _) H) in Hb. apply andb_prop in Hb as [H0 H1]. unfold byte_ok. lia.
Qed.
