(* ===== verification/LinkedList.v ===== *)
(** The intrusive doubly linked lists of [src/list.h] on a heap.

    A [struct list_head] is an object with an address; its two fields are two finite maps
    from addresses, so that stores to different fields never interfere and an access to an
    address that holds no object is a fault ([None]). A circular list is described by the
    sequence of its addresses, its head first ([cycle]); [heap_has] says that the heap
    holds some lists and some loose objects, all apart from each other, and the theorems
    give for each function of the header its effect on those sequences. *)

From S2P Require Import Prelude.
#[local] Set Warnings "-clear-no-such-hyp".

(** ** Memory *)

(** An address; [struct list_head] has the fields [next] and [prev]. *)
Abbreviation ptr := Z.
Record heap := mk_heap { h_next : gmap ptr ptr; h_prev : gmap ptr ptr }.

Definition get_next (p : ptr) (m : heap) : option ptr := h_next m !! p.
Definition get_prev (p : ptr) (m : heap) : option ptr := h_prev m !! p.
Definition set_next (p v : ptr) (m : heap) : option heap :=
  match h_next m !! p with Some _ => Some (mk_heap (<[p:=v]> (h_next m)) (h_prev m)) | None => None end.
Definition set_prev (p v : ptr) (m : heap) : option heap :=
  match h_prev m !! p with Some _ => Some (mk_heap (h_next m) (<[p:=v]> (h_prev m))) | None => None end.

(** [calloc] of an object with a [struct list_head] at [p], and [free]. *)
Definition heap_alloc (p : ptr) (m : heap) : heap := mk_heap (<[p:=0]> (h_next m)) (<[p:=0]> (h_prev m)).
Definition heap_free (p : ptr) (m : heap) : heap := mk_heap (delete p (h_next m)) (delete p (h_prev m)).

Definition LIST_POISON1 : ptr := 0xDEADBEEF.
Definition LIST_POISON2 : ptr := 0xDEADBEFE.

(** [container_of]: the object whose member at offset [off] is at [p]. *)
Definition container_of (p off : ptr) : ptr := p - off.
Definition list_entry (p off : ptr) : ptr := container_of p off.
Definition list_first_entry (p off : ptr) (m : heap) : option ptr :=
  n ← get_next p m; Some (list_entry n off).

(** ** The functions of the header *)

Definition INIT_LIST_HEAD (list : ptr) (m : heap) : option heap :=
  m ← set_next list list m;
  set_prev list list m.

Definition __list_add (new prev next : ptr) (m : heap) : option heap :=
  m ← set_prev next new m;
  m ← set_next new next m;
  m ← set_prev new prev m;
  set_next prev new m.

Definition list_add (new head : ptr) (m : heap) : option heap :=
  next ← get_next head m;
  __list_add new head next m.

Definition list_add_tail (new head : ptr) (m : heap) : option heap :=
  prev ← get_prev head m;
  __list_add new prev head m.

Definition __list_del (prev next : ptr) (m : heap) : option heap :=
  m ← set_prev next prev m;
  set_next prev next m.

Definition list_del (entry : ptr) (m : heap) : option heap :=
  prev ← get_prev entry m;
  next ← get_next entry m;
  m ← __list_del prev next m;
  m ← set_next entry LIST_POISON1 m;
  set_prev entry LIST_POISON2 m.

Definition list_replace (old new : ptr) (m : heap) : option heap :=
  next ← get_next old m;
  m ← set_next new next m;
  next ← get_next new m;
  m ← set_prev next new m;
  prev ← get_prev old m;
  m ← set_prev new prev m;
  prev ← get_prev new m;
  set_next prev new m.

Definition list_replace_init (old new : ptr) (m : heap) : option heap :=
  m ← list_replace old new m;
  INIT_LIST_HEAD old m.

Definition list_del_init (entry : ptr) (m : heap) : option heap :=
  prev ← get_prev entry m;
  next ← get_next entry m;
  m ← __list_del prev next m;
  INIT_LIST_HEAD entry m.

Definition list_move (list head : ptr) (m : heap) : option heap :=
  prev ← get_prev list m;
  next ← get_next list m;
  m ← __list_del prev next m;
  list_add list head m.

Definition list_move_tail (list head : ptr) (m : heap) : option heap :=
  prev ← get_prev list m;
  next ← get_next list m;
  m ← __list_del prev next m;
  list_add_tail list head m.

Definition list_is_last (list head : ptr) (m : heap) : option bool :=
  next ← get_next list m;
  Some (next =? head).

Definition list_empty (head : ptr) (m : heap) : option bool :=
  next ← get_next head m;
  Some (next =? head).

(** [&&] evaluates its right operand only where the left one holds. *)
Definition list_empty_careful (head : ptr) (m : heap) : option bool :=
  next ← get_next head m;
  if next =? head then prev ← get_prev head m; Some (next =? prev) else Some false.

Definition list_is_singular (head : ptr) (m : heap) : option bool :=
  empty ← list_empty head m;
  if negb empty then
    next ← get_next head m;
    prev ← get_prev head m;
    Some (next =? prev)
  else Some false.

Definition __list_cut_position (list head entry : ptr) (m : heap) : option heap :=
  new_first ← get_next entry m;
  head_next ← get_next head m;
  m ← set_next list head_next m;
  list_next ← get_next list m;
  m ← set_prev list_next list m;
  m ← set_prev list entry m;
  m ← set_next entry list m;
  m ← set_next head new_first m;
  set_prev new_first head m.

Definition list_cut_position (list head entry : ptr) (m : heap) : option heap :=
  empty ← list_empty head m;
  if (empty : bool) then Some m
  else
    singular ← list_is_singular head m;
    head_next ← get_next head m;
    if singular && (negb (head_next =? entry) && negb (head =? entry)) then Some m
    else if entry =? head then INIT_LIST_HEAD list m
    else __list_cut_position list head entry m.

Definition __list_splice (list prev next : ptr) (m : heap) : option heap :=
  first ← get_next list m;
  last ← get_prev list m;
  m ← set_prev first prev m;
  m ← set_next prev first m;
  m ← set_next last next m;
  set_prev next last m.

Definition list_splice (list head : ptr) (m : heap) : option heap :=
  empty ← list_empty list m;
  if negb empty then
    next ← get_next head m;
    __list_splice list head next m
  else Some m.

Definition list_splice_tail (list head : ptr) (m : heap) : option heap :=
  empty ← list_empty list m;
  if negb empty then
    prev ← get_prev head m;
    __list_splice list prev head m
  else Some m.

Definition list_splice_init (list head : ptr) (m : heap) : option heap :=
  empty ← list_empty list m;
  if negb empty then
    next ← get_next head m;
    m ← __list_splice list head next m;
    INIT_LIST_HEAD list m
  else Some m.

Definition list_splice_tail_init (list head : ptr) (m : heap) : option heap :=
  empty ← list_empty list m;
  if negb empty then
    prev ← get_prev head m;
    m ← __list_splice list prev head m;
    INIT_LIST_HEAD list m
  else Some m.

(** ** Sequences of addresses on the heap *)

Definition alloc (m : heap) (p : ptr) : Prop := is_Some (h_next m !! p) ∧ is_Some (h_prev m !! p).
Definition link (m : heap) (a b : ptr) : Prop := h_next m !! a = Some b ∧ h_prev m !! b = Some a.

(** A path of links from [a] through [l] to [b]. *)
Fixpoint seg (m : heap) (a : ptr) (l : list ptr) (b : ptr) : Prop :=
  match l with
  | [] => link m a b
  | x :: l => link m a x ∧ seg m x l b
  end.
(** The circular list of a head followed by its entries. *)
Definition cycle (m : heap) (c : list ptr) : Prop :=
  match c with [] => True | x :: l => seg m x l x end.

(** The heap holds the circular lists [C] and the loose objects [F], all apart. *)
Record heap_has (m : heap) (C : list (list ptr)) (F : list ptr) : Prop := {
  hh_apart : NoDup (concat C ++ F);
  hh_cycles : Forall (cycle m) C;
  hh_loose : Forall (alloc m) F;
}.

(** ** Loads and stores *)

Definition same_but (ps : list ptr) (m m' : heap) : Prop :=
  ∀ p, p ∉ ps → h_next m' !! p = h_next m !! p ∧ h_prev m' !! p = h_prev m !! p.
Definition same_alloc (m m' : heap) : Prop := ∀ p, alloc m p → alloc m' p.

Lemma seg_app m a l1 x l2 b : seg m a (l1 ++ x :: l2) b ↔ seg m a l1 x ∧ seg m x l2 b.
Proof. revert a. induction l1 as [|y l1 IH]; intros a; cbn; [tauto|]. rewrite IH. tauto. Qed.

Lemma cycle_rotate m c1 c2 : cycle m (c1 ++ c2) ↔ cycle m (c2 ++ c1).
Proof.
  destruct c1 as [|x c1], c2 as [|y c2]; cbn; rewrite ?app_nil_r; try tauto.
  rewrite !seg_app. tauto.
Qed.
Lemma cycle_at m hd l1 x l2 : cycle m (hd :: l1 ++ x :: l2) ↔ seg m x (l2 ++ hd :: l1) x.
Proof. apply (cycle_rotate m (hd :: l1) (x :: l2)). Qed.

Lemma seg_frame m m' a l b :
  (∀ p, p ∈ a :: l → h_next m' !! p = h_next m !! p) →
  (∀ p, p ∈ l ++ [b] → h_prev m' !! p = h_prev m !! p) →
  seg m a l b → seg m' a l b.
Proof.
  revert a. induction l as [|x l IH]; intros a Hn Hp; cbn; unfold link.
  - rewrite Hn, Hp by (cbn; set_solver). done.
  - rewrite Hn, Hp by (cbn; set_solver). intros [Hl Hs]. split; [done|].
    apply IH; [| |done]; intros p Hin; [apply Hn|apply Hp]; cbn in *; set_solver.
Qed.
Lemma cycle_same ps m m' c : same_but ps m m' → (∀ p, p ∈ c → p ∉ ps) → cycle m c → cycle m' c.
Proof.
  intros Hs Hd. destruct c as [|x l]; [done|]. cbn.
  apply seg_frame; intros p Hin; apply Hs, Hd; set_solver.
Qed.
Lemma cycle_alloc m c p : cycle m c → p ∈ c → alloc m p.
Proof.
  intros Hc (c1 & c2 & ->)%list_elem_of_split. rewrite cycle_rotate in Hc. cbn in Hc.
  assert (∀ a l b, seg m a l b → is_Some (h_next m !! a) ∧ is_Some (h_prev m !! b)) as Hends.
  { intros a l. revert a. induction l as [|x l IH]; intros a b; cbn; unfold link; [naive_solver|].
    intros [[Ha _] Hs]. split; [naive_solver|]. exact (proj2 (IH _ _ Hs)). }
  exact (Hends _ _ _ Hc).
Qed.

(** What an operation leaves: it succeeds, only [ps] changed, and the cycles [C] are there. *)
Definition leaves (m : heap) (r : option heap) (ps : list ptr) (C : list (list ptr)) : Prop :=
  ∃ m', r = Some m' ∧ same_but ps m m' ∧ same_alloc m m' ∧ Forall (cycle m') C.

(** Evaluation of loads and stores: the maps are looked up with the facts at hand. *)
Ltac heap_eval :=
  repeat first
    [ progress cbn [h_next h_prev mbind option_bind]
    | rewrite lookup_insert_eq
    | rewrite lookup_insert_ne by congruence
    | match goal with H : _ !! ?k = Some _ |- context [_ !! ?k] => rewrite H end ].
Ltac heap_fields :=
  repeat first
    [ reflexivity
    | rewrite lookup_insert_ne by (intros ->; match goal with H : _ ∉ _ |- _ => apply H; set_solver end) ].
Ltac heap_alloc :=
  intros ? [??]; split; cbn [h_next h_prev];
  repeat first [assumption | apply lookup_insert_is_Some'; right].
(** The path between the touched nodes is as before. *)
Ltac heap_path :=
  eapply seg_frame; [| |eassumption]; cbn [h_next h_prev]; intros ??;
  repeat first [reflexivity | rewrite lookup_insert_ne by (intros ->; set_solver)].
Ltac heap_links := cbn; unfold link; split_and?; heap_eval; auto.
Ltac heap_leaves op :=
  eexists; split; [op; unfold get_next, get_prev, set_next, set_prev; heap_eval; reflexivity|];
  split; [intros ??; split; cbn [h_next h_prev]; heap_fields|];
  split; [heap_alloc|]; rewrite ?Forall_cons, ?Forall_nil; split_and?; try exact I.

(** Addresses that a [NoDup] keeps apart, as facts about pairs. *)
Ltac apart :=
  repeat match goal with
    | H : NoDup (_ :: _) |- _ => apply NoDup_cons in H as [? H]
    | H : NoDup (_ ++ _) |- _ => apply NoDup_app in H as (? & ? & H)
    | H : _ ∉ _ :: _ |- _ => apply not_elem_of_cons in H as [? H]
    | H : _ ∉ _ ++ _ |- _ => apply not_elem_of_app in H as [? H]
    | H : _ ∉ [] |- _ => clear H
    | H : NoDup [] |- _ => clear H
    | H : ∀ x, x ∈ _ :: _ → _ |- _ =>
        pose proof (H _ ltac:(left)); specialize (λ x Hx, H x ltac:(right; exact Hx))
    | H : ∀ x, x ∈ _ ++ _ → _ |- _ =>
        pose proof (λ x Hx, H x (proj2 (elem_of_app _ _ x) (or_introl Hx)));
        specialize (λ x Hx, H x (proj2 (elem_of_app _ _ x) (or_intror Hx)))
    | H : ∀ x, x ∈ [] → _ |- _ => clear H
    | H : _ ∧ _ |- _ => destruct H
    end.

Lemma list_add_between m p l new : cycle m (p :: l) → alloc m new → NoDup (new :: p :: l) →
  leaves m (list_add new p m) (new :: p :: l) [p :: new :: l].
Proof.
  intros Hc [[nn Hnn] [np Hnp]] Hd.
  destruct l as [|x l]; cbn in Hc; unfold link in Hc; apart;
    heap_leaves ltac:(unfold list_add, __list_add).
  - heap_links.
  - cbn. split_and!; [heap_links|heap_links|heap_path].
Qed.

(** The two ends of a list that is not empty. *)
Lemma list_ends (l : list ptr) : l = [] ∨ (∃ x, l = [x]) ∨ (∃ x l' z, l = x :: l' ++ [z]).
Proof.
  destruct l as [|x l]; [by left|right].
  destruct l as [|z l _] using rev_ind; [left; eauto|right; eauto].
Qed.

(** [__list_del(entry->prev, entry->next)] *)
Definition unlink (entry : ptr) (m : heap) : option heap :=
  prev ← get_prev entry m;
  next ← get_next entry m;
  __list_del prev next m.

Lemma unlink_cycle m e l : cycle m (e :: l) → l ≠ [] → NoDup (e :: l) → leaves m (unlink e m) l [l].
Proof.
  intros Hc Hl Hd. destruct (list_ends l) as [->|[[x ->]|(x & l' & z & ->)]]; [done|..]; cbn in Hc.
  - unfold link in Hc; apart. heap_leaves ltac:(unfold unlink, __list_del). heap_links.
  - rewrite seg_app in Hc. cbn in Hc. unfold link in Hc. apart.
    heap_leaves ltac:(unfold unlink, __list_del).
    change (x :: l' ++ [z]) with ((x :: l') ++ [z]). cbn.
    rewrite seg_app. cbn. split; [heap_path|heap_links].
Qed.

Lemma INIT_LIST_HEAD_cycle m p : alloc m p → leaves m (INIT_LIST_HEAD p m) [p] [[p]].
Proof.
  intros [[n Hn] [q Hq]]. heap_leaves ltac:(unfold INIT_LIST_HEAD). heap_links.
Qed.

Lemma list_replace_cycle m old new l : cycle m (old :: l) → alloc m new → NoDup (new :: old :: l) →
  leaves m (list_replace old new m) (new :: old :: l) [new :: l].
Proof.
  intros Hc [[nn Hnn] [np Hnp]] Hd.
  destruct (list_ends l) as [->|[[x ->]|(x & l' & z & ->)]]; cbn in Hc; rewrite ?seg_app in Hc; cbn in Hc;
    unfold link in Hc; apart; heap_leaves ltac:(unfold list_replace).
  - heap_links.
  - heap_links.
  - cbn. rewrite seg_app. cbn. split_and!; [heap_links|heap_path|heap_links].
Qed.

Lemma splice_cycle m list p l1 l2 :
  cycle m (p :: l1) → cycle m (list :: l2) → l2 ≠ [] → NoDup (list :: l2 ++ p :: l1) →
  leaves m (next ← get_next p m; __list_splice list p next m) (l2 ++ p :: l1) [p :: l2 ++ l1].
Proof.
  intros Hp Hl Hne Hd.
  destruct (list_ends l2) as [->|[[x ->]|(x & l' & z & ->)]]; [done|..];
    destruct l1 as [|y l1]; cbn in Hp, Hl; rewrite ?seg_app in Hl; cbn in Hl; unfold link in Hp, Hl;
    apart; heap_leaves ltac:(unfold __list_splice); cbn; rewrite ?app_nil_r, ?seg_app; cbn.
  - heap_links.
  - split_and!; [heap_links|heap_links|heap_path].
  - split_and!; [heap_links|heap_path|heap_links].
  - split_and!; [heap_links|heap_path|heap_links|heap_path].
Qed.

Lemma cut_cycle m list head entry l1 l2 :
  cycle m (head :: l1 ++ entry :: l2) → alloc m list → NoDup (list :: head :: l1 ++ entry :: l2) →
  leaves m (__list_cut_position list head entry m) (list :: head :: l1 ++ entry :: l2)
    [list :: l1 ++ [entry]; head :: l2].
Proof.
  intros Hc [[n Hn] [q Hq]] Hd.
  destruct l1 as [|x l1], l2 as [|y l2]; cbn in Hc; rewrite ?seg_app in Hc; cbn in Hc; unfold link in Hc;
    apart; heap_leaves ltac:(unfold __list_cut_position); cbn; rewrite ?seg_app; cbn; split_and?;
    (heap_path || heap_links).
Qed.

Lemma cycle_first m p l : cycle m (p :: l) → get_next p m = Some (hd p l).
Proof. destruct l; cbn; unfold link; tauto. Qed.
Lemma cycle_last m p l : cycle m (p :: l) →
  get_prev p m = Some (List.last l p) ∧ get_next (List.last l p) m = Some p.
Proof.
  unfold get_prev, get_next. destruct l as [|z l _] using rev_ind; cbn; unfold link; [tauto|].
  rewrite seg_app, last_last. cbn. unfold link. tauto.
Qed.

(** The neighbours of an entry. *)
Lemma cycle_next m {head} k p r : cycle m (head :: k ++ p :: r) → get_next p m = Some (hd head r).
Proof.
  intros Hc. apply (cycle_rotate m (head :: k) (p :: r)) in Hc. cbn in Hc. destruct r as [|x r].
  - by apply (cycle_first m p (head :: k)).
  - by apply (cycle_first m p (x :: r ++ head :: k)).
Qed.
Lemma cycle_prev m {head} r p k : cycle m (head :: r ++ p :: k) → get_prev p m = Some (List.last r head).
Proof.
  intros Hc. change (cycle m ((head :: r) ++ p :: k)) in Hc. rewrite cycle_rotate in Hc.
  destruct r as [|x r _] using rev_ind; cbn in Hc.
  - rewrite (proj1 (cycle_last m p (k ++ [head]) Hc)). by rewrite !last_last.
  - replace (k ++ head :: r ++ [x]) with ((k ++ head :: r) ++ [x]) in Hc by (by rewrite <- app_assoc).
    rewrite (proj1 (cycle_last m p _ Hc)). by rewrite !last_last.
Qed.

(** ** Lists and loose objects on the heap *)

Lemma elem_of_concat (p : ptr) C : p ∈ concat C ↔ ∃ c, c ∈ C ∧ p ∈ c.
Proof.
  induction C as [|c C IH]; cbn.
  - set_solver.
  - rewrite elem_of_app, IH. set_solver.
Qed.
Lemma Permutation_concat (C C' : list (list ptr)) : C ≡ₚ C' → concat C ≡ₚ concat C'.
Proof.
  induction 1 as [|x C C' _ IH|x y C|C1 C2 C3 _ IH1 _ IH2]; cbn.
  - done.
  - by apply Permutation_app_head.
  - rewrite !app_assoc. apply Permutation_app_tail, Permutation_app_comm.
  - by etrans.
Qed.
Lemma heap_has_perm m C C' F F' : C ≡ₚ C' → F ≡ₚ F' → heap_has m C F → heap_has m C' F'.
Proof.
  intros HC HF [Ha Hc Hl]. split.
  - by rewrite <- (Permutation_concat _ _ HC), <- HF.
  - by rewrite <- HC.
  - by rewrite <- HF.
Qed.
#[export] Instance heap_has_proper m : Proper ((≡ₚ) ==> (≡ₚ) ==> iff) (heap_has m).
Proof. intros C C' HC F F' HF. split; apply heap_has_perm; done. Qed.

Lemma heap_has_rotate m c1 c2 C F : heap_has m ((c1 ++ c2) :: C) F → heap_has m ((c2 ++ c1) :: C) F.
Proof.
  intros [Ha Hc Hl]. apply Forall_cons in Hc as [Hc HC]. split; [| |done].
  - cbn in *. by rewrite (Permutation_app_comm c2 c1).
  - apply Forall_cons. split; [by apply cycle_rotate|done].
Qed.
(** An empty list of a head is the same as a loose object, and any list can be disowned. *)
Lemma heap_has_disown m c C F : heap_has m (c :: C) F → heap_has m C (c ++ F).
Proof.
  intros [Ha Hc Hl]. apply Forall_cons in Hc as [Hc HC]. split; [|done|].
  - cbn in Ha. by rewrite app_assoc, (Permutation_app_comm (concat C)).
  - apply Forall_app. split; [|done]. apply Forall_forall. intros p Hp. by eapply cycle_alloc.
Qed.
Lemma heap_has_alloc m C F p : heap_has m C F → p ∈ concat C ++ F → alloc m p.
Proof.
  intros [_ Hc Hl] [Hp|Hp]%elem_of_app; [|by eapply Forall_forall in Hl].
  apply elem_of_concat in Hp as (c & Hc1 & Hc2).
  eapply cycle_alloc; [|exact Hc2]. by eapply Forall_forall in Hc.
Qed.

(** An object that is allocated is loose, and a loose object may be freed. *)
Lemma heap_alloc_has m C F p : heap_has m C F → h_next m !! p = None → heap_has (heap_alloc p m) C (p :: F).
Proof.
  intros Hh Hp. assert (Hn : p ∉ concat C ++ F).
  { intros Hin. destruct (heap_has_alloc _ _ _ _ Hh Hin) as [[n Hn] _]. congruence. }
  destruct Hh as [Ha Hc Hl]. split.
  - rewrite <- Permutation_middle. by apply NoDup_cons.
  - apply Forall_forall. intros c Hin. eapply (cycle_same [p]); [| |by eapply Forall_forall in Hc].
    + intros q Hq. cbn. rewrite !lookup_insert_ne by set_solver. done.
    + intros q Hq ->%list_elem_of_singleton. apply Hn, elem_of_app. left. apply elem_of_concat. eauto.
  - apply Forall_cons. split; [split; cbn; rewrite lookup_insert_eq; eauto|].
    eapply Forall_impl; [exact Hl|]. intros q [??]. split; cbn; apply lookup_insert_is_Some'; by right.
Qed.
Lemma heap_free_has m C F p : heap_has m C (p :: F) → heap_has (heap_free p m) C F.
Proof.
  intros Hh. pose proof Hh as Hh'. destruct Hh as [Ha Hc Hl].
  rewrite <- Permutation_middle in Ha. apply NoDup_cons in Ha as [Hn Ha]. apply Forall_cons in Hl as [_ Hl].
  assert (Hne : ∀ q, q ∈ concat C ++ F → p ≠ q) by (intros q Hq ->; contradiction).
  split; [done| |].
  - apply Forall_forall. intros c Hin. eapply (cycle_same [p]); [| |by eapply Forall_forall in Hc].
    + intros q Hq. cbn. rewrite !lookup_delete_ne by set_solver. done.
    + intros q Hq ->%list_elem_of_singleton. apply Hn, elem_of_app. left. apply elem_of_concat. eauto.
  - apply Forall_forall. intros q Hq. pose proof (Hne q ltac:(set_solver)).
    eapply Forall_forall in Hl as [??]; [|exact Hq]. split; cbn; by rewrite lookup_delete_ne.
Qed.

(** What an operation leaves of the lists and objects it is about, the rest keeps. *)
Lemma heap_has_step m r ps C0 F0 C1 F1 C F :
  heap_has m (C0 ++ C) (F0 ++ F) → leaves m r ps C1 → ps ⊆ concat C0 ++ F0 →
  concat C1 ++ F1 ≡ₚ concat C0 ++ F0 →
  ∃ m', r = Some m' ∧ heap_has m' (C1 ++ C) (F1 ++ F).
Proof.
  intros Hh (m' & -> & Hs & Hal & Hc1) Hps Hp. exists m'. split; [done|].
  pose proof (λ p, heap_has_alloc m _ _ p Hh) as Hall.
  destruct Hh as [Ha Hc Hl]. rewrite concat_app in *.
  assert (E : (concat C1 ++ concat C) ++ F1 ++ F ≡ₚ (concat C0 ++ concat C) ++ F0 ++ F).
  { transitivity ((concat C1 ++ F1) ++ concat C ++ F); [solve_Permutation|].
    rewrite Hp. solve_Permutation. }
  assert (Hdis : ∀ p, p ∈ concat C ++ F → p ∉ ps).
  { intros p Hin Hin'. apply Hps in Hin'.
    assert (E' : (concat C0 ++ concat C) ++ F0 ++ F ≡ₚ (concat C0 ++ F0) ++ concat C ++ F) by solve_Permutation.
    rewrite E' in Ha. apply NoDup_app in Ha as (_ & Ha & _). by eapply Ha. }
  split.
  - rewrite concat_app. by rewrite E.
  - apply Forall_app. split; [done|]. apply Forall_app in Hc as [_ Hc].
    apply Forall_forall. intros c Hin. eapply cycle_same; [exact Hs| |by eapply Forall_forall in Hc].
    intros p Hpc. apply Hdis, elem_of_app. left. apply elem_of_concat. eauto.
  - apply Forall_forall. intros p Hin. apply Hal, Hall.
    rewrite <- concat_app. rewrite concat_app, <- E. set_solver.
Qed.

(** ** The abstract lists

    The calls that change lists, run on the heap, and what each does to the sequences. *)
Inductive list_op :=
  | Op_init (p : ptr) | Op_add (new head : ptr) | Op_add_tail (new head : ptr)
  | Op_del (entry : ptr) | Op_del_init (entry : ptr)
  | Op_replace (old new : ptr) | Op_replace_init (old new : ptr)
  | Op_move (list head : ptr) | Op_move_tail (list head : ptr)
  | Op_splice (list head : ptr) | Op_splice_tail (list head : ptr)
  | Op_splice_init (list head : ptr) | Op_splice_tail_init (list head : ptr)
  | Op_cut (list head entry : ptr).

Definition run_op (op : list_op) : heap → option heap :=
  match op with
  | Op_init p => INIT_LIST_HEAD p
  | Op_add new head => list_add new head
  | Op_add_tail new head => list_add_tail new head
  | Op_del entry => list_del entry
  | Op_del_init entry => list_del_init entry
  | Op_replace old new => list_replace old new
  | Op_replace_init old new => list_replace_init old new
  | Op_move list head => list_move list head
  | Op_move_tail list head => list_move_tail list head
  | Op_splice list head => list_splice list head
  | Op_splice_tail list head => list_splice_tail list head
  | Op_splice_init list head => list_splice_init list head
  | Op_splice_tail_init list head => list_splice_tail_init list head
  | Op_cut list head entry => list_cut_position list head entry
  end.

Inductive abs_step : list_op → list (list ptr) → list ptr → list (list ptr) → list ptr → Prop :=
  | abs_perm op C C1 F F1 C' F' : C ≡ₚ C1 → F ≡ₚ F1 → abs_step op C1 F1 C' F' → abs_step op C F C' F'
  | abs_init p C F : abs_step (Op_init p) C (p :: F) ([p] :: C) F
  | abs_add new hd l C F :
      abs_step (Op_add new hd) ((hd :: l) :: C) (new :: F) ((hd :: new :: l) :: C) F
  | abs_add_tail new hd l C F :
      abs_step (Op_add_tail new hd) ((hd :: l) :: C) (new :: F) ((hd :: l ++ [new]) :: C) F
  | abs_del e hd l1 l2 C F :
      abs_step (Op_del e) ((hd :: l1 ++ e :: l2) :: C) F ((hd :: l1 ++ l2) :: C) (e :: F)
  | abs_del_init e hd l1 l2 C F :
      abs_step (Op_del_init e) ((hd :: l1 ++ e :: l2) :: C) F ([e] :: (hd :: l1 ++ l2) :: C) F
  | abs_replace old new l1 l2 C F :
      abs_step (Op_replace old new) ((l1 ++ old :: l2) :: C) (new :: F) ((l1 ++ new :: l2) :: C) (old :: F)
  | abs_replace_init old new l1 l2 C F :
      abs_step (Op_replace_init old new) ((l1 ++ old :: l2) :: C) (new :: F)
        ([old] :: (l1 ++ new :: l2) :: C) F
  | abs_move_same e hd l1 l2 C F :
      abs_step (Op_move e hd) ((hd :: l1 ++ e :: l2) :: C) F ((hd :: e :: l1 ++ l2) :: C) F
  | abs_move e hd hd' l l1 l2 C F :
      abs_step (Op_move e hd') ((hd :: l1 ++ e :: l2) :: (hd' :: l) :: C) F
        ((hd' :: e :: l) :: (hd :: l1 ++ l2) :: C) F
  | abs_move_tail_same e hd l1 l2 C F :
      abs_step (Op_move_tail e hd) ((hd :: l1 ++ e :: l2) :: C) F ((hd :: (l1 ++ l2) ++ [e]) :: C) F
  | abs_move_tail e hd hd' l l1 l2 C F :
      abs_step (Op_move_tail e hd') ((hd :: l1 ++ e :: l2) :: (hd' :: l) :: C) F
        ((hd' :: l ++ [e]) :: (hd :: l1 ++ l2) :: C) F
  | abs_splice list l2 hd l1 C F :
      abs_step (Op_splice list hd) ((list :: l2) :: (hd :: l1) :: C) F ((hd :: l2 ++ l1) :: C) (list :: F)
  | abs_splice_tail list l2 hd l1 C F :
      abs_step (Op_splice_tail list hd) ((list :: l2) :: (hd :: l1) :: C) F
        ((hd :: l1 ++ l2) :: C) (list :: F)
  | abs_splice_init list l2 hd l1 C F :
      abs_step (Op_splice_init list hd) ((list :: l2) :: (hd :: l1) :: C) F
        ([list] :: (hd :: l2 ++ l1) :: C) F
  | abs_splice_tail_init list l2 hd l1 C F :
      abs_step (Op_splice_tail_init list hd) ((list :: l2) :: (hd :: l1) :: C) F
        ([list] :: (hd :: l1 ++ l2) :: C) F
  | abs_cut list hd e l1 l2 C F :
      abs_step (Op_cut list hd e) ([list] :: (hd :: l1 ++ e :: l2) :: C) F
        ((list :: l1 ++ [e]) :: (hd :: l2) :: C) F
  | abs_cut_head list hd l C F :
      abs_step (Op_cut list hd hd) ([list] :: (hd :: l) :: C) F ([list] :: (hd :: l) :: C) F
  | abs_cut_none list hd e l C F : (l = [] ∨ ∃ x, l = [x] ∧ e ≠ x ∧ e ≠ hd) →
      abs_step (Op_cut list hd e) ([list] :: (hd :: l) :: C) F ([list] :: (hd :: l) :: C) F.

(** ** Each call on the heap *)

Definition becomes (r : option heap) (C : list (list ptr)) (F : list ptr) : Prop :=
  ∃ m', r = Some m' ∧ heap_has m' C F.

Lemma becomes_bind r k C F C' F' : becomes r C F → (∀ m, heap_has m C F → becomes (k m) C' F') →
  becomes (m ← r; k m) C' F'.
Proof. intros (m & -> & Hm) Hk. exact (Hk m Hm). Qed.
Lemma becomes_perm r C C' F F' : C ≡ₚ C' → F ≡ₚ F' → becomes r C F → becomes r C' F'.
Proof. intros HC HF (m & -> & Hm). exists m. split; [done|]. by rewrite <- HC, <- HF. Qed.
Lemma becomes_rotate r c1 c2 C F : becomes r ((c1 ++ c2) :: C) F → becomes r ((c2 ++ c1) :: C) F.
Proof. intros (m & -> & Hm). exists m. split; [done|]. by apply heap_has_rotate. Qed.
Lemma heap_has_nodup m C0 C F0 F l : heap_has m (C0 ++ C) (F0 ++ F) → concat C0 ++ F0 ≡ₚ l → NoDup l.
Proof.
  intros [Ha _ _] E. rewrite concat_app in Ha.
  assert (E' : (concat C0 ++ concat C) ++ F0 ++ F ≡ₚ (concat C0 ++ F0) ++ concat C ++ F) by solve_Permutation.
  rewrite E', E in Ha. by apply NoDup_app in Ha as [Ha _].
Qed.

(** The cycles and loose objects that an operation is about, given with its heap. *)
Ltac heap_front Hh C0 F0 C1 F1 :=
  apply (heap_has_step _ _ (concat C0 ++ F0) C0 F0 C1 F1 _ _ Hh);
  [|done|cbn; rewrite ?app_nil_r; solve_Permutation].
Ltac heap_apart Hh C0 F0 :=
  apply (heap_has_nodup _ C0 _ F0 _ _ Hh); cbn; rewrite ?app_nil_r; solve_Permutation.
Ltac heap_facts Hh :=
  first
    [ exact (Forall_inv (hh_cycles _ _ _ Hh))
    | exact (Forall_inv (Forall_inv_tail (hh_cycles _ _ _ Hh)))
    | eapply heap_has_alloc; [exact Hh|set_solver] ].
Ltac leaves_in H :=
  let m' := fresh "m'" in let Hs := fresh "Hs" in
  destruct H as (m' & ? & Hs & ? & ?); exists m'; split_and!; [done| |done|done];
  intros ??; apply Hs; set_solver.

Lemma init_heap m C F p : heap_has m C (p :: F) → becomes (INIT_LIST_HEAD p m) ([p] :: C) F.
Proof.
  intros Hh. heap_front Hh (@nil (list ptr)) [p] [[p]] (@nil ptr).
  apply INIT_LIST_HEAD_cycle. heap_facts Hh.
Qed.

Lemma add_heap m C F new hd l : heap_has m ((hd :: l) :: C) (new :: F) →
  becomes (list_add new hd m) ((hd :: new :: l) :: C) F.
Proof.
  intros Hh. heap_front Hh [hd :: l] [new] [hd :: new :: l] (@nil ptr).
  assert (Ha : NoDup (new :: hd :: l)) by heap_apart Hh [hd :: l] [new].
  leaves_in (list_add_between m hd l new ltac:(heap_facts Hh) ltac:(heap_facts Hh) Ha).
Qed.

Lemma add_tail_heap m C F new hd l : heap_has m ((hd :: l) :: C) (new :: F) →
  becomes (list_add_tail new hd m) ((hd :: l ++ [new]) :: C) F.
Proof.
  intros Hh. destruct (cycle_last m hd l) as [Hp Hn]; [heap_facts Hh|].
  assert (list_add_tail new hd m = list_add new (List.last l hd) m) as ->.
  { unfold list_add_tail, list_add. by rewrite Hp, Hn. }
  destruct l as [|z l _] using rev_ind; [by apply add_heap|].
  rewrite last_last. rewrite <- app_assoc. apply (becomes_rotate _ [z; new] (hd :: l)).
  apply add_heap. by apply (heap_has_rotate m (hd :: l) [z]).
Qed.

Lemma unlink_heap m C F e hd l1 l2 : heap_has m ((hd :: l1 ++ e :: l2) :: C) F →
  becomes (unlink e m) ((hd :: l1 ++ l2) :: C) (e :: F).
Proof.
  intros Hh. apply (heap_has_rotate m (hd :: l1) (e :: l2)) in Hh.
  apply (becomes_rotate _ l2 (hd :: l1)).
  heap_front Hh [e :: l2 ++ hd :: l1] (@nil ptr) [l2 ++ hd :: l1] [e].
  assert (Ha : NoDup (e :: l2 ++ hd :: l1)) by heap_apart Hh [e :: l2 ++ hd :: l1] (@nil ptr).
  leaves_in (unlink_cycle m e (l2 ++ hd :: l1) ltac:(heap_facts Hh) ltac:(by destruct l2) Ha).
Qed.

(** The calls that start by unlinking an entry. *)
Lemma after_unlink m e (k : heap → option heap) C F :
  becomes (m ← unlink e m; k m) C F →
  becomes (prev ← get_prev e m; next ← get_next e m; m ← __list_del prev next m; k m) C F.
Proof.
  intros (m' & Hm & Hh). exists m'. split; [|done]. revert Hm. unfold unlink.
  destruct (get_prev e m); [|done]. by destruct (get_next e m).
Qed.

Lemma poison_leaves m e p q : alloc m e →
  leaves m (m ← set_next e p m; set_prev e q m) [e] [].
Proof. intros [[n Hn] [v Hv]]. heap_leaves idtac. Qed.

Lemma del_heap m C F e hd l1 l2 : heap_has m ((hd :: l1 ++ e :: l2) :: C) F →
  becomes (list_del e m) ((hd :: l1 ++ l2) :: C) (e :: F).
Proof.
  intros Hh. apply after_unlink. eapply becomes_bind; [by apply unlink_heap|].
  clear m Hh. intros m Hh. heap_front Hh (@nil (list ptr)) [e] (@nil (list ptr)) [e].
  apply poison_leaves. heap_facts Hh.
Qed.
Lemma del_init_heap m C F e hd l1 l2 : heap_has m ((hd :: l1 ++ e :: l2) :: C) F →
  becomes (list_del_init e m) ([e] :: (hd :: l1 ++ l2) :: C) F.
Proof.
  intros Hh. apply after_unlink. eapply becomes_bind; [by apply unlink_heap|].
  intros m' Hh'. by apply init_heap.
Qed.
Lemma move_same_heap m C F e hd l1 l2 : heap_has m ((hd :: l1 ++ e :: l2) :: C) F →
  becomes (list_move e hd m) ((hd :: e :: l1 ++ l2) :: C) F.
Proof.
  intros Hh. apply after_unlink. eapply becomes_bind; [by apply unlink_heap|].
  intros m' Hh'. by apply add_heap.
Qed.
Lemma move_heap m C F e hd hd' l l1 l2 : heap_has m ((hd :: l1 ++ e :: l2) :: (hd' :: l) :: C) F →
  becomes (list_move e hd' m) ((hd' :: e :: l) :: (hd :: l1 ++ l2) :: C) F.
Proof.
  intros Hh. apply after_unlink. eapply becomes_bind; [by apply unlink_heap|].
  intros m' Hh'. apply add_heap. eapply heap_has_perm; [apply Permutation_swap|done|exact Hh'].
Qed.
Lemma move_tail_same_heap m C F e hd l1 l2 : heap_has m ((hd :: l1 ++ e :: l2) :: C) F →
  becomes (list_move_tail e hd m) ((hd :: (l1 ++ l2) ++ [e]) :: C) F.
Proof.
  intros Hh. apply after_unlink. eapply becomes_bind; [by apply unlink_heap|].
  intros m' Hh'. by apply add_tail_heap.
Qed.
Lemma move_tail_heap m C F e hd hd' l l1 l2 : heap_has m ((hd :: l1 ++ e :: l2) :: (hd' :: l) :: C) F →
  becomes (list_move_tail e hd' m) ((hd' :: l ++ [e]) :: (hd :: l1 ++ l2) :: C) F.
Proof.
  intros Hh. apply after_unlink. eapply becomes_bind; [by apply unlink_heap|].
  intros m' Hh'. apply add_tail_heap. eapply heap_has_perm; [apply Permutation_swap|done|exact Hh'].
Qed.

Lemma replace_heap m C F old new l1 l2 : heap_has m ((l1 ++ old :: l2) :: C) (new :: F) →
  becomes (list_replace old new m) ((l1 ++ new :: l2) :: C) (old :: F).
Proof.
  intros Hh. apply heap_has_rotate in Hh. cbn in Hh.
  apply (becomes_rotate _ (new :: l2) l1). cbn.
  heap_front Hh [old :: l2 ++ l1] [new] [new :: l2 ++ l1] [old].
  assert (Ha : NoDup (new :: old :: l2 ++ l1)) by heap_apart Hh [old :: l2 ++ l1] [new].
  leaves_in (list_replace_cycle m old new (l2 ++ l1) ltac:(heap_facts Hh) ltac:(heap_facts Hh) Ha).
Qed.
Lemma replace_init_heap m C F old new l1 l2 : heap_has m ((l1 ++ old :: l2) :: C) (new :: F) →
  becomes (list_replace_init old new m) ([old] :: (l1 ++ new :: l2) :: C) F.
Proof.
  intros Hh. eapply becomes_bind; [by apply replace_heap|]. intros m' Hh'. by apply init_heap.
Qed.

(** [list_empty] answers whether the sequence of the head is empty. *)
Lemma empty_heap m C F hd l : heap_has m ((hd :: l) :: C) F →
  list_empty hd m = Some (match l with [] => true | _ => false end).
Proof.
  intros Hh. unfold list_empty. rewrite (cycle_first m hd l) by heap_facts Hh. cbn.
  destruct l as [|x l]; cbn; [by rewrite Z.eqb_refl|].
  assert (Ha : NoDup (hd :: x :: l)) by heap_apart Hh [hd :: x :: l] (@nil ptr).
  apart. by destruct (Z.eqb_spec x hd).
Qed.

Lemma splice_heap m C F list l2 hd l1 : l2 ≠ [] →
  heap_has m ((list :: l2) :: (hd :: l1) :: C) F →
  becomes (next ← get_next hd m; __list_splice list hd next m) ((hd :: l2 ++ l1) :: C) (list :: F).
Proof.
  intros Hne Hh. heap_front Hh [list :: l2; hd :: l1] (@nil ptr) [hd :: l2 ++ l1] [list].
  assert (Ha : NoDup (list :: l2 ++ hd :: l1)) by heap_apart Hh [list :: l2; hd :: l1] (@nil ptr).
  leaves_in (splice_cycle m list hd l1 l2 ltac:(heap_facts Hh) ltac:(heap_facts Hh) Hne Ha).
Qed.
Lemma splice_tail_heap m C F list l2 hd l1 : l2 ≠ [] →
  heap_has m ((list :: l2) :: (hd :: l1) :: C) F →
  becomes (prev ← get_prev hd m; __list_splice list prev hd m) ((hd :: l1 ++ l2) :: C) (list :: F).
Proof.
  intros Hne Hh. destruct (cycle_last m hd l1) as [Hp Hn]; [heap_facts Hh|].
  assert (becomes (next ← get_next (List.last l1 hd) m; __list_splice list (List.last l1 hd) next m)
            ((hd :: l1 ++ l2) :: C) (list :: F)) as Hb.
  2:{ by rewrite Hp; rewrite Hn in Hb. }
  destruct l1 as [|z l1 _] using rev_ind.
  - pose proof (splice_heap m C F list l2 hd [] Hne Hh) as Hb. by rewrite app_nil_r in Hb.
  - rewrite last_last. rewrite <- app_assoc.
    apply (becomes_rotate _ (z :: l2) (hd :: l1)). cbn. apply splice_heap; [done|].
    eapply heap_has_perm; [apply Permutation_swap|done|].
    apply (heap_has_rotate m (hd :: l1) [z]). eapply heap_has_perm; [apply Permutation_swap|done|done].
Qed.

Lemma splice_all_heap m C F list l2 hd l1 : heap_has m ((list :: l2) :: (hd :: l1) :: C) F →
  becomes (list_splice list hd m) ((hd :: l2 ++ l1) :: C) (list :: F)
  ∧ becomes (list_splice_tail list hd m) ((hd :: l1 ++ l2) :: C) (list :: F)
  ∧ becomes (list_splice_init list hd m) ([list] :: (hd :: l2 ++ l1) :: C) F
  ∧ becomes (list_splice_tail_init list hd m) ([list] :: (hd :: l1 ++ l2) :: C) F.
Proof.
  intros Hh. unfold list_splice, list_splice_tail, list_splice_init, list_splice_tail_init.
  rewrite (empty_heap m _ _ list l2 Hh). destruct l2 as [|x l2]; cbn -[__list_splice].
  - rewrite app_nil_r. split_and!; exists m; (split; [done|]); try done;
      apply (heap_has_disown m [list]); done.
  - pose proof (splice_heap m C F list (x :: l2) hd l1 ltac:(done) Hh) as Hf.
    pose proof (splice_tail_heap m C F list (x :: l2) hd l1 ltac:(done) Hh) as Ht.
    split_and!; [exact Hf|exact Ht|..].
    + destruct (get_next hd m); [|by destruct Hf as (? & ? & ?)].
      eapply becomes_bind; [exact Hf|]. intros m' Hh'. by apply init_heap.
    + destruct (get_prev hd m); [|by destruct Ht as (? & ? & ?)].
      eapply becomes_bind; [exact Ht|]. intros m' Hh'. by apply init_heap.
Qed.

Lemma singular_heap m C F hd l : heap_has m ((hd :: l) :: C) F →
  list_is_singular hd m = Some (match l with [_] => true | _ => false end).
Proof.
  intros Hh. unfold list_is_singular. rewrite (empty_heap m C F hd l Hh).
  destruct (cycle_last m hd l) as [Hp _]; [heap_facts Hh|].
  rewrite (cycle_first m hd l) by heap_facts Hh. rewrite Hp.
  destruct l as [|x l]; [done|]. cbn -[List.last].
  assert (Ha : NoDup (hd :: x :: l)) by heap_apart Hh [hd :: x :: l] (@nil ptr).
  destruct l as [|z l _] using rev_ind; [cbn; by rewrite Z.eqb_refl|].
  change (x :: l ++ [z]) with ((x :: l) ++ [z]). rewrite last_last. apart.
  destruct (Z.eqb_spec x z); [set_solver|]. by destruct l.
Qed.
Lemma careful_heap m C F hd l : heap_has m ((hd :: l) :: C) F → list_empty_careful hd m = list_empty hd m.
Proof.
  intros Hh. unfold list_empty_careful. rewrite (empty_heap m C F hd l Hh).
  destruct (cycle_last m hd l) as [Hp _]; [heap_facts Hh|].
  rewrite (cycle_first m hd l) by heap_facts Hh. rewrite Hp. destruct l as [|x l]; cbn.
  - by rewrite Z.eqb_refl.
  - assert (Ha : NoDup (hd :: x :: l)) by heap_apart Hh [hd :: x :: l] (@nil ptr).
    apart. by destruct (Z.eqb_spec x hd).
Qed.
Lemma is_last_heap m C F hd l1 e l2 : heap_has m ((hd :: l1 ++ e :: l2) :: C) F →
  list_is_last e hd m = Some (match l2 with [] => true | _ => false end).
Proof.
  intros Hh. pose proof Hh as Hr. apply (heap_has_rotate m (hd :: l1) (e :: l2)) in Hr.
  unfold list_is_last. rewrite (cycle_first m e (l2 ++ hd :: l1)) by heap_facts Hr.
  destruct l2 as [|x l2]; cbn; [by rewrite Z.eqb_refl|].
  assert (Ha : NoDup (hd :: l1 ++ e :: x :: l2)) by heap_apart Hh [hd :: l1 ++ e :: x :: l2] (@nil ptr).
  apart. by destruct (Z.eqb_spec x hd).
Qed.

(** The guards of [list_cut_position] in terms of the sequence. *)
Lemma cut_guards m C F list hd e l : heap_has m ((hd :: l) :: C) F →
  list_cut_position list hd e m =
    match l with
    | [] => Some m
    | [x] => if negb (x =? e) && negb (hd =? e) then Some m
             else if e =? hd then INIT_LIST_HEAD list m else __list_cut_position list hd e m
    | _ => if e =? hd then INIT_LIST_HEAD list m else __list_cut_position list hd e m
    end.
Proof.
  intros Hh. unfold list_cut_position. rewrite (empty_heap m C F hd l Hh).
  destruct l as [|x l]; [done|]. cbn -[list_is_singular __list_cut_position].
  rewrite (singular_heap m C F hd (x :: l) Hh), (cycle_first m hd (x :: l)) by heap_facts Hh.
  by destruct l.
Qed.

Lemma cut_heap m C F list hd e l1 l2 : heap_has m ([list] :: (hd :: l1 ++ e :: l2) :: C) F →
  becomes (list_cut_position list hd e m) ((list :: l1 ++ [e]) :: (hd :: l2) :: C) F.
Proof.
  intros Hh. pose proof Hh as Hs. eapply heap_has_perm in Hs; [|apply Permutation_swap|done].
  assert (Ha : NoDup (list :: hd :: l1 ++ e :: l2)) by heap_apart Hh [[list]; hd :: l1 ++ e :: l2] (@nil ptr).
  assert (Hcut : becomes (__list_cut_position list hd e m) ((list :: l1 ++ [e]) :: (hd :: l2) :: C) F).
  { heap_front Hh [[list]; hd :: l1 ++ e :: l2] (@nil ptr) [list :: l1 ++ [e]; hd :: l2] (@nil ptr).
    leaves_in (cut_cycle m list hd e l1 l2 ltac:(heap_facts Hh) ltac:(heap_facts Hh) Ha). }
  assert (e ≠ hd) as Hne by (apart; congruence).
  rewrite (cut_guards m _ F list hd e _ Hs). apply Z.eqb_neq in Hne. rewrite Hne.
  destruct l1 as [|x [|y l1]]; cbn; [|done|done]. rewrite Z.eqb_refl. cbn. by destruct l2.
Qed.
Lemma cut_head_heap m C F list hd l : heap_has m ([list] :: (hd :: l) :: C) F →
  becomes (list_cut_position list hd hd m) ([list] :: (hd :: l) :: C) F.
Proof.
  intros Hh. pose proof Hh as Hs. eapply heap_has_perm in Hs; [|apply Permutation_swap|done].
  rewrite (cut_guards m _ F list hd hd _ Hs). rewrite Z.eqb_refl.
  assert (becomes (INIT_LIST_HEAD list m) ([list] :: (hd :: l) :: C) F).
  { apply init_heap. by apply (heap_has_disown m [list]). }
  destruct l as [|x [|y l]]; [by exists m| |done]. by rewrite andb_false_r.
Qed.
Lemma cut_none_heap m C F list hd e l : (l = [] ∨ ∃ x, l = [x] ∧ e ≠ x ∧ e ≠ hd) →
  heap_has m ([list] :: (hd :: l) :: C) F →
  becomes (list_cut_position list hd e m) ([list] :: (hd :: l) :: C) F.
Proof.
  intros Hl Hh. pose proof Hh as Hs. eapply heap_has_perm in Hs; [|apply Permutation_swap|done].
  rewrite (cut_guards m _ F list hd e _ Hs). exists m. split; [|done].
  destruct Hl as [->|(x & -> & Hx & Hhd)]; [done|].
  destruct (Z.eqb_spec x e), (Z.eqb_spec hd e); cbn; congruence.
Qed.

(** ** The header implements the abstract lists *)

(** C35. Every function of [list.h] that changes lists does on the heap what its
    description does on sequences: whenever the heap holds some lists and loose objects and
    the call is one the description covers, no access faults, and the heap then holds the
    lists that the description gives, all others untouched. *)
Theorem list_ops_refine op m C F C' F' :
  heap_has m C F → abs_step op C F C' F' → ∃ m', run_op op m = Some m' ∧ heap_has m' C' F'.
Proof.
  intros Hh Hs. revert m Hh. change (∀ m, heap_has m C F → becomes (run_op op m) C' F').
  induction Hs as [op C C1 F F1 C' F' HC HF Hs IH| | | | | | | | | | | |list l2 hd l1 C F|list l2 hd l1 C F
                  |list l2 hd l1 C F|list l2 hd l1 C F| | |];
    intros m Hh; cbn [run_op].
  { apply IH. by rewrite <- HC, <- HF. }
  all: try (destruct (splice_all_heap m C F list l2 hd l1 Hh) as (? & ? & ? & ?); assumption).
  - by apply init_heap.
  - by apply add_heap.
  - by apply add_tail_heap.
  - by apply del_heap.
  - by apply del_init_heap.
  - by apply replace_heap.
  - by apply replace_init_heap.
  - by apply move_same_heap.
  - by apply move_heap.
  - by apply move_tail_same_heap.
  - by apply move_tail_heap.
  - by apply cut_heap.
  - by apply cut_head_heap.
  - by apply cut_none_heap.
Qed.

(** Two lists and a loose object: the entry of the second list goes to the front of the first. *)
Definition example_heap : heap :=
  mk_heap (list_to_map [(10, 11); (11, 12); (12, 10); (20, 21); (21, 20); (30, 0)])
          (list_to_map [(10, 12); (11, 10); (12, 11); (20, 21); (21, 20); (30, 0)]).
Lemma example_heap_has : heap_has example_heap [[20; 21]; [10; 11; 12]] [30].
Proof.
  split.
  - cbn. repeat (apply NoDup_cons; split; [set_solver|]). apply NoDup_nil_2.
  - repeat constructor.
  - repeat constructor; eexists; reflexivity.
Qed.
Lemma list_ops_refine_witness :
  ∃ m', run_op (Op_splice_init 20 10) example_heap = Some m' ∧ heap_has m' [[20]; [10; 21; 11; 12]] [30].
Proof.
  exact (list_ops_refine (Op_splice_init 20 10) example_heap _ _ [[20]; [10; 21; 11; 12]] [30]
    example_heap_has (abs_splice_init 20 [21] 10 [11; 12] [] [30])).
Defined.
