(* ===== verification/Traversal.v ===== *)
(** The traversal macros of [src/list.h].

    Each macro is a loop around a body of its caller; the theorems say that it runs the
    body on the entries of the list in order, backwards or from a point on, and that the
    [_safe] loops do so even when the body takes the entry it is at off the list. *)

From S2P Require Import Prelude LinkedList.
#[local] Set Warnings "-clear-no-such-hyp".

(** ** Traversals

    The macros are loops around a body of the caller. A body runs on the heap and a state
    of its own; it ends the loop with [inr]. The fuel bounds the iterations. *)
Section Traversals.
Context {A R : Type}.
Definition traversal_body : Type := ptr → heap → A → option (heap * A + heap * R).

(** [for (; prefetch(step(pos)), pos != head; pos = step(pos))]; the argument of the
    prefetch is loaded. *)
Fixpoint loop (prefetch : bool) (step : ptr → heap → option ptr) (head : ptr) (body : traversal_body)
  (fuel : nat) (pos : ptr) (m : heap) (a : A) : option (heap * A + heap * R) :=
  match fuel with
  | O => None
  | S fuel =>
      _ ← (if prefetch then step pos m else Some pos);
      if pos =? head then Some (inl (m, a))
      else
        r ← body pos m a;
        match r with
        | inr r => Some (inr r)
        | inl (m, a) => pos ← step pos m; loop prefetch step head body fuel pos m a
        end
  end.
(** [for (; pos != head; pos = n, n = step(pos))]: the successor is loaded before the body. *)
Fixpoint loop_safe (prefetch : bool) (step : ptr → heap → option ptr) (head : ptr) (body : traversal_body)
  (fuel : nat) (pos n : ptr) (m : heap) (a : A) : option (heap * A + heap * R) :=
  match fuel with
  | O => None
  | S fuel =>
      _ ← (if prefetch then step pos m else Some pos);
      if pos =? head then Some (inl (m, a))
      else
        r ← body pos m a;
        match r with
        | inr r => Some (inr r)
        | inl (m, a) => nn ← step n m; loop_safe prefetch step head body fuel n nn m a
        end
  end.

Definition list_for_each (head : ptr) (body : traversal_body) (fuel : nat) (m : heap) (a : A) :=
  pos ← get_next head m;
  loop true get_next head body fuel pos m a.
Definition __list_for_each (head : ptr) (body : traversal_body) (fuel : nat) (m : heap) (a : A) :=
  pos ← get_next head m;
  loop false get_next head body fuel pos m a.
Definition list_for_each_prev (head : ptr) (body : traversal_body) (fuel : nat) (m : heap) (a : A) :=
  pos ← get_prev head m;
  loop true get_prev head body fuel pos m a.
Definition list_for_each_safe (head : ptr) (body : traversal_body) (fuel : nat) (m : heap) (a : A) :=
  pos ← get_next head m;
  n ← get_next pos m;
  loop_safe false get_next head body fuel pos n m a.
Definition list_for_each_prev_safe (head : ptr) (body : traversal_body) (fuel : nat) (m : heap) (a : A) :=
  pos ← get_prev head m;
  n ← get_prev pos m;
  loop_safe true get_prev head body fuel pos n m a.

(** The variants over the objects that contain the [struct list_head] at offset [off]:
    the cursor is the object, its list node is at [pos + off]. *)
Fixpoint loop_entry (prefetch : bool) (step : ptr → heap → option ptr) (off head : ptr) (body : traversal_body)
  (fuel : nat) (pos : ptr) (m : heap) (a : A) : option (heap * A + heap * R) :=
  match fuel with
  | O => None
  | S fuel =>
      _ ← (if prefetch then step (pos + off) m else Some pos);
      if pos + off =? head then Some (inl (m, a))
      else
        r ← body pos m a;
        match r with
        | inr r => Some (inr r)
        | inl (m, a) =>
            n ← step (pos + off) m;
            loop_entry prefetch step off head body fuel (list_entry n off) m a
        end
  end.
Fixpoint loop_entry_safe (step : ptr → heap → option ptr) (off head : ptr) (body : traversal_body)
  (fuel : nat) (pos n : ptr) (m : heap) (a : A) : option (heap * A + heap * R) :=
  match fuel with
  | O => None
  | S fuel =>
      if pos + off =? head then Some (inl (m, a))
      else
        r ← body pos m a;
        match r with
        | inr r => Some (inr r)
        | inl (m, a) =>
            nn ← step (n + off) m;
            loop_entry_safe step off head body fuel n (list_entry nn off) m a
        end
  end.

Definition list_for_each_entry (off head : ptr) (body : traversal_body) (fuel : nat) (m : heap) (a : A) :=
  n ← get_next head m;
  loop_entry true get_next off head body fuel (list_entry n off) m a.
Definition list_for_each_entry_reverse (off head : ptr) (body : traversal_body) (fuel : nat) (m : heap) (a : A) :=
  n ← get_prev head m;
  loop_entry true get_prev off head body fuel (list_entry n off) m a.
(** A null cursor stands for the head. *)
Definition list_prepare_entry (pos off head : ptr) : ptr := if pos =? 0 then list_entry head off else pos.
Definition list_for_each_entry_continue (off head : ptr) (body : traversal_body) (fuel : nat) (pos : ptr)
  (m : heap) (a : A) :=
  n ← get_next (pos + off) m;
  loop_entry true get_next off head body fuel (list_entry n off) m a.
Definition list_for_each_entry_continue_reverse (off head : ptr) (body : traversal_body) (fuel : nat) (pos : ptr)
  (m : heap) (a : A) :=
  n ← get_prev (pos + off) m;
  loop_entry true get_prev off head body fuel (list_entry n off) m a.
Definition list_for_each_entry_from (off head : ptr) (body : traversal_body) (fuel : nat) (pos : ptr)
  (m : heap) (a : A) :=
  loop_entry true get_next off head body fuel pos m a.
Definition list_for_each_entry_safe (off head : ptr) (body : traversal_body) (fuel : nat) (m : heap) (a : A) :=
  pos ← get_next head m;
  n ← get_next (list_entry pos off + off) m;
  loop_entry_safe get_next off head body fuel (list_entry pos off) (list_entry n off) m a.
Definition list_for_each_entry_safe_continue (off head : ptr) (body : traversal_body) (fuel : nat) (pos : ptr)
  (m : heap) (a : A) :=
  pos ← get_next (pos + off) m;
  n ← get_next (list_entry pos off + off) m;
  loop_entry_safe get_next off head body fuel (list_entry pos off) (list_entry n off) m a.
Definition list_for_each_entry_safe_from (off head : ptr) (body : traversal_body) (fuel : nat) (pos : ptr)
  (m : heap) (a : A) :=
  n ← get_next (pos + off) m;
  loop_entry_safe get_next off head body fuel pos (list_entry n off) m a.
Definition list_for_each_entry_safe_reverse (off head : ptr) (body : traversal_body) (fuel : nat)
  (m : heap) (a : A) :=
  pos ← get_prev head m;
  n ← get_prev (list_entry pos off + off) m;
  loop_entry_safe get_prev off head body fuel (list_entry pos off) (list_entry n off) m a.
End Traversals.
Arguments traversal_body : clear implicits.

(** ** Traversals visit the sequence *)
Section Visits.
Context {A R : Type} (head : ptr) (body : traversal_body A R).

(** The body on each address of a sequence, until it ends the loop. *)
Fixpoint visit (body : traversal_body A R) (l : list ptr) (m : heap) (a : A) : option (heap * A + heap * R) :=
  match l with
  | [] => Some (inl (m, a))
  | p :: l =>
      r ← body p m a;
      match r with inr r => Some (inr r) | inl (m, a) => visit body l m a end
  end.

(** The body keeps the list it runs on: [J] holds of the heap and the state throughout. *)
Definition keeps_list (J : heap → A → Prop) (l : list ptr) : Prop :=
  NoDup (head :: l) ∧ (∀ m a, J m a → cycle m (head :: l)) ∧
  (∀ p m a m' a', J m a → p ∈ l → body p m a = Some (inl (m', a')) → J m' a').

Lemma prefetch_bind {B C} (pf : bool) (x y : B) (X : option C) :
  (_ ← (if pf then Some x else Some y); X) = X.
Proof. by destruct pf. Qed.
Lemma loop_next_visits J l pf k r fuel m a :
  keeps_list J l → J m a → l = k ++ r → (List.length r < fuel)%nat →
  loop pf get_next head body fuel (hd head r) m a = visit body r m a.
Proof.
  intros (Hd & HJc & HJ). revert k r m a. induction fuel as [|fuel IH]; intros k r m a Hm Hl Hf; [lia|].
  pose proof (HJc _ _ Hm) as Hc. rewrite Hl in Hc. cbn [loop]. destruct r as [|p r]; cbn [hd visit].
  - assert (∃ n, get_next head m = Some n) as [n Hn].
    { eexists. apply (cycle_first m head (k ++ [])). exact Hc. }
    rewrite Z.eqb_refl, Hn. by destruct pf.
  - rewrite (cycle_next m k p r Hc).
    assert (p ≠ head) as Hne%Z.eqb_neq by (rewrite Hl in Hd; apart; congruence).
    rewrite prefetch_bind.
    rewrite Hne. destruct (body p m a) as [[[m' a']|r']|] eqn:E; cbn [mbind option_bind]; [|done|done].
    assert (J m' a') as Hm' by (eapply HJ; [exact Hm| |exact E]; set_solver).
    pose proof (HJc _ _ Hm') as Hc'. rewrite Hl in Hc'. rewrite (cycle_next m' k p r Hc'). cbn.
    apply (IH (k ++ [p])); [done| |cbn in Hf; lia]. by rewrite <- app_assoc.
Qed.

Lemma loop_prev_visits J l pf r k fuel m a :
  keeps_list J l → J m a → l = r ++ k → (List.length r < fuel)%nat →
  loop pf get_prev head body fuel (List.last r head) m a = visit body (rev r) m a.
Proof.
  intros (Hd & HJc & HJ). revert k r m a. induction fuel as [|fuel IH]; intros k r m a Hm Hl Hf; [lia|].
  pose proof (HJc _ _ Hm) as Hc. rewrite Hl in Hc. cbn [loop].
  destruct r as [|p r _] using rev_ind; [cbn [visit rev List.last]|rewrite last_last, rev_app_distr; cbn [rev app visit]].
  - rewrite Z.eqb_refl, (proj1 (cycle_last m head k Hc)). by destruct pf.
  - rewrite <- app_assoc in Hc, Hl. rewrite (cycle_prev m r p k Hc).
    assert (p ≠ head) as Hne%Z.eqb_neq by (rewrite Hl in Hd; apart; congruence).
    rewrite prefetch_bind.
    rewrite Hne. destruct (body p m a) as [[[m' a']|r']|] eqn:E; cbn [mbind option_bind]; [|done|done].
    assert (J m' a') as Hm' by (eapply HJ; [exact Hm| |exact E]; set_solver).
    pose proof (HJc _ _ Hm') as Hc'. rewrite Hl in Hc'. rewrite (cycle_prev m' r p k Hc'). cbn.
    apply (IH (p :: k)); [done|done|]. rewrite length_app in Hf. cbn in Hf. lia.
Qed.

(** The safe loops: the body may take the entry it is at off the list (and free it). [J r]
    holds when the entries [r] are still to come, whatever was kept of those before. *)
Definition keeps_rest (J : list ptr → heap → A → Prop) (l : list ptr) : Prop :=
  NoDup (head :: l) ∧ (∀ r m a, J r m a → ∃ k, cycle m (head :: k ++ r)) ∧
  (∀ p r m a m' a', J (p :: r) m a → body p m a = Some (inl (m', a')) → J r m' a').

Lemma loop_safe_next_visits J l k r n fuel m a :
  keeps_rest J l → J r m a → l = k ++ r → get_next (hd head r) m = Some n →
  (List.length r < fuel)%nat →
  loop_safe false get_next head body fuel (hd head r) n m a = visit body r m a.
Proof.
  intros (Hd & HJc & HJ). revert k r n m a.
  induction fuel as [|fuel IH]; intros k r n m a Hm Hl Hn Hf; [lia|]. cbn [loop_safe].
  destruct r as [|p r]; cbn [hd visit mbind option_bind].
  - by rewrite Z.eqb_refl.
  - assert (p ≠ head) as Hne%Z.eqb_neq by (rewrite Hl in Hd; apart; congruence).
    rewrite Hne. destruct (HJc _ _ _ Hm) as [k1 Hc]. cbn [hd] in Hn. rewrite (cycle_next m k1 p r Hc) in Hn.
    injection Hn as <-.
    destruct (body p m a) as [[[m' a']|r']|] eqn:E; cbn [mbind option_bind]; [|done|done].
    pose proof (HJ _ _ _ _ _ _ Hm E) as Hm'. destruct (HJc _ _ _ Hm') as [k2 Hc'].
    assert (∃ n, get_next (hd head r) m' = Some n) as [n Hn].
    { destruct r as [|x r]; eexists.
      - cbn. exact (cycle_first m' head (k2 ++ []) Hc').
      - cbn. exact (cycle_next m' k2 x r Hc'). }
    rewrite Hn. cbn. apply (IH (k ++ [p])); [done| |done|cbn in Hf; lia]. by rewrite <- app_assoc.
Qed.

(** The same backwards. *)
Definition keeps_front (J : list ptr → heap → A → Prop) (l : list ptr) : Prop :=
  NoDup (head :: l) ∧ (∀ r m a, J r m a → ∃ k, cycle m (head :: r ++ k)) ∧
  (∀ p r m a m' a', J (r ++ [p]) m a → body p m a = Some (inl (m', a')) → J r m' a').

Lemma loop_safe_prev_visits J l pf k r n fuel m a :
  keeps_front J l → J r m a → l = r ++ k → get_prev (List.last r head) m = Some n →
  (List.length r < fuel)%nat →
  loop_safe pf get_prev head body fuel (List.last r head) n m a = visit body (rev r) m a.
Proof.
  intros (Hd & HJc & HJ). revert k r n m a.
  induction fuel as [|fuel IH]; intros k r n m a Hm Hl Hn Hf; [lia|]. cbn [loop_safe].
  rewrite Hn, prefetch_bind.
  destruct r as [|p r _] using rev_ind; [cbn [visit rev List.last]|
    rewrite last_last in *; rewrite rev_app_distr; cbn [rev app visit]].
  - by rewrite Z.eqb_refl.
  - destruct (HJc _ _ _ Hm) as [k1 Hc]. rewrite <- app_assoc in Hc, Hl.
    assert (p ≠ head) as Hne%Z.eqb_neq by (rewrite Hl in Hd; apart; congruence).
    rewrite Hne. cbn in Hc. rewrite (cycle_prev m r p k1 Hc) in Hn. injection Hn as <-.
    destruct (body p m a) as [[[m' a']|r']|] eqn:E; cbn [mbind option_bind]; [|done|done].
    pose proof (HJ _ _ _ _ _ _ Hm E) as Hm'. destruct (HJc _ _ _ Hm') as [k2 Hc'].
    assert (∃ n, get_prev (List.last r head) m' = Some n) as [n Hn].
    { destruct r as [|x r _] using rev_ind; eexists.
      - exact (proj1 (cycle_last m' head k2 Hc')).
      - rewrite last_last. rewrite <- app_assoc in Hc'. exact (cycle_prev m' r x k2 Hc'). }
    rewrite Hn. cbn. apply (IH (p :: k)); [done|done|done|]. rewrite length_app in Hf. cbn in Hf. lia.
Qed.

Lemma loop_entry_loop pf step off fuel pos m a :
  loop_entry pf step off head (λ p m a, body (p + off) m a) fuel (list_entry pos off) m a
  = loop pf step head body fuel pos m a.
Proof.
  revert pos m a. induction fuel as [|fuel IH]; intros pos m a; [done|]. cbn [loop loop_entry].
  unfold list_entry, container_of. rewrite Z.sub_add.
  destruct (if pf then step pos m else Some (pos - off)) eqn:Ep, pf; cbn; try done; rewrite ?Ep; cbn; try done.
  all: destruct (pos =? head); [done|]; destruct (body pos m a) as [[[m' a']|r']|]; cbn; try done.
  all: destruct (step pos m') as [n|]; cbn; try done; apply IH.
Qed.
Lemma loop_entry_safe_loop step off fuel pos n m a :
  loop_entry_safe step off head (λ p m a, body (p + off) m a) fuel (list_entry pos off) (list_entry n off) m a
  = loop_safe false step head body fuel pos n m a.
Proof.
  revert pos n m a. induction fuel as [|fuel IH]; intros pos n m a; [done|]. cbn [loop_safe loop_entry_safe].
  unfold list_entry, container_of. rewrite Z.sub_add. cbn.
  destruct (pos =? head); [done|]; destruct (body pos m a) as [[[m' a']|r']|]; cbn; try done.
  rewrite Z.sub_add. destruct (step n m') as [nn|]; cbn; [apply IH|done].
Qed.
End Visits.

(** ** The macros *)
Section Macros.
Context {A R : Type}.
Implicit Types (body : traversal_body A R) (m : heap) (a : A).

(** A list, somewhere in it an entry, and a body that keeps the list. *)
Lemma list_for_each_visits head body J l fuel m a :
  keeps_list head body J l → J m a → (List.length l < fuel)%nat →
  list_for_each head body fuel m a = visit body l m a
  ∧ __list_for_each head body fuel m a = visit body l m a
  ∧ list_for_each_prev head body fuel m a = visit body (rev l) m a.
Proof.
  intros Hk Hm Hf. pose proof (proj1 (proj2 Hk) _ _ Hm) as Hc.
  unfold list_for_each, __list_for_each, list_for_each_prev.
  rewrite (cycle_first m head l Hc), (proj1 (cycle_last m head l Hc)). cbn [mbind option_bind].
  split_and!; [eapply (loop_next_visits head body J l true [])|eapply (loop_next_visits head body J l false [])|
    eapply (loop_prev_visits head body J l true l [])]; by rewrite ?app_nil_r.
Qed.

(** With the nodes at offset [off] of the entries: from the start, from the end, after an
    entry [e] of the list, before it backwards, and from it on. *)
Lemma list_for_each_entry_visits off head body J l1 e l2 fuel m a :
  let l := l1 ++ e :: l2 in
  let ebody := λ p m a, body (p + off) m a in
  keeps_list head body J l → J m a → (List.length l < fuel)%nat →
  list_for_each_entry off head ebody fuel m a = visit body l m a
  ∧ list_for_each_entry_reverse off head ebody fuel m a = visit body (rev l) m a
  ∧ list_for_each_entry_continue off head ebody fuel (list_entry e off) m a = visit body l2 m a
  ∧ list_for_each_entry_continue_reverse off head ebody fuel (list_entry e off) m a
    = visit body (rev l1) m a
  ∧ list_for_each_entry_from off head ebody fuel (list_entry e off) m a = visit body (e :: l2) m a.
Proof.
  intros l ebody Hk Hm Hf. pose proof (proj1 (proj2 Hk) _ _ Hm) as Hc.
  destruct (list_for_each_visits head body J l fuel m a Hk Hm Hf) as (Hn & _ & Hp).
  unfold list_for_each, list_for_each_prev in *.
  assert (list_entry e off + off = e) as He by (unfold list_entry, container_of; lia).
  unfold list_for_each_entry, list_for_each_entry_reverse, list_for_each_entry_continue,
    list_for_each_entry_continue_reverse, list_for_each_entry_from, ebody.
  rewrite He, (cycle_next m l1 e l2 Hc), (cycle_prev m l1 e l2 Hc).
  rewrite (cycle_first m head l Hc) in *. rewrite (proj1 (cycle_last m head l Hc)) in *.
  cbn [mbind option_bind] in *. rewrite !loop_entry_loop. unfold l in Hf. rewrite length_app in Hf.
  split_and!; [exact Hn|exact Hp|..].
  - apply (loop_next_visits head body J l true (l1 ++ [e])); [done|done|by rewrite <- app_assoc|cbn in Hf; lia].
  - apply (loop_prev_visits head body J l true l1 (e :: l2)); [done|done|done|lia].
  - apply (loop_next_visits head body J l true l1 (e :: l2)); [done|done|done|cbn in *; lia].
Qed.

(** The [_safe] macros backwards, of nodes and of entries. *)
Lemma list_for_each_prev_safe_visits off head body J l fuel m a :
  cycle m (head :: l) → keeps_front head body J l → J l m a → (List.length l < fuel)%nat →
  list_for_each_prev_safe head body fuel m a = visit body (rev l) m a
  ∧ list_for_each_entry_safe_reverse off head (λ p m a, body (p + off) m a) fuel m a = visit body (rev l) m a.
Proof.
  intros Hc Hk Hm Hf. unfold list_for_each_prev_safe, list_for_each_entry_safe_reverse.
  rewrite (proj1 (cycle_last m head l Hc)). cbn [mbind option_bind].
  assert (∃ n, get_prev (List.last l head) m = Some n) as [n Hn].
  { destruct l as [|z l _] using rev_ind; eexists; [exact (proj1 (cycle_last m head [] Hc))|].
    rewrite last_last. exact (cycle_prev m l z [] Hc). }
  unfold list_entry at 1, container_of at 1. rewrite Z.sub_add, Hn. cbn [mbind option_bind].
  rewrite loop_entry_safe_loop.
  split; apply (loop_safe_prev_visits head body J l _ []); rewrite ?app_nil_r; done.
Qed.

(** The [_safe] macros from an entry [e] on: [pos] and the successor that is loaded first. *)
Lemma list_for_each_safe_next head body J l k r fuel m a :
  cycle m (head :: l) → keeps_rest head body J l → J r m a → l = k ++ r → (List.length r < fuel)%nat →
  ∃ n, get_next (hd head r) m = Some n ∧
    loop_safe false get_next head body fuel (hd head r) n m a = visit body r m a.
Proof.
  intros Hc Hk Hm Hl Hf.
  assert (∃ n, get_next (hd head r) m = Some n) as [n Hn].
  { destruct r as [|x r]; eexists; [exact (cycle_first m head l Hc)|].
    rewrite Hl in Hc. exact (cycle_next m k x r Hc). }
  exists n. split; [done|]. by apply (loop_safe_next_visits head body J l k).
Qed.

Lemma list_for_each_safe_nodes head body J l fuel m a :
  cycle m (head :: l) → keeps_rest head body J l → J l m a → (List.length l < fuel)%nat →
  list_for_each_safe head body fuel m a = visit body l m a.
Proof.
  intros Hc Hk Hm Hf. destruct (list_for_each_safe_next head body J l [] l fuel m a) as (n & Hn & Hv); try done.
  unfold list_for_each_safe. rewrite (cycle_first m head l Hc). cbn. by rewrite Hn.
Qed.

(** The [_safe] traversals run their body on every entry that the list had when they
    began, once and in order, when the body removes (and frees) the entry it is given, as
    long as it leaves the entries still to come on the list. *)
Theorem list_for_each_safe_visits off head body J l fuel m a :
  cycle m (head :: l) → keeps_rest head body J l → J l m a → (List.length l < fuel)%nat →
  list_for_each_safe head body fuel m a = visit body l m a
  ∧ list_for_each_entry_safe off head (λ p m a, body (p + off) m a) fuel m a = visit body l m a.
Proof.
  intros Hc Hk Hm Hf. pose proof (list_for_each_safe_nodes head body J l fuel m a Hc Hk Hm Hf) as Hv.
  split; [exact Hv|]. rewrite <- Hv. unfold list_for_each_safe, list_for_each_entry_safe, list_entry, container_of.
  rewrite (cycle_first m head l Hc). cbn [mbind option_bind]. rewrite Z.sub_add.
  destruct (get_next _ m) as [n|]; [cbn|done]. apply loop_entry_safe_loop.
Qed.

(** The variants that go on after an entry of the list, or from it. *)
Lemma list_for_each_entry_safe_from_visits off head body J l1 e l2 fuel m a :
  let l := l1 ++ e :: l2 in
  let ebody := λ p m a, body (p + off) m a in
  cycle m (head :: l) → keeps_rest head body J l → (List.length l < fuel)%nat →
  (J l2 m a → list_for_each_entry_safe_continue off head ebody fuel (list_entry e off) m a = visit body l2 m a)
  ∧ (J (e :: l2) m a →
     list_for_each_entry_safe_from off head ebody fuel (list_entry e off) m a = visit body (e :: l2) m a).
Proof.
  intros l ebody Hc Hk Hf. unfold l in Hf. rewrite length_app in Hf.
  assert (list_entry e off + off = e) as He by (unfold list_entry, container_of; lia).
  unfold list_for_each_entry_safe_continue, list_for_each_entry_safe_from.
  rewrite He, (cycle_next m l1 e l2 Hc). cbn [mbind option_bind].
  split; intros Hm.
  - destruct (list_for_each_safe_next head body J l (l1 ++ [e]) l2 fuel m a) as (n & Hn & Hv);
      [done|done|done|unfold l; by rewrite <- app_assoc|cbn in Hf; lia|].
    unfold list_entry at 1, container_of at 1. rewrite Z.sub_add, Hn. cbn. rewrite <- Hv.
    apply loop_entry_safe_loop.
  - destruct (list_for_each_safe_next head body J l l1 (e :: l2) fuel m a) as (n & Hn & Hv);
      [done|done|done|done|cbn in *; lia|].
    cbn [hd] in Hn. rewrite (cycle_next m l1 e l2 Hc) in Hn. injection Hn as <-. rewrite <- Hv.
    apply loop_entry_safe_loop.
Qed.
End Macros.

(** Emptying a list: each entry is unlinked and freed, and counted. *)
Definition drain_body : traversal_body nat unit := λ p m n,
  m ← list_del p m;
  Some (inl (heap_free p m, S n)).
Lemma drain_keeps hd l : NoDup (hd :: l) → keeps_rest hd drain_body (λ r m _, heap_has m [hd :: r] []) l.
Proof.
  intros Hd. split; [done|]. split; [intros r m a Hh; exists []; exact (Forall_inv (hh_cycles _ _ _ Hh))|].
  intros p r m a m' a' Hh. unfold drain_body. destruct (del_heap m [] [] p hd [] r Hh) as (m1 & -> & Hh1).
  intros [= <- _]. by apply heap_free_has.
Qed.
Definition drain_heap : heap :=
  mk_heap (list_to_map [(10, 11); (11, 12); (12, 10)]) (list_to_map [(10, 12); (11, 10); (12, 11)]).
Lemma drain_heap_has : heap_has drain_heap [[10; 11; 12]] [].
Proof.
  split.
  - cbn. repeat (apply NoDup_cons; split; [set_solver|]). apply NoDup_nil_2.
  - repeat constructor.
  - constructor.
Qed.
Lemma list_for_each_safe_visits_witness :
  list_for_each_safe 10 drain_body 3 drain_heap 0%nat = visit drain_body [11; 12] drain_heap 0%nat
  ∧ (∀ r, visit drain_body [11; 12] drain_heap 0%nat = r →
      match r with Some (inl (m, n)) => m = mk_heap {[10 := 10]} {[10 := 10]} ∧ n = 2%nat | _ => False end).
Proof.
  split.
  - apply (list_for_each_safe_visits 0 10 drain_body (λ r m _, heap_has m [10 :: r] []) [11; 12]).
    + exact (Forall_inv (hh_cycles _ _ _ drain_heap_has)).
    + apply drain_keeps. repeat (apply NoDup_cons; split; [set_solver|]). apply NoDup_nil_2.
    + exact drain_heap_has.
    + cbn. lia.
  - intros r <-. vm_compute. split; reflexivity.
Defined.
