(* ===== verification/HashList.v ===== *)
(** The lists with a single-pointer head of [src/list.h], for hash tables.

    [pprev] of a node is the address of the pointer that points to it: the [first] of a
    head or the [next] of another node ([slot]). A list is the sequence of its nodes
    ([hseg]); [hheap_has] says that the heap holds some lists and loose nodes, apart. *)

From S2P Require Import Prelude LinkedList.
#[local] Set Warnings "-clear-no-such-hyp".

Definition NULL : ptr := 0.
(** The address of a pointer: [&h->first], [&n->next], null or a poison value. *)
Inductive slot := First (h : ptr) | Next (n : ptr) | Null_slot | Poison_slot (v : ptr).
Record hheap := mk_hheap {
  hh_first : gmap ptr ptr;
  hh_next : gmap ptr ptr;
  hh_pprev : gmap ptr slot;
}.

Definition get_first (h : ptr) (m : hheap) : option ptr := hh_first m !! h.
Definition get_hnext (n : ptr) (m : hheap) : option ptr := hh_next m !! n.
Definition get_pprev (n : ptr) (m : hheap) : option slot := hh_pprev m !! n.
Definition set_first (h v : ptr) (m : hheap) : option hheap :=
  match hh_first m !! h with
  | Some _ => Some (mk_hheap (<[h:=v]> (hh_first m)) (hh_next m) (hh_pprev m)) | None => None
  end.
Definition set_hnext (n v : ptr) (m : hheap) : option hheap :=
  match hh_next m !! n with
  | Some _ => Some (mk_hheap (hh_first m) (<[n:=v]> (hh_next m)) (hh_pprev m)) | None => None
  end.
Definition set_pprev (n : ptr) (v : slot) (m : hheap) : option hheap :=
  match hh_pprev m !! n with
  | Some _ => Some (mk_hheap (hh_first m) (hh_next m) (<[n:=v]> (hh_pprev m))) | None => None
  end.
(** [calloc] of an object with a node at [p]. *)
Definition hheap_alloc (p : ptr) (m : hheap) : hheap :=
  mk_hheap (hh_first m) (<[p:=NULL]> (hh_next m)) (<[p:=Null_slot]> (hh_pprev m)).
(** [*pprev] as a load and as a store. *)
Definition get_slot (s : slot) (m : hheap) : option ptr :=
  match s with First h => get_first h m | Next n => get_hnext n m | _ => None end.
Definition set_slot (s : slot) (v : ptr) (m : hheap) : option hheap :=
  match s with First h => set_first h v m | Next n => set_hnext n v m | _ => None end.

(** ** The functions of the header *)

Definition INIT_HLIST_HEAD (h : ptr) (m : hheap) : option hheap := set_first h NULL m.

Definition INIT_HLIST_NODE (h : ptr) (m : hheap) : option hheap :=
  m ← set_hnext h NULL m;
  set_pprev h Null_slot m.

Definition hlist_unhashed (h : ptr) (m : hheap) : option bool :=
  pprev ← get_pprev h m;
  Some (match pprev with Null_slot => true | _ => false end).

Definition hlist_empty (h : ptr) (m : hheap) : option bool :=
  first ← get_first h m;
  Some (first =? NULL).

Definition __hlist_del (n : ptr) (m : hheap) : option hheap :=
  next ← get_hnext n m;
  pprev ← get_pprev n m;
  m ← set_slot pprev next m;
  if negb (next =? NULL) then set_pprev next pprev m else Some m.

Definition hlist_del (n : ptr) (m : hheap) : option hheap :=
  m ← __hlist_del n m;
  m ← set_hnext n LIST_POISON1 m;
  set_pprev n (Poison_slot LIST_POISON2) m.

Definition hlist_del_init (n : ptr) (m : hheap) : option hheap :=
  unhashed ← hlist_unhashed n m;
  if negb unhashed then
    m ← __hlist_del n m;
    INIT_HLIST_NODE n m
  else Some m.

Definition hlist_add_head (n h : ptr) (m : hheap) : option hheap :=
  first ← get_first h m;
  m ← set_hnext n first m;
  m ← (if negb (first =? NULL) then set_pprev first (Next n) m else Some m);
  m ← set_first h n m;
  set_pprev n (First h) m.

Definition hlist_add_before (n next : ptr) (m : hheap) : option hheap :=
  pprev ← get_pprev next m;
  m ← set_pprev n pprev m;
  m ← set_hnext n next m;
  m ← set_pprev next (Next n) m;
  pprev ← get_pprev n m;
  set_slot pprev n m.

Definition hlist_add_after (n next : ptr) (m : hheap) : option hheap :=
  n_next ← get_hnext n m;
  m ← set_hnext next n_next m;
  m ← set_hnext n next m;
  m ← set_pprev next (Next n) m;
  next_next ← get_hnext next m;
  if negb (next_next =? NULL) then set_pprev next_next (Next next) m else Some m.

Definition hlist_move_list (old new : ptr) (m : hheap) : option hheap :=
  first ← get_first old m;
  m ← set_first new first m;
  new_first ← get_first new m;
  m ← (if negb (new_first =? NULL) then set_pprev new_first (First new) m else Some m);
  set_first old NULL m.

(** ** Traversals *)
Section Traversals.
Context {A R : Type}.
Definition hloop_body : Type := ptr → hheap → A → option (hheap * A + hheap * R).

(** [for (; pos; pos = pos->next)], with the prefetch of the next node. *)
Fixpoint hloop (body : hloop_body) (fuel : nat) (pos : ptr) (m : hheap) (a : A)
  : option (hheap * A + hheap * R) :=
  match fuel with
  | O => None
  | S fuel =>
      if pos =? NULL then Some (inl (m, a))
      else
        _ ← get_hnext pos m;
        r ← body pos m a;
        match r with
        | inr r => Some (inr r)
        | inl (m, a) => pos ← get_hnext pos m; hloop body fuel pos m a
        end
  end.
(** The successor is loaded before the body. *)
Fixpoint hloop_safe (body : hloop_body) (fuel : nat) (pos : ptr) (m : hheap) (a : A)
  : option (hheap * A + hheap * R) :=
  match fuel with
  | O => None
  | S fuel =>
      if pos =? NULL then Some (inl (m, a))
      else
        n ← get_hnext pos m;
        r ← body pos m a;
        match r with
        | inr r => Some (inr r)
        | inl (m, a) => hloop_safe body fuel n m a
        end
  end.

Definition hlist_for_each (head : ptr) (body : hloop_body) (fuel : nat) (m : hheap) (a : A) :=
  pos ← get_first head m;
  hloop body fuel pos m a.
Definition hlist_for_each_safe (head : ptr) (body : hloop_body) (fuel : nat) (m : hheap) (a : A) :=
  pos ← get_first head m;
  hloop_safe body fuel pos m a.

(** The variants with a cursor [tpos] on the object that has the node at offset [off]: the
    body gets the object. *)
Definition hlist_entry (p off : ptr) : ptr := container_of p off.
Definition entry_body (off : ptr) (body : hloop_body) : hloop_body := λ pos, body (hlist_entry pos off).
Definition hlist_for_each_entry (off head : ptr) (body : hloop_body) (fuel : nat) (m : hheap) (a : A) :=
  pos ← get_first head m;
  hloop (entry_body off body) fuel pos m a.
Definition hlist_for_each_entry_continue (off : ptr) (body : hloop_body) (fuel : nat) (pos : ptr)
  (m : hheap) (a : A) :=
  pos ← get_hnext pos m;
  hloop (entry_body off body) fuel pos m a.
Definition hlist_for_each_entry_from (off : ptr) (body : hloop_body) (fuel : nat) (pos : ptr)
  (m : hheap) (a : A) :=
  hloop (entry_body off body) fuel pos m a.
Definition hlist_for_each_entry_safe (off head : ptr) (body : hloop_body) (fuel : nat) (m : hheap) (a : A) :=
  pos ← get_first head m;
  hloop_safe (entry_body off body) fuel pos m a.
End Traversals.
Arguments hloop_body : clear implicits.

(** ** Sequences of nodes on the heap *)

Definition halloc (m : hheap) (n : ptr) : Prop := is_Some (hh_next m !! n) ∧ is_Some (hh_pprev m !! n).

(** The pointer at [s] leads through the nodes [l] to null. *)
Fixpoint hseg (m : hheap) (s : slot) (l : list ptr) : Prop :=
  match l with
  | [] => get_slot s m = Some NULL
  | x :: l => x ≠ NULL ∧ get_slot s m = Some x ∧ hh_pprev m !! x = Some s ∧ hseg m (Next x) l
  end.

(** The heap holds the lists [L], each with its head, and the loose nodes [F]. *)
Record hheap_has (m : hheap) (L : list (ptr * list ptr)) (F : list ptr) : Prop := {
  hl_heads : NoDup (map fst L);
  hl_apart : NoDup (concat (map snd L) ++ F);
  hl_segs : Forall (λ hl, hseg m (First (fst hl)) (snd hl)) L;
  hl_loose : Forall (λ n, n ≠ NULL ∧ halloc m n) F;
}.

(** ** Loads after stores *)
#[export] Instance slot_eq_dec : EqDecision slot.
Proof. solve_decision. Defined.

Definition put_slot (s : slot) (v : ptr) (m : hheap) : hheap :=
  match s with
  | First h => mk_hheap (<[h:=v]> (hh_first m)) (hh_next m) (hh_pprev m)
  | Next n => mk_hheap (hh_first m) (<[n:=v]> (hh_next m)) (hh_pprev m)
  | _ => m
  end.
Definition put_pprev (n : ptr) (v : slot) (m : hheap) : hheap :=
  mk_hheap (hh_first m) (hh_next m) (<[n:=v]> (hh_pprev m)).

Lemma set_slot_ok s v m : is_Some (get_slot s m) → set_slot s v m = Some (put_slot s v m).
Proof. destruct s; cbn; unfold get_first, get_hnext, set_first, set_hnext; intros [? E]; by rewrite ?E. Qed.
Lemma set_pprev_ok n v m : is_Some (hh_pprev m !! n) → set_pprev n v m = Some (put_pprev n v m).
Proof. unfold set_pprev. intros [? ->]. done. Qed.
Lemma set_first_slot h v m : set_first h v m = set_slot (First h) v m.
Proof. done. Qed.
Lemma set_hnext_slot n v m : set_hnext n v m = set_slot (Next n) v m.
Proof. done. Qed.
Lemma get_first_slot h m : get_first h m = get_slot (First h) m.
Proof. done. Qed.
Lemma get_hnext_slot n m : get_hnext n m = get_slot (Next n) m.
Proof. done. Qed.

Lemma get_put_slot_eq s v m : is_Some (get_slot s m) → get_slot s (put_slot s v m) = Some v.
Proof.
  destruct s; cbn; unfold get_first, get_hnext; intros [? E]; cbn; by rewrite ?lookup_insert_eq.
Qed.
Lemma get_put_slot_ne s t v m : t ≠ s → get_slot t (put_slot s v m) = get_slot t m.
Proof.
  destruct s, t; cbn; unfold get_first, get_hnext; cbn; intros Hne; try done;
    apply lookup_insert_ne; congruence.
Qed.
Lemma get_put_pprev n v t m : get_slot t (put_pprev n v m) = get_slot t m.
Proof. by destruct t. Qed.
Lemma pprev_put_slot s v m : hh_pprev (put_slot s v m) = hh_pprev m.
Proof. by destruct s. Qed.
Lemma pprev_put_eq n v m : hh_pprev (put_pprev n v m) !! n = Some v.
Proof. apply lookup_insert_eq. Qed.
Lemma pprev_put_ne n n' v m : n' ≠ n → hh_pprev (put_pprev n v m) !! n' = hh_pprev m !! n'.
Proof. intros Hne. by apply lookup_insert_ne. Qed.
Lemma get_put_slot_some s t v m : is_Some (get_slot t m) → is_Some (get_slot t (put_slot s v m)).
Proof.
  intros Ht. destruct (decide (t = s)) as [->|]; [rewrite get_put_slot_eq by done; eauto|].
  by rewrite get_put_slot_ne.
Qed.
Lemma pprev_put_some n n' v m : is_Some (hh_pprev m !! n') → is_Some (hh_pprev (put_pprev n v m) !! n').
Proof. intros Hn. cbn. apply lookup_insert_is_Some'. by right. Qed.
Lemma get_put_pprev_some n v t m : is_Some (get_slot t m) → is_Some (get_slot t (put_pprev n v m)).
Proof. by rewrite get_put_pprev. Qed.
Lemma pprev_put_slot_some s v n m : is_Some (hh_pprev m !! n) → is_Some (hh_pprev (put_slot s v m) !! n).
Proof. by rewrite pprev_put_slot. Qed.
Create HintDb hlist.
#[export] Hint Resolve get_put_slot_some pprev_put_some get_put_pprev_some pprev_put_slot_some : hlist.

#[global] Arguments get_slot : simpl never.
#[global] Arguments set_slot : simpl never.
#[global] Arguments put_slot : simpl never.
#[global] Arguments put_pprev : simpl never.

(** What changed: the pointers [ss] and the [pprev] of the nodes [ns]. *)
Record hchange (m m' : hheap) (ss : list slot) (ns : list ptr) : Prop := {
  hc_slot : ∀ t, t ∉ ss → get_slot t m' = get_slot t m;
  hc_pprev : ∀ n, n ∉ ns → hh_pprev m' !! n = hh_pprev m !! n;
  hc_alloc : ∀ n, halloc m n → halloc m' n;
}.

Lemma hseg_frame m m' ss ns s l : hchange m m' ss ns → (∀ t, t ∈ s :: map Next l → t ∉ ss) →
  (∀ n, n ∈ l → n ∉ ns) → hseg m s l → hseg m' s l.
Proof.
  intros [Hs Hp _]. revert s. induction l as [|x l IH]; intros s Hss Hns; cbn.
  - rewrite Hs by (apply Hss; left). done.
  - rewrite Hs by (apply Hss; left). rewrite Hp by (apply Hns; left).
    intros (? & ? & ? & ?). split_and!; [done..|]. apply IH; [| |done].
    + intros t Ht. apply Hss. by right.
    + intros n Hn. apply Hns. by right.
Qed.

(** The pointer after the nodes [l]. *)
Fixpoint end_slot (s : slot) (l : list ptr) : slot :=
  match l with [] => s | x :: l => end_slot (Next x) l end.
Fixpoint hpath (m : hheap) (s : slot) (l : list ptr) : Prop :=
  match l with
  | [] => True
  | x :: l => x ≠ NULL ∧ get_slot s m = Some x ∧ hh_pprev m !! x = Some s ∧ hpath m (Next x) l
  end.
Lemma hseg_app m s l1 l2 : hseg m s (l1 ++ l2) ↔ hpath m s l1 ∧ hseg m (end_slot s l1) l2.
Proof. revert s. induction l1 as [|x l1 IH]; intros s; cbn; [tauto|]. rewrite IH. tauto. Qed.
Lemma end_slot_in s l : end_slot s l = s ∨ ∃ x, x ∈ l ∧ end_slot s l = Next x.
Proof.
  revert s. induction l as [|x l IH]; intros s; cbn; [by left|]. right.
  destruct (IH (Next x)) as [->|(y & Hy & ->)]; [exists x|exists y]; split; try done; [left|by right].
Qed.
(** The path to the end pointer does not depend on it. *)
Lemma hpath_frame m m' ns s l : hchange m m' (end_slot s l :: map Next ns) ns → (∀ n, n ∈ l → n ∉ ns) →
  NoDup (s :: map Next l) → s ∉ map Next ns → hpath m s l → hpath m' s l.
Proof.
  intros [Hs Hp _]. revert s Hs. induction l as [|x l IH]; intros s Hs Hns Hd Hsn; cbn; [done|].
  apply NoDup_cons in Hd as [Hn Hd]. cbn in *. rewrite Hs.
  - rewrite Hp by (apply Hns; left). intros (? & ? & ? & ?). split_and!; [done..|].
    apply IH; [done| |done| |done].
    + intros n Hin. apply Hns. by right.
    + intros (y & [= ->] & Hy)%list_elem_of_fmap. eapply Hns; [|exact Hy]. left.
  - intros [E|Hin]%elem_of_cons; [|done]. apply Hn. rewrite E.
    destruct (end_slot_in (Next x) l) as [->|(y & Hy & ->)]; [left|right]. by apply list_elem_of_fmap_2.
Qed.
Lemma NoDup_slots h l : NoDup l → NoDup (First h :: map Next l).
Proof.
  intros Hd. apply NoDup_cons. split.
  - intros (y & E & _)%list_elem_of_fmap. done.
  - apply (NoDup_fmap_2_strong Next); [|done]. by intros x y _ _ [= ->].
Qed.

(** An operation on the nodes from some pointer of a list on. *)
Lemma hseg_context m m' h l1 l2 l2' ns :
  hseg m (First h) (l1 ++ l2) → NoDup l1 → (∀ n, n ∈ l1 → n ∉ ns) →
  hchange m m' (end_slot (First h) l1 :: map Next ns) ns → hseg m' (end_slot (First h) l1) l2' →
  hseg m' (First h) (l1 ++ l2').
Proof.
  intros [Hp Hs]%hseg_app Hd Hns Hc Hs'. apply hseg_app. split; [|done].
  eapply hpath_frame; [done|done|by apply NoDup_slots| |done].
  by intros (y & E & _)%list_elem_of_fmap.
Qed.
Lemma hseg_some m s l : hseg m s l → is_Some (get_slot s m).
Proof. destruct l; cbn; [eauto|]. intros (_ & ? & _). eauto. Qed.
Lemma hseg_halloc m s l n : hseg m s l → n ∈ l → n ≠ NULL ∧ halloc m n.
Proof.
  revert s. induction l as [|x l IH]; intros s; [by intros _ ?%elem_of_nil|].
  cbn. intros (? & ? & Hp & Hs) [->|Hin]%elem_of_cons; [|by eapply IH].
  split; [done|]. split; [|by eexists]. destruct (hseg_some _ _ _ Hs) as [v Hv]. by exists v.
Qed.

(** ** The operations on the nodes from a pointer on *)
Definition hleaves (m : hheap) (r : option hheap) (s : slot) (ns : list ptr) (l : list ptr) : Prop :=
  ∃ m', r = Some m' ∧ hchange m m' (s :: map Next ns) ns ∧ hseg m' s l.

Ltac hput :=
  repeat first
    [ rewrite get_put_pprev | rewrite pprev_put_slot | rewrite pprev_put_eq
    | rewrite pprev_put_ne by congruence
    | rewrite get_put_slot_eq by eauto with hlist
    | rewrite get_put_slot_ne by congruence ].
Lemma hchange_refl m ss ns : hchange m m ss ns.
Proof. by split. Qed.
Lemma hchange_put_slot m0 m ss ns s v : hchange m0 m ss ns → s ∈ ss → hchange m0 (put_slot s v m) ss ns.
Proof.
  intros [Hs Hp Ha] Hin. split.
  - intros t Ht. rewrite get_put_slot_ne; [by apply Hs|]. by intros ->.
  - intros n Hn. rewrite pprev_put_slot. by apply Hp.
  - intros n Hn. destruct (Ha n Hn) as [Hn1 Hn2]. split; [|by rewrite pprev_put_slot].
    apply (get_put_slot_some s (Next n)). exact Hn1.
Qed.
Lemma hchange_put_pprev m0 m ss ns n v : hchange m0 m ss ns → n ∈ ns → hchange m0 (put_pprev n v m) ss ns.
Proof.
  intros [Hs Hp Ha] Hin. split.
  - intros t Ht. rewrite get_put_pprev. by apply Hs.
  - intros x Hx. rewrite pprev_put_ne; [by apply Hp|]. by intros ->.
  - intros x Hx. destruct (Ha x Hx) as [Hn1 Hn2]. split; [exact Hn1|]. by apply pprev_put_some.
Qed.
Lemma hchange_mono m m' ss ns ss' ns' : hchange m m' ss ns → ss ⊆ ss' → ns ⊆ ns' → hchange m m' ss' ns'.
Proof.
  intros [Hs Hp Ha] Hss Hns. split; [|  |done]; intros x Hx; [apply Hs|apply Hp]; set_solver.
Qed.


Lemma hlist_del_seg m s x l : hseg m s (x :: l) → s ∉ map Next (x :: l) → NoDup (x :: l) →
  hleaves m (__hlist_del x m) s (x :: l) l.
Proof.
  intros (Hx & Hs & Hp & Hl) Hns Hd. apply NoDup_cons in Hd as [Hxl Hd]. cbn in Hns.
  apply not_elem_of_cons in Hns as [Hsx Hns].
  unfold __hlist_del, get_pprev. destruct l as [|y l].
  - cbn in Hl. rewrite get_hnext_slot, Hl, Hp. cbn [mbind option_bind]. rewrite set_slot_ok by eauto. cbn.
    eexists. split; [done|]. split; [|cbn; by hput].
    apply hchange_put_slot; [apply hchange_refl|left].
  - destruct Hl as (Hy & Hxy & Hpy & Hl). rewrite get_hnext_slot, Hxy, Hp. cbn [mbind option_bind].
    rewrite set_slot_ok by eauto. cbn [mbind option_bind].
    apply Z.eqb_neq in Hy as Hy'. rewrite Hy'. cbn [negb].
    rewrite set_pprev_ok by (rewrite pprev_put_slot; eauto).
    assert (hchange m (put_pprev y s (put_slot s y m)) [s] [y]) as Hc.
    { apply hchange_put_pprev; [|left]. apply hchange_put_slot; [apply hchange_refl|left]. }
    eexists. split; [done|]. split; [eapply hchange_mono; [exact Hc|set_solver|set_solver]|].
    cbn. apply NoDup_cons in Hd as [Hyl Hd]. split_and!; [done|by hput|by hput|].
    eapply hseg_frame; [exact Hc| | |exact Hl].
    + intros t Ht ->%list_elem_of_singleton. apply Hns. exact Ht.
    + intros n Hn ->%list_elem_of_singleton. done.
Qed.

(** Stores whose pointers are valid, and what they change. *)
Ltac hstore :=
  repeat first
    [ progress cbn [mbind option_bind negb]
    | rewrite set_first_slot | rewrite set_hnext_slot
    | rewrite set_slot_ok by eauto with hlist
    | rewrite set_pprev_ok by eauto with hlist ].
Ltac hchanged :=
  repeat first [apply hchange_put_pprev; [|set_solver] | apply hchange_put_slot; [|set_solver]];
  apply hchange_refl.

(** [n] comes to stand before the nodes [l], whatever the order of the stores. *)
Lemma inserted m m' s n l : hseg m s l → n ≠ NULL → n ∉ l → s ∉ map Next (n :: l) → NoDup l →
  get_slot s m' = Some n → hh_pprev m' !! n = Some s →
  get_slot (Next n) m' = Some (List.hd NULL l) →
  (∀ y l', l = y :: l' → hh_pprev m' !! y = Some (Next n)) →
  hchange m m' [s; Next n] (n :: take 1 l) →
  hseg m' s (n :: l).
Proof.
  intros Hl Hn Hnl Hs Hd H1 H2 H3 H4 Hc. cbn. split_and!; [done..|].
  destruct l as [|y l]; [exact H3|]. cbn in *. destruct Hl as (Hy & _ & _ & Hl).
  split_and!; [done|done|by eapply H4|]. apply NoDup_cons in Hd as [Hyl Hd].
  eapply hseg_frame; [exact Hc| | |exact Hl].
  - intros t Ht [->|[->|?%elem_of_nil]%elem_of_cons]%elem_of_cons; [set_solver| |done].
    apply elem_of_cons in Ht as [[= ->]|(z & [= ->] & Hz)%list_elem_of_fmap]; set_solver.
  - intros x Hx. set_solver.
Qed.
Lemma insert_leaves m m' s n l : hseg m s l → n ≠ NULL → n ∉ l → s ∉ map Next (n :: l) → NoDup l →
  get_slot s m' = Some n → hh_pprev m' !! n = Some s →
  get_slot (Next n) m' = Some (List.hd NULL l) →
  (∀ y l', l = y :: l' → hh_pprev m' !! y = Some (Next n)) →
  hchange m m' [s; Next n] (n :: take 1 l) →
  hleaves m (Some m') s (n :: l) (n :: l).
Proof.
  intros. exists m'. split; [done|]. split; [|by eapply inserted].
  eapply hchange_mono; [done| |].
  - cbn. set_solver.
  - intros x Hx. apply elem_of_cons in Hx as [->|Hx]; [left|right]. destruct l; set_solver.
Qed.
Lemma first_or_null m s l : hseg m s l → get_slot s m = Some (List.hd NULL l).
Proof. destruct l; cbn; tauto. Qed.

Lemma hlist_add_head_seg m h l n : hseg m (First h) l → n ≠ NULL → halloc m n → NoDup (n :: l) →
  hleaves m (hlist_add_head n h m) (First h) (n :: l) (n :: l).
Proof.
  intros Hl Hn [Hn1 Hn2] Hd. apply NoDup_cons in Hd as [Hnl Hd].
  assert (First h ∉ map Next (n :: l)) as Hs by (intros (y & E & _)%list_elem_of_fmap; done).
  assert (is_Some (get_slot (Next n) m)) as Hsn by exact Hn1.
  assert (First h ≠ Next n) by done.
  pose proof (hseg_some _ _ _ Hl) as Hsome. pose proof (first_or_null _ _ _ Hl) as Hf.
  unfold hlist_add_head. rewrite get_first_slot, Hf. cbn [mbind option_bind].
  destruct l as [|y l]; cbn [List.hd] in *.
  - change (NULL =? NULL) with true. hstore.
    apply insert_leaves; [done..| | | |by intros|]; hput; [done..|hchanged].
  - destruct Hl as (Hy & Hl'). apply Z.eqb_neq in Hy as Hy'. rewrite Hy'.
    assert (is_Some (hh_pprev m !! y)) by naive_solver. assert (n ≠ y) by set_solver. hstore.
    apply insert_leaves; [done..| | | |intros ? ? [= <- <-]|]; hput; [done..|hchanged].
Qed.

Lemma hlist_add_before_seg m s y l n : hseg m s (y :: l) → n ≠ NULL → halloc m n → NoDup (n :: y :: l) →
  s ∉ map Next (n :: y :: l) → hleaves m (hlist_add_before n y m) s (n :: y :: l) (n :: y :: l).
Proof.
  intros Hl Hn [Hn1 Hn2] Hd Hs. apply NoDup_cons in Hd as [Hnl Hd].
  assert (is_Some (get_slot (Next n) m)) as Hsn by exact Hn1.
  assert (s ≠ Next n) by set_solver. assert (n ≠ y) by set_solver.
  pose proof (hseg_some _ _ _ Hl) as Hsome. destruct Hl as (Hy & Hsy & Hpy & Hl).
  assert (is_Some (hh_pprev m !! y)) by naive_solver.
  unfold hlist_add_before, get_pprev. rewrite Hpy. hstore. hput. hstore.
  apply insert_leaves; [done..| | | |intros ? ? [= <- <-]|]; hput; [done..|hchanged].
Qed.

(** [hlist_add_after n next]: [next] comes to stand after [n]. *)
Lemma hlist_add_after_seg m n l next : hseg m (Next n) l → next ≠ NULL → halloc m next →
  NoDup (n :: next :: l) →
  hleaves m (hlist_add_after n next m) (Next n) (next :: l) (next :: l).
Proof.
  intros Hl Hn [Hn1 Hn2] Hd. apply NoDup_cons in Hd as [Hnl Hd]. apply NoDup_cons in Hd as [Hxl Hd].
  assert (is_Some (get_slot (Next next) m)) as Hsn by exact Hn1.
  assert (Next n ≠ Next next) by set_solver.
  pose proof (hseg_some _ _ _ Hl) as Hsome. pose proof (first_or_null _ _ _ Hl) as Hf.
  assert (Next n ∉ map Next (next :: l)) as Hs.
  { intros (y & [= ->] & Hy)%list_elem_of_fmap. set_solver. }
  unfold hlist_add_after. rewrite !get_hnext_slot, Hf. hstore. rewrite get_hnext_slot. hput. hstore.
  destruct l as [|y l]; cbn [List.hd] in *.
  - change (NULL =? NULL) with true. cbn [negb].
    apply insert_leaves; [done..| | | |by intros|]; hput; [done..|hchanged].
  - destruct Hl as (Hy & Hl'). apply Z.eqb_neq in Hy as Hy'. rewrite Hy'.
    assert (is_Some (hh_pprev m !! y)) by naive_solver. assert (next ≠ y) by set_solver. hstore.
    apply insert_leaves; [done..| | | |intros ? ? [= <- <-]|]; hput; [done..|hchanged].
Qed.

(** A list moves from one head to another. *)
Lemma hlist_move_list_seg m old new l : hseg m (First old) l → is_Some (get_slot (First new) m) →
  old ≠ new → NoDup l →
  ∃ m', hlist_move_list old new m = Some m' ∧ hchange m m' [First old; First new] (take 1 l) ∧
    hseg m' (First new) l ∧ hseg m' (First old) [].
Proof.
  intros Hl Hnew Hne Hd. assert (First old ≠ First new) by congruence.
  pose proof (hseg_some _ _ _ Hl) as Hsome. pose proof (first_or_null _ _ _ Hl) as Hf.
  unfold hlist_move_list. rewrite !get_first_slot, Hf. hstore. rewrite get_first_slot. hput. hstore.
  destruct l as [|y l]; cbn [List.hd] in *.
  - change (NULL =? NULL) with true. hstore. eexists. split; [done|]. split; [hchanged|].
    cbn. by split; hput.
  - destruct Hl as (Hy & _ & Hpy & Hl). apply Z.eqb_neq in Hy as Hy'. rewrite Hy'.
    assert (is_Some (hh_pprev m !! y)) by naive_solver. hstore.
    eexists. split; [done|]. split; [cbn; hchanged|]. cbn. split; [|by hput].
    split_and!; [done|by hput|by hput|]. apply NoDup_cons in Hd as [Hyl Hd].
    eapply (hseg_frame _ _ [First old; First new] [y]); [hchanged| | |exact Hl].
    + intros t [->|(z & -> & Hz)%list_elem_of_fmap]%elem_of_cons; set_solver.
    + intros z Hz. set_solver.
Qed.

(** ** Lists and loose nodes on the heap *)

Lemma hheap_has_perm m L L' F F' : L ≡ₚ L' → F ≡ₚ F' → hheap_has m L F → hheap_has m L' F'.
Proof.
  intros HL HF [Hh Ha Hs Hl]. split.
  - by rewrite <- HL.
  - assert (map snd L ≡ₚ map snd L') as E by by rewrite HL.
    by rewrite <- (Permutation_concat _ _ E), <- HF.
  - by rewrite <- HL.
  - by rewrite <- HF.
Qed.
Lemma hheap_node m h l L F n : hheap_has m ((h, l) :: L) F → n ∈ l ++ F → n ≠ NULL ∧ halloc m n.
Proof.
  intros [_ _ Hs Hl] [Hin|Hin]%elem_of_app.
  - apply Forall_cons in Hs as [Hs _]. by eapply hseg_halloc.
  - by eapply Forall_forall in Hl.
Qed.
Lemma hheap_apart m h l L F0 F : hheap_has m ((h, l) :: L) (F0 ++ F) → NoDup (l ++ F0).
Proof.
  intros [_ Ha _ _]. cbn in Ha.
  assert (E : (l ++ concat (map snd L)) ++ F0 ++ F ≡ₚ (l ++ F0) ++ concat (map snd L) ++ F) by solve_Permutation.
  rewrite E in Ha. by apply NoDup_app in Ha as [Ha _].
Qed.

(** An operation on one list and some loose nodes leaves the others. *)
Lemma hheap_has_step m m' h l L F0 F l' F1 ss ns :
  hheap_has m ((h, l) :: L) (F0 ++ F) → hchange m m' ss ns →
  (∀ t, t ∈ ss → t = First h ∨ ∃ x, x ∈ l ++ F0 ∧ t = Next x) → ns ⊆ l ++ F0 →
  hseg m' (First h) l' → l' ++ F1 ≡ₚ l ++ F0 →
  hheap_has m' ((h, l') :: L) (F1 ++ F).
Proof.
  intros Hh Hc Hss Hns Hs' Hp. pose proof Hh as [Hd Ha Hs Hl].
  pose proof (λ n, hheap_node m h l L (F0 ++ F) n Hh) as Hnode. cbn in Ha, Hd.
  assert (E : (l ++ concat (map snd L)) ++ F0 ++ F ≡ₚ (l ++ F0) ++ concat (map snd L) ++ F) by solve_Permutation.
  assert (E' : (l' ++ concat (map snd L)) ++ F1 ++ F ≡ₚ (l' ++ F1) ++ concat (map snd L) ++ F) by solve_Permutation.
  rewrite E in Ha. split; cbn.
  - done.
  - by rewrite E', Hp.
  - apply Forall_cons in Hs as [_ Hs]. apply Forall_cons. split; [done|].
    apply NoDup_app in Ha as (_ & Hdis & _). apply NoDup_cons in Hd as [Hhd _].
    apply Forall_forall. intros [h2 l2] Hin. cbn.
    assert (∀ x, x ∈ l2 → x ∉ l ++ F0) as Hl2.
    { intros x Hx Hx'. apply (Hdis x Hx'), elem_of_app. left. apply elem_of_concat. exists l2.
      split; [|done]. by apply (list_elem_of_fmap_2 snd _ (h2, l2)). }
    eapply hseg_frame; [exact Hc| | |by eapply Forall_forall in Hs; [|exact Hin]].
    + intros t Ht Ht'. destruct (Hss t Ht') as [->|(x & Hx & ->)].
      * apply elem_of_cons in Ht as [[= ->]|(y & E2 & _)%list_elem_of_fmap]; [|done].
        apply Hhd. by apply (list_elem_of_fmap_2 fst _ (h2, l2)).
      * apply elem_of_cons in Ht as [?|(y & [= ->] & Hy)%list_elem_of_fmap]; [done|]. by eapply Hl2.
    + intros x Hx Hx'. eapply Hl2; [exact Hx|]. by apply Hns.
  - apply Forall_app. split; apply Forall_forall; intros n Hn.
    + assert (n ∈ l ++ F0) as Hn' by (rewrite <- Hp; set_solver).
      destruct (Hnode n ltac:(set_solver)). split; [done|]. by apply (hc_alloc _ _ _ _ Hc).
    + destruct (Hnode n ltac:(set_solver)). split; [done|]. by apply (hc_alloc _ _ _ _ Hc).
Qed.

(** The operations and what they do to the sequences. *)
Inductive hlist_op :=
  | Op_init_head (h : ptr) | Op_add_head (n h : ptr) | Op_add_before (n next : ptr)
  | Op_add_after (n next : ptr) | Op_hdel (n : ptr) | Op_hdel_init (n : ptr) | Op_move_list (old new : ptr).
Definition run_hop (op : hlist_op) : hheap → option hheap :=
  match op with
  | Op_init_head h => INIT_HLIST_HEAD h
  | Op_add_head n h => hlist_add_head n h
  | Op_add_before n next => hlist_add_before n next
  | Op_add_after n next => hlist_add_after n next
  | Op_hdel n => hlist_del n
  | Op_hdel_init n => hlist_del_init n
  | Op_move_list old new => hlist_move_list old new
  end.
Inductive habs_step : hlist_op → list (ptr * list ptr) → list ptr → list (ptr * list ptr) → list ptr → Prop :=
  | habs_perm op L L1 F F1 L' F' : L ≡ₚ L1 → F ≡ₚ F1 → habs_step op L1 F1 L' F' → habs_step op L F L' F'
  | habs_init_head h l L F : habs_step (Op_init_head h) ((h, l) :: L) F ((h, []) :: L) (l ++ F)
  | habs_add_head n h l L F : habs_step (Op_add_head n h) ((h, l) :: L) (n :: F) ((h, n :: l) :: L) F
  | habs_add_before n x h l1 l2 L F :
      habs_step (Op_add_before n x) ((h, l1 ++ x :: l2) :: L) (n :: F) ((h, l1 ++ n :: x :: l2) :: L) F
  | habs_add_after x n h l1 l2 L F :
      habs_step (Op_add_after x n) ((h, l1 ++ x :: l2) :: L) (n :: F) ((h, l1 ++ x :: n :: l2) :: L) F
  | habs_del x h l1 l2 L F :
      habs_step (Op_hdel x) ((h, l1 ++ x :: l2) :: L) F ((h, l1 ++ l2) :: L) (x :: F)
  | habs_del_init x h l1 l2 L F :
      habs_step (Op_hdel_init x) ((h, l1 ++ x :: l2) :: L) F ((h, l1 ++ l2) :: L) (x :: F)
  | habs_move_list old new l L F :
      habs_step (Op_move_list old new) ((old, l) :: (new, []) :: L) F ((old, []) :: (new, l) :: L) F.

(** A new object is a loose node. *)
Lemma hheap_alloc_has m L F p : hheap_has m L F → p ≠ NULL → hh_next m !! p = None →
  hheap_has (hheap_alloc p m) L (p :: F).
Proof.
  intros [Hd Ha Hs Hl] Hp Hn.
  assert (hchange m (hheap_alloc p m) [Next p] [p]) as Hc.
  { split.
    - intros [h|n| |v] Ht; try done. apply lookup_insert_ne. intros ->. apply Ht. left.
    - intros n Ht. apply lookup_insert_ne. intros ->. apply Ht. left.
    - intros n [??]. split; cbn; apply lookup_insert_is_Some'; by right. }
  assert (∀ n, halloc m n → n ≠ p) as Hne.
  { intros n [[v Hv] _] ->. by rewrite Hn in Hv. }
  assert (∀ h l, (h, l) ∈ L → ∀ n, n ∈ l → n ≠ p) as Hin.
  { intros h l Hhl n Hn'. apply Hne. eapply Forall_forall in Hs; [|exact Hhl]. by eapply hseg_halloc. }
  split; [done| | |].
  - rewrite <- Permutation_middle. apply NoDup_cons. split; [|done].
    intros [(c & Hc1 & Hc2)%elem_of_concat|Hf]%elem_of_app.
    + apply list_elem_of_fmap in Hc1 as ([h l] & -> & Hhl). by eapply Hin.
    + eapply Forall_forall in Hl as [_ Hl]; [|exact Hf]. by eapply Hne.
  - apply Forall_forall. intros [h l] Hhl. eapply hseg_frame; [exact Hc| | |by eapply Forall_forall in Hs; [|exact Hhl]].
    + intros t Ht ->%list_elem_of_singleton. apply elem_of_cons in Ht as [?|(n & [= <-] & Hn')%list_elem_of_fmap]; [done|].
      by eapply Hin.
    + intros n Hn' ->%list_elem_of_singleton. by eapply Hin.
  - apply Forall_cons. split; [split; [done|split; cbn; rewrite lookup_insert_eq; eauto]|].
    eapply Forall_impl; [exact Hl|]. intros n [? Ha']. split; [done|]. by apply (hc_alloc _ _ _ _ Hc).
Qed.

Definition hbecomes (r : option hheap) (L : list (ptr * list ptr)) (F : list ptr) : Prop :=
  ∃ m', r = Some m' ∧ hheap_has m' L F.

Lemma suffix_heap m r h l1 l2 L F0 F l2' F1 ns :
  hheap_has m ((h, l1 ++ l2) :: L) (F0 ++ F) → hleaves m r (end_slot (First h) l1) ns l2' →
  ns ⊆ l2 ++ F0 → l2' ++ F1 ≡ₚ l2 ++ F0 →
  hbecomes r ((h, l1 ++ l2') :: L) (F1 ++ F).
Proof.
  intros Hh (m' & -> & Hc & Hs) Hns Hp. exists m'. split; [done|].
  pose proof (hheap_apart _ _ _ _ _ _ Hh) as Ha. rewrite <- app_assoc in Ha.
  apply NoDup_app in Ha as (Hd & Hdis & _).
  eapply hheap_has_step; [exact Hh|exact Hc| | | |].
  - intros t [->|(x & -> & Hx)%list_elem_of_fmap]%elem_of_cons; [|right; exists x; set_solver].
    destruct (end_slot_in (First h) l1) as [->|(x & Hx & ->)]; [by left|right; exists x; set_solver].
  - set_solver.
  - eapply hseg_context; [|done| |exact Hc|exact Hs].
    + exact (Forall_inv (hl_segs _ _ _ Hh)).
    + intros n Hn Hn'. by apply (Hdis n Hn), Hns.
  - rewrite <- !app_assoc. by apply Permutation_app_head.
Qed.

(** The part of a list at a position. *)
Lemma heap_suffix m h l1 l2 L F0 F : hheap_has m ((h, l1 ++ l2) :: L) (F0 ++ F) →
  hseg m (end_slot (First h) l1) l2 ∧ NoDup (l2 ++ F0) ∧ end_slot (First h) l1 ∉ map Next (l2 ++ F0).
Proof.
  intros Hh. pose proof (Forall_inv (hl_segs _ _ _ Hh)) as Hs. cbn in Hs. apply hseg_app in Hs as [_ Hs].
  pose proof (hheap_apart _ _ _ _ _ _ Hh) as Ha. rewrite <- app_assoc in Ha.
  apply NoDup_app in Ha as (_ & Hdis & Ha). split_and!; [done|done|].
  destruct (end_slot_in (First h) l1) as [->|(x & Hx & ->)]; intros (y & E & Hy)%list_elem_of_fmap; [done|].
  injection E as ->. by eapply Hdis.
Qed.

Lemma hadd_head_heap m h l n L F : hheap_has m ((h, l) :: L) (n :: F) →
  hbecomes (hlist_add_head n h m) ((h, n :: l) :: L) F.
Proof.
  intros Hh. destruct (heap_suffix m h [] l L [n] F Hh) as (Hs & Ha & Hn).
  destruct (hheap_node _ _ _ _ _ n Hh ltac:(set_solver)) as [Hn0 Hal].
  eapply (suffix_heap m _ h [] l L [n] F (n :: l) [] (n :: l) Hh).
  - apply hlist_add_head_seg; [done..|]. by rewrite Permutation_app_comm in Ha.
  - set_solver.
  - rewrite app_nil_r. apply Permutation_cons_append.
Qed.
Lemma hadd_before_heap m h l1 x l2 n L F : hheap_has m ((h, l1 ++ x :: l2) :: L) (n :: F) →
  hbecomes (hlist_add_before n x m) ((h, l1 ++ n :: x :: l2) :: L) F.
Proof.
  intros Hh. destruct (heap_suffix m h l1 (x :: l2) L [n] F Hh) as (Hs & Ha & Hn).
  destruct (hheap_node _ _ _ _ _ n Hh ltac:(set_solver)) as [Hn0 Hal].
  rewrite map_app in Hn.
  eapply (suffix_heap m _ h l1 (x :: l2) L [n] F (n :: x :: l2) [] (n :: x :: l2) Hh).
  - apply hlist_add_before_seg; [done..| |]; [by rewrite Permutation_app_comm in Ha|]. cbn in *. set_solver.
  - set_solver.
  - rewrite app_nil_r. apply Permutation_cons_append.
Qed.
Lemma hadd_after_heap m h l1 x l2 n L F : hheap_has m ((h, l1 ++ x :: l2) :: L) (n :: F) →
  hbecomes (hlist_add_after x n m) ((h, l1 ++ x :: n :: l2) :: L) F.
Proof.
  intros Hh. rewrite (cons_middle x l1 l2), app_assoc in Hh. rewrite (cons_middle x l1 (n :: l2)), app_assoc.
  destruct (heap_suffix m h (l1 ++ [x]) l2 L [n] F Hh) as (Hs & Ha & Hn).
  destruct (hheap_node _ _ _ _ _ n Hh ltac:(set_solver)) as [Hn0 Hal].
  assert (end_slot (First h) (l1 ++ [x]) = Next x) as E.
  { clear. generalize (First h). induction l1 as [|y l1 IH]; intros s; cbn; [done|apply IH]. }
  eapply (suffix_heap m _ h (l1 ++ [x]) l2 L [n] F (n :: l2) [] (n :: l2) Hh).
  - rewrite E in *. apply hlist_add_after_seg; [done..|].
    rewrite Permutation_app_comm in Ha. apply NoDup_cons. split; [|done].
    intros Hx. apply Hn. apply list_elem_of_fmap_2. set_solver.
  - set_solver.
  - rewrite app_nil_r. apply Permutation_cons_append.
Qed.
Lemma hunlink_heap m h l1 x l2 L F : hheap_has m ((h, l1 ++ x :: l2) :: L) F →
  hbecomes (__hlist_del x m) ((h, l1 ++ l2) :: L) (x :: F).
Proof.
  intros Hh. destruct (heap_suffix m h l1 (x :: l2) L [] F Hh) as (Hs & Ha & Hn).
  rewrite app_nil_r in *.
  eapply (suffix_heap m _ h l1 (x :: l2) L [] F l2 [x] (x :: l2) Hh).
  - by apply hlist_del_seg.
  - set_solver.
  - rewrite app_nil_r. symmetry. apply Permutation_cons_append.
Qed.
(** Stores to a loose node. *)
Lemma hloose_heap m L F n v s : hheap_has m L (n :: F) →
  hbecomes (m ← set_hnext n v m; set_pprev n s m) L (n :: F).
Proof.
  intros Hh. pose proof (hl_loose _ _ _ Hh) as Hl. apply Forall_cons in Hl as [[Hn [H1 H2]] Hl].
  assert (is_Some (get_slot (Next n) m)) by exact H1.
  hstore. eexists. split; [done|]. set (m' := put_pprev _ _ _).
  assert (hchange m m' [Next n] [n]) as Hc by hchanged.
  destruct Hh as [Hd Ha Hs _]. split; [done|done| |].
  - apply Forall_forall. intros [h l] Hin. cbn.
    assert (n ∉ l) as Hnl.
    { rewrite <- Permutation_middle in Ha. apply NoDup_cons in Ha as [Hna _]. intros Hx. apply Hna, elem_of_app.
      left. apply elem_of_concat. exists l. split; [|done]. by apply (list_elem_of_fmap_2 snd _ (h, l)). }
    eapply hseg_frame; [exact Hc| | |by eapply Forall_forall in Hs; [|exact Hin]].
    + intros t Ht ->%list_elem_of_singleton.
      apply elem_of_cons in Ht as [?|(y & [= ->] & Hy)%list_elem_of_fmap]; done.
    + intros x Hx ->%list_elem_of_singleton. done.
  - apply Forall_cons. split; [split; [done|by apply (hc_alloc _ _ _ _ Hc)]|].
    eapply Forall_impl; [exact Hl|]. intros x [??]. split; [done|]. by apply (hc_alloc _ _ _ _ Hc).
Qed.

Lemma hdel_heap m h l1 x l2 L F : hheap_has m ((h, l1 ++ x :: l2) :: L) F →
  hbecomes (hlist_del x m) ((h, l1 ++ l2) :: L) (x :: F).
Proof. intros (m' & Hm & Hh)%hunlink_heap. unfold hlist_del. rewrite Hm. by apply hloose_heap. Qed.
Lemma hdel_init_heap m h l1 x l2 L F : hheap_has m ((h, l1 ++ x :: l2) :: L) F →
  hbecomes (hlist_del_init x m) ((h, l1 ++ l2) :: L) (x :: F).
Proof.
  intros Hh. destruct (heap_suffix m h l1 (x :: l2) L [] F Hh) as ((_ & _ & Hp & _) & _).
  destruct (hunlink_heap _ _ _ _ _ _ _ Hh) as (m' & Hm & Hh').
  unfold hlist_del_init, hlist_unhashed, get_pprev. rewrite Hp. cbn [mbind option_bind].
  assert (negb (match end_slot (First h) l1 with Null_slot => true | _ => false end) = true) as ->.
  { by destruct (end_slot_in (First h) l1) as [->|(y & _ & ->)]. }
  rewrite Hm. by apply hloose_heap.
Qed.
Lemma hinit_head_heap m h l L F : hheap_has m ((h, l) :: L) F →
  hbecomes (INIT_HLIST_HEAD h m) ((h, []) :: L) (l ++ F).
Proof.
  intros Hh. pose proof (hseg_some _ _ _ (Forall_inv (hl_segs _ _ _ Hh))) as Hs. cbn in Hs.
  unfold INIT_HLIST_HEAD. hstore. eexists. split; [done|].
  apply (hheap_has_step m _ h l L [] F [] l [First h] []); rewrite ?app_nil_r; [done|hchanged| |set_solver| |done].
  - intros t ->%list_elem_of_singleton. by left.
  - by apply get_put_slot_eq.
Qed.
Lemma hmove_list_heap m old new l L F : hheap_has m ((old, l) :: (new, []) :: L) F →
  hbecomes (hlist_move_list old new m) ((old, []) :: (new, l) :: L) F.
Proof.
  intros Hh. pose proof (hheap_apart m old l ((new, []) :: L) [] F Hh) as Hd. rewrite app_nil_r in Hd.
  destruct Hh as [Hhd Ha Hs Hl]. apply Forall_cons in Hs as [Ho Hs]. apply Forall_cons in Hs as [Hn Hs].
  cbn in *. apply NoDup_cons in Hhd as [Hne Hhd]. apply NoDup_cons in Hhd as [Hnew Hhd].
  destruct (hlist_move_list_seg m old new l) as (m' & Hm & Hc & Hsn & Hso); [done|eauto|set_solver|done|].
  exists m'. split; [done|]. rewrite <- !app_assoc in Ha. apply NoDup_app in Ha as (Hdl & Hdis & Ha).
  split; cbn.
  - apply NoDup_cons. split; [done|]. by apply NoDup_cons.
  - rewrite <- app_assoc. by apply NoDup_app.
  - apply Forall_cons. split; [done|]. apply Forall_cons. split; [done|].
    apply Forall_forall. intros [h2 l2] Hin. cbn.
    assert (h2 ∈ map fst L) by by apply (list_elem_of_fmap_2 fst _ (h2, l2)).
    eapply hseg_frame; [exact Hc| | |by eapply Forall_forall in Hs; [|exact Hin]].
    + intros t [->|(y & -> & _)%list_elem_of_fmap]%elem_of_cons; set_solver.
    + intros x Hx Hx'. apply (Hdis x); [destruct l; set_solver|].
      apply elem_of_app. left. apply elem_of_concat. exists l2. split; [|done].
      by apply (list_elem_of_fmap_2 snd _ (h2, l2)).
  - eapply Forall_impl; [exact Hl|]. intros x [? Hx]. split; [done|]. by apply (hc_alloc _ _ _ _ Hc).
Qed.

(** Every function on the single-headed lists of [list.h] does on the heap what its
    description does on sequences, without a fault, leaving all other lists alone; [pprev]
    always is the address of the pointer to its node, which is how a node is removed
    without knowing its list. *)
Theorem hlist_ops_refine op m L F L' F' :
  hheap_has m L F → habs_step op L F L' F' → ∃ m', run_hop op m = Some m' ∧ hheap_has m' L' F'.
Proof.
  intros Hh Hs. revert m Hh. change (∀ m, hheap_has m L F → hbecomes (run_hop op m) L' F').
  induction Hs as [op L L1 F F1 L' F' HL HF Hs IH| | | | | | |]; intros m Hh; cbn [run_hop].
  - apply IH. by eapply hheap_has_perm.
  - by apply hinit_head_heap.
  - by apply hadd_head_heap.
  - by apply hadd_before_heap.
  - by apply hadd_after_heap.
  - by apply hdel_heap.
  - by apply hdel_init_heap.
  - by apply hmove_list_heap.
Qed.

(** ** Traversals visit the sequence *)
Section Visits.
Context {A R : Type} (body : hloop_body A R).

Fixpoint hvisit (l : list ptr) (m : hheap) (a : A) : option (hheap * A + hheap * R) :=
  match l with
  | [] => Some (inl (m, a))
  | p :: l =>
      r ← body p m a;
      match r with inr r => Some (inr r) | inl (m, a) => hvisit l m a end
  end.

(** The rest of a list from a pointer on; the body keeps it. *)
Definition keeps_hlist (J : hheap → A → Prop) (s : slot) (l : list ptr) : Prop :=
  (∀ m a, J m a → hseg m s l) ∧
  (∀ p m a m' a', J m a → p ∈ l → body p m a = Some (inl (m', a')) → J m' a').

Lemma hloop_visits J s l fuel m a : keeps_hlist J s l → J m a → (List.length l < fuel)%nat →
  hloop body fuel (List.hd NULL l) m a = hvisit l m a.
Proof.
  revert s l m a. induction fuel as [|fuel IH]; intros s l m a [HJs HJ] Hm Hf; [lia|].
  destruct l as [|p l]; [done|]. cbn [List.hd hloop hvisit].
  destruct (HJs _ _ Hm) as (Hp%Z.eqb_neq & _ & _ & Hs). rewrite Hp.
  rewrite get_hnext_slot, (first_or_null _ _ _ Hs). cbn [mbind option_bind].
  destruct (body p m a) as [[[m' a']|r]|] eqn:E; cbn [mbind option_bind]; [|done|done].
  assert (J m' a') as Hm' by (eapply HJ; [exact Hm|left|exact E]).
  destruct (HJs _ _ Hm') as (_ & _ & _ & Hs'). rewrite get_hnext_slot, (first_or_null _ _ _ Hs').
  apply (IH (Next p)); [|done|cbn in Hf; lia]. split.
  - intros m1 a1 Hm1. by destruct (HJs _ _ Hm1) as (_ & _ & _ & ?).
  - intros q m1 a1 m2 a2 Hm1 Hq. apply HJ; [done|by right].
Qed.

Lemma hloop_safe_visits (J : list ptr → hheap → A → Prop) l fuel m a :
  (∀ r m a, J r m a → ∃ s, hseg m s r) →
  (∀ p r m a m' a', J (p :: r) m a → body p m a = Some (inl (m', a')) → J r m' a') →
  J l m a → (List.length l < fuel)%nat →
  hloop_safe body fuel (List.hd NULL l) m a = hvisit l m a.
Proof.
  intros HJs HJ. revert l m a. induction fuel as [|fuel IH]; intros l m a Hm Hf; [lia|].
  destruct l as [|p l]; [done|]. cbn [List.hd hloop_safe hvisit].
  destruct (HJs _ _ _ Hm) as (s & Hp%Z.eqb_neq & _ & _ & Hs). rewrite Hp.
  rewrite get_hnext_slot, (first_or_null _ _ _ Hs). cbn [mbind option_bind].
  destruct (body p m a) as [[[m' a']|r]|] eqn:E; cbn [mbind option_bind]; [|done|done].
  apply IH; [|cbn in Hf; lia]. eapply HJ; [exact Hm|exact E].
Qed.

(** From a head, with a body that keeps the list, and with one that keeps what is to come. *)
Lemma hlist_for_each_visits J h l fuel m a :
  keeps_hlist J (First h) l → J m a → (List.length l < fuel)%nat →
  hlist_for_each h body fuel m a = hvisit l m a.
Proof.
  intros Hk Hm Hf. unfold hlist_for_each.
  rewrite get_first_slot, (first_or_null _ _ _ (proj1 Hk _ _ Hm)). by eapply hloop_visits.
Qed.
Lemma hlist_for_each_safe_visits (J : list ptr → hheap → A → Prop) h l fuel m a :
  hseg m (First h) l → (∀ r m a, J r m a → ∃ s, hseg m s r) →
  (∀ p r m a m' a', J (p :: r) m a → body p m a = Some (inl (m', a')) → J r m' a') →
  J l m a → (List.length l < fuel)%nat →
  hlist_for_each_safe h body fuel m a = hvisit l m a.
Proof.
  intros Hs HJs HJ Hm Hf. unfold hlist_for_each_safe.
  rewrite get_first_slot, (first_or_null _ _ _ Hs). by eapply hloop_safe_visits.
Qed.
End Visits.

(** The variants with a cursor on the object. *)
Lemma hlist_for_each_entry_visits {A R} (body : hloop_body A R) J off h l1 p l2 fuel m a :
  let l := l1 ++ p :: l2 in
  keeps_hlist (entry_body off body) J (First h) l → J m a → (List.length l < fuel)%nat →
  hlist_for_each_entry off h body fuel m a = hvisit (entry_body off body) l m a
  ∧ hlist_for_each_entry_from off body fuel p m a = hvisit (entry_body off body) (p :: l2) m a
  ∧ hlist_for_each_entry_continue off body fuel p m a = hvisit (entry_body off body) l2 m a.
Proof.
  intros l [HJs HJ] Hm Hf.
  assert (∀ m a, J m a → hseg m (end_slot (First h) l1) (p :: l2)) as Hp.
  { intros m1 a1 Hm1. by apply (proj1 (hseg_app _ _ _ _) (HJs _ _ Hm1)). }
  unfold l in Hf. rewrite length_app in Hf. cbn in Hf. split_and!.
  - apply (hlist_for_each_visits _ J h l); [by split|done|unfold l; rewrite length_app; cbn; lia].
  - apply (hloop_visits _ J (end_slot (First h) l1) (p :: l2)); [|done|cbn; lia].
    split; [done|]. intros q m1 a1 m2 a2 Hm1 Hq. apply HJ; [done|]. unfold l. set_solver.
  - unfold hlist_for_each_entry_continue. destruct (Hp _ _ Hm) as (_ & _ & _ & Hs).
    rewrite get_hnext_slot, (first_or_null _ _ _ Hs). cbn [mbind option_bind].
    apply (hloop_visits _ J (Next p) l2); [|done|lia].
    split; [by intros m1 a1 (_ & _ & _ & ?)%Hp|]. intros q m1 a1 m2 a2 Hm1 Hq. apply HJ; [done|]. unfold l. set_solver.
Qed.

(** Two buckets and a loose node. *)
Definition example_hheap : hheap :=
  mk_hheap (list_to_map [(100, 1); (108, 0)]) (list_to_map [(1, 2); (2, 0); (3, 0)])
    (list_to_map [(1, First 100); (2, Next 1); (3, Null_slot)]).
Lemma example_hheap_has : hheap_has example_hheap [(100, [1; 2]); (108, [])] [3].
Proof.
  split.
  - cbn. repeat (apply NoDup_cons; split; [set_solver|]). apply NoDup_nil_2.
  - cbn. repeat (apply NoDup_cons; split; [set_solver|]). apply NoDup_nil_2.
  - repeat constructor; discriminate.
  - repeat constructor; try discriminate; eexists; reflexivity.
Qed.
Lemma hlist_ops_refine_witness :
  ∃ m', run_hop (Op_hdel 2) example_hheap = Some m' ∧ hheap_has m' [(100, [1]); (108, [])] [2; 3].
Proof.
  exact (hlist_ops_refine (Op_hdel 2) example_hheap _ _ _ _ example_hheap_has
    (habs_del 2 100 [1] [] [(108, [])] [3])).
Defined.
