(* ===== verification/Cookie.v ===== *)
(** Cookies and generation slots: the helpers of
    [include/udpgrm_internal.h] shared by the eBPF programs and the daemon.

    - [GRM_COOKIE_CS], [grm_cookie_pack], [grm_cookie_unpack]: the 16-bit cookie
      an application puts in its packets (5 bits generation, 3 bits checksum,
      8 bits socket index);
    - [TO_WRK_GEN]: the slot of the generation table an application's working
      generation maps to. *)

From S2P Require Import Prelude.

Definition MAX_SOCKETS_IN_GEN : Z := 256.
Definition MAX_GENS : Z := 32.
Definition MAX_APPS : Z := 4.

Section Cookie.
Local Open Scope c_scope.

(** 3-bit checksum; [uint8_t cs] truncates at each assignment. *)
Definition GRM_COOKIE_CS (sock_gen sock_idx : Z) : Z :=
  let cs := u8 (0xD .^ ((sock_idx >> 4) .& 0xF) .^ (sock_idx .& 0xF)
                    .^ ((sock_gen >> 4) .& 0xF) .^ (sock_gen .& 0xF)) in
  let cs := u8 ((cs .& 0x7) .^ ((cs >> 3) .& 0x1)) in
  cs.

(** [None] is the [-1] of the checksum failure; on success the code writes the
    two out parameters. *)
Definition grm_cookie_unpack (grm_cookie : Z) : option (Z * Z) :=
  let sock_gen := grm_cookie .& 0x1f in
  let sock_idx := (grm_cookie >> 8) .& 0xff in
  let cs_from_cookie := u8 ((grm_cookie .& 0xff) >> 5) in
  let cs := GRM_COOKIE_CS sock_gen sock_idx in
  if negb (cs_from_cookie =? cs) then None else Some (sock_gen, sock_idx).

(** The four bytes written at [v]. *)
Definition grm_cookie_pack (sock_gen sock_idx : Z) : list Z :=
  let sock_gen := sock_gen .& 0x1F in
  let sock_idx := sock_idx .& 0xFF in
  let cs := GRM_COOKIE_CS sock_gen sock_idx in
  [u8 ((sock_gen .& 0x1F) .| (cs << 5)); u8 (sock_idx .& 0xFF); 0; 0].
End Cookie.

(** The [uint16_t] an application reads: [memcpy(&data->sk.grm_cookie, v, 4)]
    lays the first two bytes under [grm_cookie]. *)
Definition grm_cookie_of (sock_gen sock_idx : Z) : Z :=
  load 2 (grm_cookie_pack sock_gen sock_idx) 0.

(** Lossy map of (application, working generation) into the [MAX_GENS] slots.
    All operands are [uint32_t]; [None] is the division by zero of
    [working_gen % slot_size] when [max_apps > MAX_GENS]. *)
Definition TO_WRK_GEN (max_apps app_idx working_gen : Z) : option Z :=
  let max_apps := if max_apps =? 0 then 1 else max_apps in
  let slot_size := MAX_GENS / max_apps in
  if slot_size =? 0 then None
  else Some (u32 (app_idx * slot_size + working_gen mod slot_size)).

(** ** Fields of a cookie *)

Lemma land_0x1F x : Z.land x 0x1F = x mod 32.
Proof. apply (Z.land_ones x 5). lia. Qed.
Lemma land_0xFF x : Z.land x 0xFF = x mod 256.
Proof. apply (Z.land_ones x 8). lia. Qed.
Lemma land_0xF x : Z.land x 0xF = x mod 16.
Proof. apply (Z.land_ones x 4). lia. Qed.

(** The checksum is a fold to 3 bits of the xor of all nibbles. *)
Definition nibbles (x : Z) : Z := Z.lxor (Z.land (Z.shiftr x 4) 0xF) (Z.land x 0xF).
Definition fold3 (x : Z) : Z := Z.lxor (Z.land x 7) (Z.land (Z.shiftr x 3) 1).

Lemma nibbles_range x : 0 <= nibbles x < 16.
Proof.
  unfold nibbles. rewrite !land_0xF.
  apply (lxor_range 4); [lia|apply Z.mod_pos_bound; lia..].
Qed.

Lemma fold3_range x : 0 <= x < 16 → 0 <= fold3 x < 8.
Proof.
  intros Hx.
  assert (H : forall_below 16 (λ x, (0 <=? fold3 x) && (fold3 x <? 8)) = true) by reflexivity.
  apply (forall_below_spec _ _ H) in Hx. lia.
Qed.

Lemma GRM_COOKIE_CS_eq g i :
  GRM_COOKIE_CS g i = fold3 (Z.lxor 0xD (Z.lxor (nibbles i) (nibbles g))).
Proof.
  assert (0 <= Z.lxor 0xD (Z.lxor (nibbles i) (nibbles g)) < 16) as Hr.
  { apply (lxor_range 4); [lia..|]. apply (lxor_range 4); [lia|apply nibbles_range..]. }
  pose proof (fold3_range _ Hr) as Hf. unfold GRM_COOKIE_CS.
  assert (∀ a b c d e, Z.lxor (Z.lxor (Z.lxor (Z.lxor a b) c) d) e
    = Z.lxor a (Z.lxor (Z.lxor b c) (Z.lxor d e))) as Has.
  { intros. by rewrite !Z.lxor_assoc. }
  rewrite Has. change (Z.lxor (Z.land (Z.shiftr i 4) 0xF) (Z.land i 0xF)) with (nibbles i).
  change (Z.lxor (Z.land (Z.shiftr g 4) 0xF) (Z.land g 0xF)) with (nibbles g).
  rewrite (u8_small (Z.lxor 0xD _)) by lia. apply u8_small.
  change (0 <= fold3 (Z.lxor 0xD (Z.lxor (nibbles i) (nibbles g))) < 2 ^ 8). lia.
Qed.

Lemma GRM_COOKIE_CS_range g i : 0 <= GRM_COOKIE_CS g i < 8.
Proof.
  rewrite GRM_COOKIE_CS_eq. apply fold3_range.
  apply (lxor_range 4); [lia..|]. apply (lxor_range 4); [lia|apply nibbles_range..].
Qed.

(** What the application reads, field by field. *)
Lemma grm_cookie_of_eq g i :
  grm_cookie_of g i =
  g mod 32 + 32 * GRM_COOKIE_CS (g mod 32) (i mod 256) + 256 * (i mod 256).
Proof.
  unfold grm_cookie_of, grm_cookie_pack. rewrite !land_0x1F, !land_0xFF.
  pose proof (GRM_COOKIE_CS_range (g mod 32) (i mod 256)) as Hcs.
  set (cs := GRM_COOKIE_CS _ _) in *. rewrite !Z.mod_mod by lia.
  pose proof (Z.mod_pos_bound g 32 ltac:(lia)) as Hg.
  pose proof (Z.mod_pos_bound i 256 ltac:(lia)) as Hi.
  assert (H : forall_below 32 (λ g, forall_below 8 (λ cs,
    u8 (Z.lor g (Z.shiftl cs 5)) =? g + 32 * cs)) = true) by (vm_compute; reflexivity).
  pose proof (forall_below2_spec _ _ _ H _ _ Hg Hcs) as E. apply Z.eqb_eq in E.
  unfold load, slice. cbn [drop take le_combine]. rewrite E.
  rewrite (u8_small (i mod 256)) by lia. lia.
Qed.

Lemma grm_cookie_unpack_eq c :
  grm_cookie_unpack c =
  if (c mod 256) / 32 =? GRM_COOKIE_CS (c mod 32) ((c / 256) mod 256)
  then Some (c mod 32, (c / 256) mod 256) else None.
Proof.
  unfold grm_cookie_unpack. rewrite land_0x1F, !land_0xFF, !Z.shiftr_div_pow2 by lia.
  change (2 ^ 8) with 256. change (2 ^ 5) with 32.
  pose proof (Z.mod_pos_bound c 256 ltac:(lia)).
  rewrite (u8_small (c mod 256 / 32)) by (Z.div_mod_to_equations; lia).
  destruct (_ =? _); reflexivity.
Qed.

Lemma grm_cookie_of_range g i : 0 <= grm_cookie_of g i < 2 ^ 16.
Proof.
  rewrite grm_cookie_of_eq. pose proof (GRM_COOKIE_CS_range (g mod 32) (i mod 256)).
  pose proof (Z.mod_pos_bound g 32 ltac:(lia)). pose proof (Z.mod_pos_bound i 256 ltac:(lia)). lia.
Qed.

Lemma unpack_cookie_of g i :
  grm_cookie_unpack (grm_cookie_of g i) = Some (g mod 32, i mod 256).
Proof.
  pose proof (GRM_COOKIE_CS_range (g mod 32) (i mod 256)) as Hcs.
  rewrite grm_cookie_unpack_eq, grm_cookie_of_eq.
  set (cs := GRM_COOKIE_CS (g mod 32) (i mod 256)) in *.
  pose proof (Z.mod_pos_bound g 32 ltac:(lia)) as Hg.
  pose proof (Z.mod_pos_bound i 256 ltac:(lia)) as Hi.
  set (g' := g mod 32) in *. set (i' := i mod 256) in *.
  assert ((g' + 32 * cs + 256 * i') mod 32 = g') as -> by (Z.div_mod_to_equations; lia).
  assert ((g' + 32 * cs + 256 * i') / 256 = i') as -> by (Z.div_mod_to_equations; lia).
  assert ((g' + 32 * cs + 256 * i') mod 256 / 32 = cs) as -> by (Z.div_mod_to_equations; lia).
  rewrite (Z.mod_small i' 256) by lia. fold cs. by rewrite Z.eqb_refl.
Qed.

(** ** Corruption: every single-bit error is caught

    The three fields and the checksum are linear over xor, so the difference
    between the stored and the recomputed checksum depends only on the error. *)
Definition syndrome (c : Z) : Z :=
  Z.lxor (Z.land (Z.shiftr c 5) 7)
    (fold3 (Z.lxor (nibbles (Z.land (Z.shiftr c 8) 0xff)) (nibbles (Z.land c 0x1f)))).

Lemma nibbles_lxor x y : nibbles (Z.lxor x y) = Z.lxor (nibbles x) (nibbles y).
Proof. unfold nibbles. rewrite Z.shiftr_lxor, !land_lxor_distr_l. rewrite !Z.lxor_assoc. f_equal. apply lxor_swap. Qed.

Lemma fold3_lxor x y : fold3 (Z.lxor x y) = Z.lxor (fold3 x) (fold3 y).
Proof. unfold fold3. rewrite Z.shiftr_lxor, !land_lxor_distr_l. rewrite !Z.lxor_assoc. f_equal. apply lxor_swap. Qed.

Lemma syndrome_lxor x y : syndrome (Z.lxor x y) = Z.lxor (syndrome x) (syndrome y).
Proof.
  unfold syndrome. rewrite !Z.shiftr_lxor, !land_lxor_distr_l, !nibbles_lxor.
  rewrite !fold3_lxor, !Z.lxor_assoc. f_equal.
  rewrite (lxor_swap (Z.land (Z.shiftr y 5) 7)). f_equal.
  rewrite (lxor_swap (fold3 (nibbles (Z.land (Z.shiftr y 8) 255)))), lxor_swap. reflexivity.
Qed.

Lemma unpack_syndrome c : is_Some (grm_cookie_unpack c) ↔ syndrome c = fold3 0xD.
Proof.
  unfold grm_cookie_unpack. rewrite GRM_COOKIE_CS_eq.
  set (n2 := nibbles (Z.land (Z.shiftr c 8) 255)). set (n1 := nibbles (Z.land c 31)).
  assert (u8 (Z.shiftr (Z.land c 255) 5) = Z.land (Z.shiftr c 5) 7) as ->.
  { rewrite Z.shiftr_land. change (Z.shiftr 255 5) with 7. apply u8_small.
    change 7 with (Z.ones 3). rewrite Z.land_ones by lia.
    pose proof (Z.mod_pos_bound (Z.shiftr c 5) (2 ^ 3)). lia. }
  unfold syndrome. fold n1 n2. rewrite fold3_lxor.
  set (f := Z.land (Z.shiftr c 5) 7). set (r := fold3 (Z.lxor n2 n1)).
  destruct (Z.eqb_spec f (Z.lxor (fold3 13) r)) as [->|Hne]; simpl.
  - split; [intros _|by eauto]. by rewrite Z.lxor_assoc, Z.lxor_nilpotent, Z.lxor_0_r.
  - split; [by intros [? ?]|]. intros H. destruct Hne.
    by rewrite <-H, Z.lxor_assoc, Z.lxor_nilpotent, Z.lxor_0_r.
Qed.

Lemma single_bit_syndrome k : 0 <= k < 16 → syndrome (2 ^ k) ≠ 0.
Proof.
  intros Hk. assert (H : forall_below 16 (λ k, negb (syndrome (2 ^ k) =? 0)) = true) by reflexivity.
  apply (forall_below_spec _ _ H) in Hk. lia.
Qed.

(** ** Generation slots *)

Lemma TO_WRK_GEN_max_apps_0 a g : TO_WRK_GEN 0 a g = TO_WRK_GEN 1 a g.
Proof. reflexivity. Qed.

(** For a group with [1 <= max_apps <= MAX_GENS] applications and an
    application of the group, the slot is in the table. *)
Lemma TO_WRK_GEN_spec m a g :
  1 <= m <= MAX_GENS → 0 <= a < m → 0 <= g →
  TO_WRK_GEN m a g = Some (a * (MAX_GENS / m) + g mod (MAX_GENS / m)) ∧
  0 <= a * (MAX_GENS / m) + g mod (MAX_GENS / m) < MAX_GENS.
Proof.
  unfold TO_WRK_GEN, MAX_GENS. intros Hm Ha Hg.
  destruct (Z.eqb_spec m 0); [lia|].
  assert (1 <= 32 / m) by (apply Z.div_le_lower_bound; lia).
  assert (m * (32 / m) <= 32) by (apply Z.mul_div_le; lia).
  destruct (Z.eqb_spec (32 / m) 0); [lia|].
  pose proof (Z.mod_pos_bound g (32 / m) ltac:(lia)).
  assert (0 <= a * (32 / m) + g mod (32 / m) < 32) by nia.
  split; [|done]. f_equal. apply u32_small. lia.
Qed.

(** The same with the substitute for a missing [max_apps]. *)
Lemma TO_WRK_GEN_spec' m a g :
  0 <= m <= MAX_GENS → 0 <= a < Z.max 1 m → 0 <= g →
  ∃ slot, TO_WRK_GEN m a g = Some slot ∧ 0 <= slot < MAX_GENS.
Proof.
  intros Hm Ha Hg. assert (TO_WRK_GEN m a g = TO_WRK_GEN (Z.max 1 m) a g) as ->.
  { destruct (Z.eq_dec m 0) as [->|]; [apply TO_WRK_GEN_max_apps_0|by rewrite Z.max_r by lia]. }
  destruct (TO_WRK_GEN_spec (Z.max 1 m) a g) as [E R]; [unfold MAX_GENS in *; lia|done|done|].
  by eexists.
Qed.

(** The first two of the four bytes are the 16-bit cookie. *)
Lemma cookie_bytes g i : take 2 (grm_cookie_pack g i) = le_bytes 2 (grm_cookie_of g i).
Proof.
  unfold grm_cookie_of, load. change (slice (grm_cookie_pack g i) 0 2) with (take 2 (grm_cookie_pack g i)).
  symmetry. apply (le_bytes_le_combine (take 2 (grm_cookie_pack g i))).
  repeat constructor; apply u8_range.
Qed.

(** ** Properties *)

Lemma unpack_inverts c g i : 0 <= c < 2 ^ 16 → grm_cookie_unpack c = Some (g, i) → c = grm_cookie_of g i.
Proof.
  intros Hc H. rewrite grm_cookie_unpack_eq in H.
  destruct (Z.eqb_spec (c mod 256 / 32) (GRM_COOKIE_CS (c mod 32) ((c / 256) mod 256))) as [E|];
    [|done]. injection H as <- <-.
  rewrite grm_cookie_of_eq, !Z.mod_mod by lia. rewrite <-E.
  rewrite (Z.mod_small (c / 256)) by (Z.div_mod_to_equations; lia).
  Z.div_mod_to_equations; lia.
Qed.

Lemma unpack_flipped_bit g i k : 0 <= k < 16 → grm_cookie_unpack (Z.lxor (grm_cookie_of g i) (2 ^ k)) = None.
Proof.
  intros Hk. apply eq_None_not_Some. rewrite unpack_syndrome, syndrome_lxor.
  assert (syndrome (grm_cookie_of g i) = fold3 0xD) as ->.
  { apply unpack_syndrome. rewrite unpack_cookie_of. eauto. }
  intros H. apply (single_bit_syndrome k Hk). apply (lxor_cancel_l (fold3 0xD)).
  by rewrite Z.lxor_0_r.
Qed.

(** Cookie round trip: the 16 bits an application reads for a socket
    registered at (generation slot, index) decode, on the packet path, to exactly
    that slot (mod [MAX_GENS]) and index (mod [MAX_SOCKETS_IN_GEN]); nothing
    else decodes: a 16-bit value accepted by [grm_cookie_unpack] is the cookie of
    the pair it decodes to; and every single-bit corruption of a cookie in flight is
    rejected by the 3-bit checksum, so it is counted as a bad cookie and never
    dispatched to the wrong socket. *)
Theorem grm_cookie_roundtrip :
  (∀ g i, grm_cookie_unpack (grm_cookie_of g i) = Some (g mod MAX_GENS, i mod MAX_SOCKETS_IN_GEN))
  ∧ (∀ c g i, 0 <= c < 2 ^ 16 → grm_cookie_unpack c = Some (g, i) → c = grm_cookie_of g i)
  ∧ (∀ g i k, 0 <= k < 16 → grm_cookie_unpack (Z.lxor (grm_cookie_of g i) (2 ^ k)) = None).
Proof. split_and!; [apply unpack_cookie_of|apply unpack_inverts|apply unpack_flipped_bit]. Qed.

Example flipped_bit : grm_cookie_of 5 10 = 2629 ∧ grm_cookie_unpack (Z.lxor 2629 (2 ^ 9)) = None.
Proof. split; reflexivity. Qed.

(** Application isolation: with [max_apps] applications sharing a group,
    distinct applications never share a generation slot, whatever their working
    generations; and the slot lies in the generation table. *)
Theorem TO_WRK_GEN_isolates_apps m a1 a2 g1 g2 s1 s2 :
  1 <= m <= MAX_GENS → 0 <= a1 < m → 0 <= a2 < m → 0 <= g1 → 0 <= g2 →
  TO_WRK_GEN m a1 g1 = Some s1 → TO_WRK_GEN m a2 g2 = Some s2 →
  0 <= s1 < MAX_GENS ∧ (s1 = s2 → a1 = a2 ∧ g1 mod (MAX_GENS / m) = g2 mod (MAX_GENS / m)).
Proof.
  intros Hm Ha1 Ha2 Hg1 Hg2 H1 H2.
  destruct (TO_WRK_GEN_spec m a1 g1 Hm Ha1 Hg1) as [E1 R1].
  destruct (TO_WRK_GEN_spec m a2 g2 Hm Ha2 Hg2) as [E2 R2].
  rewrite E1 in H1. rewrite E2 in H2. injection H1 as <-. injection H2 as <-.
  split; [done|]. intros E.
  assert (1 <= MAX_GENS / m) by (apply Z.div_le_lower_bound; unfold MAX_GENS in *; lia).
  pose proof (Z.mod_pos_bound g1 (MAX_GENS / m) ltac:(lia)).
  pose proof (Z.mod_pos_bound g2 (MAX_GENS / m) ltac:(lia)).
  assert (a1 = a2) by nia. subst. split; [done|lia].
Qed.

Lemma TO_WRK_GEN_isolates_apps_witness :
  TO_WRK_GEN 4 1 9 = Some 9 ∧ TO_WRK_GEN 4 2 9 = Some 17 ∧ (0 <= 9 < MAX_GENS).
Proof.
  split; [reflexivity|]. split; [reflexivity|].
  apply (TO_WRK_GEN_isolates_apps 4 1 2 9 9 9 17); (reflexivity || (unfold MAX_GENS; lia)).
Defined.
