(* ===== verification/SipHash.v ===== *)
(** The flow hash: [ebpf/siphash.h] and [count_ip_flow_hash] of [ebpf/ebpf.c].

    [hsiphash] is translated as written; [SipSpec] is the published SipHash-c-d
    construction (padding to 8-byte words with the length in the last byte, c
    rounds per word, d final rounds), and [hsiphash_refines_siphash] shows the C
    function computes the low 32 bits of SipHash-1-2. *)

From S2P Require Import Prelude.

Section Source.
Local Open Scope c_scope.

Definition sipstate : Type := Z * Z * Z * Z.

Definition ROTATE (x b : Z) : Z := u64 ((x << b) .| (x >> (64 - b))).

Definition HALF_ROUND (a b c d s t : Z) : sipstate :=
  let a := u64 (a + b) in
  let c := u64 (c + d) in
  let b := ROTATE b s .^ a in
  let d := ROTATE d t .^ c in
  let a := ROTATE a 32 in
  (a, b, c, d).

Definition ROUND (v : sipstate) : sipstate :=
  let '(v0, v1, v2, v3) := v in
  let '(v0, v1, v2, v3) := HALF_ROUND v0 v1 v2 v3 13 16 in
  let '(v2, v1, v0, v3) := HALF_ROUND v2 v1 v0 v3 17 21 in
  (v0, v1, v2, v3).

(** The loop body: one 8-byte word [mi]. *)
Definition hsip_block (mi : Z) (v : sipstate) : sipstate :=
  let '(v0, v1, v2, v3) := v in
  let v3 := v3 .^ mi in
  let '(v0, v1, v2, v3) := ROUND (v0, v1, v2, v3) in
  let v0 := v0 .^ mi in
  (v0, v1, v2, v3).

(** [while (src_sz >= 8)]: [src_sz] is the number of bytes left from [in]. *)
Fixpoint hsip_while (inp : list Z) (v : sipstate) : list Z * sipstate :=
  match inp with
  | b0 :: b1 :: b2 :: b3 :: b4 :: b5 :: b6 :: b7 :: rest =>
      hsip_while rest (hsip_block (le_combine [b0; b1; b2; b3; b4; b5; b6; b7]) v)
  | _ => (inp, v)
  end.

(** The [switch (src_sz)] that gathers the last bytes into [t]; a case falls
    through to the next one until the 4-byte copy breaks. *)
Definition hsip_tail (m : list Z) : Z :=
  let pt := zeros 8 in
  let set i pt := store pt i [nthZ m (Z.of_nat i)] in
  let set4 pt := store pt 0 (slice m 0 4) in
  le_combine
    match length m with
    | 7%nat => set4 (set 4%nat (set 5%nat (set 6%nat pt)))
    | 6%nat => set4 (set 4%nat (set 5%nat pt))
    | 5%nat => set4 (set 4%nat pt)
    | 4%nat => set4 pt
    | 3%nat => set 0%nat (set 1%nat (set 2%nat pt))
    | 2%nat => set 0%nat (set 1%nat pt)
    | 1%nat => set 0%nat pt
    | _ => pt
    end.

Definition hsiphash (src : list Z) (key : list Z) : Z :=
  let k0 := load 8 key 0 in
  let k1 := load 8 key 8 in
  let b := u64 (Z.of_nat (length src) << 56) in
  let v0 := k0 .^ 0x736f6d6570736575 in
  let v1 := k1 .^ 0x646f72616e646f6d in
  let v2 := k0 .^ 0x6c7967656e657261 in
  let v3 := k1 .^ 0x7465646279746573 in
  let '(m, (v0, v1, v2, v3)) := hsip_while src (v0, v1, v2, v3) in
  let t := hsip_tail m in
  let b := b .| t in
  let v3 := v3 .^ b in
  let '(v0, v1, v2, v3) := ROUND (v0, v1, v2, v3) in
  let v0 := v0 .^ b in
  let v2 := v2 .^ 0xff in
  let '(v0, v1, v2, v3) := ROUND (ROUND (v0, v1, v2, v3)) in
  u32 ((v0 .^ v1) .^ (v2 .^ v3)).

(** ** The flow key *)

(** [struct ip_flow_hash], packed: 16 bytes of address, then the group id, then
    the port as it is in memory (network order). *)
Record ip_flow_hash := mk_flow {
  remote_ip : list Z;
  reuseport_group_id : Z;
  remote_port : Z;
}.

Definition ip_flow_bytes (f : ip_flow_hash) : list Z :=
  remote_ip f ++ le_bytes 4 (reuseport_group_id f) ++ le_bytes 2 (remote_port f).

Definition siphash_key : list Z :=
  [0xd9; 0xbd; 0xd7; 0xf6; 0xa0; 0xb3; 0x49; 0x83;
   0x10; 0xb7; 0x49; 0x0f; 0x75; 0x56; 0xfd; 0x4c].

Definition count_ip_flow_hash (data : ip_flow_hash) : Z :=
  hsiphash (ip_flow_bytes data) siphash_key.
End Source.

(** ** SipHash-c-d as published *)
Module SipSpec.
Section Spec.
Local Open Scope c_scope.

Definition rotl64 (x n : Z) : Z := u64 ((x << n) .| (x >> (64 - n))).

Definition sipround (v : sipstate) : sipstate :=
  let '(v0, v1, v2, v3) := v in
  let v0 := u64 (v0 + v1) in let v1 := rotl64 v1 13 in let v1 := v1 .^ v0 in
  let v0 := rotl64 v0 32 in
  let v2 := u64 (v2 + v3) in let v3 := rotl64 v3 16 in let v3 := v3 .^ v2 in
  let v0 := u64 (v0 + v3) in let v3 := rotl64 v3 21 in let v3 := v3 .^ v0 in
  let v2 := u64 (v2 + v1) in let v1 := rotl64 v1 17 in let v1 := v1 .^ v2 in
  let v2 := rotl64 v2 32 in
  (v0, v1, v2, v3).

Definition rounds (n : nat) (v : sipstate) : sipstate := Nat.iter n sipround v.

(** Message words: the message is padded with zeros and its length byte to a
    multiple of 8 and read in little-endian words. *)
Definition pad (msg : list Z) : list Z :=
  msg ++ zeros (7 - length msg mod 8) ++ [Z.of_nat (length msg) mod 256].

Fixpoint words (n : nat) (l : list Z) : list Z :=
  match n with O => [] | S n => le_combine (take 8 l) :: words n (drop 8 l) end.

Definition absorb (c : nat) (v : sipstate) (m : Z) : sipstate :=
  let '(v0, v1, v2, v3) := v in
  let '(v0, v1, v2, v3) := rounds c (v0, v1, v2, v3 .^ m) in
  (v0 .^ m, v1, v2, v3).

Definition siphash (c d : nat) (key msg : list Z) : Z :=
  let k0 := le_combine (take 8 key) in
  let k1 := le_combine (take 8 (drop 8 key)) in
  let v := (k0 .^ 0x736f6d6570736575, k1 .^ 0x646f72616e646f6d,
            k0 .^ 0x6c7967656e657261, k1 .^ 0x7465646279746573) in
  let '(v0, v1, v2, v3) := fold_left (absorb c) (words (length msg / 8 + 1) (pad msg)) v in
  let '(v0, v1, v2, v3) := rounds d (v0, v1, v2 .^ 0xff, v3) in
  v0 .^ v1 .^ v2 .^ v3.
End Spec.
End SipSpec.

(** ** Refinement *)

Lemma ROUND_sipround v : ROUND v = SipSpec.sipround v.
Proof. by destruct v as [[[v0 v1] v2] v3]. Qed.

Lemma ROUND_twice v : ROUND (ROUND v) = SipSpec.sipround (SipSpec.sipround v).
Proof. by rewrite (ROUND_sipround v), ROUND_sipround. Qed.

Lemma hsip_block_absorb m v : hsip_block m v = SipSpec.absorb 1 v m.
Proof. by destruct v as [[[v0 v1] v2] v3]. Qed.

Lemma words_app n l1 l2 : (8 * n <= length l1)%nat → SipSpec.words n (l1 ++ l2) = SipSpec.words n l1.
Proof.
  revert l1. induction n as [|n IH]; intros l1 Hl; [done|]. cbn [SipSpec.words].
  rewrite take_app_le, drop_app_le by lia. f_equal. apply IH. rewrite length_drop. lia.
Qed.

Lemma words_snoc n l :
  SipSpec.words (S n) l = SipSpec.words n l ++ [le_combine (take 8 (drop (8 * n) l))].
Proof.
  revert l. induction n as [|n IH]; intros l; [done|].
  replace (SipSpec.words (S (S n)) l) with (le_combine (take 8 l) :: SipSpec.words (S n) (drop 8 l)) by done.
  rewrite IH. rewrite drop_drop. by replace (8 + 8 * n)%nat with (8 * S n)%nat by lia.
Qed.

Lemma hsip_while_spec n msg v :
  (length msg / 8 = n)%nat →
  hsip_while msg v = (drop (8 * n) msg, fold_left (SipSpec.absorb 1) (SipSpec.words n msg) v).
Proof.
  revert msg v. induction n as [|n IH]; intros msg v Hn.
  - assert (length msg < 8)%nat as Hl by (apply Nat.div_small_iff; lia).
    do 8 (destruct msg as [|? msg]; [done|]). simpl in Hl. lia.
  - assert (8 <= length msg)%nat as Hl.
    { destruct (Nat.le_gt_cases 8 (length msg)); [done|]. by rewrite Nat.div_small in Hn by lia. }
    do 8 (destruct msg as [|? msg]; [simpl in Hl; lia|]).
    cbn [hsip_while]. rewrite hsip_block_absorb, IH.
    + f_equal. replace (8 * S n)%nat with (8 + 8 * n)%nat by lia. by rewrite <-drop_drop.
    + cbn [length] in Hn. replace (S (S (S (S (S (S (S (S (length msg)))))))))
        with (length msg + 1 * 8)%nat in Hn by lia.
      rewrite Nat.div_add in Hn; lia.
Qed.

Lemma hsip_tail_spec m : (length m < 8)%nat → hsip_tail m = le_combine m.
Proof.
  intros Hm. do 8 (destruct m as [|? m]; [try done; cbn; lia|]). simpl in Hm. lia.
Qed.

(** The padded last word of the specification is [b | t] of the code. *)
Lemma last_word len m :
  bytes_ok m → (length m < 8)%nat →
  le_combine (m ++ zeros (7 - length m) ++ [len mod 256])
  = Z.lor (u64 (Z.shiftl len 56)) (hsip_tail m).
Proof.
  intros Hok Hm. rewrite hsip_tail_spec by done.
  assert (u64 (Z.shiftl len 56) = Z.shiftl (len mod 256) 56) as ->.
  { unfold u64. rewrite !Z.shiftl_mul_pow2 by lia.
    change (2 ^ 64) with (256 * 2 ^ 56). by rewrite Z.mul_mod_distr_r by lia. }
  pose proof (Z.mod_pos_bound len 256 ltac:(lia)).
  assert (0 <= le_combine m < 2 ^ 56) as Hr.
  { pose proof (le_combine_range m Hok). split; [lia|].
    eapply Z.lt_le_trans; [apply H0|]. apply Z.pow_le_mono_r; lia. }
  rewrite lor_shiftl_add by lia. rewrite app_assoc, le_combine_app, le_combine_app.
  rewrite le_combine_zeros, length_app, length_zeros. cbn [le_combine].
  replace (8 * Z.of_nat (length m + (7 - length m))) with 56 by lia. lia.
Qed.

Lemma pad_words msg :
  bytes_ok msg →
  let n := (length msg / 8)%nat in
  SipSpec.words (n + 1) (SipSpec.pad msg)
  = SipSpec.words n msg ++
    [Z.lor (u64 (Z.shiftl (Z.of_nat (length msg)) 56)) (hsip_tail (drop (8 * n) msg))].
Proof.
  intros Hok n. assert (8 * n <= length msg)%nat as Hn by (apply Nat.Div0.mul_div_le).
  assert (length (drop (8 * n) msg) = length msg mod 8)%nat as Hd.
  { rewrite length_drop. pose proof (Nat.div_mod_eq (length msg) 8). unfold n in *. lia. }
  assert (length msg mod 8 < 8)%nat by (apply Nat.mod_upper_bound; lia).
  rewrite Nat.add_1_r, words_snoc. unfold SipSpec.pad. rewrite words_app by lia.
  do 2 f_equal. rewrite drop_app_le by lia.
  rewrite <-Hd, take_ge by (rewrite !length_app, length_zeros; cbn [length]; lia).
  apply last_word; [by apply Forall_drop|lia].
Qed.

Lemma hsiphash_siphash msg key :
  bytes_ok msg → hsiphash msg key = u32 (SipSpec.siphash 1 2 key msg).
Proof.
  intros Hok. unfold hsiphash, SipSpec.siphash.
  rewrite pad_words by done. rewrite fold_left_app.
  rewrite (hsip_while_spec (length msg / 8)) by done.
  unfold load, slice. rewrite drop_0.
  destruct (fold_left _ _ _) as [[[a0 a1] a2] a3] eqn:E. cbn [fold_left].
  unfold SipSpec.absorb, SipSpec.rounds. unfold Nat.iter. cbn [nat_rect].
  rewrite ROUND_sipround.
  destruct (SipSpec.sipround (a0, a1, a2, _)) as [[[c0 c1] c2] c3].
  rewrite ROUND_twice.
  destruct (SipSpec.sipround (SipSpec.sipround _)) as [[[d0 d1] d2] d3].
  by rewrite !Z.lxor_assoc.
Qed.

Lemma hsiphash_range msg key : 0 <= hsiphash msg key < 2 ^ 32.
Proof.
  unfold hsiphash. destruct (hsip_while _ _) as [m [[[v0 v1] v2] v3]].
  destruct (ROUND _) as [[[w0 w1] w2] w3]. destruct (ROUND (ROUND _)) as [[[x0 x1] x2] x3].
  apply u32_range.
Qed.

(** C27. The flow hash is SipHash-1-2: for every message of bytes, the loop over
    8-byte words, the tail switch and the length byte of [hsiphash] compute the low
    32 bits of the published SipHash construction with one compression round and two
    finalization rounds. *)
Theorem hsiphash_refines_siphash msg key :
  bytes_ok msg → hsiphash msg key = u32 (SipSpec.siphash 1 2 key msg).
Proof. apply hsiphash_siphash. Qed.

Lemma hsiphash_refines_siphash_witness :
  hsiphash [1; 2; 3; 4; 5; 6; 7; 8; 9; 10; 11] siphash_key
  = u32 (SipSpec.siphash 1 2 siphash_key [1; 2; 3; 4; 5; 6; 7; 8; 9; 10; 11]).
Proof. apply hsiphash_refines_siphash. repeat constructor; discriminate. Defined.
