(* ===== verification/Storage.v ===== *)
(** The shared data of udpgrm ([include/udpgrm.h], [include/udpgrm_internal.h],
    [ebpf/ebpf_internal.h]) and its interface to the kernel.

    - [udp_grm_dissector] is the 632-byte packed object of the public header,
      accessed through loads at its field offsets, so that its union and the
      [memcmp]/[memcpy] of the hooks mean what they mean in C;
    - [reuseport_storage], [socket_storage], [lru_value], [msg_value] are the
      values of the BPF maps and the ring buffer;
    - [BpfMap] and [Kernel] are the helpers the programs call (maps, clock, random
      numbers, ring buffer, socket selection): operations without definitions;
      [BpfMapLaws] and [KernelLaws] state the documented behaviour relied on;
    - [world] is the state the programs share. *)

From S2P Require Import Prelude Cookie.
From Stdlib Require Export String.
From stdpp Require Export strings.
Open Scope Z_scope.
Open Scope list_scope.

(** ** Constants *)

Definition AF_INET : Z := 2.
Definition AF_INET6 : Z := 10.
Definition IPPROTO_UDP : Z := 17.

Definition UDP_GRM_WORKING_GEN : Z := 200.
Definition UDP_GRM_SOCKET_GEN : Z := 201.
Definition UDP_GRM_DISSECTOR : Z := 202.
Definition UDP_GRM_FLOW_ASSURE : Z := 203.
Definition UDP_GRM_SOCKET_APP : Z := 204.
Definition _UDP_GRM_MIN : Z := 200.
Definition _UDP_GRM_MAX : Z := 204.

Definition DISSECTOR_FLOW : Z := 0.
Definition DISSECTOR_CBPF : Z := 1.
Definition DISSECTOR_BESPOKE : Z := 3.
Definition DISSECTOR_NOOP : Z := 4.
Definition DISSECTOR_FLAG_VERBOSE : Z := 0x8000.
Definition DISSECTOR_FLAGS : Z := DISSECTOR_FLAG_VERBOSE.
(** [(x) & ~DISSECTOR_FLAGS] on a [uint32_t]. *)
Definition DISSECTOR_TYPE (x : Z) : Z := Z.land x (Z.lxor U32_MAX DISSECTOR_FLAGS).

Definition MAX_INSTR : Z := 64.
Definition LABEL_SZ : Z := 100.
Definition MAX_BESPOKE_SNI : Z := 8.
Definition BESPOKE_SNI_LEN : nat := 62.
Definition FLOW_DEFAULT_TIMEOUT_SEC : Z := 125.
Definition SEC_TO_NSEC (v : Z) : Z := u64 (v * 1000000000).

Definition SK_PASS : Z := 1.
Definition EPERM : Z := 1.
Definition ENOENT : Z := 2.
Definition EBADF : Z := 9.
Definition EAGAIN : Z := 11.
Definition EFAULT : Z := 14.
Definition EEXIST : Z := 17.
Definition EOVERFLOW : Z := 75.
Definition EBADFD : Z := 77.
Definition ENOPROTOOPT : Z := 92.
Definition ENOBUFS : Z := 105.

(** ** [struct udp_grm_dissector]: 632 bytes, packed *)

Definition DISSECTOR_SZ : nat := 632.
Definition dis_type (d : list Z) : Z := load 4 d 0.
Definition dis_flow_entry_timeout_sec (d : list Z) : Z := load 4 d 4.
Definition dis_max_apps (d : list Z) : Z := load 4 d 8.
Definition dis_bespoke_digest (d : list Z) : Z := load 4 d 12.
Definition dis_label (d : list Z) : list Z := slice d 16 100.
Definition dis_filter_len (d : list Z) : Z := load 4 d 116.
(** The other members of the union share the storage of the filter. *)
Definition dis_bespoke_hostname_len (d : list Z) : Z := load 4 d 116.
Definition dis_bespoke_app (d : list Z) (i : nat) : Z := load 1 d (120 + 64 * i).
Definition dis_bespoke_hostname (d : list Z) (i : nat) : list Z :=
  slice d (120 + 64 * i + 2) BESPOKE_SNI_LEN.

(** [struct sock_filter filter[MAX_INSTR]], 8 bytes each. *)
Record sock_filter := mk_filter { f_code : Z; f_jt : Z; f_jf : Z; f_k : Z }.
Definition dis_filter (d : list Z) (i : nat) : sock_filter :=
  let o := (120 + 8 * i)%nat in
  mk_filter (load 2 d o) (load 1 d (o + 2)) (load 1 d (o + 3)) (load 4 d (o + 4)).

(** ** Keys and values of the maps *)

Definition ip6 : Type := Z * Z * Z * Z.
(** [src_ip4] is the first word of the union with [src_ip6]. *)
Record reuseport_storage_key := mk_skey {
  family : Z; key_reserved : Z; src_port : Z; src_ip : ip6;
}.
#[export] Instance skey_eq_dec : EqDecision reuseport_storage_key.
Proof. solve_decision. Defined.
#[export] Instance skey_countable : Countable reuseport_storage_key.
Proof.
  apply (inj_countable' (λ k, (family k, key_reserved k, src_port k, src_ip k))
    (λ '(a, b, c, d), mk_skey a b c d)). by intros [].
Defined.

Definition zero_skey : reuseport_storage_key := mk_skey 0 0 0 (0, 0, 0, 0).

(** The counters of [struct reuseport_storage]. *)
Inductive metric :=
  | socket_critical_gauge | socket_critical
  | rx_processed_total | rx_internal_state_error | rx_cbpf_prog_error
  | rx_packet_too_short_error
  | rx_dissected_ok_total | rx_flow_ok | rx_flow_rg_conflict | rx_flow_other_error
  | rx_flow_new_unseen | rx_flow_new_had_expired | rx_flow_new_bad_cookie
  | rx_new_flow_total | rx_new_flow_working_gen_dispatch_ok
  | rx_new_flow_working_gen_dispatch_error
  | tx_total | tx_flow_create_ok | tx_flow_create_from_expired_ok
  | tx_flow_create_error | tx_flow_update_ok | tx_flow_update_conflict.
#[export] Instance metric_eq_dec : EqDecision metric.
Proof. solve_decision. Defined.

Record reuseport_storage := mk_storage {
  verbose : Z;
  netns_cookie : Z;
  random_id : Z;
  dis : list Z;
  working_gen : list Z;
  max_idx : list Z;
  cookies : list (list Z);
  metrics : metric → Z;
}.

(** Field assignments. *)
Definition set_verbose v st := mk_storage v (netns_cookie st) (random_id st) (dis st)
  (working_gen st) (max_idx st) (cookies st) (metrics st).
Definition set_netns_cookie v st := mk_storage (verbose st) v (random_id st) (dis st)
  (working_gen st) (max_idx st) (cookies st) (metrics st).
Definition set_random_id v st := mk_storage (verbose st) (netns_cookie st) v (dis st)
  (working_gen st) (max_idx st) (cookies st) (metrics st).
Definition set_dis v st := mk_storage (verbose st) (netns_cookie st) (random_id st) v
  (working_gen st) (max_idx st) (cookies st) (metrics st).
Definition set_dis_type v st := set_dis (store (dis st) 0 (le_bytes 4 v)) st.
Definition set_working_gen v st := mk_storage (verbose st) (netns_cookie st) (random_id st)
  (dis st) v (max_idx st) (cookies st) (metrics st).
Definition set_max_idx v st := mk_storage (verbose st) (netns_cookie st) (random_id st)
  (dis st) (working_gen st) v (cookies st) (metrics st).
Definition set_cookies v st := mk_storage (verbose st) (netns_cookie st) (random_id st)
  (dis st) (working_gen st) (max_idx st) v (metrics st).
Definition set_metrics v st := mk_storage (verbose st) (netns_cookie st) (random_id st)
  (dis st) (working_gen st) (max_idx st) (cookies st) v.

(** [__sync_fetch_and_add] on a [uint64_t] counter, and [METRIC_INC]. *)
Definition fetch_and_add (t : metric) (v : Z) (st : reuseport_storage) : reuseport_storage :=
  set_metrics (<[t := u64 (metrics st t + v)]> (metrics st)) st.
Definition METRIC_INC (t : metric) (st : reuseport_storage) : reuseport_storage :=
  fetch_and_add t 1 st.

(** [state->cookies[gen][idx]]. *)
Definition cookie_at (st : reuseport_storage) (gen idx : Z) : Z :=
  nthZ (nth (Z.to_nat gen) (cookies st) []) idx.

(** The all-zero [empty_state]. *)
Definition empty_state : reuseport_storage :=
  mk_storage 0 0 0 (zeros DISSECTOR_SZ) (zeros 4) (zeros 32) (repeat (zeros 256) 32) (λ _, 0).

Record socket_storage := mk_sock {
  sock_gen : Z; sock_idx : Z; sock_app : Z; so_cookie : Z; so_netns_cookie : Z;
}.

Record lru_value := mk_lru { last_tx_ns : Z; lru_cookie : Z }.

(** The messages of the ring buffer; [m_body] is the union. *)
Definition MSG_LOG : Z := 0.
Definition MSG_REGISTER_SOCKET : Z := 1.
Definition MSG_SET_WORKING_GEN : Z := 2.
Definition MSG_SET_DISSECTOR : Z := 3.
Definition GSM_SET_COOKIES : Z := 4.
Definition GSM_SET_SOCKET_CRITICAL_GAUGE : Z := 5.
Definition GSM_INCR_SOCKET_CRITICAL : Z := 6.

Inductive msg_body :=
  | M_app (app_idx app_working_gen : Z)
  | M_reg (pid socket_cookie socket_gen socket_app : Z)
  | M_log (fmt : string) (args : list Z)
  | M_cookies (sock_gen sock_idx sock_gen_len sock_cookie : Z)
  | M_value (value : Z).
Record msg_value := mk_msg { m_type : Z; m_skey : reuseport_storage_key; m_body : msg_body }.
Definition MSG_SZ : Z := 128.

(** ** The kernel *)

(** A socket as the programs see it; [bs_id] is its identity, the key of its
    socket storage. *)
Record bpf_sock := mk_bpf_sock {
  bs_id : Z; bs_family : Z; bs_src_ip4 : Z; bs_src_ip6 : ip6; bs_src_port : Z;
}.

(** [struct sk_reuseport_md]: [md_data] is the linear part of the packet (from
    [data] to [data_end], UDP header first), [md_load_bytes] and [md_load_net] are
    [bpf_skb_load_bytes] and [bpf_skb_load_bytes_relative(.., BPF_HDR_START_NET)]
    on this packet. *)
Record sk_reuseport_md := mk_md {
  md_sk : bpf_sock;
  md_len : Z;
  md_eth_protocol : Z;
  md_hash : Z;
  md_data : list Z;
  md_load_bytes : Z → nat → option (list Z);
  md_load_net : Z → nat → option (list Z);
}.

(** What the loads promise: as many bytes as asked for. *)
Record md_ok (md : sk_reuseport_md) : Prop := {
  md_load_ok : ∀ off n bs, md_load_bytes md off n = Some bs → length bs = n ∧ bytes_ok bs;
  md_net_ok : ∀ off n bs, md_load_net md off n = Some bs → length bs = n ∧ bytes_ok bs;
  md_len_ok : 0 <= md_len md < 2 ^ 32;
  md_eth_ok : 0 <= md_eth_protocol md < 2 ^ 16;
  md_hash_ok : 0 <= md_hash md < 2 ^ 32;
  md_data_ok : bytes_ok (md_data md);
}.

(** A packet held in one buffer: network header [net], then [udp]. *)
Definition buf_load (l : list Z) (off : Z) (n : nat) : option (list Z) :=
  if (0 <=? off) && (off + Z.of_nat n <=? Z.of_nat (length l))
  then Some (slice l (Z.to_nat off) n) else None.
Definition packet_md (sk : bpf_sock) (eth hash : Z) (net udp : list Z) : sk_reuseport_md :=
  mk_md sk (Z.of_nat (length udp)) eth hash udp (buf_load udp) (buf_load (net ++ udp)).

Lemma buf_load_ok l off n bs : bytes_ok l → buf_load l off n = Some bs → length bs = n ∧ bytes_ok bs.
Proof.
  intros Hl. unfold buf_load. case_match eqn:E; [|done]. intros [= <-].
  apply andb_prop in E as [E1 E2]. split; [apply length_slice; lia|by apply bytes_ok_slice].
Qed.

Lemma packet_md_ok sk eth hash net udp :
  bytes_ok net → bytes_ok udp → 0 <= eth < 2 ^ 16 → 0 <= hash < 2 ^ 32 →
  Z.of_nat (length udp) < 2 ^ 32 → md_ok (packet_md sk eth hash net udp).
Proof.
  intros Hn Hu He Hh Hlen. split; cbn; try done; try lia.
  - intros off n bs. by apply buf_load_ok.
  - intros off n bs. apply buf_load_ok. by apply Forall_app.
Qed.

Definition BPF_ANY : Z := 0.
Definition BPF_NOEXIST : Z := 1.
Definition BPF_EXIST : Z := 2.

(** Helpers on a hash-like map. [map_value_write] is a store through the pointer
    that a lookup returned. *)
Class BpfMap (K V M : Type) := {
  bpf_map_lookup_elem : M → K → option V;
  bpf_map_update_elem : M → K → V → Z → M * Z;
  bpf_map_delete_elem : M → K → M * Z;
  map_value_write : M → K → V → M;
}.

(** Documented behaviour. A successful update is visible; a failed one changes
    no entry; [BPF_NOEXIST] fails on an existing entry,
    and it alone fails with EEXIST; other entries may be evicted
    (LRU maps) but never change; with [exact], nothing is evicted (plain hash). *)
Class BpfMapLaws (K V M : Type) {B : BpfMap K V M} (exact : bool) := {
  map_update_ok : ∀ m k v fl m', bpf_map_update_elem m k v fl = (m', 0) →
    bpf_map_lookup_elem m' k = Some v;
  map_update_noexist : ∀ m k v m', bpf_map_update_elem m k v BPF_NOEXIST = (m', 0) →
    bpf_map_lookup_elem m k = None;
  map_update_eexist : ∀ m k v m', bpf_map_update_elem m k v BPF_NOEXIST = (m', - EEXIST) →
    is_Some (bpf_map_lookup_elem m k);
  map_update_other : ∀ m k v fl m' r j, bpf_map_update_elem m k v fl = (m', r) → j ≠ k →
    bpf_map_lookup_elem m' j = bpf_map_lookup_elem m j ∨
    (exact = false ∧ bpf_map_lookup_elem m' j = None);
  map_update_fail : ∀ m k v fl m' r, bpf_map_update_elem m k v fl = (m', r) → r ≠ 0 →
    bpf_map_lookup_elem m' k = bpf_map_lookup_elem m k ∨
    (exact = false ∧ bpf_map_lookup_elem m' k = None);
  map_delete_ok : ∀ m k m' r, bpf_map_delete_elem m k = (m', r) →
    bpf_map_lookup_elem m' k = None;
  map_delete_other : ∀ m k m' r j, bpf_map_delete_elem m k = (m', r) → j ≠ k →
    bpf_map_lookup_elem m' j = bpf_map_lookup_elem m j;
  map_write_same : ∀ m k v, is_Some (bpf_map_lookup_elem m k) →
    bpf_map_lookup_elem (map_value_write m k v) k = Some v;
  map_write_other : ∀ m k v j, j ≠ k →
    bpf_map_lookup_elem (map_value_write m k v) j = bpf_map_lookup_elem m j;
}.

(** The helpers. Those whose answer the program cannot predict (clock, random
    number, ring-buffer space, memory for a new entry) are functions of the number
    of helper calls made so far. *)
Class Kernel := {
  group_map : Type;                       (* reuseport_storage_map *)
  group_bpf :: BpfMap reuseport_storage_key reuseport_storage group_map;
  flow_map : Type;                        (* lru_map, keyed by rx_hash *)
  flow_bpf :: BpfMap Z lru_value flow_map;
  (* what the memory of an entry that was evicted, of this hash, reads as afterwards *)
  lru_stale : nat → Z → lru_value;
  sock_map : Type;                        (* sk_storage_map, keyed by socket *)
  sock_bpf :: BpfMap Z socket_storage sock_map;
  sockhash_map : Type;                    (* sockhash: socket cookie -> socket *)
  sockhash_bpf :: BpfMap Z Z sockhash_map;
  bpf_sk_select_reuseport : sockhash_map → bpf_sock → Z → Z;
  bpf_ktime_get_ns : nat → Z;
  bpf_get_prandom_u32 : nat → Z;
  (* [None]: no space; otherwise what the reserved memory holds at [type] and [skey] *)
  bpf_ringbuf_reserve : nat → Z → option (Z * reuseport_storage_key);
  bpf_ringbuf_output : nat → bool;
  percpu_page_ok : nat → bool;
  (* the [struct scratch] of this CPU, with what earlier packets left in it *)
  percpu_scratch : nat → option (list Z);
  (* value of [x % 0] computed by an eBPF program *)
  mod_by_zero : Z → Z;
  (* value of an out-of-range 32-bit shift ([true]: left) *)
  shift_oob : bool → Z → Z → Z;
  bpf_loop : ∀ {C : Type}, Z → (Z → C → C * Z) → C → C;
}.

(** [bpf_loop(nr, f, ctx, 0)] calls [f] on 0, 1, ... until [nr] or a non-zero
    result; more than [BPF_MAX_LOOPS] iterations are refused, without a call. *)
Fixpoint loop_from {C : Type} (fuel : nat) (i : Z) (f : Z → C → C * Z) (c : C) : C :=
  match fuel with
  | O => c
  | S fuel => let '(c, r) := f i c in if r =? 0 then loop_from fuel (i + 1) f c else c
  end.
Definition BPF_MAX_LOOPS : Z := 2 ^ 23.

Definition SCRATCH_SZ : nat := 1488.

Class KernelLaws {K : Kernel} := {
  group_laws :: BpfMapLaws reuseport_storage_key reuseport_storage group_map true;
  flow_laws :: BpfMapLaws Z lru_value flow_map false;
  sock_laws :: BpfMapLaws Z socket_storage sock_map true;
  sockhash_laws :: BpfMapLaws Z Z sockhash_map true;
  select_found : ∀ h sk c, bpf_sk_select_reuseport h sk c = 0 →
    is_Some (bpf_map_lookup_elem h c);
  percpu_scratch_ok : ∀ n m, percpu_scratch n = Some m → length m = SCRATCH_SZ ∧ bytes_ok m;
  bpf_loop_spec : ∀ C nr (f : Z → C → C * Z) c,
    bpf_loop nr f c = if nr <=? BPF_MAX_LOOPS then loop_from (Z.to_nat nr) 0 f c else c;
}.

(** ** The shared state *)

Record world {K : Kernel} := mk_world {
  w_groups : group_map;
  w_flows : flow_map;
  w_socks : sock_map;
  w_sockhash : sockhash_map;
  (* messages of [msg_rb] in the order of their reservation, which is the order
     they are consumed in *)
  w_rb : list msg_value;
  (* number of helper calls made *)
  w_tick : nat;
}.

Section World.
Context {K : Kernel}.

Definition set_groups v w := mk_world K v (w_flows w) (w_socks w) (w_sockhash w) (w_rb w) (w_tick w).
Definition set_flows v w := mk_world K (w_groups w) v (w_socks w) (w_sockhash w) (w_rb w) (w_tick w).
Definition set_socks v w := mk_world K (w_groups w) (w_flows w) v (w_sockhash w) (w_rb w) (w_tick w).
Definition set_sockhash v w := mk_world K (w_groups w) (w_flows w) (w_socks w) v (w_rb w) (w_tick w).
Definition set_rb v w := mk_world K (w_groups w) (w_flows w) (w_socks w) (w_sockhash w) v (w_tick w).
Definition tick w := mk_world K (w_groups w) (w_flows w) (w_socks w) (w_sockhash w) (w_rb w) (S (w_tick w)).

(** [bpf_ringbuf_output], and [bpf_ringbuf_submit] of the memory reserved when
    the buffer held [pos] messages. *)
Definition rb_output (m : msg_value) (w : world) : world := set_rb (w_rb w ++ [m]) w.
Definition rb_submit (pos : nat) (m : msg_value) (w : world) : world :=
  set_rb (take pos (w_rb w) ++ m :: drop pos (w_rb w)) w.

(** Helper calls with an unpredictable answer. *)
Definition ktime_get_ns (w : world) : Z * world := (bpf_ktime_get_ns (w_tick w), tick w).
Definition get_prandom_u32 (w : world) : Z * world := (bpf_get_prandom_u32 (w_tick w), tick w).
Definition ringbuf_reserve (sz : Z) (w : world) : option (Z * reuseport_storage_key) * world :=
  (bpf_ringbuf_reserve (w_tick w) sz, tick w).

(** [log_printf]: reserve memory, format into it, output a copy, discard the
    reservation. Neither [type] nor [skey] of the reserved memory is assigned. *)
Definition log_printf (fmt : string) (args : list Z) (w : world) : world :=
  let '(e, w) := ringbuf_reserve MSG_SZ w in
  match e with
  | None => w
  | Some (ty, key) =>
      let ok := bpf_ringbuf_output (w_tick w) in
      let w := tick w in
      if ok then rb_output (mk_msg ty key (M_log fmt args)) w else w
  end.

(** [log_printfs]: the same, with [skey] assigned. *)
Definition log_printfs (skey : reuseport_storage_key) (fmt : string) (args : list Z)
  (w : world) : world :=
  let '(e, w) := ringbuf_reserve MSG_SZ w in
  match e with
  | None => w
  | Some (ty, _) =>
      let ok := bpf_ringbuf_output (w_tick w) in
      let w := tick w in
      if ok then rb_output (mk_msg ty skey (M_log fmt args)) w else w
  end.

Definition log_if (c : bool) (fmt : string) (args : list Z) (w : world) : world :=
  if c then log_printf fmt args w else w.

(** [_skey_from_bpf_sock]: the unassigned part of the union is zero. *)
Definition _skey_from_bpf_sock (sk : bpf_sock) : reuseport_storage_key :=
  let ip :=
    if bs_family sk =? AF_INET then (bs_src_ip4 sk, 0, 0, 0)
    else if bs_family sk =? AF_INET6 then bs_src_ip6 sk
    else (0, 0, 0, 0) in
  mk_skey (u8 (bs_family sk)) 0 (u16 (bs_src_port sk)) ip.

(** [get_state]: the pointer to the group's storage, and [*created_ptr] (which
    is set even if the insertion failed). *)
Definition get_state (sk : bpf_sock) (create : bool) (w : world)
  : option reuseport_storage * bool * world :=
  let skey := _skey_from_bpf_sock sk in
  match bpf_map_lookup_elem (w_groups w) skey with
  | Some st => (Some st, false, w)
  | None =>
      if create then
        let '(g, r) := bpf_map_update_elem (w_groups w) skey empty_state BPF_NOEXIST in
        let w := set_groups g w in
        let w := log_if (negb (r =? 0)) "new state error %d" [r] w in
        let w := log_printfs skey "[#] socket group created" [] w in
        (bpf_map_lookup_elem (w_groups w) skey, true, w)
      else (None, false, w)
  end.

(** Stores through the pointers returned by [get_state] and [bpf_sk_storage_get]. *)
Definition put_state (sk : bpf_sock) (st : reuseport_storage) (w : world) : world :=
  set_groups (map_value_write (w_groups w) (_skey_from_bpf_sock sk) st) w.
Definition put_sock (id : Z) (s : socket_storage) (w : world) : world :=
  set_socks (map_value_write (w_socks w) id s) w.
End World.

Lemma bpf_loop_run {K : Kernel} {L : KernelLaws} C nr (f : Z → C → C * Z) c :
  nr <= BPF_MAX_LOOPS → bpf_loop nr f c = loop_from (Z.to_nat nr) 0 f c.
Proof. intros H. rewrite bpf_loop_spec. by apply Z.leb_le in H as ->. Qed.

(** What every iteration preserves, the loop preserves. *)
Lemma loop_from_inv {C : Type} (P : C → Prop) (f : Z → C → C * Z) n i c :
  (∀ i c, P c → P (fst (f i c))) → P c → P (loop_from n i f c).
Proof.
  intros Hf. revert i c. induction n as [|n IH]; intros i c Hc; [done|]. cbn.
  specialize (Hf i c Hc). destruct (f i c) as [c' r]. case_match; auto.
Qed.
Lemma bpf_loop_inv {K : Kernel} {L : KernelLaws} {C : Type} (P : C → Prop) nr (f : Z → C → C * Z) c :
  (∀ i c, P c → P (fst (f i c))) → P c → P (bpf_loop nr f c).
Proof. intros Hf Hc. rewrite bpf_loop_spec. case_match; [by apply loop_from_inv|done]. Qed.

(** ** Steps that only log *)
Section Logs.
Context {K : Kernel}.

(** A log message; its type is what the reserved memory held. *)
Definition is_log (m : msg_value) : Prop :=
  ∃ fmt args n sz k, m_body m = M_log fmt args ∧ bpf_ringbuf_reserve n sz = Some (m_type m, k).

Record logs_only (w w' : world) : Prop := {
  lo_groups : w_groups w' = w_groups w;
  lo_flows : w_flows w' = w_flows w;
  lo_socks : w_socks w' = w_socks w;
  lo_sockhash : w_sockhash w' = w_sockhash w;
  lo_rb : ∃ l, w_rb w' = w_rb w ++ l ∧ Forall is_log l;
  lo_tick : (w_tick w <= w_tick w')%nat;
}.

#[export] Instance logs_only_preorder : PreOrder logs_only.
Proof.
  split.
  - intros w. split; try done. exists []. by rewrite app_nil_r.
  - intros w1 w2 w3 [? ? ? ? (l & E & Hl) ?] [? ? ? ? (l' & E' & Hl') ?].
    split; try congruence; [|lia]. exists (l ++ l'). split; [by rewrite E', E, app_assoc|by apply Forall_app].
Qed.

Lemma logs_only_tick w : logs_only w (tick w).
Proof. split; try done; [exists []; by rewrite app_nil_r|cbn; lia]. Qed.

Lemma logs_only_output w n sz ty k key fmt args :
  bpf_ringbuf_reserve n sz = Some (ty, k) → logs_only w (rb_output (mk_msg ty key (M_log fmt args)) w).
Proof.
  intros E. split; try done. eexists. split; [done|]. constructor; [by exists fmt, args, n, sz, k|done].
Qed.

Lemma logs_only_ktime w t w' : ktime_get_ns w = (t, w') → logs_only w w'.
Proof. intros [= <- <-]. apply logs_only_tick. Qed.

Lemma logs_only_printf w fmt args : logs_only w (log_printf fmt args w).
Proof.
  unfold log_printf, ringbuf_reserve. repeat case_match; simplify_eq; try apply logs_only_tick.
  - etrans; [apply logs_only_tick|]. etrans; [apply logs_only_tick|]. by eapply logs_only_output.
  - etrans; apply logs_only_tick.
Qed.

Lemma logs_only_printfs w key fmt args : logs_only w (log_printfs key fmt args w).
Proof.
  unfold log_printfs, ringbuf_reserve. repeat case_match; simplify_eq; try apply logs_only_tick.
  - etrans; [apply logs_only_tick|]. etrans; [apply logs_only_tick|]. by eapply logs_only_output.
  - etrans; apply logs_only_tick.
Qed.

Lemma logs_only_if w b fmt args : logs_only w (log_if b fmt args w).
Proof. destruct b; [apply logs_only_printf|reflexivity]. Qed.
End Logs.

Create HintDb logs.
#[export] Hint Resolve logs_only_tick logs_only_printf logs_only_printfs logs_only_if : logs.
#[export] Hint Extern 0 (logs_only ?w ?w) => reflexivity : logs.
(** Chains of logging steps. *)
Ltac logs := repeat first [eassumption | solve [eauto with logs]
  | etrans; [|solve [eauto with logs]]].

(** ** A concrete kernel, to evaluate the programs

    Maps are finite maps with a capacity (0: unlimited); the sockets of the sockhash are the ones
    selectable, except [select_err]; the other helpers are the arguments. *)
Section TestKernel.
Context {Key V : Type} `{Countable Key} (cap : Z).
#[export] Instance gmap_bpf : BpfMap Key V (gmap Key V) := {
  bpf_map_lookup_elem m k := m !! k;
  bpf_map_update_elem m k v fl :=
    match m !! k with
    | Some _ => if fl =? BPF_NOEXIST then (m, - EEXIST) else (<[k := v]> m, 0)
    | None => if fl =? BPF_EXIST then (m, - ENOENT)
              else if (Z.of_nat (size m) <? cap) || (cap =? 0) then (<[k := v]> m, 0) else (m, -7)
    end;
  bpf_map_delete_elem m k :=
    match m !! k with Some _ => (delete k m, 0) | None => (m, - ENOENT) end;
  map_value_write m k v := <[k := v]> m;
}.
End TestKernel.

#[export] Instance gmap_bpf_laws {Key V} `{Countable Key} cap exact :
  @BpfMapLaws Key V _ (@gmap_bpf Key V _ _ cap) exact.
Proof.
  split.
  - intros m k v fl m'. cbn. destruct (m !! k) eqn:E; repeat case_match; intros; simplify_eq;
      apply lookup_insert_eq.
  - intros m k v m'. cbn. destruct (m !! k) eqn:E; [|done]. intros; simplify_eq.
  - intros m k v m'. cbn. destruct (m !! k) eqn:E; [by eexists|]. by repeat case_match.
  - intros m k v fl m' r j. cbn. intros Hu Hj. left.
    destruct (m !! k); repeat case_match; simplify_eq; try done; by rewrite lookup_insert_ne.
  - intros m k v fl m' r. cbn. intros Hu Hr. left.
    destruct (m !! k) eqn:E; repeat case_match; simplify_eq; done.
  - intros m k m' r. cbn. destruct (m !! k) eqn:E; intros; simplify_eq; [apply lookup_delete_eq|done].
  - intros m k m' r j. cbn. destruct (m !! k) eqn:E; intros; simplify_eq; [by apply lookup_delete_ne|done].
  - intros m k v _. apply lookup_insert_eq.
  - intros m k v j Hj. by apply lookup_insert_ne.
Qed.

(** Parameters of the concrete kernel: clock, ring-buffer space, and the answer
    of the socket selection for a socket of the sockhash. *)
Definition test_kernel (clock : nat → Z) (reserve : nat → Z → option (Z * reuseport_storage_key))
  (select : bpf_sock → Z → Z) : Kernel := {|
  group_map := gmap reuseport_storage_key reuseport_storage;
  group_bpf := gmap_bpf 512;
  flow_map := gmap Z lru_value;
  flow_bpf := gmap_bpf 8192;
  lru_stale := λ _ _, mk_lru 0 0;
  sock_map := gmap Z socket_storage;
  sock_bpf := gmap_bpf 8192;
  sockhash_map := gmap Z Z;
  sockhash_bpf := gmap_bpf 0;
  bpf_sk_select_reuseport h sk c :=
    match h !! c with Some _ => select sk c | None => - ENOENT end;
  bpf_ktime_get_ns := clock;
  bpf_get_prandom_u32 := λ n, Z.of_nat n + 77;
  bpf_ringbuf_reserve := reserve;
  bpf_ringbuf_output := λ _, true;
  percpu_page_ok := λ _, true;
  percpu_scratch := λ _, Some (zeros SCRATCH_SZ);
  mod_by_zero := λ x, x;
  shift_oob := λ _ x _, x;
  bpf_loop := λ C nr f c, if nr <=? BPF_MAX_LOOPS then loop_from (Z.to_nat nr) 0 f c else c;
|}.

#[export] Instance test_kernel_laws clock reserve select :
  @KernelLaws (test_kernel clock reserve select).
Proof.
  refine {| bpf_loop_spec := _ |}.
  - cbn. intros h sk c. destruct (h !! c); intros; [by eexists|done].
  - intros n m H. injection H as <-. split; [apply length_zeros|apply bytes_ok_zeros].
  - done.
Qed.

(** A kernel with a running clock, ring-buffer space and every socket selectable. *)
Definition good_kernel : Kernel :=
  test_kernel (λ n, 1000000000 * (5 + Z.of_nat n)) (λ _ _, Some (0, zero_skey)) (λ _ _, 0).
#[export] Instance good_laws : @KernelLaws good_kernel := test_kernel_laws _ _ _.
Definition empty_world (K := good_kernel) : world := mk_world K ∅ ∅ ∅ ∅ [] 0.
