(* ===== verification/Sha.v ===== *)
(** SHA-256 and HMAC-SHA-256 as the bespoke dissector computes them:
    [ebpf/ebpf_sha256.c], and the per-CPU [struct scratch] of [ebpf/ebpf_quic.c] that it
    works in.

    [Fips180] and [Hmac] are the published constructions; [sha256_hmac_spec] shows the
    source's two-block computation is HMAC-SHA-256. *)

From S2P Require Import Prelude.

(** ** [struct scratch]

    [s_union] is the 416-byte union: the words [w] at 0, [tv] at 256, the blocks [tmp] at
    288 and [secret] at 352; or [aes_ctx] at 0; or [sni] at 0 and [sni_len] at 152. *)
Record scratch := mk_scratch {
  s_union : list Z;
  s_quic_key : list Z;
  s_quic_iv : list Z;
  s_quic_hp : list Z;
  s_pkt : list Z;
}.
Definition set_union v sc := mk_scratch v (s_quic_key sc) (s_quic_iv sc) (s_quic_hp sc) (s_pkt sc).
Definition set_quic_key v sc := mk_scratch (s_union sc) v (s_quic_iv sc) (s_quic_hp sc) (s_pkt sc).
Definition set_quic_iv v sc := mk_scratch (s_union sc) (s_quic_key sc) v (s_quic_hp sc) (s_pkt sc).
Definition set_quic_hp v sc := mk_scratch (s_union sc) (s_quic_key sc) (s_quic_iv sc) v (s_pkt sc).
Definition set_pkt v sc := mk_scratch (s_union sc) (s_quic_key sc) (s_quic_iv sc) (s_quic_hp sc) v.

Definition UNION_SZ : nat := 416.
Definition PKT_SZ : nat := 1024.
Record scratch_ok (sc : scratch) : Prop := {
  so_union : length (s_union sc) = UNION_SZ ∧ bytes_ok (s_union sc);
  so_key : length (s_quic_key sc) = 16%nat ∧ bytes_ok (s_quic_key sc);
  so_iv : length (s_quic_iv sc) = 16%nat ∧ bytes_ok (s_quic_iv sc);
  so_hp : length (s_quic_hp sc) = 16%nat ∧ bytes_ok (s_quic_hp sc);
  so_pkt : length (s_pkt sc) = PKT_SZ ∧ bytes_ok (s_pkt sc);
}.

(** The first [n] 32-bit words of an object, and back. *)
Definition words (n : nat) (l : list Z) : list Z := map (λ i, load 4 l (4 * i)) (seq 0 n).
Definition word_bytes (ws : list Z) : list Z := concat (map (le_bytes 4) ws).
Definition set_w (w : list Z) sc := set_union (store (s_union sc) 0 (word_bytes w)) sc.
Definition set_tv (tv : list Z) sc := set_union (store (s_union sc) 256 (word_bytes tv)) sc.
Definition get_tmp sc := slice (s_union sc) 288 64.
Definition set_tmp (v : list Z) sc := set_union (store (s_union sc) 288 v) sc.
Definition get_secret sc := slice (s_union sc) 352 64.
Definition set_secret (v : list Z) sc := set_union (store (s_union sc) 352 v) sc.

(** ** [ebpf_sha256.c] *)
Definition sha256_init : list Z :=
  [0x6a09e667; 0xbb67ae85; 0x3c6ef372; 0xa54ff53a; 0x510e527f; 0x9b05688c; 0x1f83d9ab; 0x5be0cd19].

(** Row by row as the source lays them out. *)
Definition k : list Z := concat [
  [0x428a2f98; 0x71374491; 0xb5c0fbcf; 0xe9b5dba5; 0x3956c25b; 0x59f111f1];
  [0x923f82a4; 0xab1c5ed5; 0xd807aa98; 0x12835b01; 0x243185be; 0x550c7dc3];
  [0x72be5d74; 0x80deb1fe; 0x9bdc06a7; 0xc19bf174; 0xe49b69c1; 0xefbe4786];
  [0x0fc19dc6; 0x240ca1cc; 0x2de92c6f; 0x4a7484aa; 0x5cb0a9dc; 0x76f988da];
  [0x983e5152; 0xa831c66d; 0xb00327c8; 0xbf597fc7; 0xc6e00bf3; 0xd5a79147];
  [0x06ca6351; 0x14292967; 0x27b70a85; 0x2e1b2138; 0x4d2c6dfc; 0x53380d13];
  [0x650a7354; 0x766a0abb; 0x81c2c92e; 0x92722c85; 0xa2bfe8a1; 0xa81a664b];
  [0xc24b8b70; 0xc76c51a3; 0xd192e819; 0xd6990624; 0xf40e3585; 0x106aa070];
  [0x19a4c116; 0x1e376c08; 0x2748774c; 0x34b0bcb5; 0x391c0cb3; 0x4ed8aa4a];
  [0x5b9cca4f; 0x682e6ff3; 0x748f82ee; 0x78a5636f; 0x84c87814; 0x8cc70208];
  [0x90befffa; 0xa4506ceb; 0xbef9a3f7; 0xc67178f2]].

Section Source.
Local Open Scope c_scope.

Definition ROTATE_R (val bits : Z) : Z := Z.lor (Z.shiftr val bits) (u32 (Z.shiftl val (32 - bits))).

(** The loop bodies of [sha256_calc_chunk]. *)
Definition load_step (b w : list Z) (i : nat) : list Z := <[i := bswap 4 (load 4 b (4 * i))]> w.
Definition schedule_step (w : list Z) (i : nat) : list Z :=
  let at_ n := nthZ w (Z.of_nat i - n) in
  let s0 := ROTATE_R (at_ 15) 7 .^ ROTATE_R (at_ 15) 18 .^ Z.shiftr (at_ 15) 3 in
  let s1 := ROTATE_R (at_ 2) 17 .^ ROTATE_R (at_ 2) 19 .^ Z.shiftr (at_ 2) 10 in
  <[i := u32 (at_ 16 + s0 + at_ 7 + s1)]> w.
Definition round_step (w tv : list Z) (i : nat) : list Z :=
  let t n := nthZ tv n in
  let S1 := ROTATE_R (t 4) 6 .^ ROTATE_R (t 4) 11 .^ ROTATE_R (t 4) 25 in
  let ch := (t 4 .& t 5) .^ (u32 (Z.lnot (t 4)) .& t 6) in
  let temp1 := u32 (t 7 + S1 + ch + nthZ k (Z.of_nat i) + nthZ w (Z.of_nat i)) in
  let S0 := ROTATE_R (t 0) 2 .^ ROTATE_R (t 0) 13 .^ ROTATE_R (t 0) 22 in
  let maj := (t 0 .& t 1) .^ (t 0 .& t 2) .^ (t 1 .& t 2) in
  let temp2 := u32 (S0 + maj) in
  let tv := <[7%nat := nthZ tv 6]> tv in
  let tv := <[6%nat := nthZ tv 5]> tv in
  let tv := <[5%nat := nthZ tv 4]> tv in
  let tv := <[4%nat := u32 (nthZ tv 3 + temp1)]> tv in
  let tv := <[3%nat := nthZ tv 2]> tv in
  let tv := <[2%nat := nthZ tv 1]> tv in
  let tv := <[1%nat := nthZ tv 0]> tv in
  <[0%nat := u32 (temp1 + temp2)]> tv.
End Source.

(** [ctx] is the eight words [h], [b] the bytes of the block. *)
Definition sha256_calc_chunk (sc : scratch) (ctx b : list Z) : scratch * list Z :=
  let w := words 64 (s_union sc) in
  let w := fold_left (load_step b) (seq 0 16) w in
  let w := fold_left schedule_step (seq 16 48) w in
  let tv := take 8 ctx in
  let tv := fold_left (round_step w) (seq 0 64) tv in
  (set_tv tv (set_w w sc), zip_with (λ h t, u32 (h + t)) ctx tv).

(** 0 or -1, and what it changed. *)
Definition sha256_final (sc : scratch) (ctx data : list Z) (data_len total_len : Z) : Z * scratch * list Z * list Z :=
  if 55 <? data_len then (-1, sc, ctx, data)
  else
    let data := <[Z.to_nat data_len := 0x80]> data in
    let size := u64 (s32 (total_len * 8)) in
    let data := store data 56 (le_bytes 8 (bswap 8 size)) in
    let '(sc, ctx) := sha256_calc_chunk sc ctx data in
    (0, sc, ctx, data).

Definition sha256_read (ctx : list Z) : list Z := word_bytes (map (bswap 4) (take 8 ctx)).

(** [key->u64[i] ^= ..] over the block. *)
Definition xor_block (c : Z) (key : list Z) : list Z := map (λ b, Z.lxor b c) key.

(** The scratch, [*key] and [*data] afterwards. *)
Definition sha256_hmac (sc : scratch) (key data : list Z) (data_len : Z) : scratch * list Z * list Z :=
  let ctx := sha256_init in
  let key := xor_block 0x36 key in
  let '(sc, ctx) := sha256_calc_chunk sc ctx key in
  let key := xor_block (Z.lxor 0x36 0x5c) key in
  let '(_, sc, ctx, data) := sha256_final sc ctx data data_len (data_len + 64) in
  let data := store (zeros 64) 0 (sha256_read ctx) in
  let ctx := sha256_init in
  let '(sc, ctx) := sha256_calc_chunk sc ctx key in
  let key := xor_block 0x5c key in
  let '(_, sc, ctx, data) := sha256_final sc ctx data 32 (32 + 64) in
  (sc, key, store (zeros 64) 0 (sha256_read ctx)).

(** ** FIPS 180-4 *)
Module Fips180.
Local Open Scope c_scope.

Definition ROTR (n x : Z) : Z := x / 2 ^ n + 2 ^ (32 - n) * (x mod 2 ^ n).
Definition SHR (n x : Z) : Z := x / 2 ^ n.
Definition Ch (x y z : Z) : Z := (x .& y) .^ ((U32_MAX - x) .& z).
Definition Maj (x y z : Z) : Z := (x .& y) .^ (x .& z) .^ (y .& z).
Definition Sigma0 (x : Z) : Z := ROTR 2 x .^ ROTR 13 x .^ ROTR 22 x.
Definition Sigma1 (x : Z) : Z := ROTR 6 x .^ ROTR 11 x .^ ROTR 25 x.
Definition sigma0 (x : Z) : Z := ROTR 7 x .^ ROTR 18 x .^ SHR 3 x.
Definition sigma1 (x : Z) : Z := ROTR 17 x .^ ROTR 19 x .^ SHR 10 x.

(** The first 32 bits of the fractional parts of the square roots of the first eight
    primes, and of the cube roots of the first 64 primes. *)
Definition primes : list Z :=
  [2; 3; 5; 7; 11; 13; 17; 19; 23; 29; 31; 37; 41; 43; 47; 53; 59; 61; 67; 71; 73; 79; 83;
   89; 97; 101; 103; 107; 109; 113; 127; 131; 137; 139; 149; 151; 157; 163; 167; 173; 179;
   181; 191; 193; 197; 199; 211; 223; 227; 229; 233; 239; 241; 251; 257; 263; 269; 271; 277;
   281; 283; 293; 307; 311].
(** The largest [r] below [2 ^ n] whose cube is at most [x]. *)
Fixpoint cbrt (n : nat) (x r : Z) : Z :=
  match n with
  | O => r
  | S n => let r' := r + 2 ^ Z.of_nat n in cbrt n x (if r' * r' * r' <=? x then r' else r)
  end.
Definition K : list Z := map (λ p, u32 (cbrt 36 (p * 2 ^ 96) 0)) primes.
Definition H0 : list Z := map (λ p, u32 (Z.sqrt (p * 2 ^ 64))) (take 8 primes).

(** The message schedule: each word is computed from the words before it. *)
Definition next_word (W : list Z) : Z :=
  let t := Z.of_nat (length W) in
  u32 (sigma1 (nthZ W (t - 2)) + nthZ W (t - 7) + sigma0 (nthZ W (t - 15)) + nthZ W (t - 16)).
Fixpoint extend (n : nat) (W : list Z) : list Z :=
  match n with O => W | S n => extend n (W ++ [next_word W]) end.
Definition schedule (M : list Z) : list Z := extend 48 M.

Inductive vars := mk_vars (a b c d e f g h : Z).
Definition round (s : vars) (kw : Z * Z) : vars :=
  let '(mk_vars a b c d e f g h) := s in
  let T1 := u32 (h + Sigma1 e + Ch e f g + fst kw + snd kw) in
  let T2 := u32 (Sigma0 a + Maj a b c) in
  mk_vars (u32 (T1 + T2)) a b c (u32 (d + T1)) e f g.
Definition of_list (h : list Z) : vars :=
  mk_vars (nthZ h 0) (nthZ h 1) (nthZ h 2) (nthZ h 3) (nthZ h 4) (nthZ h 5) (nthZ h 6) (nthZ h 7).
Definition to_list (s : vars) : list Z :=
  let '(mk_vars a b c d e f g h) := s in [a; b; c; d; e; f; g; h].
Definition compress (H M : list Z) : list Z :=
  let s := fold_left round (combine K (schedule M)) (of_list H) in
  zip_with (λ x y, u32 (x + y)) H (to_list s).

(** Big-endian words of a 64-byte block. *)
Definition parse_block (b : list Z) : list Z := map (λ i, be_combine (slice b (4 * i) 4)) (seq 0 16).
Fixpoint hash_blocks (n : nat) (H m : list Z) : list Z :=
  match n with O => H | S n => hash_blocks n (compress H (parse_block (take 64 m))) (drop 64 m) end.

(** Padding to a multiple of 64 bytes, with the length in bits at the end. *)
Definition pad (m : list Z) : list Z :=
  let l := length m in
  m ++ 0x80 :: zeros (Z.to_nat ((55 - Z.of_nat l) mod 64)) ++ be_bytes 8 (8 * Z.of_nat l).
Definition sha256 (m : list Z) : list Z :=
  let p := pad m in concat (map (be_bytes 4) (hash_blocks (length p / 64) H0 p)).
End Fips180.

(** ** RFC 2104, for keys of at most one block *)
Module Hmac.
Definition block_key (key : list Z) : list Z := key ++ zeros (64 - length key).
Definition hmac (key text : list Z) : list Z :=
  let ipad := map (λ b, Z.lxor b 0x36) (block_key key) in
  let opad := map (λ b, Z.lxor b 0x5c) (block_key key) in
  Fips180.sha256 (opad ++ Fips180.sha256 (ipad ++ text)).
End Hmac.

Example sha256_abc : Fips180.sha256 [0x61; 0x62; 0x63] =
  be_bytes 32 0xba7816bf8f01cfea414140de5dae2223b00361a396177a9cb410ff61f20015ad.
Proof. vm_compute. reflexivity. Qed.
Lemma k_is_K : k = Fips180.K.
Proof. vm_compute. reflexivity. Qed.
Lemma init_is_H0 : sha256_init = Fips180.H0.
Proof. vm_compute. reflexivity. Qed.

(** ** The source computes the published functions *)
Definition word_ok (x : Z) : Prop := 0 <= x < 2 ^ 32.

Lemma u32_lnot x : word_ok x → u32 (Z.lnot x) = U32_MAX - x.
Proof.
  intros Hx. unfold word_ok in Hx. replace (Z.lnot x) with (U32_MAX - x + (-1) * 2 ^ 32) by (unfold U32_MAX, Z.lnot; lia).
  unfold u32. rewrite Z.mod_add by lia. apply Z.mod_small. unfold U32_MAX. lia.
Qed.

Lemma ROTATE_R_ROTR n x : word_ok x → 0 < n < 32 → ROTATE_R x n = Fips180.ROTR n x.
Proof.
  intros Hx Hn. unfold word_ok in Hx. unfold ROTATE_R, Fips180.ROTR. rewrite Z.shiftr_div_pow2, Z.shiftl_mul_pow2 by lia.
  assert (2 ^ 32 = 2 ^ n * 2 ^ (32 - n)) as Hp by (rewrite <- Z.pow_add_r by lia; f_equal; lia).
  assert (0 < 2 ^ n ∧ 0 < 2 ^ (32 - n)) as [Hn1 Hn2] by (split; apply Z.pow_pos_nonneg; lia).
  replace (u32 (x * 2 ^ (32 - n))) with (Z.shiftl (x mod 2 ^ n) (32 - n)).
  - rewrite Z.lor_comm, lor_shiftl_add; [done|lia| |].
    + split; [by apply Z.div_pos; lia|]. apply Z.div_lt_upper_bound; [lia|]. rewrite <- Hp. lia.
    + apply Z.mod_pos_bound. lia.
  - unfold u32. rewrite Hp, Z.shiftl_mul_pow2 by lia. by rewrite Z.mul_mod_distr_r by lia.
Qed.

Lemma nthZ_app_l (l r : list Z) i : 0 <= i < Z.of_nat (length l) → nthZ (l ++ r) i = nthZ l i.
Proof. intros Hi. unfold nthZ. apply app_nth1. lia. Qed.
Lemma nthZ_word l i : Forall word_ok l → word_ok (nthZ l i).
Proof.
  intros Hl. unfold nthZ. destruct (nth_in_or_default (Z.to_nat i) l 0) as [Hin| ->]; [|split; lia].
  rewrite Forall_forall in Hl. by apply Hl, list_elem_of_In.
Qed.

(** A loop that assigns the elements from [a] on. *)
Lemma fold_assign (f : nat → Z) n a w :
  (a + n <= length w)%nat →
  fold_left (λ w i, <[i := f i]> w) (seq a n) w = take a w ++ map f (seq a n) ++ drop (a + n) w.
Proof.
  induction n as [|n IH] in a, w |- *; intros Hl.
  { cbn. rewrite Nat.add_0_r. by rewrite take_drop. }
  cbn [seq fold_left map]. rewrite IH by (rewrite length_insert; lia).
  rewrite drop_insert_lt by lia. rewrite Nat.add_succ_r.
  replace (take (S a) (<[a:=f a]> w)) with (take a w ++ [f a]); [by rewrite <- app_assoc|].
  rewrite (take_S_r _ _ (f a)) by (apply list_lookup_insert_eq; lia).
  by rewrite take_insert_ge by lia.
Qed.

Lemma schedule_step_next W r rest :
  Forall word_ok W → (16 <= length W)%nat →
  schedule_step (W ++ r :: rest) (length W) = (W ++ [Fips180.next_word W]) ++ rest.
Proof.
  intros Hw Hl. unfold schedule_step, Fips180.next_word, Fips180.sigma0, Fips180.sigma1, Fips180.SHR.
  rewrite !nthZ_app_l by lia. rewrite !Z.shiftr_div_pow2 by lia.
  rewrite !ROTATE_R_ROTR by first [lia|by apply nthZ_word].
  rewrite insert_app_r_alt by lia. rewrite Nat.sub_diag. cbn [insert list_insert]. rewrite <- app_assoc. cbn [app].
  do 3 f_equal. lia.
Qed.

Lemma next_word_ok W : word_ok (Fips180.next_word W).
Proof. apply u32_range. Qed.

Lemma schedule_fold n W rest :
  Forall word_ok W → (16 <= length W)%nat → (n <= length rest)%nat →
  fold_left schedule_step (seq (length W) n) (W ++ rest) = Fips180.extend n W ++ drop n rest.
Proof.
  induction n as [|n IH] in W, rest |- *; intros Hw Hl Hr; [done|].
  destruct rest as [|r rest]; [cbn in Hr; lia|]. cbn [seq fold_left Fips180.extend drop].
  rewrite schedule_step_next by done.
  replace (S (length W)) with (length (W ++ [Fips180.next_word W])) by (rewrite length_app; cbn; lia).
  apply IH.
  - apply Forall_app. split; [done|]. constructor; [apply next_word_ok|done].
  - rewrite length_app. cbn. lia.
  - cbn in Hr. lia.
Qed.

Lemma extend_ok n W : Forall word_ok W →
  Forall word_ok (Fips180.extend n W) ∧ length (Fips180.extend n W) = (length W + n)%nat.
Proof.
  induction n as [|n IH] in W |- *; intros Hw; cbn; [split; [done|lia]|].
  destruct (IH (W ++ [Fips180.next_word W])) as [H1 H2].
  { apply Forall_app. split; [done|]. constructor; [apply next_word_ok|done]. }
  split; [done|]. rewrite H2, length_app. cbn. lia.
Qed.

(** The rounds. *)
Definition vars_ok (s : Fips180.vars) : Prop := Forall word_ok (Fips180.to_list s).
Lemma round_ok s kw : vars_ok s → vars_ok (Fips180.round s kw).
Proof.
  destruct s as [a b c d e f g h]. unfold vars_ok. cbn [Fips180.to_list Fips180.round].
  intros Hs. repeat (apply Forall_cons in Hs as [? Hs]).
  repeat (constructor; [first [assumption|apply u32_range]|]). constructor.
Qed.
Lemma round_step_round w s i :
  vars_ok s →
  round_step w (Fips180.to_list s) i = Fips180.to_list (Fips180.round s (nthZ k (Z.of_nat i), nthZ w (Z.of_nat i))).
Proof.
  destruct s as [a b c d e f g h]. unfold vars_ok. cbn [Fips180.to_list Fips180.round].
  intros Hs. repeat (apply Forall_cons in Hs as [? Hs]). unfold round_step.
  change (nthZ [a; b; c; d; e; f; g; h] 0) with a. change (nthZ [a; b; c; d; e; f; g; h] 1) with b.
  change (nthZ [a; b; c; d; e; f; g; h] 2) with c. change (nthZ [a; b; c; d; e; f; g; h] 4) with e.
  change (nthZ [a; b; c; d; e; f; g; h] 5) with f. change (nthZ [a; b; c; d; e; f; g; h] 6) with g.
  change (nthZ [a; b; c; d; e; f; g; h] 7) with h.
  unfold Fips180.Sigma0, Fips180.Sigma1, Fips180.Ch, Fips180.Maj. cbn [fst snd].
  rewrite !ROTATE_R_ROTR, u32_lnot by (done || lia). reflexivity.
Qed.

Lemma fold_rounds w s n i :
  vars_ok s → (i + n <= length k)%nat → (i + n <= length w)%nat →
  fold_left (round_step w) (seq i n) (Fips180.to_list s)
  = Fips180.to_list (fold_left Fips180.round (combine (take n (drop i k)) (take n (drop i w))) s).
Proof.
  induction n as [|n IH] in s, i |- *; intros Hs Hk Hw; [done|].
  cbn [seq fold_left]. rewrite round_step_round by done.
  rewrite IH by (first [by apply round_ok|lia]).
  assert (∀ l : list Z, (i < length l)%nat → take (S n) (drop i l) = nthZ l (Z.of_nat i) :: take n (drop (S i) l)) as Hd.
  { intros l Hl. unfold nthZ. rewrite Nat2Z.id. destruct (lookup_lt_is_Some_2 l i Hl) as [x Hx].
    rewrite (drop_S _ _ _ Hx). cbn. f_equal. symmetry. by apply nth_lookup_Some. }
  rewrite !Hd by lia. reflexivity.
Qed.

Lemma parse_block_ok b : bytes_ok b → length b = 64%nat →
  Forall word_ok (Fips180.parse_block b) ∧ length (Fips180.parse_block b) = 16%nat.
Proof.
  intros Hb Hl. unfold Fips180.parse_block. rewrite length_map, length_seq. split; [|done].
  apply Forall_forall. intros x Hx. apply list_elem_of_In, in_map_iff in Hx as (i & <- & Hi). apply in_seq in Hi.
  pose proof (be_combine_range (slice b (4 * i) 4) ltac:(by apply bytes_ok_slice)) as Hr.
  rewrite length_slice in Hr by lia. exact Hr.
Qed.

Lemma compress_ok H M : length H = 8%nat →
  Forall word_ok (Fips180.compress H M) ∧ length (Fips180.compress H M) = 8%nat.
Proof.
  intros Hl. unfold Fips180.compress. destruct (fold_left _ _ _) as [a b c d e f g h]. cbn [Fips180.to_list].
  split; [|by rewrite length_zip_with, Hl]. apply Forall_forall. intros x Hx.
  apply elem_of_lookup_zip_with in Hx as (i & y & z & -> & _). apply u32_range.
Qed.

(** One block: [sha256_calc_chunk] is the compression function. *)
Lemma sha256_calc_chunk_compress sc ctx b :
  bytes_ok b → length b = 64%nat → Forall word_ok ctx → length ctx = 8%nat →
  snd (sha256_calc_chunk sc ctx b) = Fips180.compress ctx (Fips180.parse_block b).
Proof.
  intros Hb Hl Hc Hcl. unfold sha256_calc_chunk.
  assert (length (words 64 (s_union sc)) = 64%nat) as Hw0 by (unfold words; by rewrite length_map, length_seq).
  set (w0 := words 64 (s_union sc)) in *. clearbody w0.
  destruct (parse_block_ok b Hb Hl) as [Hp Hpl].
  assert (fold_left (load_step b) (seq 0 16) w0 = Fips180.parse_block b ++ drop 16 w0) as ->.
  { unfold load_step. rewrite fold_assign by lia. rewrite take_0, app_nil_l. change (0 + 16)%nat with 16%nat. f_equal.
    unfold Fips180.parse_block. apply map_ext_in. intros i Hi. apply in_seq in Hi.
    unfold load. apply bswap_load; [by apply bytes_ok_slice|apply length_slice; lia]. }
  set (P := Fips180.parse_block b) in *. clearbody P. unfold Fips180.compress, Fips180.schedule.
  pose proof (schedule_fold 48 P (drop 16 w0) Hp ltac:(lia) ltac:(rewrite length_drop; lia)) as Hs.
  rewrite Hpl in Hs. rewrite Hs. destruct (extend_ok 48 P Hp) as [He Hel]. rewrite Hpl in Hel.
  set (W := Fips180.extend 48 P) in *. clearbody W. rewrite drop_drop. rewrite (drop_ge w0) by lia.
  rewrite app_nil_r.
  rewrite take_ge by lia. cbn [snd].
  replace ctx with (Fips180.to_list (Fips180.of_list ctx)) at 2.
  2: { do 8 (destruct ctx as [|? ctx]; [done|]). by destruct ctx. }
  rewrite fold_rounds; [|by do 8 (destruct ctx as [|? ctx]; [done|]); destruct ctx|done|lia].
  rewrite !drop_0. rewrite (take_ge k) by done. rewrite (take_ge W) by lia. rewrite k_is_K. reflexivity.
Qed.

(** A message of one whole block and at most 55 bytes more. *)
Definition last_block (n : nat) (T : list Z) : list Z :=
  T ++ 0x80 :: zeros (55 - n) ++ be_bytes 8 (8 * Z.of_nat (64 + n)).
Lemma sha256_two_blocks b T n :
  length b = 64%nat → length T = n → (n <= 55)%nat →
  Fips180.sha256 (b ++ T) = concat (map (be_bytes 4)
    (Fips180.compress (Fips180.compress Fips180.H0 (Fips180.parse_block b)) (Fips180.parse_block (last_block n T)))).
Proof.
  intros Hb HT Hn. unfold Fips180.sha256. cbv zeta.
  assert (Fips180.pad (b ++ T) = b ++ last_block n T) as ->.
  { unfold Fips180.pad, last_block. rewrite length_app, Hb, HT, <- app_assoc. do 4 f_equal.
    replace (55 - Z.of_nat (64 + n)) with (Z.of_nat (55 - n) + (-1) * 64) by lia.
    rewrite Z.mod_add, Z.mod_small by lia. by rewrite Nat2Z.id. }
  assert (length (last_block n T) = 64%nat) as Hl.
  { unfold last_block. rewrite length_app. cbn [length]. rewrite length_app, length_zeros, length_be_bytes, HT. lia. }
  rewrite length_app, Hb, Hl. change ((64 + 64) / 64)%nat with 2%nat. cbn [Fips180.hash_blocks].
  rewrite take_app_length', drop_app_length' by done. by rewrite take_ge by lia.
Qed.

Lemma final_data T n :
  length T = n → (n <= 55)%nat →
  store (<[n := 0x80]> (T ++ zeros (64 - n))) 56 (le_bytes 8 (bswap 8 (u64 (s32 ((Z.of_nat n + 64) * 8)))))
  = last_block n T.
Proof.
  intros HT Hn. rewrite le_bytes_bswap.
  replace (u64 (s32 ((Z.of_nat n + 64) * 8))) with (8 * Z.of_nat (64 + n)).
  2: { unfold s32. rewrite u32_small by lia. destruct (Z.ltb_spec ((Z.of_nat n + 64) * 8) (2 ^ 31)); [|lia].
       rewrite u64_small by lia. lia. }
  rewrite insert_app_r_alt by lia. rewrite HT, Nat.sub_diag.
  replace (64 - n)%nat with (S (55 - n + 8))%nat by lia. unfold zeros at 1. cbn [repeat insert list_insert].
  rewrite repeat_app. fold (zeros (55 - n)) (zeros 8).
  rewrite store_spec; rewrite ?length_be_bytes; [|rewrite length_app; cbn [length]; rewrite length_app, !length_zeros; lia].
  unfold last_block. change (56 + 8)%nat with 64%nat. rewrite !app_comm_cons, !app_assoc.
  assert (length (T ++ 0x80 :: zeros (55 - n)) = 56%nat) as H56.
  { rewrite length_app. cbn [length]. rewrite length_zeros. lia. }
  rewrite take_app_length' by done. rewrite (drop_ge _ 64) by (rewrite length_app, H56, length_zeros; lia).
  by rewrite app_nil_r.
Qed.

Lemma final_compress sc ctx T n :
  length T = n → (n <= 55)%nat → bytes_ok T → Forall word_ok ctx → length ctx = 8%nat →
  let '(_, sc', ctx', _) := sha256_final sc ctx (T ++ zeros (64 - n)) (Z.of_nat n) (Z.of_nat n + 64) in
  ctx' = Fips180.compress ctx (Fips180.parse_block (last_block n T)) ∧
  sc' = fst (sha256_calc_chunk sc ctx (last_block n T)).
Proof.
  intros HT Hn Hb Hc Hcl. unfold sha256_final. destruct (Z.ltb_spec 55 (Z.of_nat n)); [lia|].
  rewrite Nat2Z.id, final_data by done.
  pose proof (sha256_calc_chunk_compress sc ctx (last_block n T)) as Hs.
  destruct (sha256_calc_chunk sc ctx (last_block n T)) as [sc' ctx']. split; [|done]. apply Hs; [|  |done|done].
  - unfold last_block. apply Forall_app. split; [done|]. constructor; [split; lia|].
    apply Forall_app. split; [apply bytes_ok_zeros|apply be_bytes_ok].
  - unfold last_block. rewrite length_app. cbn [length]. rewrite length_app, length_zeros, length_be_bytes. lia.
Qed.

Lemma sha256_read_bytes ctx : length ctx = 8%nat → sha256_read ctx = concat (map (be_bytes 4) ctx).
Proof.
  intros Hl. unfold sha256_read, word_bytes. rewrite take_ge by lia. rewrite map_map. f_equal.
  apply map_ext. intros x. apply le_bytes_bswap.
Qed.

Lemma length_concat_bytes ctx : length (concat (map (be_bytes 4) ctx)) = (4 * length ctx)%nat.
Proof.
  induction ctx as [|x ctx IH]; [done|]. cbn [map concat length]. rewrite length_app, IH, length_be_bytes. lia.
Qed.
Lemma concat_bytes_ok ctx : bytes_ok (concat (map (be_bytes 4) ctx)).
Proof.
  induction ctx as [|x ctx IH]; cbn [map concat]; [constructor|]. apply Forall_app. split; [apply be_bytes_ok|done].
Qed.

Lemma xor_block_ok c key : bytes_ok key → 0 <= c < 256 → bytes_ok (xor_block c key).
Proof.
  intros Hk Hc. apply Forall_map. eapply Forall_impl; [exact Hk|]. intros x Hx. by apply (lxor_range 8).
Qed.
Lemma xor_block_xor c d key : xor_block c (xor_block d key) = xor_block (Z.lxor d c) key.
Proof. unfold xor_block. rewrite map_map. apply map_ext. intros x. by rewrite Z.lxor_assoc. Qed.

(** The words [w] and [tv] are all that a run leaves in the scratch. *)
Definition sha_scratch (sc sc' : scratch) : Prop :=
  ∃ u, sc' = set_union u sc ∧ length u = length (s_union sc) ∧ drop 288 u = drop 288 (s_union sc) ∧
    (bytes_ok (s_union sc) → bytes_ok u).

Lemma sha_scratch_refl sc : sha_scratch sc sc.
Proof. exists (s_union sc). split_and!; try done. by destruct sc. Qed.
Lemma sha_scratch_trans sc1 sc2 sc3 : sha_scratch sc1 sc2 → sha_scratch sc2 sc3 → sha_scratch sc1 sc3.
Proof.
  intros (u & -> & Hl & Hd & Hb) (u' & -> & Hl' & Hd' & Hb'). cbn in *. exists u'. split_and!; [done|congruence|congruence|auto].
Qed.

Lemma drop_store l off bs o :
  (off + length bs <= o)%nat → (off + length bs <= length l)%nat → drop o (store l off bs) = drop o l.
Proof.
  intros Ho Hl. rewrite store_spec by done. rewrite app_assoc, drop_app_ge by (rewrite length_app, length_take; lia).
  rewrite drop_drop. f_equal. rewrite length_app, length_take. lia.
Qed.
Lemma length_word_bytes ws : length (word_bytes ws) = (4 * length ws)%nat.
Proof.
  unfold word_bytes. induction ws as [|x ws IH]; [done|]. cbn [map concat length].
  rewrite length_app, IH, length_le_bytes. lia.
Qed.
Lemma word_bytes_ok ws : bytes_ok (word_bytes ws).
Proof.
  unfold word_bytes. induction ws as [|x ws IH]; cbn [map concat]; [constructor|].
  apply Forall_app. split; [apply le_bytes_ok|done].
Qed.
Lemma fold_length (f : list Z → nat → list Z) l w :
  (∀ w i, length (f w i) = length w) → length (fold_left f l w) = length w.
Proof. intros Hf. revert w. induction l as [|i l IH]; intros w; [done|]. cbn. by rewrite IH, Hf. Qed.

Lemma calc_chunk_shape sc ctx b :
  length ctx = 8%nat →
  ∃ w tv, fst (sha256_calc_chunk sc ctx b) = set_tv tv (set_w w sc) ∧ length w = 64%nat ∧ length tv = 8%nat.
Proof.
  intros Hc. unfold sha256_calc_chunk. eexists _, _. split; [reflexivity|]. split.
  - rewrite !fold_length; [unfold words; by rewrite length_map, length_seq|..]; intros; apply length_insert.
  - rewrite fold_length; [rewrite take_ge; lia|]. intros. unfold round_step. by rewrite !length_insert.
Qed.

Lemma sha_scratch_words sc w tv :
  length (s_union sc) = UNION_SZ → length w = 64%nat → length tv = 8%nat → sha_scratch sc (set_tv tv (set_w w sc)).
Proof.
  intros Hu Hw Htv. unfold UNION_SZ in Hu.
  exists (store (store (s_union sc) 0 (word_bytes w)) 256 (word_bytes tv)). split_and!.
  - by destruct sc.
  - repeat rewrite length_store by (rewrite ?length_store by (rewrite length_word_bytes; lia); rewrite length_word_bytes; lia). done.
  - rewrite !drop_store; rewrite ?length_store; rewrite ?length_word_bytes; (done || lia).
  - intros Hb. apply bytes_ok_store; [apply bytes_ok_store; [done|]|]; apply word_bytes_ok.
Qed.

Lemma sha256_calc_chunk_scratch sc ctx b :
  length (s_union sc) = UNION_SZ → length ctx = 8%nat → sha_scratch sc (fst (sha256_calc_chunk sc ctx b)).
Proof.
  intros Hu Hc. destruct (calc_chunk_shape sc ctx b Hc) as (w & tv & -> & Hw & Htv).
  by apply sha_scratch_words.
Qed.

(** One hash of a block and a rest, as both halves of [sha256_hmac] do it. *)
Lemma hash_two_blocks sc blk T n :
  length (s_union sc) = UNION_SZ → bytes_ok blk → length blk = 64%nat →
  length T = n → (n <= 55)%nat → bytes_ok T →
  let '(sc1, ctx) := sha256_calc_chunk sc sha256_init blk in
  let '(_, sc2, ctx, _) := sha256_final sc1 ctx (T ++ zeros (64 - n)) (Z.of_nat n) (Z.of_nat n + 64) in
  sha256_read ctx = Fips180.sha256 (blk ++ T) ∧ sha_scratch sc sc2.
Proof.
  intros Hu Hb Hl HT Hn HbT.
  assert (Forall word_ok sha256_init) as Hi by (repeat (constructor; [split; [discriminate|reflexivity]|]); constructor).
  pose proof (sha256_calc_chunk_compress sc sha256_init blk Hb Hl Hi eq_refl) as Hc.
  pose proof (sha256_calc_chunk_scratch sc sha256_init blk Hu eq_refl) as Hs.
  destruct (sha256_calc_chunk sc sha256_init blk) as [sc1 ctx]. cbn [fst snd] in *. subst ctx.
  destruct (compress_ok sha256_init (Fips180.parse_block blk) eq_refl) as [Ho Hol].
  set (ctx := Fips180.compress sha256_init (Fips180.parse_block blk)) in *.
  pose proof (final_compress sc1 ctx T n HT Hn HbT Ho Hol) as Hf.
  destruct (sha256_final sc1 ctx _ _ _) as [[[r sc2] ctx2] d]. destruct Hf as [-> ->].
  rewrite sha256_read_bytes by by apply compress_ok.
  rewrite (sha256_two_blocks blk T n) by done. rewrite <- init_is_H0. split; [done|].
  eapply sha_scratch_trans; [done|]. apply sha256_calc_chunk_scratch; [|done].
  destruct Hs as (u & -> & Hlu & _). cbn. congruence.
Qed.

Lemma length_sha256 m : length (Fips180.sha256 m) = 32%nat ∧ bytes_ok (Fips180.sha256 m).
Proof.
  unfold Fips180.sha256. cbv zeta. set (p := Fips180.pad m). generalize (length p / 64)%nat. intros n.
  split; [|apply concat_bytes_ok]. rewrite length_concat_bytes.
  assert (∀ n H q, length H = 8%nat → length (Fips180.hash_blocks n H q) = 8%nat) as Hh.
  { intros n'. induction n' as [|n' IH]; intros H q HH; [done|]. cbn. by apply IH, compress_ok. }
  rewrite Hh; [done|]. by rewrite <- init_is_H0.
Qed.

Lemma block_key_pad key : (length key <= 64)%nat → Hmac.block_key (Hmac.block_key key) = Hmac.block_key key.
Proof.
  intros Hl. unfold Hmac.block_key. rewrite length_app, length_zeros.
  replace (64 - (length key + (64 - length key)))%nat with 0%nat by lia. by rewrite app_nil_r.
Qed.

(** The key block is the key padded with zeros, the data block holds the [n] bytes of the
    text and zeros. *)
Lemma sha256_hmac_hmac sc key T n :
  length (s_union sc) = UNION_SZ → bytes_ok key → (length key <= 64)%nat →
  length T = n → (n <= 55)%nat → bytes_ok T →
  let '(sc', key', data') := sha256_hmac sc (Hmac.block_key key) (T ++ zeros (64 - n)) (Z.of_nat n) in
  key' = Hmac.block_key key ∧ data' = Hmac.hmac key T ++ zeros 32 ∧ sha_scratch sc sc'.
Proof.
  intros Hu Hb Hl HT Hn HbT. set (kb := Hmac.block_key key).
  assert (length kb = 64%nat ∧ bytes_ok kb) as [Hkl Hkb].
  { unfold kb, Hmac.block_key. split; [rewrite length_app, length_zeros; lia|].
    apply Forall_app. split; [done|apply bytes_ok_zeros]. }
  unfold sha256_hmac. cbv zeta.
  assert (∀ c, length (xor_block c kb) = 64%nat) as Hxl by (intros c; unfold xor_block; by rewrite length_map).
  pose proof (hash_two_blocks sc (xor_block 0x36 kb) T n Hu ltac:(apply xor_block_ok; [done|lia]) (Hxl _) HT Hn HbT) as H1.
  destruct (sha256_calc_chunk sc sha256_init (xor_block 0x36 kb)) as [sc1 ctx1].
  destruct (sha256_final sc1 ctx1 _ _ _) as [[[r1 sc2] ctx2] d1]. destruct H1 as [E1 S1].
  rewrite E1. set (inner := Fips180.sha256 (xor_block 0x36 kb ++ T)) in *.
  destruct (length_sha256 (xor_block 0x36 kb ++ T)) as [Hil Hib]. fold inner in Hil, Hib.
  assert (store (zeros 64) 0 inner = inner ++ zeros (64 - 32)) as ->.
  { rewrite store_spec by (rewrite Hil, length_zeros; lia). rewrite take_0, Hil. reflexivity. }
  rewrite !xor_block_xor. change (Z.lxor 0x36 (Z.lxor 0x36 0x5c)) with 0x5c.
  assert (length (s_union sc2) = UNION_SZ) as Hu2 by (destruct S1 as (u & -> & Hlu & _); cbn; congruence).
  pose proof (hash_two_blocks sc2 (xor_block 0x5c kb) inner 32 Hu2 ltac:(apply xor_block_ok; [done|lia]) (Hxl _) Hil ltac:(lia) Hib) as H2.
  destruct (sha256_calc_chunk sc2 sha256_init (xor_block 0x5c kb)) as [sc3 ctx3].
  change (Z.of_nat 32) with 32 in H2.
  destruct (sha256_final sc3 ctx3 _ _ _) as [[[r2 sc4] ctx4] d2]. destruct H2 as [E2 S2].
  split_and!.
  - change (Z.lxor 92 92) with 0. unfold xor_block. rewrite <- (map_id kb) at 2. apply map_ext. intros x. apply Z.lxor_0_r.
  - rewrite E2. destruct (length_sha256 (xor_block 0x5c kb ++ inner)) as [Hol _].
    rewrite store_spec by (rewrite Hol, length_zeros; lia). rewrite take_0, Hol. reflexivity.
  - by eapply sha_scratch_trans.
Qed.

Example hmac_rfc4231_2 :
  Hmac.hmac [0x4a; 0x65; 0x66; 0x65]
    [0x77; 0x68; 0x61; 0x74; 0x20; 0x64; 0x6f; 0x20; 0x79; 0x61; 0x20; 0x77; 0x61; 0x6e;
     0x74; 0x20; 0x66; 0x6f; 0x72; 0x20; 0x6e; 0x6f; 0x74; 0x68; 0x69; 0x6e; 0x67; 0x3f]
  = be_bytes 32 0x5bdcc146bf60754e6a042426089575c75a003f089d2739839dec58b964ec3843.
Proof. vm_compute. reflexivity. Qed.

(** C31. HMAC: for every key of at most 64 bytes, in a block padded with zeros, and every
    text of at most 55 bytes, [sha256_hmac] replaces the data block by the
    HMAC-SHA-256 of RFC 2104 and FIPS 180-4 followed by zeros, restores the key block,
    and changes nothing else of the scratch than its words [w] and [tv]. *)
Theorem sha256_hmac_spec sc key T n :
  length (s_union sc) = UNION_SZ → bytes_ok key → (length key <= 64)%nat →
  length T = n → (n <= 55)%nat → bytes_ok T →
  let '(sc', key', data') := sha256_hmac sc (Hmac.block_key key) (T ++ zeros (64 - n)) (Z.of_nat n) in
  key' = Hmac.block_key key ∧ data' = Hmac.hmac key T ++ zeros 32 ∧
  drop 288 (s_union sc') = drop 288 (s_union sc) ∧ length (s_union sc') = UNION_SZ ∧
  s_quic_key sc' = s_quic_key sc ∧ s_quic_iv sc' = s_quic_iv sc ∧ s_quic_hp sc' = s_quic_hp sc ∧ s_pkt sc' = s_pkt sc.
Proof.
  intros Hu Hb Hl HT Hn HbT. pose proof (sha256_hmac_hmac sc key T n Hu Hb Hl HT Hn HbT) as H.
  destruct (sha256_hmac sc _ _ _) as [[sc' key'] data']. destruct H as (-> & -> & u & -> & Hlu & Hd & _).
  cbn. split_and!; congruence || done.
Qed.

Definition zero_scratch : scratch := mk_scratch (zeros UNION_SZ) (zeros 16) (zeros 16) (zeros 16) (zeros PKT_SZ).
Lemma sha256_hmac_spec_witness :
  let '(_, key', data') := sha256_hmac zero_scratch (Hmac.block_key [1; 2; 3]) ([4; 5] ++ zeros (64 - 2)) (Z.of_nat 2) in
  key' = Hmac.block_key [1; 2; 3] ∧ data' = Hmac.hmac [1; 2; 3] [4; 5] ++ zeros 32.
Proof.
  pose proof (sha256_hmac_spec zero_scratch [1; 2; 3] [4; 5] 2 eq_refl
    ltac:(repeat constructor; discriminate) ltac:(cbn; lia) eq_refl ltac:(lia) ltac:(repeat constructor; discriminate)) as H.
  destruct (sha256_hmac _ _ _ _) as [[sc' key'] data']. destruct H as (Hk & Hd & _). split; [exact Hk|exact Hd].
Defined.
