(* ===== verification/Aes.v ===== *)
(** AES-128 as the bespoke dissector computes it: [ebpf/ebpf_aes128.c].

    [Fips197] is the published cipher (field arithmetic, the four transformations on the
    state, the key expansion); [AES_ECB_encrypt_refines] shows the source's in-place
    byte loops compute it. *)

From S2P Require Import Prelude.
From Stdlib Require Import Btauto.
Open Scope Z_scope.

(** ** [ebpf_aes128.c] *)
Definition AES_STATE_COLUMNS : nat := 4.
Definition AES_KEY_WORDS : nat := 4.
Definition AES_ROUND_COUNT : nat := 10.
(** [sizeof(struct AES_ctx)]: the bytes [round_key]. *)
Definition AES_ctx_SZ : nat := 176.

Definition aes_sbox : list Z :=
  [0x63; 0x7c; 0x77; 0x7b; 0xf2; 0x6b; 0x6f; 0xc5; 0x30; 0x01; 0x67; 0x2b; 0xfe; 0xd7; 0xab; 0x76;
   0xca; 0x82; 0xc9; 0x7d; 0xfa; 0x59; 0x47; 0xf0; 0xad; 0xd4; 0xa2; 0xaf; 0x9c; 0xa4; 0x72; 0xc0;
   0xb7; 0xfd; 0x93; 0x26; 0x36; 0x3f; 0xf7; 0xcc; 0x34; 0xa5; 0xe5; 0xf1; 0x71; 0xd8; 0x31; 0x15;
   0x04; 0xc7; 0x23; 0xc3; 0x18; 0x96; 0x05; 0x9a; 0x07; 0x12; 0x80; 0xe2; 0xeb; 0x27; 0xb2; 0x75;
   0x09; 0x83; 0x2c; 0x1a; 0x1b; 0x6e; 0x5a; 0xa0; 0x52; 0x3b; 0xd6; 0xb3; 0x29; 0xe3; 0x2f; 0x84;
   0x53; 0xd1; 0x00; 0xed; 0x20; 0xfc; 0xb1; 0x5b; 0x6a; 0xcb; 0xbe; 0x39; 0x4a; 0x4c; 0x58; 0xcf;
   0xd0; 0xef; 0xaa; 0xfb; 0x43; 0x4d; 0x33; 0x85; 0x45; 0xf9; 0x02; 0x7f; 0x50; 0x3c; 0x9f; 0xa8;
   0x51; 0xa3; 0x40; 0x8f; 0x92; 0x9d; 0x38; 0xf5; 0xbc; 0xb6; 0xda; 0x21; 0x10; 0xff; 0xf3; 0xd2;
   0xcd; 0x0c; 0x13; 0xec; 0x5f; 0x97; 0x44; 0x17; 0xc4; 0xa7; 0x7e; 0x3d; 0x64; 0x5d; 0x19; 0x73;
   0x60; 0x81; 0x4f; 0xdc; 0x22; 0x2a; 0x90; 0x88; 0x46; 0xee; 0xb8; 0x14; 0xde; 0x5e; 0x0b; 0xdb;
   0xe0; 0x32; 0x3a; 0x0a; 0x49; 0x06; 0x24; 0x5c; 0xc2; 0xd3; 0xac; 0x62; 0x91; 0x95; 0xe4; 0x79;
   0xe7; 0xc8; 0x37; 0x6d; 0x8d; 0xd5; 0x4e; 0xa9; 0x6c; 0x56; 0xf4; 0xea; 0x65; 0x7a; 0xae; 0x08;
   0xba; 0x78; 0x25; 0x2e; 0x1c; 0xa6; 0xb4; 0xc6; 0xe8; 0xdd; 0x74; 0x1f; 0x4b; 0xbd; 0x8b; 0x8a;
   0x70; 0x3e; 0xb5; 0x66; 0x48; 0x03; 0xf6; 0x0e; 0x61; 0x35; 0x57; 0xb9; 0x86; 0xc1; 0x1d; 0x9e;
   0xe1; 0xf8; 0x98; 0x11; 0x69; 0xd9; 0x8e; 0x94; 0x9b; 0x1e; 0x87; 0xe9; 0xce; 0x55; 0x28; 0xdf;
   0x8c; 0xa1; 0x89; 0x0d; 0xbf; 0xe6; 0x42; 0x68; 0x41; 0x99; 0x2d; 0x0f; 0xb0; 0x54; 0xbb; 0x16].
Definition round_constants : list Z :=
  [0x8d; 0x01; 0x02; 0x04; 0x08; 0x10; 0x20; 0x40; 0x80; 0x1b; 0x36].

(** [l[i] = v] and [l[i] ^= v]. *)
Definition assign (i : nat) (v : Z) (l : list Z) : list Z := <[i := v]> l.
Definition xor_at (i : nat) (v : Z) (l : list Z) : list Z :=
  assign i (Z.lxor (nthZ l (Z.of_nat i)) v) l.

Definition copy_key_step (key round_key : list Z) (i : nat) : list Z :=
  fold_left (λ rk j, assign (i * 4 + j) (nthZ key (Z.of_nat (i * 4 + j))) rk) (seq 0 4) round_key.

Definition key_expand_step (round_key : list Z) (i : nat) : list Z :=
  let at_ n := nthZ round_key (Z.of_nat n) in
  let k := ((i - 1) * 4)%nat in
  let tmp := [at_ (k + 0); at_ (k + 1); at_ (k + 2); at_ (k + 3)]%nat in
  let tmp :=
    if (i mod AES_KEY_WORDS =? 0)%nat then
      let u8tmp := nthZ tmp 0 in
      let tmp := [nthZ tmp 1; nthZ tmp 2; nthZ tmp 3; u8tmp] in
      let tmp := map (nthZ aes_sbox) tmp in
      assign 0 (Z.lxor (nthZ tmp 0) (nthZ round_constants (Z.of_nat (i / AES_KEY_WORDS)))) tmp
    else tmp in
  let j := (i * 4)%nat in
  let k := ((i - AES_KEY_WORDS) * 4)%nat in
  fold_left (λ rk n, assign (j + n) (Z.lxor (nthZ rk (Z.of_nat (k + n))) (nthZ tmp (Z.of_nat n))) rk)
    (seq 0 4) round_key.

Definition AES_key_expand (ctx key : list Z) : list Z :=
  let round_key := fold_left (copy_key_step key) (seq 0 AES_KEY_WORDS) ctx in
  fold_left key_expand_step
    (seq AES_KEY_WORDS (AES_STATE_COLUMNS * (AES_ROUND_COUNT + 1) - AES_KEY_WORDS)) round_key.

(** [for (i..4) for (j..4)] over a state. *)
Definition for_4x4 (body : nat → nat → list Z → list Z) (state : list Z) : list Z :=
  fold_left (λ st i, fold_left (λ st j, body i j st) (seq 0 4) st) (seq 0 4) state.

Definition add_round_key (round : Z) (state ctx : list Z) : Z * list Z :=
  if Z.of_nat AES_ROUND_COUNT <? round then (-1, state)
  else
    (0, for_4x4 (λ i j st,
          let p := u8 (round * Z.of_nat AES_STATE_COLUMNS * 4 + Z.of_nat (i * AES_STATE_COLUMNS) + Z.of_nat j) in
          xor_at (i * 4 + j) (nthZ ctx (p mod 176)) st) state).

Definition sub_bytes (state : list Z) : list Z :=
  for_4x4 (λ i j st, assign (j * 4 + i) (nthZ aes_sbox (nthZ st (Z.of_nat (j * 4 + i)))) st) state.

Definition shift_rows (state : list Z) : list Z :=
  let mv d s st := assign d (nthZ st (Z.of_nat s)) st in
  (* Rotate first row 1 columns to left *)
  let tmp := nthZ state 1 in
  let state := mv 1%nat 5%nat state in
  let state := mv 5%nat 9%nat state in
  let state := mv 9%nat 13%nat state in
  let state := assign 13 tmp state in
  (* Rotate second row 2 columns to left *)
  let tmp := nthZ state 2 in
  let state := mv 2%nat 10%nat state in
  let state := assign 10 tmp state in
  let tmp := nthZ state 6 in
  let state := mv 6%nat 14%nat state in
  let state := assign 14 tmp state in
  (* Rotate third row 3 columns to left *)
  let tmp := nthZ state 3 in
  let state := mv 3%nat 15%nat state in
  let state := mv 15%nat 11%nat state in
  let state := mv 11%nat 7%nat state in
  assign 7 tmp state.

(** Assigned to a [uint8_t]. *)
Definition gf_multiply_by_2 (x : Z) : Z :=
  u8 (Z.lxor (Z.shiftl x 1) (Z.land (Z.shiftr x 7) 1 * 0x1b)).

Definition mix_column (state : list Z) (i : nat) : list Z :=
  let at_ st n := nthZ st (Z.of_nat (i * 4 + n)) in
  let t := at_ state 0%nat in
  let tmp := Z.lxor (Z.lxor (Z.lxor (at_ state 0%nat) (at_ state 1%nat)) (at_ state 2%nat)) (at_ state 3%nat) in
  let tm := gf_multiply_by_2 (Z.lxor (at_ state 0%nat) (at_ state 1%nat)) in
  let state := xor_at (i * 4 + 0) (Z.lxor tm tmp) state in
  let tm := gf_multiply_by_2 (Z.lxor (at_ state 1%nat) (at_ state 2%nat)) in
  let state := xor_at (i * 4 + 1) (Z.lxor tm tmp) state in
  let tm := gf_multiply_by_2 (Z.lxor (at_ state 2%nat) (at_ state 3%nat)) in
  let state := xor_at (i * 4 + 2) (Z.lxor tm tmp) state in
  let tm := gf_multiply_by_2 (Z.lxor (at_ state 3%nat) t) in
  xor_at (i * 4 + 3) (Z.lxor tm tmp) state.
Definition mix_columns (state : list Z) : list Z := fold_left mix_column (seq 0 4) state.

(** The loop of [AES_ECB_encrypt] from [round], with the break at the last one. *)
Fixpoint encrypt_rounds (n : nat) (round : Z) (ctx state : list Z) : list Z :=
  let state := sub_bytes state in
  let state := shift_rows state in
  match n with
  | O => state
  | S n =>
      let state := mix_columns state in
      let '(_, state) := add_round_key round state ctx in
      encrypt_rounds n (round + 1) ctx state
  end.
Definition AES_ECB_encrypt (ctx state : list Z) : list Z :=
  let '(_, state) := add_round_key 0 state ctx in
  let state := encrypt_rounds (AES_ROUND_COUNT - 1) 1 ctx state in
  let '(_, state) := add_round_key (Z.of_nat AES_ROUND_COUNT) state ctx in
  state.

(** ** FIPS 197 *)
Module Fips197.

(** Multiplication of polynomials over GF(2), and modulo x^8 + x^4 + x^3 + x + 1. *)
Definition clmul (a b : Z) : Z :=
  fold_left (λ acc i, if Z.testbit b i then Z.lxor acc (Z.shiftl a i) else acc) [0; 1; 2; 3; 4; 5; 6; 7] 0.
Definition reduce (x : Z) : Z :=
  fold_left (λ x i, if Z.testbit x i then Z.lxor x (Z.shiftl 0x11b (i - 8)) else x) [14; 13; 12; 11; 10; 9; 8] x.
Definition gmul (a b : Z) : Z := reduce (clmul a b).
(** The multiplicative inverse, with 0 for 0: the 254th power. *)
Definition inv (b : Z) : Z :=
  let b2 := gmul b b in let b3 := gmul b2 b in
  let b6 := gmul b3 b3 in let b7 := gmul b6 b in
  let b14 := gmul b7 b7 in let b15 := gmul b14 b in
  let b30 := gmul b15 b15 in let b31 := gmul b30 b in
  let b62 := gmul b31 b31 in let b63 := gmul b62 b in
  let b126 := gmul b63 b63 in let b127 := gmul b126 b in
  gmul b127 b127.
Definition rotl8 (x n : Z) : Z := u8 (Z.lor (Z.shiftl x n) (Z.shiftr x (8 - n))).
Definition affine (x : Z) : Z :=
  Z.lxor (Z.lxor (Z.lxor (Z.lxor (Z.lxor x (rotl8 x 1)) (rotl8 x 2)) (rotl8 x 3)) (rotl8 x 4)) 0x63.
Definition Sbox (b : Z) : Z := affine (inv b).

(** The state: row [r] of column [c] is byte [r + 4 c]. *)
Definition at_ (s : list Z) (r c : Z) : Z := nthZ s (r mod 4 + 4 * (c mod 4)).
Definition matrix (f : Z → Z → Z) : list Z := map (λ n, f (n mod 4) (n / 4)) [0; 1; 2; 3; 4; 5; 6; 7; 8; 9; 10; 11; 12; 13; 14; 15].

Definition SubBytes (s : list Z) : list Z := matrix (λ r c, Sbox (at_ s r c)).
Definition ShiftRows (s : list Z) : list Z := matrix (λ r c, at_ s r (c + r)).
Definition MixColumns (s : list Z) : list Z :=
  matrix (λ r c, Z.lxor (Z.lxor (Z.lxor (gmul 2 (at_ s r c)) (gmul 3 (at_ s (r + 1) c))) (at_ s (r + 2) c)) (at_ s (r + 3) c)).
(** The words of a round key are the columns. *)
Definition AddRoundKey (s : list Z) (w : list (list Z)) : list Z :=
  matrix (λ r c, Z.lxor (at_ s r c) (nthZ (nth (Z.to_nat c) w []) r)).

Definition xor_word (a b : list Z) : list Z := zip_with Z.lxor a b.
Definition RotWord (w : list Z) : list Z := match w with a :: w => w ++ [a] | [] => [] end.
Definition SubWord (w : list Z) : list Z := map Sbox w.
Definition Rcon (i : nat) : list Z := [Nat.iter (i - 1) (gmul 2) 1; 0; 0; 0].

(** [w[i]] from the words before it. *)
Definition next_word (w : list (list Z)) : list Z :=
  let i := length w in
  let temp := nth (i - 1) w [] in
  let temp := if (i mod 4 =? 0)%nat then xor_word (SubWord (RotWord temp)) (Rcon (i / 4)) else temp in
  xor_word (nth (i - 4) w []) temp.
Fixpoint extend (n : nat) (w : list (list Z)) : list (list Z) :=
  match n with O => w | S n => extend n (w ++ [next_word w]) end.
Definition KeyExpansion (key : list Z) : list (list Z) :=
  extend 40 [slice key 0 4; slice key 4 4; slice key 8 4; slice key 12 4].

Definition round_words (w : list (list Z)) (round : nat) : list (list Z) := take 4 (drop (4 * round) w).
Fixpoint rounds (n round : nat) (w : list (list Z)) (s : list Z) : list Z :=
  match n with
  | O => s
  | S n => rounds n (S round) w (AddRoundKey (MixColumns (ShiftRows (SubBytes s))) (round_words w round))
  end.
Definition Cipher (key s : list Z) : list Z :=
  let w := KeyExpansion key in
  let s := AddRoundKey s (round_words w 0) in
  let s := rounds 9 1 w s in
  AddRoundKey (ShiftRows (SubBytes s)) (round_words w 10).
End Fips197.

(** The example vector of FIPS 197, appendix B. *)
Example Cipher_fips_b :
  Fips197.Cipher (be_bytes 16 0x2b7e151628aed2a6abf7158809cf4f3c) (be_bytes 16 0x3243f6a8885a308d313198a2e0370734)
  = be_bytes 16 0x3925841d02dc09fbdc118597196a0b32.
Proof. vm_compute. reflexivity. Qed.

(** ** Bytes of the field *)
Lemma aes_sbox_Sbox b : byte_ok b → nthZ aes_sbox b = Fips197.Sbox b.
Proof.
  intros Hb. assert (forall_below 256 (λ b, nthZ aes_sbox b =? Fips197.Sbox b) = true) as H by (vm_compute; reflexivity).
  apply Z.eqb_eq. apply (forall_below_spec 256 _ H b). unfold byte_ok in Hb. lia.
Qed.
Lemma aes_sbox_byte b : byte_ok b → byte_ok (nthZ aes_sbox b).
Proof.
  intros Hb. assert (forall_below 256 (λ b, (0 <=? nthZ aes_sbox b) && (nthZ aes_sbox b <? 256)) = true) as H by (vm_compute; reflexivity).
  pose proof (forall_below_spec 256 _ H b ltac:(unfold byte_ok in Hb; lia)) as Hs.
  cbv beta in Hs. apply andb_prop in Hs as [? ?]. unfold byte_ok. lia.
Qed.
Lemma gmul_2_3 b : byte_ok b →
  Fips197.gmul 2 b = gf_multiply_by_2 b ∧ Fips197.gmul 3 b = Z.lxor (gf_multiply_by_2 b) b.
Proof.
  intros Hb. assert (forall_below 256 (λ b, (Fips197.gmul 2 b =? gf_multiply_by_2 b) &&
    (Fips197.gmul 3 b =? Z.lxor (gf_multiply_by_2 b) b)) = true) as H by (vm_compute; reflexivity).
  pose proof (forall_below_spec 256 _ H b ltac:(unfold byte_ok in Hb; lia)) as Hs.
  cbv beta in Hs. apply andb_prop in Hs as [? ?]. lia.
Qed.

Lemma u8_lxor a b : u8 (Z.lxor a b) = Z.lxor (u8 a) (u8 b).
Proof. unfold u8. rewrite <-!(Z.land_ones _ 8) by lia. apply land_lxor_distr_l. Qed.
(** Doubling is linear. *)
Lemma gf_multiply_by_2_lxor a b :
  gf_multiply_by_2 (Z.lxor a b) = Z.lxor (gf_multiply_by_2 a) (gf_multiply_by_2 b).
Proof.
  unfold gf_multiply_by_2. rewrite Z.shiftl_lxor, Z.shiftr_lxor, land_lxor_distr_l, !u8_lxor.
  assert (∀ x, Z.land x 1 = 0 ∨ Z.land x 1 = 1) as Hbit.
  { intros x. rewrite (Z.land_ones x 1 ltac:(lia) : Z.land x 1 = _). change (2 ^ 1) with 2.
    pose proof (Z.mod_pos_bound x 2 ltac:(lia)). lia. }
  destruct (Hbit (Z.shiftr a 7)) as [-> | ->], (Hbit (Z.shiftr b 7)) as [-> | ->]; rewrite ?Z.lxor_0_l, ?Z.lxor_0_r, ?Z.lxor_nilpotent, ?Z.mul_0_l;
    change (u8 0) with 0; rewrite ?Z.lxor_0_r; [done| | |]; apply Z.bits_inj'; intros n _; rewrite !Z.lxor_spec; btauto.
Qed.

Lemma lxor_byte a b : byte_ok a → byte_ok b → byte_ok (Z.lxor a b).
Proof. intros Ha Hb. exact (lxor_range 8 a b ltac:(lia) Ha Hb). Qed.
Lemma gf_byte x : byte_ok (gf_multiply_by_2 x).
Proof. apply u8_range. Qed.

(** ** The transformations on a state of sixteen bytes *)
Definition state_ok (s : list Z) : Prop := length s = 16%nat ∧ bytes_ok s.

(** Name the bytes of a state. *)
Ltac state_bytes s H :=
  let Hl := fresh "Hl" in let Hb := fresh "Hb" in
  destruct H as [Hl Hb];
  do 16 (destruct s as [|? s]; [discriminate Hl|]);
  destruct s; [|discriminate Hl]; repeat (apply Forall_cons in Hb as [? Hb]); clear Hl.

(** A pass over the state that updates each byte from itself. *)
Definition each (g : nat → nat → Z → Z) (s : list Z) : list Z :=
  imap (λ n x, g (n / 4)%nat (n mod 4)%nat x) s.
Lemma for_4x4_rows (g : nat → nat → Z → Z) x0 x1 x2 x3 x4 x5 x6 x7 x8 x9 x10 x11 x12 x13 x14 x15 :
  for_4x4 (λ i j st, assign (i * 4 + j) (g i j (nthZ st (Z.of_nat (i * 4 + j)))) st)
    [x0; x1; x2; x3; x4; x5; x6; x7; x8; x9; x10; x11; x12; x13; x14; x15]
  = each g [x0; x1; x2; x3; x4; x5; x6; x7; x8; x9; x10; x11; x12; x13; x14; x15].
Proof. reflexivity. Qed.
Lemma each_ext g h s : (∀ i j x, (i * 4 + j < length s)%nat → (j < 4)%nat → g i j x = h i j x) → each g s = each h s.
Proof.
  intros H. unfold each. apply list_eq. intros n. rewrite !list_lookup_imap.
  destruct (s !! n) as [x|] eqn:Hx; [|done]. apply lookup_lt_Some in Hx. apply (f_equal Some).
  pose proof (Nat.div_mod_eq n 4). pose proof (Nat.mod_upper_bound n 4 ltac:(lia)).
  apply H; lia.
Qed.
Lemma for_4x4_columns (f : Z → Z) x0 x1 x2 x3 x4 x5 x6 x7 x8 x9 x10 x11 x12 x13 x14 x15 :
  for_4x4 (λ i j st, assign (j * 4 + i) (f (nthZ st (Z.of_nat (j * 4 + i)))) st)
    [x0; x1; x2; x3; x4; x5; x6; x7; x8; x9; x10; x11; x12; x13; x14; x15]
  = map f [x0; x1; x2; x3; x4; x5; x6; x7; x8; x9; x10; x11; x12; x13; x14; x15].
Proof. reflexivity. Qed.

Lemma SubBytes_map x0 x1 x2 x3 x4 x5 x6 x7 x8 x9 x10 x11 x12 x13 x14 x15 :
  Fips197.SubBytes [x0; x1; x2; x3; x4; x5; x6; x7; x8; x9; x10; x11; x12; x13; x14; x15]
  = map Fips197.Sbox [x0; x1; x2; x3; x4; x5; x6; x7; x8; x9; x10; x11; x12; x13; x14; x15].
Proof. reflexivity. Qed.

Lemma sub_bytes_SubBytes s : state_ok s → sub_bytes s = Fips197.SubBytes s.
Proof.
  intros H. state_bytes s H. unfold sub_bytes. rewrite (for_4x4_columns (nthZ aes_sbox)), SubBytes_map.
  cbn [map]. by rewrite !aes_sbox_Sbox.
Qed.
Lemma sub_bytes_ok s : state_ok s → state_ok (sub_bytes s).
Proof.
  intros H. state_bytes s H. unfold sub_bytes. rewrite (for_4x4_columns (nthZ aes_sbox)).
  split; [done|]. cbn [map]. repeat (constructor; [by apply aes_sbox_byte|]). done.
Qed.
Lemma shift_rows_ShiftRows s : state_ok s → shift_rows s = Fips197.ShiftRows s.
Proof. intros H. state_bytes s H. reflexivity. Qed.
Lemma shift_rows_ok s : state_ok s → state_ok (shift_rows s).
Proof. intros H. state_bytes s H. split; [done|]. unfold shift_rows. cbn. by repeat (constructor; [done|]). Qed.

(** One column. *)
Lemma mix_bytes a b c d : byte_ok a → byte_ok b →
  Z.lxor a (Z.lxor (gf_multiply_by_2 (Z.lxor a b)) (Z.lxor (Z.lxor (Z.lxor a b) c) d))
  = Z.lxor (Z.lxor (Z.lxor (Fips197.gmul 2 a) (Fips197.gmul 3 b)) c) d.
Proof.
  intros Ha Hb. rewrite gf_multiply_by_2_lxor. destruct (gmul_2_3 a Ha) as [-> _], (gmul_2_3 b Hb) as [_ ->].
  apply Z.bits_inj'. intros n _. rewrite !Z.lxor_spec. btauto.
Qed.
Lemma lxor_rot a b c d : Z.lxor (Z.lxor (Z.lxor a b) c) d = Z.lxor (Z.lxor (Z.lxor b c) d) a.
Proof. apply Z.bits_inj'. intros n _. rewrite !Z.lxor_spec. btauto. Qed.
Definition mixed (a b c d : Z) : list Z :=
  let m x y := Z.lxor x (Z.lxor (gf_multiply_by_2 (Z.lxor x y)) (Z.lxor (Z.lxor (Z.lxor a b) c) d)) in
  [m a b; m b c; m c d; m d a].
Lemma mix_columns_mixed x0 x1 x2 x3 x4 x5 x6 x7 x8 x9 x10 x11 x12 x13 x14 x15 :
  mix_columns [x0; x1; x2; x3; x4; x5; x6; x7; x8; x9; x10; x11; x12; x13; x14; x15]
  = mixed x0 x1 x2 x3 ++ mixed x4 x5 x6 x7 ++ mixed x8 x9 x10 x11 ++ mixed x12 x13 x14 x15.
Proof. cbv -[Z.lxor gf_multiply_by_2]. reflexivity. Qed.
Definition mixed_spec (a b c d : Z) : list Z :=
  let m x y z w := Z.lxor (Z.lxor (Z.lxor (Fips197.gmul 2 x) (Fips197.gmul 3 y)) z) w in
  [m a b c d; m b c d a; m c d a b; m d a b c].
Lemma MixColumns_mixed x0 x1 x2 x3 x4 x5 x6 x7 x8 x9 x10 x11 x12 x13 x14 x15 :
  Fips197.MixColumns [x0; x1; x2; x3; x4; x5; x6; x7; x8; x9; x10; x11; x12; x13; x14; x15]
  = mixed_spec x0 x1 x2 x3 ++ mixed_spec x4 x5 x6 x7 ++ mixed_spec x8 x9 x10 x11 ++ mixed_spec x12 x13 x14 x15.
Proof. cbv -[Z.lxor Fips197.gmul]. reflexivity. Qed.
Lemma mixed_mixed_spec a b c d : byte_ok a → byte_ok b → byte_ok c → byte_ok d → mixed a b c d = mixed_spec a b c d.
Proof.
  intros. unfold mixed, mixed_spec. repeat apply (f_equal2 cons); [..|done].
  - by apply mix_bytes.
  - rewrite lxor_rot. by apply mix_bytes.
  - rewrite lxor_rot, lxor_rot. by apply mix_bytes.
  - rewrite <-(lxor_rot d a b c). by apply mix_bytes.
Qed.
Lemma mix_columns_MixColumns s : state_ok s → mix_columns s = Fips197.MixColumns s.
Proof.
  intros H. state_bytes s H. rewrite mix_columns_mixed, MixColumns_mixed. by rewrite !mixed_mixed_spec.
Qed.
Lemma mixed_ok a b c d : byte_ok a → byte_ok b → byte_ok c → byte_ok d → bytes_ok (mixed a b c d).
Proof.
  intros. unfold mixed. repeat (constructor; [repeat apply lxor_byte; done || apply gf_byte|]). done.
Qed.
Lemma mix_columns_ok s : state_ok s → state_ok (mix_columns s).
Proof.
  intros H. state_bytes s H. rewrite mix_columns_mixed. split; [done|].
  repeat (apply Forall_app; split); by apply mixed_ok.
Qed.

(** ** Words of the expanded key *)
Definition words_ok (W : list (list Z)) : Prop := Forall (λ w, length w = 4%nat ∧ bytes_ok w) W.

Lemma length_concat_words W : words_ok W → length (concat W) = (4 * length W)%nat.
Proof.
  induction 1 as [|w W [Hw _] _ IH]; [done|]. cbn [concat length]. rewrite length_app, IH, Hw. lia.
Qed.
Lemma nthZ_concat W rest m n : words_ok W → (m < length W)%nat → (n < 4)%nat →
  nthZ (concat W ++ rest) (Z.of_nat (m * 4 + n)) = nthZ (nth m W []) (Z.of_nat n).
Proof.
  intros HW. revert m. induction HW as [|w W [Hw Hb] HW IH]; intros m Hm Hn; [cbn in Hm; lia|].
  unfold nthZ in *. rewrite !Nat2Z.id in *. destruct m as [|m]; cbn [concat nth].
  - rewrite <-app_assoc. by rewrite app_nth1 by lia.
  - rewrite <-app_assoc, app_nth2 by lia. rewrite Hw. replace (S m * 4 + n - 4)%nat with (m * 4 + n)%nat by lia.
    specialize (IH m). rewrite !Nat2Z.id in IH. apply IH; [|done]. cbn in Hm. lia.
Qed.
Lemma word_of W m : words_ok W → (m < length W)%nat →
  ∃ a b c d, nth m W [] = [a; b; c; d] ∧ byte_ok a ∧ byte_ok b ∧ byte_ok c ∧ byte_ok d.
Proof.
  intros HW Hm. destruct (lookup_lt_is_Some_2 W m Hm) as [w Hw]. rewrite (nth_lookup_Some _ _ _ _ Hw).
  destruct (Forall_lookup_1 _ _ _ _ HW Hw) as [Hl Hb].
  do 4 (destruct w as [|? w]; [done|]). destruct w; [|done]. repeat (apply Forall_cons in Hb as [? Hb]).
  by exists z, z0, z1, z2.
Qed.

(** [round_key[p]] is byte [j] of word [i] of the round's key. *)
Lemma round_key_at W r i j :
  words_ok W → length W = 44%nat → (r <= 10)%nat → (i < 4)%nat → (j < 4)%nat →
  nthZ (concat W) (u8 (Z.of_nat r * Z.of_nat 4 * 4 + Z.of_nat (i * 4) + Z.of_nat j) mod 176)
  = nthZ (nth i (Fips197.round_words W r) []) (Z.of_nat j).
Proof.
  intros HW HlW Hr Hi Hj. rewrite u8_small, Z.mod_small by lia.
  replace (Z.of_nat r * Z.of_nat 4 * 4 + Z.of_nat (i * 4) + Z.of_nat j) with (Z.of_nat ((4 * r + i) * 4 + j)) by lia.
  rewrite <-(app_nil_r (concat W)), nthZ_concat by (done || lia).
  unfold Fips197.round_words. f_equal. by rewrite !nth_lookup, lookup_take_lt, lookup_drop by lia.
Qed.
Lemma AddRoundKey_each x0 x1 x2 x3 x4 x5 x6 x7 x8 x9 x10 x11 x12 x13 x14 x15 w :
  Fips197.AddRoundKey [x0; x1; x2; x3; x4; x5; x6; x7; x8; x9; x10; x11; x12; x13; x14; x15] w
  = each (λ i j x, Z.lxor x (nthZ (nth i w []) (Z.of_nat j))) [x0; x1; x2; x3; x4; x5; x6; x7; x8; x9; x10; x11; x12; x13; x14; x15].
Proof. reflexivity. Qed.
Lemma add_round_key_AddRoundKey W r s :
  words_ok W → length W = 44%nat → (r <= 10)%nat → state_ok s →
  add_round_key (Z.of_nat r) s (concat W) = (0, Fips197.AddRoundKey s (Fips197.round_words W r)).
Proof.
  intros HW HlW Hr H. unfold add_round_key, AES_ROUND_COUNT, AES_STATE_COLUMNS.
  destruct (Z.ltb_spec (Z.of_nat 10) (Z.of_nat r)); [lia|]. f_equal. state_bytes s H.
  rewrite AddRoundKey_each. unfold xor_at. etransitivity.
  { apply (for_4x4_rows (λ i j x, Z.lxor x
      (nthZ (concat W) (u8 (Z.of_nat r * Z.of_nat 4 * 4 + Z.of_nat (i * 4) + Z.of_nat j) mod 176)))). }
  apply each_ext. cbn [length]. intros i j x Hi Hj. f_equal. apply round_key_at; (done || lia).
Qed.
Lemma nthZ_byte l i : bytes_ok l → byte_ok (nthZ l i).
Proof.
  intros Hl. unfold nthZ. destruct (nth_in_or_default (Z.to_nat i) l 0) as [Hin| ->]; [|done].
  rewrite Forall_forall in Hl. by apply Hl, list_elem_of_In.
Qed.
Lemma AddRoundKey_ok W r s : words_ok W → state_ok s → state_ok (Fips197.AddRoundKey s (Fips197.round_words W r)).
Proof.
  intros HW [Hl Hb]. split; [done|]. apply Forall_forall. intros x Hx. unfold Fips197.AddRoundKey, Fips197.matrix in Hx.
  apply list_elem_of_In, in_map_iff in Hx as (n & <- & _). apply lxor_byte; apply nthZ_byte; [done|].
  destruct (nth_in_or_default (Z.to_nat (n / 4)) (Fips197.round_words W r) []) as [Hin| ->]; [|constructor].
  apply list_elem_of_In, list_elem_of_lookup in Hin as [m Hm]. unfold Fips197.round_words in Hm.
  apply lookup_take_Some in Hm as [Hm _]. rewrite lookup_drop in Hm. by destruct (Forall_lookup_1 _ _ _ _ HW Hm).
Qed.

(** ** The key expansion *)
Lemma Rcon_bytes i : (1 <= i <= 10)%nat →
  Fips197.Rcon i = [nthZ round_constants (Z.of_nat i); 0; 0; 0] ∧ byte_ok (nthZ round_constants (Z.of_nat i)).
Proof. intros H. do 11 (destruct i as [|i]; [first [lia | by vm_compute]|]). lia. Qed.

(** The four assignments at the end of a step. *)
Lemma assign_word rk j k t0 t1 t2 t3 a b c d rest P :
  rk = P ++ rest → length P = j → (4 <= length rest)%nat → (k + 4 <= j)%nat →
  (∀ n, (n < 4)%nat → nthZ rk (Z.of_nat (k + n)) = nthZ [a; b; c; d] (Z.of_nat n)) →
  fold_left (λ rk n, assign (j + n) (Z.lxor (nthZ rk (Z.of_nat (k + n))) (nthZ [t0; t1; t2; t3] (Z.of_nat n))) rk)
    (seq 0 4) rk
  = P ++ [Z.lxor a t0; Z.lxor b t1; Z.lxor c t2; Z.lxor d t3] ++ drop 4 rest.
Proof.
  intros -> HP Hr Hk Hat. do 4 (destruct rest as [|? rest]; [cbn in Hr; lia|]).
  assert (∀ (T : list Z) i v n, length T = length (z :: z0 :: z1 :: z2 :: rest) → (n < 4)%nat →
    nthZ (P ++ T) (Z.of_nat (k + n)) = nthZ [a; b; c; d] (Z.of_nat n) ∧
    assign (j + i) v (P ++ T) = P ++ assign i v T) as Hstep.
  { intros T i v n HT Hn. rewrite <-(Hat n Hn). unfold assign, nthZ. rewrite !Nat2Z.id. split.
    - by rewrite !app_nth1 by lia.
    - rewrite insert_app_r_alt by lia. do 2 f_equal. lia. }
  cbn [seq fold_left].
  do 4 (match goal with |- context [nthZ (P ++ ?T) (Z.of_nat (k + ?n))] =>
    let v := constr:(0) in
    rewrite (proj1 (Hstep T 0%nat 0 n eq_refl ltac:(lia))) end;
    match goal with |- context [assign (j + ?i) ?v (P ++ ?T)] =>
    rewrite (proj2 (Hstep T i v 0%nat eq_refl ltac:(lia))) end).
  reflexivity.
Qed.

Lemma key_expand_step_next W rest :
  words_ok W → (4 <= length W < 44)%nat → (4 <= length rest)%nat →
  key_expand_step (concat W ++ rest) (length W)
  = concat (W ++ [Fips197.next_word W]) ++ drop 4 rest ∧ words_ok [Fips197.next_word W].
Proof.
  intros HW HlW Hr. destruct (word_of W (length W - 1) HW ltac:(lia)) as (t0 & t1 & t2 & t3 & Ht & ? & ? & ? & ?).
  destruct (word_of W (length W - 4) HW ltac:(lia)) as (a & b & c & d & Ha & ? & ? & ? & ?).
  assert (∀ n, (n < 4)%nat → nthZ (concat W ++ rest) (Z.of_nat ((length W - 1) * 4 + n)) = nthZ [t0; t1; t2; t3] (Z.of_nat n)) as Htn.
  { intros n Hn. rewrite nthZ_concat by (done || lia). by rewrite Ht. }
  assert (∀ n, (n < 4)%nat → nthZ (concat W ++ rest) (Z.of_nat ((length W - 4) * 4 + n)) = nthZ [a; b; c; d] (Z.of_nat n)) as Han.
  { intros n Hn. rewrite nthZ_concat by (done || lia). by rewrite Ha. }
  unfold key_expand_step, AES_KEY_WORDS, Fips197.next_word. rewrite !Htn by lia. rewrite Ht, Ha.
  change (nthZ [t0; t1; t2; t3] (Z.of_nat 0)) with t0. change (nthZ [t0; t1; t2; t3] (Z.of_nat 1)) with t1.
  change (nthZ [t0; t1; t2; t3] (Z.of_nat 2)) with t2. change (nthZ [t0; t1; t2; t3] (Z.of_nat 3)) with t3.
  pose proof (length_concat_words W HW) as HcW.
  destruct (Nat.eqb_spec (length W mod 4) 0) as [Hm|Hm].
  - destruct (Rcon_bytes (length W / 4)) as [Hrc ?].
    { split; [apply Nat.div_le_lower_bound; lia|apply Nat.lt_succ_r, Nat.Div0.div_lt_upper_bound; lia]. }
    rewrite Hrc. set (rc := nthZ round_constants _) in *. clearbody rc.
    cbn [Fips197.RotWord Fips197.SubWord app map Fips197.xor_word zip_with].
    change (nthZ [t0; t1; t2; t3] 1) with t1. change (nthZ [t0; t1; t2; t3] 2) with t2.
    change (nthZ [t0; t1; t2; t3] 3) with t3. change (nthZ [t0; t1; t2; t3] 0) with t0.
    cbn [map assign insert list_insert]. rewrite !aes_sbox_Sbox by done.
    erewrite (assign_word _ _ _ _ _ _ _ a b c d rest (concat W)) by (done || lia).
    rewrite concat_app, !Z.lxor_0_r. cbn [concat]. rewrite app_nil_r, <-app_assoc. split; [done|].
    constructor; [|constructor]. rewrite <-!aes_sbox_Sbox by done.
    split; [done|]. repeat (constructor; [repeat apply lxor_byte; first [done|by apply aes_sbox_byte]|]). done.
  - erewrite (assign_word _ _ _ _ _ _ _ a b c d rest (concat W)) by (done || lia).
    rewrite concat_app. cbn [concat Fips197.xor_word zip_with]. rewrite app_nil_r, <-app_assoc. split; [done|].
    constructor; [|constructor]. split; [done|]. repeat (constructor; [by apply lxor_byte|]). done.
Qed.

Lemma key_expand_fold n W rest :
  words_ok W → (4 <= length W)%nat → (length W + n <= 44)%nat → (4 * n <= length rest)%nat →
  fold_left key_expand_step (seq (length W) n) (concat W ++ rest)
  = concat (Fips197.extend n W) ++ drop (4 * n) rest ∧
  words_ok (Fips197.extend n W) ∧ length (Fips197.extend n W) = (length W + n)%nat.
Proof.
  induction n as [|n IH] in W, rest |- *; intros HW Hl Hn Hr.
  { cbn. rewrite drop_0. split_and!; [done|done|lia]. }
  destruct (key_expand_step_next W rest HW ltac:(lia) ltac:(lia)) as [Hs Hw].
  cbn [seq fold_left Fips197.extend]. rewrite Hs.
  assert (length (W ++ [Fips197.next_word W]) = S (length W)) as Hl' by (rewrite length_app; cbn; lia).
  destruct (IH (W ++ [Fips197.next_word W]) (drop 4 rest)) as (Hf & Hok & Hle);
    [by apply Forall_app|lia|lia|rewrite length_drop; lia|].
  rewrite Hl' in *. rewrite Hf, drop_drop. split_and!; [|done|lia].
  do 2 f_equal. lia.
Qed.

Lemma copy_key key ctx :
  length key = 16%nat → length ctx = AES_ctx_SZ →
  fold_left (copy_key_step key) (seq 0 AES_KEY_WORDS) ctx = key ++ drop 16 ctx.
Proof.
  unfold AES_ctx_SZ. intros Hk Hc. do 16 (destruct key as [|? key]; [done|]). destruct key; [|done].
  do 16 (destruct ctx as [|? ctx]; [done|]). reflexivity.
Qed.
Lemma AES_key_expand_KeyExpansion ctx key :
  length ctx = AES_ctx_SZ → length key = 16%nat → bytes_ok key →
  AES_key_expand ctx key = concat (Fips197.KeyExpansion key) ∧
  words_ok (Fips197.KeyExpansion key) ∧ length (Fips197.KeyExpansion key) = 44%nat.
Proof.
  intros Hc Hk Hb. unfold AES_key_expand. rewrite copy_key by done.
  assert (words_ok [slice key 0 4; slice key 4 4; slice key 8 4; slice key 12 4]) as HW.
  { repeat (constructor; [split; [apply length_slice; lia|by apply bytes_ok_slice]|]). constructor. }
  assert (key = concat [slice key 0 4; slice key 4 4; slice key 8 4; slice key 12 4]) as Hcat.
  { do 16 (destruct key as [|? key]; [done|]). by destruct key. }
  rewrite Hcat at 1. unfold Fips197.KeyExpansion. unfold AES_ctx_SZ in Hc.
  destruct (key_expand_fold 40 _ (drop 16 ctx) HW) as (Hf & Hok & Hle);
    [cbn [length]; lia|cbn [length]; lia|rewrite length_drop; lia|].
  cbn [length] in Hf, Hle. change (AES_STATE_COLUMNS * (AES_ROUND_COUNT + 1) - AES_KEY_WORDS)%nat with 40%nat.
  change AES_KEY_WORDS with 4%nat. rewrite Hf. split_and!; [|done|done].
  rewrite drop_drop, drop_ge by lia. apply app_nil_r.
Qed.

(** ** The cipher *)
Lemma encrypt_rounds_rounds W n r s :
  words_ok W → length W = 44%nat → (r + n <= 10)%nat → state_ok s →
  encrypt_rounds n (Z.of_nat r) (concat W) s
  = Fips197.ShiftRows (Fips197.SubBytes (Fips197.rounds n r W s)) ∧ state_ok (Fips197.rounds n r W s).
Proof.
  intros HW HlW. induction n as [|n IH] in r, s |- *; intros Hr Hs; cbn [encrypt_rounds Fips197.rounds].
  - by rewrite shift_rows_ShiftRows, sub_bytes_SubBytes by auto using sub_bytes_ok.
  - assert (state_ok (mix_columns (shift_rows (sub_bytes s)))) as Hm
      by auto using mix_columns_ok, shift_rows_ok, sub_bytes_ok.
    rewrite (add_round_key_AddRoundKey W r) by (done || lia).
    assert (mix_columns (shift_rows (sub_bytes s)) = Fips197.MixColumns (Fips197.ShiftRows (Fips197.SubBytes s))) as Hmc.
    { by rewrite mix_columns_MixColumns, shift_rows_ShiftRows, sub_bytes_SubBytes by auto using shift_rows_ok, sub_bytes_ok. }
    replace (Z.of_nat r + 1) with (Z.of_nat (S r)) by lia. rewrite <-Hmc.
    apply IH; [lia|]. by apply AddRoundKey_ok.
Qed.

Lemma encrypt_Cipher ctx key s :
  length ctx = AES_ctx_SZ → length key = 16%nat → bytes_ok key → state_ok s →
  AES_ECB_encrypt (AES_key_expand ctx key) s = Fips197.Cipher key s ∧ state_ok (Fips197.Cipher key s).
Proof.
  intros Hc Hk Hb Hs. destruct (AES_key_expand_KeyExpansion ctx key Hc Hk Hb) as (-> & HW & HlW).
  unfold AES_ECB_encrypt, Fips197.Cipher. set (W := Fips197.KeyExpansion key) in *. clearbody W.
  rewrite (add_round_key_AddRoundKey W 0) by (done || lia).
  destruct (encrypt_rounds_rounds W 9 1 (Fips197.AddRoundKey s (Fips197.round_words W 0))) as [He Hr];
    [done|done|lia|by apply AddRoundKey_ok|].
  change (AES_ROUND_COUNT - 1)%nat with 9%nat. rewrite (He : encrypt_rounds 9 1 _ _ = _).
  set (t := Fips197.rounds 9 1 W _) in *. clearbody t.
  rewrite <-(sub_bytes_SubBytes t) by done. rewrite <-(shift_rows_ShiftRows (sub_bytes t)) by by apply sub_bytes_ok.
  assert (state_ok (shift_rows (sub_bytes t))) as Ht by auto using shift_rows_ok, sub_bytes_ok.
  change (Z.of_nat AES_ROUND_COUNT) with (Z.of_nat 10). rewrite (add_round_key_AddRoundKey W 10) by (done || lia).
  split; [done|]. by apply AddRoundKey_ok.
Qed.

(** C32. Expanding a key into any 176-byte context and encrypting a block in place under
    it, with the source's byte loops, index arithmetic on [uint8_t] and tables, is the
    AES-128 cipher of FIPS 197. *)
Theorem AES_ECB_encrypt_refines ctx key s :
  length ctx = AES_ctx_SZ → length key = 16%nat → bytes_ok key → length s = 16%nat → bytes_ok s →
  AES_ECB_encrypt (AES_key_expand ctx key) s = Fips197.Cipher key s.
Proof. intros Hc Hk Hb Hl Hs. by apply encrypt_Cipher. Qed.

(** The vector of FIPS 197, appendix B, through the source's code. *)
Lemma AES_ECB_encrypt_refines_witness :
  AES_ECB_encrypt (AES_key_expand (zeros 176) (be_bytes 16 0x2b7e151628aed2a6abf7158809cf4f3c))
    (be_bytes 16 0x3243f6a8885a308d313198a2e0370734) = be_bytes 16 0x3925841d02dc09fbdc118597196a0b32.
Proof.
  rewrite (AES_ECB_encrypt_refines _ _ _); [apply Cipher_fips_b|apply length_zeros|apply length_be_bytes|
    apply be_bytes_ok|apply length_be_bytes|apply be_bytes_ok].
Defined.
