(* ===== verification/Cbpf.v ===== *)
(** The classic-BPF interpreter of [ebpf/ebpf_inter.c].

    [do_interpret_loop] is the loop body run by [bpf_loop]; a jump sets
    [next_index] and the following iterations are skipped until it is reached. The
    reference machine [Ref] has a program counter instead;
    [interpret_cbpf_refines_reference] shows both give the same result. *)

From S2P Require Import Prelude Storage.

(** ** Instructions *)

Inductive operand := OpK | OpX.
Inductive size := SzW | SzH | SzB.
Inductive cond := JGT | JGE | JEQ | JSET.
Inductive alu := ALSH | ARSH | AADD | ASUB | AMUL | ADIV | AMOD | AAND | AOR | AXOR.
Inductive retsrc := RetK | RetX | RetA.
Inductive insn :=
  | MISC_TAX | MISC_TXA | ST | STX
  | LD_ABS (s : size) | LD_IND (s : size) | LDX_MSH
  | LD_LEN | LDX_LEN
  | LD_IMM | LDX_IMM | LD_MEM | LDX_MEM
  | JMP_JA | JMP (c : cond) (o : operand)
  | ALU_NEG | ALU (a : alu) (o : operand)
  | RET (r : retsrc).

(** The case labels of the [switch (f->code)], evaluated. *)
Definition BPF_LD := 0x00.
Definition BPF_LDX := 0x01.
Definition BPF_ST := 0x02.
Definition BPF_STX := 0x03.
Definition BPF_ALU := 0x04.
Definition BPF_JMP := 0x05.
Definition BPF_RET := 0x06.
Definition BPF_MISC := 0x07.
Definition BPF_W := 0x00.
Definition BPF_H := 0x08.
Definition BPF_B := 0x10.
Definition BPF_IMM := 0x00.
Definition BPF_ABS := 0x20.
Definition BPF_IND := 0x40.
Definition BPF_MEM := 0x60.
Definition BPF_LEN := 0x80.
Definition BPF_MSH := 0xa0.
Definition BPF_K := 0x00.
Definition BPF_X := 0x08.
Definition BPF_A := 0x10.

Definition switch_table : list (Z * insn) :=
  [ (BPF_MISC + 0x00, MISC_TAX); (BPF_MISC + 0x80, MISC_TXA);
    (BPF_ST, ST); (BPF_STX, STX);
    (BPF_LD + BPF_W + BPF_ABS, LD_ABS SzW); (BPF_LD + BPF_H + BPF_ABS, LD_ABS SzH);
    (BPF_LD + BPF_B + BPF_ABS, LD_ABS SzB);
    (BPF_LD + BPF_W + BPF_IND, LD_IND SzW); (BPF_LD + BPF_H + BPF_IND, LD_IND SzH);
    (BPF_LD + BPF_B + BPF_IND, LD_IND SzB);
    (BPF_LDX + BPF_B + BPF_MSH, LDX_MSH);
    (BPF_LD + BPF_W + BPF_LEN, LD_LEN); (BPF_LDX + BPF_W + BPF_LEN, LDX_LEN);
    (BPF_LD + BPF_IMM, LD_IMM); (BPF_LDX + BPF_IMM, LDX_IMM);
    (BPF_LD + BPF_MEM, LD_MEM); (BPF_LDX + BPF_MEM, LDX_MEM);
    (BPF_JMP + 0x00, JMP_JA);
    (BPF_JMP + 0x20 + BPF_X, JMP JGT OpX); (BPF_JMP + 0x20 + BPF_K, JMP JGT OpK);
    (BPF_JMP + 0x30 + BPF_X, JMP JGE OpX); (BPF_JMP + 0x30 + BPF_K, JMP JGE OpK);
    (BPF_JMP + 0x10 + BPF_X, JMP JEQ OpX); (BPF_JMP + 0x10 + BPF_K, JMP JEQ OpK);
    (BPF_JMP + 0x40 + BPF_X, JMP JSET OpX); (BPF_JMP + 0x40 + BPF_K, JMP JSET OpK);
    (BPF_ALU + 0x80, ALU_NEG);
    (BPF_ALU + 0x60 + BPF_X, ALU ALSH OpX); (BPF_ALU + 0x60 + BPF_K, ALU ALSH OpK);
    (BPF_ALU + 0x70 + BPF_X, ALU ARSH OpX); (BPF_ALU + 0x70 + BPF_K, ALU ARSH OpK);
    (BPF_ALU + 0x00 + BPF_X, ALU AADD OpX); (BPF_ALU + 0x00 + BPF_K, ALU AADD OpK);
    (BPF_ALU + 0x10 + BPF_X, ALU ASUB OpX); (BPF_ALU + 0x10 + BPF_K, ALU ASUB OpK);
    (BPF_ALU + 0x20 + BPF_X, ALU AMUL OpX); (BPF_ALU + 0x20 + BPF_K, ALU AMUL OpK);
    (BPF_ALU + 0x30 + BPF_X, ALU ADIV OpX); (BPF_ALU + 0x30 + BPF_K, ALU ADIV OpK);
    (BPF_ALU + 0x90 + BPF_X, ALU AMOD OpX); (BPF_ALU + 0x90 + BPF_K, ALU AMOD OpK);
    (BPF_ALU + 0x50 + BPF_X, ALU AAND OpX); (BPF_ALU + 0x50 + BPF_K, ALU AAND OpK);
    (BPF_ALU + 0x40 + BPF_X, ALU AOR OpX); (BPF_ALU + 0x40 + BPF_K, ALU AOR OpK);
    (BPF_ALU + 0xa0 + BPF_X, ALU AXOR OpX); (BPF_ALU + 0xa0 + BPF_K, ALU AXOR OpK);
    (BPF_RET + BPF_K, RET RetK); (BPF_RET + BPF_X, RET RetX); (BPF_RET + BPF_A, RET RetA) ].

(** [None] is the [default] case. *)
Fixpoint switch_lookup (t : list (Z * insn)) (code : Z) : option insn :=
  match t with
  | [] => None
  | (c, i) :: t => if code =? c then Some i else switch_lookup t code
  end.
Definition switch (code : Z) : option insn := switch_lookup switch_table code.

(** ** The interpreter *)

Definition IERR_OK : Z := 0.
Definition IERR_STACK : Z := -1.
Definition IERR_LOAD : Z := -2.
Definition IERR_INSTREXCEEDED : Z := -3.
Definition IERR_BADINSTR : Z := -4.
Definition IERR_SANITY : Z := -5.
Definition IERR_BADRETURNVALUE : Z := -6.

Definition BPF_MEMWORDS : nat := 16.
Definition MEMWORDS_MASK : Z := 15.
(** [SKF_AD_OFF + SKF_AD_PROTOCOL] as the [uint32_t] it is compared with. *)
Definition SKF_PROTOCOL : Z := u32 (-0x1000 + 0).
Definition UDP_HDR_SZ : Z := 8.

Record bpf_regs := mk_regs { r_A : Z; r_X : Z; r_M : list Z }.

Record interpret_ctx {K : Kernel} := mk_ictx {
  ic_offset : Z;
  ic_r : bpf_regs;
  ic_retval : Z;
  ic_retcode : Z;
  ic_next_index : Z;
  ic_w : world;
}.

Definition LOOP_BREAK : Z := 1.
Definition LOOP_CONTINUE : Z := 0.

Section Interpreter.
Context {K : Kernel}.
Local Open Scope c_scope.

Definition set_regs r c := mk_ictx K (ic_offset c) r (ic_retval c) (ic_retcode c) (ic_next_index c) (ic_w c).
Definition set_A v c := set_regs (mk_regs v (r_X (ic_r c)) (r_M (ic_r c))) c.
Definition set_X v c := set_regs (mk_regs (r_A (ic_r c)) v (r_M (ic_r c))) c.
Definition set_M i v c :=
  set_regs (mk_regs (r_A (ic_r c)) (r_X (ic_r c)) (<[Z.to_nat i := v]> (r_M (ic_r c)))) c.
Definition set_retcode v c := mk_ictx K (ic_offset c) (ic_r c) (ic_retval c) v (ic_next_index c) (ic_w c).
Definition set_retval v c := mk_ictx K (ic_offset c) (ic_r c) v (ic_retcode c) (ic_next_index c) (ic_w c).
Definition set_next v c := mk_ictx K (ic_offset c) (ic_r c) (ic_retval c) (ic_retcode c) v (ic_w c).
Definition set_icw v c := mk_ictx K (ic_offset c) (ic_r c) (ic_retval c) (ic_retcode c) (ic_next_index c) v.

(** [extract_u32], [extract_u16], [extract_u8]: the offset is computed in
    [uint32_t]; the loaded word is in network order. *)
Definition size_bytes (s : size) : nat := match s with SzW => 4 | SzH => 2 | SzB => 1 end.
Definition extract (md : sk_reuseport_md) (c : interpret_ctx) (s : size) (off : Z) : option Z :=
  match md_load_bytes md (u32 (ic_offset c + off)) (size_bytes s) with
  | None => None
  | Some bs => Some (bswap (size_bytes s) (le_combine bs))
  end.

Definition brk (c : interpret_ctx) : interpret_ctx * Z := (c, LOOP_BREAK).
Definition cont (c : interpret_ctx) : interpret_ctx * Z := (c, LOOP_CONTINUE).

(** [r->A = extract(..)] *)
Definition load_A (md : sk_reuseport_md) (c : interpret_ctx) (s : size) (off : Z) :=
  match extract md c s off with
  | None => brk (set_retcode IERR_LOAD c)
  | Some v => cont (set_A v c)
  end.

Definition test_cond (j : cond) (a b : Z) : bool :=
  match j with
  | JGT => b <? a
  | JGE => b <=? a
  | JEQ => a =? b
  | JSET => negb ((a .& b) =? 0)
  end.

Definition shift32 (left : bool) (a n : Z) : Z :=
  if n <? 32 then u32 (if left then a << n else a >> n) else u32 (shift_oob left a n).

(** [None] is the division by zero caught before [do_div]. *)
Definition alu_op (op : alu) (a b : Z) : option Z :=
  match op with
  | ALSH => Some (shift32 true a b)
  | ARSH => Some (shift32 false a b)
  | AADD => Some (u32 (a + b))
  | ASUB => Some (u32 (a - b))
  | AMUL => Some (u32 (a * b))
  | ADIV => if b =? 0 then None else Some (a / b)
  | AMOD => if b =? 0 then None else Some (a mod b)
  | AAND => Some (a .& b)
  | AOR => Some (a .| b)
  | AXOR => Some (a .^ b)
  end.

(** The [switch] on one instruction. *)
Definition exec_insn (md : sk_reuseport_md) (index : Z) (f : sock_filter) (c : interpret_ctx)
  : interpret_ctx * Z :=
  let K := f_k f in
  let A := r_A (ic_r c) in
  let X := r_X (ic_r c) in
  let src o := match o with OpK => K | OpX => X end in
  match switch (f_code f) with
  | Some MISC_TAX => cont (set_X A c)
  | Some MISC_TXA => cont (set_A X c)
  | Some ST => cont (set_M (K .& MEMWORDS_MASK) A c)
  | Some STX => cont (set_M (K .& MEMWORDS_MASK) X c)
  | Some (LD_ABS SzH) =>
      if K =? SKF_PROTOCOL then cont (set_A (bswap16 (md_eth_protocol md)) c)
      else load_A md c SzH K
  | Some (LD_ABS s) => load_A md c s K
  | Some (LD_IND s) => load_A md c s (u32 (X + K))
  | Some LDX_MSH =>
      match extract md c SzB K with
      | None => brk (set_retcode IERR_LOAD c)
      | Some v => cont (set_X (u32 ((v .& 0xf) << 2)) c)
      end
  | Some LD_LEN | Some LDX_LEN => cont (set_A (u32 (md_len md - ic_offset c)) c)
  | Some LD_IMM => cont (set_A K c)
  | Some LDX_IMM => cont (set_X K c)
  | Some LD_MEM => cont (set_A (nthZ (r_M (ic_r c)) (K .& MEMWORDS_MASK)) c)
  | Some LDX_MEM => cont (set_X (nthZ (r_M (ic_r c)) (K .& MEMWORDS_MASK)) c)
  | Some JMP_JA => cont (set_next (u32 (1 + index + K)) c)
  | Some (JMP j o) =>
      cont (set_next (u32 (1 + index + (if test_cond j A (src o) then f_jt f else f_jf f))) c)
  | Some ALU_NEG => cont (set_A (u32 (- A)) c)
  | Some (ALU op o) =>
      match alu_op op A (src o) with
      | None => brk (set_retcode IERR_BADINSTR c)
      | Some v => cont (set_A v c)
      end
  | Some (RET r) =>
      let v := match r with RetK => K | RetX => X | RetA => A end in
      brk (set_retval (s32 v) (set_retcode IERR_OK c))
  | None => brk (set_retcode IERR_BADINSTR c)
  end.

Definition do_interpret_loop (md : sk_reuseport_md) (state : reuseport_storage)
  (index : Z) (c : interpret_ctx) : interpret_ctx * Z :=
  if index <? ic_next_index c then cont c
  else if MAX_INSTR <=? index then brk (set_retcode IERR_SANITY c)
  else
    let f := dis_filter (dis state) (Z.to_nat index) in
    let c := set_icw (log_if (0 <? verbose state) "#%02d: (0x%02x, %d, %d, 0x%08x)"
               [index; f_code f; f_jt f; f_jf f; f_k f] (ic_w c)) c in
    exec_insn md index f c.

Definition initial_regs : bpf_regs := mk_regs 0 0 (zeros BPF_MEMWORDS).

(** Result code, [*retval], and the world (the interpreter only logs). *)
Definition interpret_cbpf (md : sk_reuseport_md) (state : reuseport_storage) (retval : Z)
  (w : world) : Z * Z * world :=
  let ctx := mk_ictx K UDP_HDR_SZ initial_regs retval IERR_INSTREXCEEDED 0 w in
  let ctx := bpf_loop (dis_filter_len (dis state)) (do_interpret_loop md state) ctx in
  (ic_retcode ctx, ic_retval ctx, ic_w ctx).
End Interpreter.

(** ** The reference machine: program counter, registers, payload-relative loads *)
Module Ref.
Section Ref.
Context {K : Kernel}.
Local Open Scope c_scope.

Inductive outcome :=
  | Next (r : bpf_regs)
  | Goto (off : Z) (r : bpf_regs)
  | Halt (code : Z) (ret : option Z).

(** Big-endian load from the UDP payload. *)
Definition payload (md : sk_reuseport_md) (n : nat) (off : Z) : option Z :=
  be_combine <$> md_load_bytes md (u32 (UDP_HDR_SZ + off)) n.

Definition set_a (r : bpf_regs) (v : Z) := mk_regs v (r_X r) (r_M r).
Definition set_x (r : bpf_regs) (v : Z) := mk_regs (r_A r) v (r_M r).

Definition to_A (r : bpf_regs) (v : option Z) : outcome :=
  match v with Some v => Next (set_a r v) | None => Halt IERR_LOAD None end.

Definition step (md : sk_reuseport_md) (f : sock_filter) (r : bpf_regs) : outcome :=
  let k := f_k f in
  let src o := match o with OpK => k | OpX => r_X r end in
  let m := Z.to_nat (k mod 16) in
  match switch (f_code f) with
  | None => Halt IERR_BADINSTR None
  | Some i =>
    match i with
    | MISC_TAX => Next (set_x r (r_A r))
    | MISC_TXA => Next (set_a r (r_X r))
    | ST => Next (mk_regs (r_A r) (r_X r) (<[m := r_A r]> (r_M r)))
    | STX => Next (mk_regs (r_A r) (r_X r) (<[m := r_X r]> (r_M r)))
    | LD_ABS SzW => to_A r (payload md 4 k)
    | LD_ABS SzH => if k =? SKF_PROTOCOL then Next (set_a r (bswap16 (md_eth_protocol md)))
                    else to_A r (payload md 2 k)
    | LD_ABS SzB => to_A r (payload md 1 k)
    | LD_IND SzW => to_A r (payload md 4 (u32 (r_X r + k)))
    | LD_IND SzH => to_A r (payload md 2 (u32 (r_X r + k)))
    | LD_IND SzB => to_A r (payload md 1 (u32 (r_X r + k)))
    | LDX_MSH => match payload md 1 k with
                 | Some v => Next (set_x r (u32 ((v .& 0xf) << 2)))
                 | None => Halt IERR_LOAD None
                 end
    | LD_LEN => Next (set_a r (u32 (md_len md - UDP_HDR_SZ)))
    | LDX_LEN => Next (set_x r (u32 (md_len md - UDP_HDR_SZ)))
    | LD_IMM => Next (set_a r k)
    | LDX_IMM => Next (set_x r k)
    | LD_MEM => Next (set_a r (nth m (r_M r) 0))
    | LDX_MEM => Next (set_x r (nth m (r_M r) 0))
    | JMP_JA => Goto k r
    | JMP c o => Goto (if test_cond c (r_A r) (src o) then f_jt f else f_jf f) r
    | ALU_NEG => Next (set_a r (u32 (- r_A r)))
    | ALU op o => match alu_op op (r_A r) (src o) with
                  | Some v => Next (set_a r v)
                  | None => Halt IERR_BADINSTR None
                  end
    | RET RetK => Halt IERR_OK (Some (s32 k))
    | RET RetX => Halt IERR_OK (Some (s32 (r_X r)))
    | RET RetA => Halt IERR_OK (Some (s32 (r_A r)))
    end
  end.

(** Execution of [len] instructions from [pc]; every transition moves [pc]
    forward, so [len] steps are enough. *)
Fixpoint run (fuel : nat) (md : sk_reuseport_md) (d : list Z) (len pc : Z) (r : bpf_regs)
  : Z * option Z :=
  match fuel with
  | O => (IERR_INSTREXCEEDED, None)
  | S fuel =>
      if len <=? pc then (IERR_INSTREXCEEDED, None)
      else if MAX_INSTR <=? pc then (IERR_SANITY, None)
      else match step md (dis_filter d (Z.to_nat pc)) r with
           | Next r => run fuel md d len (pc + 1) r
           | Goto off r => run fuel md d len (pc + 1 + off) r
           | Halt c v => (c, v)
           end
  end.

Definition interpret (md : sk_reuseport_md) (d : list Z) : Z * option Z :=
  let len := dis_filter_len d in
  run (Z.to_nat len) md d len 0 initial_regs.
End Ref.
End Ref.

(** Programs in the classic instruction set as the interpreter has it: no
    [ldx len], and no unconditional jump past 2^32. *)
Definition classic_insn (j : Z) (f : sock_filter) : bool :=
  match switch (f_code f) with
  | Some LDX_LEN => false
  | Some JMP_JA => 1 + j + f_k f <? 2 ^ 32
  | _ => true
  end.
Definition classic_prog (d : list Z) : bool :=
  forall_below 64 (λ j, (dis_filter_len d <=? j) || classic_insn j (dis_filter d (Z.to_nat j))).

(** ** Equivalence *)
Section Equivalence.
Context {K : Kernel} {L : KernelLaws}.
Implicit Types (c : interpret_ctx) (md : sk_reuseport_md).

Lemma filter_ranges d i :
  bytes_ok d → 0 <= f_jt (dis_filter d i) < 256 ∧ 0 <= f_jf (dis_filter d i) < 256
  ∧ 0 <= f_k (dis_filter d i) < 2 ^ 32.
Proof.
  intros Hd. unfold dis_filter. cbn [f_jt f_jf f_k].
  pose proof (load_range 1 d (120 + 8 * i + 2) Hd).
  pose proof (load_range 1 d (120 + 8 * i + 3) Hd).
  pose proof (load_range 4 d (120 + 8 * i + 4) Hd).
  change (2 ^ (8 * Z.of_nat 1)) with 256 in *. change (2 ^ (8 * Z.of_nat 4)) with (2 ^ 32) in *.
  auto.
Qed.

Lemma extract_payload md c s off :
  md_ok md → ic_offset c = UDP_HDR_SZ →
  extract md c s off = Ref.payload md (size_bytes s) off.
Proof.
  intros Hmd Ho. unfold extract, Ref.payload. rewrite Ho.
  destruct (md_load_bytes md _ _) as [bs|] eqn:E; [|done]. simpl.
  destruct (md_load_ok md Hmd _ _ _ E) as [Hl Hb]. by rewrite bswap_load.
Qed.

(** The control part of the context. *)
Definition same_control c c' : Prop :=
  ic_offset c' = ic_offset c ∧ ic_retval c' = ic_retval c ∧ ic_retcode c' = ic_retcode c.

(** One instruction of the source does what one step of the reference does. *)
Definition simulates (index : Z) c (o : Ref.outcome) (res : interpret_ctx * Z) : Prop :=
  let '(c', r) := res in
  match o with
  | Ref.Next regs => r = LOOP_CONTINUE ∧ same_control c c' ∧ ic_r c' = regs
                     ∧ ic_next_index c' = ic_next_index c
  | Ref.Goto off regs => r = LOOP_CONTINUE ∧ same_control c c' ∧ ic_r c' = regs
                     ∧ ic_next_index c' = u32 (1 + index + off)
  | Ref.Halt code v => r = LOOP_BREAK ∧ ic_retcode c' = code
                     ∧ ic_retval c' = default (ic_retval c) v
  end.

Lemma load_A_simulates md c s off index :
  md_ok md → ic_offset c = UDP_HDR_SZ →
  simulates index c (Ref.to_A (ic_r c) (Ref.payload md (size_bytes s) off)) (load_A md c s off).
Proof.
  intros Hmd Ho. unfold load_A. rewrite extract_payload by done.
  destruct (Ref.payload md _ off); cbn; done.
Qed.

Lemma exec_insn_simulates md index f c :
  md_ok md → ic_offset c = UDP_HDR_SZ → switch (f_code f) ≠ Some LDX_LEN →
  simulates index c (Ref.step md f (ic_r c)) (exec_insn md index f c).
Proof.
  intros Hmd Ho Hlen. unfold exec_insn, Ref.step, MEMWORDS_MASK. rewrite land_15.
  destruct (switch (f_code f)) as [i|]; [|done]. destruct i; try done.
  - destruct s; try (by apply (load_A_simulates md c SzW));
      try (by apply (load_A_simulates md c SzB)).
    destruct (f_k f =? SKF_PROTOCOL); [done|]. by apply (load_A_simulates md c SzH).
  - destruct s; [by apply (load_A_simulates md c SzW)|by apply (load_A_simulates md c SzH)
      |by apply (load_A_simulates md c SzB)].
  - rewrite extract_payload by done. simpl size_bytes. by destruct (Ref.payload md 1 (f_k f)).
  - cbn. by rewrite Ho.
  - by destruct (alu_op a (r_A (ic_r c)) _).
  - by destruct r.
Qed.

Lemma run_past fuel md d len pc r : len <= pc → Ref.run fuel md d len pc r = (IERR_INSTREXCEEDED, None).
Proof. intros H. destruct fuel; [done|]. cbn. by destruct (Z.leb_spec len pc); [|lia]. Qed.

Lemma classic_prog_insn d j :
  classic_prog d = true → 0 <= j < 64 → j < dis_filter_len d →
  classic_insn j (dis_filter d (Z.to_nat j)) = true.
Proof.
  intros H Hj Hl. apply (forall_below_spec _ _ H) in Hj. apply orb_prop in Hj as [?|?]; [lia|done].
Qed.

Lemma do_interpret_loop_skip md st i c :
  i < ic_next_index c → do_interpret_loop md st i c = (c, LOOP_CONTINUE).
Proof. intros H. unfold do_interpret_loop. by apply Z.ltb_lt in H as ->. Qed.

Lemma do_interpret_loop_sanity md st i c :
  ic_next_index c <= i → MAX_INSTR <= i →
  do_interpret_loop md st i c = (set_retcode IERR_SANITY c, LOOP_BREAK).
Proof. intros H H'. unfold do_interpret_loop. by apply Z.ltb_ge in H as ->; apply Z.leb_le in H' as ->. Qed.

Lemma do_interpret_loop_exec md st i c :
  ic_next_index c <= i → i < MAX_INSTR →
  let f := dis_filter (dis st) (Z.to_nat i) in
  do_interpret_loop md st i c = exec_insn md i f
    (set_icw (log_if (0 <? verbose st) "#%02d: (0x%02x, %d, %d, 0x%08x)"
               [i; f_code f; f_jt f; f_jf f; f_k f] (ic_w c)) c).
Proof. intros H H'. unfold do_interpret_loop. by apply Z.ltb_ge in H as ->; apply Z.leb_gt in H' as ->. Qed.

(** The loop from iteration [i], with [n] iterations left, behaves as the
    reference machine at the next instruction that is not skipped. *)
Lemma loop_run md st n i c m :
  md_ok md → bytes_ok (dis st) → classic_prog (dis st) = true →
  0 <= i → i + Z.of_nat n = dis_filter_len (dis st) → (n <= m)%nat →
  ic_offset c = UDP_HDR_SZ → ic_retcode c = IERR_INSTREXCEEDED →
  let c' := loop_from n i (do_interpret_loop md st) c in
  let '(code, v) := Ref.run m md (dis st) (dis_filter_len (dis st)) (Z.max i (ic_next_index c)) (ic_r c) in
  ic_retcode c' = code ∧ ic_retval c' = default (ic_retval c) v.
Proof.
  intros Hmd Hok Hcl. revert i c m. induction n as [|n IH]; intros i c m Hi Hlen Hm Ho Hr.
  { rewrite run_past by lia. done. }
  cbn [loop_from]. destruct (Z.ltb_spec i (ic_next_index c)) as [Hskip|Hact].
  { rewrite do_interpret_loop_skip by done.
    specialize (IH (i + 1) c m). rewrite Z.max_r by lia. rewrite Z.max_r in IH by lia.
    apply IH; try done; lia. }
  rewrite Z.max_l by done. destruct m as [|m]; [lia|]. cbn [Ref.run].
  destruct (Z.leb_spec (dis_filter_len (dis st)) i); [lia|].
  destruct (Z.leb_spec MAX_INSTR i) as [|Hi64].
  { rewrite do_interpret_loop_sanity by done. done. }
  rewrite do_interpret_loop_exec by done. unfold MAX_INSTR in Hi64.
  set (f := dis_filter (dis st) (Z.to_nat i)). set (c0 := set_icw _ c).
  pose proof (classic_prog_insn _ i Hcl ltac:(lia) ltac:(lia)) as Hci. fold f in Hci.
  assert (switch (f_code f) ≠ Some LDX_LEN) as Hnl.
  { unfold classic_insn in Hci. intros E. by rewrite E in Hci. }
  pose proof (exec_insn_simulates md i f c0 Hmd Ho Hnl) as Hsim.
  destruct (filter_ranges (dis st) (Z.to_nat i) Hok) as (Hjt & Hjf & Hk). fold f in Hjt, Hjf, Hk.
  change (ic_r c) with (ic_r c0). destruct (exec_insn md i f c0) as [c' r].
  destruct (Ref.step md f (ic_r c0)) as [regs|off regs|code v] eqn:Es; unfold simulates in Hsim.
  - destruct Hsim as (-> & (Ho' & Hv' & Hr') & Hregs & Hn').
    change (LOOP_CONTINUE =? 0) with true. cbn iota.
    specialize (IH (i + 1) c' m). rewrite Hn', Hregs, Hv' in IH. change (ic_next_index c0) with (ic_next_index c) in IH.
    rewrite Z.max_l in IH by lia. apply IH; first [lia | by rewrite ?Ho', ?Hr'].
  - destruct Hsim as (-> & (Ho' & Hv' & Hr') & Hregs & Hn').
    change (LOOP_CONTINUE =? 0) with true. cbn iota.
    assert (0 <= off ∧ 1 + i + off < 2 ^ 32) as Hoff.
    { unfold Ref.step, Ref.to_A in Es. unfold classic_insn in Hci.
      clearbody f. repeat case_match; simplify_eq; repeat case_match; lia. }
    specialize (IH (i + 1) c' m). rewrite Hn', Hregs, Hv', u32_small in IH by lia.
    rewrite Z.max_r in IH by lia. replace (i + 1 + off) with (1 + i + off) by lia.
    apply IH; first [lia | by rewrite ?Ho', ?Hr'].
  - destruct Hsim as (-> & Hc' & Hv'). done.
Qed.

Lemma interpret_cbpf_run md st retval w :
  md_ok md → bytes_ok (dis st) → classic_prog (dis st) = true →
  dis_filter_len (dis st) <= BPF_MAX_LOOPS →
  let '(code, v) := Ref.interpret md (dis st) in
  let '(code', retval', _) := interpret_cbpf md st retval w in
  code' = code ∧ retval' = default retval v.
Proof.
  intros Hmd Hok Hcl Hmax. unfold interpret_cbpf, Ref.interpret.
  rewrite bpf_loop_run by done.
  pose proof (load_range 4 (dis st) 116 Hok) as Hl. fold (dis_filter_len (dis st)) in Hl.
  pose proof (loop_run md st (Z.to_nat (dis_filter_len (dis st))) 0
    (mk_ictx K UDP_HDR_SZ initial_regs retval IERR_INSTREXCEEDED 0 w)
    (Z.to_nat (dis_filter_len (dis st))) Hmd Hok Hcl ltac:(lia) ltac:(lia) ltac:(lia) eq_refl eq_refl) as H.
  cbn [ic_next_index ic_r ic_retval] in H. change (Z.max 0 0) with 0 in H.
  destruct (Ref.run _ _ _ _ _ _) as [code v]. exact H.
Qed.
End Equivalence.

(** ** The interpreter only logs *)
Section Effects.
Context {K : Kernel} {L : KernelLaws}.

Lemma exec_insn_world md i f c : ic_w (fst (exec_insn md i f c)) = ic_w c.
Proof. unfold exec_insn, load_A. repeat case_match; done. Qed.

Lemma interpret_cbpf_logs md st retval w code v w' :
  interpret_cbpf md st retval w = (code, v, w') → logs_only w w'.
Proof.
  unfold interpret_cbpf. intros [= _ _ <-].
  apply (bpf_loop_inv (λ c, logs_only w (ic_w c))); [|reflexivity].
  intros i c Hc. unfold do_interpret_loop. repeat case_match; try done.
  rewrite exec_insn_world. cbn [ic_w set_icw]. etrans; [apply Hc|apply logs_only_if].
Qed.
End Effects.

(** ** Result codes *)
Section Results.
Context {K : Kernel} {L : KernelLaws}.

(** The result codes a program can end with, and what became of [*retval]. *)
Definition result_ok (retval : Z) (c : interpret_ctx) : Prop :=
  (ic_retcode c = IERR_OK ∧ - 2 ^ 31 <= ic_retval c < 2 ^ 31) ∨
  (ic_retcode c ∈ [IERR_LOAD; IERR_INSTREXCEEDED; IERR_BADINSTR] ∧ ic_retval c = retval).

Lemma s32_range x : - 2 ^ 31 <= s32 x < 2 ^ 31.
Proof. unfold s32. pose proof (u32_range x). case_match; lia. Qed.

Lemma exec_insn_result retval md i f c c' r :
  ic_retval c = retval → ic_retcode c = IERR_INSTREXCEEDED → exec_insn md i f c = (c', r) →
  (r = LOOP_CONTINUE ∧ ic_retval c' = retval ∧ ic_retcode c' = IERR_INSTREXCEEDED)
  ∨ (r = LOOP_BREAK ∧ result_ok retval c').
Proof.
  intros Hv Hc. unfold exec_insn, load_A, brk, cont, result_ok. intros H.
  repeat case_match; simplify_eq; cbn [ic_retval ic_retcode set_A set_X set_M set_regs set_next
    set_retcode set_retval]; first [left; done | right; split; [done|]];
    first [left; split; [done|apply s32_range] | right; split; [set_solver|done]].
Qed.

Lemma loop_result retval md st n i c :
  0 <= i → i + Z.of_nat n <= MAX_INSTR →
  ic_retval c = retval → ic_retcode c = IERR_INSTREXCEEDED →
  result_ok retval (loop_from n i (do_interpret_loop md st) c).
Proof.
  revert i c. induction n as [|n IH]; intros i c Hi Hn Hv Hc.
  { right. split; [cbn; rewrite Hc; set_solver|done]. }
  cbn [loop_from]. destruct (Z.ltb_spec i (ic_next_index c)).
  { rewrite do_interpret_loop_skip by done. apply IH; done || lia. }
  rewrite do_interpret_loop_exec by lia. set (f := dis_filter _ _). set (c0 := set_icw _ c).
  destruct (exec_insn md i f c0) as [c' r] eqn:E.
  apply (exec_insn_result retval) in E as [(-> & ? & ?)|(-> & ?)]; try done.
  cbn. apply IH; done || lia.
Qed.

Lemma interpret_cbpf_classified md st retval w :
  dis_filter_len (dis st) <= MAX_INSTR →
  let '(code, v, _) := interpret_cbpf md st retval w in
  (code = IERR_OK ∧ - 2 ^ 31 <= v < 2 ^ 31) ∨
  (code ∈ [IERR_LOAD; IERR_INSTREXCEEDED; IERR_BADINSTR] ∧ v = retval).
Proof.
  intros Hlen. unfold interpret_cbpf. unfold MAX_INSTR in *.
  rewrite bpf_loop_run by (unfold BPF_MAX_LOOPS; lia).
  destruct (Z.le_gt_cases 0 (dis_filter_len (dis st))).
  - apply (loop_result retval); try done; unfold MAX_INSTR; lia.
  - rewrite Z2Nat.nonpos by lia. right. split; [cbn; set_solver|done].
Qed.

(** C22. The bytecode run by [bpf_loop] with skipped iterations is the
    machine of the classic instruction set: program counter, accumulator, index
    register, sixteen memory words, big-endian loads relative to the UDP payload.
    Whenever the program is made of the classic instructions the interpreter
    implements, result code and value are those of the reference machine. *)
Theorem interpret_cbpf_refines_reference md st retval w :
  md_ok md → bytes_ok (dis st) → classic_prog (dis st) = true →
  dis_filter_len (dis st) <= BPF_MAX_LOOPS →
  let '(code, v) := Ref.interpret md (dis st) in
  let '(code', retval', _) := interpret_cbpf md st retval w in
  code' = code ∧ retval' = default retval v.
Proof. apply interpret_cbpf_run. Qed.

(** The case of [ldx len]: the accumulator is written, the index register is not. *)
Lemma ldx_len_writes_A md index jt jf k c :
  exec_insn md index (mk_filter (BPF_LDX + BPF_W + BPF_LEN) jt jf k) c
  = cont (set_A (u32 (md_len md - ic_offset c)) c).
Proof. reflexivity. Qed.
End Results.

(** Programs the kernel's checker of classic filters admits: known instructions, jumps
    within the program, no step past its end. *)
Definition closed_insn (len j : Z) (f : sock_filter) : bool :=
  match switch (f_code f) with
  | None | Some LDX_LEN => false
  | Some JMP_JA => 1 + j + f_k f <? len
  | Some (JMP _ _) => (1 + j + f_jt f <? len) && (1 + j + f_jf f <? len)
  | Some (RET _) => true
  | Some _ => 1 + j <? len
  end.
Definition closed_prog (d : list Z) : bool :=
  (1 <=? dis_filter_len d) && (dis_filter_len d <=? MAX_INSTR) &&
  forall_below 64 (λ j, (dis_filter_len d <=? j) || closed_insn (dis_filter_len d) j (dis_filter d (Z.to_nat j))).
Definition is_division (f : sock_filter) : bool :=
  match switch (f_code f) with Some (ALU ADIV _) | Some (ALU AMOD _) => true | _ => false end.
Definition has_division (d : list Z) : bool :=
  negb (forall_below 64 (λ j, (dis_filter_len d <=? j) || negb (is_division (dis_filter d (Z.to_nat j))))).

Section Termination.
Context {K : Kernel} {L : KernelLaws}.

Lemma closed_prog_insn d j : closed_prog d = true → 0 <= j < dis_filter_len d →
  closed_insn (dis_filter_len d) j (dis_filter d (Z.to_nat j)) = true ∧ 1 <= dis_filter_len d <= 64.
Proof.
  unfold closed_prog, MAX_INSTR. intros H Hj. apply andb_prop in H as [[H1 H2]%andb_prop H].
  split; [|lia]. apply (forall_below_spec 64 _ H j) in Hj as Hc || (pose proof (forall_below_spec 64 _ H j ltac:(lia)) as Hc).
  apply orb_prop in Hc as [?|?]; [lia|done].
Qed.
Lemma closed_classic d : bytes_ok d → closed_prog d = true → classic_prog d = true.
Proof.
  intros Hb H. assert (1 <= dis_filter_len d <= 64) as Hlen.
  { unfold closed_prog, MAX_INSTR in H. apply andb_prop in H as [[H1 H2]%andb_prop _]. lia. }
  unfold classic_prog. assert (∀ n i, 0 <= i → forall_from n i (λ j, (dis_filter_len d <=? j) || classic_insn j (dis_filter d (Z.to_nat j))) = true) as Hf.
  { induction n as [|n IH]; intros i Hi; [done|]. cbn [forall_from]. rewrite IH by lia. rewrite andb_true_r.
    destruct (Z.leb_spec (dis_filter_len d) i); [done|]. cbn [orb].
    destruct (closed_prog_insn d i H ltac:(lia)) as [Hc _]. unfold closed_insn in Hc. unfold classic_insn.
    repeat case_match; try done. lia. }
  apply Hf. lia.
Qed.
Lemma has_division_at d j : 0 <= j < dis_filter_len d → dis_filter_len d <= 64 →
  is_division (dis_filter d (Z.to_nat j)) = true → has_division d = true.
Proof.
  intros Hj Hl Hd. unfold has_division. destruct (forall_below 64 _) eqn:E; [|done].
  pose proof (forall_below_spec 64 _ E j ltac:(lia)) as Hx. cbv beta in Hx. rewrite Hd in Hx.
  apply orb_prop in Hx as [?|?]; [lia|done].
Qed.

(** How such a program ends. *)
Definition ended (d : list Z) (code : Z) : Prop :=
  code = IERR_OK ∨ code = IERR_LOAD ∨ (code = IERR_BADINSTR ∧ has_division d = true).

Lemma run_ends md d m pc r :
  bytes_ok d → closed_prog d = true → 0 <= pc < dis_filter_len d → dis_filter_len d - pc <= Z.of_nat m →
  ended d (fst (Ref.run m md d (dis_filter_len d) pc r)).
Proof.
  intros Hb Hcl. induction m as [|m IH] in pc, r |- *; intros Hpc Hm; [lia|]. cbn [Ref.run].
  destruct (closed_prog_insn d pc Hcl Hpc) as [Hc Hlen].
  destruct (Z.leb_spec (dis_filter_len d) pc); [lia|]. destruct (Z.leb_spec MAX_INSTR pc); [unfold MAX_INSTR in *; lia|].
  pose proof (has_division_at d pc Hpc ltac:(lia)) as Hdiv.
  destruct (filter_ranges d (Z.to_nat pc) Hb) as (Hjt & Hjf & Hk).
  set (f := dis_filter d (Z.to_nat pc)) in *. clearbody f. unfold closed_insn in Hc. unfold is_division in Hdiv.
  unfold Ref.step. destruct (switch (f_code f)) as [i|]; [|done].
  destruct i; unfold Ref.to_A; try discriminate Hc;
    repeat match goal with
    | |- ended _ (fst (match match ?x with _ => _ end with _ => _ end)) => destruct x eqn:?
    end;
    first [ apply IH; lia | by left | by right; left | right; right; split; [done|]; apply Hdiv;
            match goal with E : alu_op ?a _ _ = None |- _ => destruct a; done end | idtac ].
  apply andb_prop in Hc as [? ?]. destruct (test_cond _ _ _); apply IH; lia.
Qed.

Lemma closed_prog_ends md st retval w :
  md_ok md → bytes_ok (dis st) → closed_prog (dis st) = true →
  let '(code, _, _) := interpret_cbpf md st retval w in ended (dis st) code.
Proof.
  intros Hmd Hb Hcl. destruct (closed_prog_insn (dis st) 0 Hcl) as [_ Hl].
  { unfold closed_prog in Hcl. apply andb_prop in Hcl as [[H1 _]%andb_prop _]. lia. }
  pose proof (interpret_cbpf_run md st retval w Hmd Hb (closed_classic _ Hb Hcl) ltac:(unfold BPF_MAX_LOOPS; lia)) as H.
  pose proof (run_ends md (dis st) (Z.to_nat (dis_filter_len (dis st))) 0 initial_regs Hb Hcl ltac:(lia) ltac:(lia)) as He.
  unfold Ref.interpret in H. destruct (Ref.run _ _ _ _ _ _) as [code v].
  destruct (interpret_cbpf md st retval w) as [[code' v'] w']. destruct H as [-> _]. exact He.
Qed.

(** C28. Every program within the 64 instructions of the header, whatever its bytes, ends
    with a defined result: a [ret] was reached and [*retval] is its 32-bit operand, or
    [*retval] is left alone and the code is load error, instructions exhausted or bad
    instruction; the sanity code (an index past the filter array) never occurs. And every
    program the kernel's checker of classic filters admits, one to 64 known instructions
    with jumps forward inside the program and no way past its last one, is run to its end
    by the bounded loop: it returns, or stops at a load outside the packet or at a
    division by zero, and never runs out of iterations. *)
Theorem interpret_cbpf_terminates md st retval w :
  dis_filter_len (dis st) <= MAX_INSTR →
  (let '(code, v, _) := interpret_cbpf md st retval w in
   (code = IERR_OK ∧ - 2 ^ 31 <= v < 2 ^ 31) ∨
   (code ∈ [IERR_LOAD; IERR_INSTREXCEEDED; IERR_BADINSTR] ∧ v = retval))
  ∧ (md_ok md → bytes_ok (dis st) → closed_prog (dis st) = true →
     let '(code, _, _) := interpret_cbpf md st retval w in ended (dis st) code).
Proof. intros Hlen. split; [by apply interpret_cbpf_classified|apply closed_prog_ends]. Qed.
End Termination.

(** ** Evaluation *)

(** A dissector holding a program, as user space encodes it. *)
Definition encode_insn (f : sock_filter) : list Z :=
  le_bytes 2 (f_code f) ++ le_bytes 1 (f_jt f) ++ le_bytes 1 (f_jf f) ++ le_bytes 4 (f_k f).
Definition cbpf_dissector (prog : list sock_filter) : list Z :=
  store (store (store (zeros DISSECTOR_SZ) 0 (le_bytes 4 DISSECTOR_CBPF))
    116 (le_bytes 4 (Z.of_nat (length prog)))) 120 (concat (map encode_insn prog)).

(** [ldb [0]; jeq #0x61, 1, 0; ret #-1; ldh [1]; ret a] *)
Definition example_prog : list sock_filter :=
  [ mk_filter 0x30 0 0 0; mk_filter 0x15 1 0 0x61; mk_filter 0x06 0 0 0xffffffff;
    mk_filter 0x28 0 0 1; mk_filter 0x16 0 0 0 ].
Definition example_storage : reuseport_storage := set_dis (cbpf_dissector example_prog) empty_state.
Definition example_packet (payload : list Z) : sk_reuseport_md :=
  packet_md (mk_bpf_sock 1 AF_INET 1 (0, 0, 0, 0) 4433) 0x8 5 (zeros 20)
    ([0x30; 0x39; 0x11; 0x51; 0; 11; 0; 0] ++ payload).

Lemma example_packet_ok payload :
  bytes_ok payload → Z.of_nat (length payload) < 2 ^ 31 → md_ok (example_packet payload).
Proof.
  intros Hp Hl. apply packet_md_ok; try lia.
  - apply bytes_ok_zeros.
  - apply Forall_app. split; [repeat constructor; cbv; done|done].
  - rewrite length_app. cbn [length]. lia.
Qed.

Lemma cbpf_dissector_ok prog : bytes_ok (cbpf_dissector prog).
Proof.
  unfold cbpf_dissector. repeat apply bytes_ok_store; auto using bytes_ok_zeros, le_bytes_ok.
  induction prog as [|f prog IH]; [constructor|]. cbn [map concat]. unfold encode_insn at 1.
  repeat (apply Forall_app; split); auto using le_bytes_ok.
Qed.

Lemma interpret_cbpf_refines_reference_witness :
  fst (interpret_cbpf (K := good_kernel) (example_packet [0x61; 1; 2]) example_storage 9 empty_world)
    = (0, 258) ∧
  let '(code, v) := Ref.interpret (K := good_kernel) (example_packet [0x61; 1; 2]) (dis example_storage) in
  let '(code', retval', _) := interpret_cbpf (K := good_kernel) (example_packet [0x61; 1; 2])
                         example_storage 9 empty_world in
  code' = code ∧ retval' = default 9 v.
Proof.
  split; [vm_compute; reflexivity|].
  apply (interpret_cbpf_refines_reference (K := good_kernel) (example_packet [0x61; 1; 2])
    example_storage 9 empty_world).
  - apply example_packet_ok; [repeat constructor; cbv; done|done].
  - apply cbpf_dissector_ok.
  - vm_compute. reflexivity.
  - vm_compute. discriminate.
Defined.

Lemma interpret_cbpf_terminates_witness :
  dis_filter_len (dis example_storage) <= MAX_INSTR ∧
  let '(code, _, _) := interpret_cbpf (K := good_kernel) (example_packet [0x61; 1; 2]) example_storage 9 empty_world in
  ended (dis example_storage) code.
Proof.
  split; [vm_compute; discriminate|].
  apply (interpret_cbpf_terminates (K := good_kernel) (example_packet [0x61; 1; 2]) example_storage 9 empty_world).
  - vm_compute. discriminate.
  - apply example_packet_ok; [repeat constructor; cbv; done|done].
  - apply cbpf_dissector_ok.
  - vm_compute. reflexivity.
Defined.
