(* ===== verification/Dissector.v ===== *)
(** The two ways a packet is dissected in [ebpf/ebpf.c]: by flow hash
    ([dissector_flow]) and by bytecode ([dissector_cbpf]), and the interface of the
    hard-coded dissectors ([BespokeDissector]) that [dissector_cbpf] calls when the
    dissector carries a digest. *)

From S2P Require Import Prelude Cookie SipHash Storage Cbpf.

Definition ETH_P_IP : Z := bswap16 0x0800.
Definition ETH_P_IPV6 : Z := bswap16 0x86DD.

(** What [run_bespoke_by_digest] promises its caller: it only logs, and its
    result is one of the interpreter's result codes. *)
Class BespokeDissector {K : Kernel} := {
  run_bespoke_by_digest : sk_reuseport_md → Z → reuseport_storage → Z → world → Z * Z * world;
}.
Class BespokeLaws {K : Kernel} {B : BespokeDissector} := {
  bespoke_logs : ∀ md digest st retval w code v w',
    run_bespoke_by_digest md digest st retval w = (code, v, w') → logs_only w w';
  bespoke_retval : ∀ md digest st retval w v w',
    run_bespoke_by_digest md digest st retval w = (IERR_OK, v, w') → - 2 ^ 31 <= v < 2 ^ 31;
}.

Section Dissector.
Context {K : Kernel} {B : BespokeDissector}.
Local Open Scope c_scope.

(** Return value of a load helper: 0 or a negative error. *)
Definition load_rc (o : option (list Z)) : Z := match o with Some _ => 0 | None => - EFAULT end.

(** Result and [*hash_ptr]. [remote_ip] is zero beyond the loaded bytes. *)
Definition dissector_flow (md : sk_reuseport_md) (hash : Z) (reuseport_group_id : Z) : Z * Z :=
  let load_ip :=
    if md_eth_protocol md =? ETH_P_IP then Some (md_load_net md 12 4)
    else if md_eth_protocol md =? ETH_P_IPV6 then Some (md_load_net md 8 16)
    else None in
  match load_ip with
  | None => (1, hash)
  | Some ip =>
      let port := md_load_bytes md 0 2 in
      let r := load_rc ip .| load_rc port in
      if negb (r =? 0) then (r, hash)
      else
        let data := mk_flow (store (zeros 16) 0 (default [] ip)) reuseport_group_id
                      (le_combine (default [] port)) in
        (0, count_ip_flow_hash data)
  end.

(** Result, [*grm_cookie_ptr], [*app_idx_ptr]. *)
Definition dissector_cbpf (md : sk_reuseport_md) (state : reuseport_storage)
  (grm_cookie app_idx : Z) (w : world) : Z * Z * Z * world :=
  let retval := 0 in
  let '(r, retval, w) :=
    if dis_bespoke_digest (dis state) =? 0 then interpret_cbpf md state retval w
    else run_bespoke_by_digest md (dis_bespoke_digest (dis state)) state retval w in
  if negb (r =? IERR_OK) then (r, grm_cookie, app_idx, w)
  else
    let app := u32 (u64 (u32 retval - 0x80000000)) in
    if (0 <=? app) && (app <? dis_max_apps (dis state)) then
      (IERR_BADRETURNVALUE, grm_cookie, app, w)
    else if (retval <? 0) || (0xffff <? retval) then (IERR_BADRETURNVALUE, grm_cookie, app_idx, w)
    else (0, u16 retval, app_idx, w).

(** What a dissector program's 32-bit return value means. *)
Inductive verdict := NewFlow (app : Z) | Existing (cookie : Z).
Definition verdict_of (max_apps retval : Z) : verdict :=
  if (retval <? - 2 ^ 31 + max_apps) then NewFlow (retval + 2 ^ 31)
  else if (0 <=? retval) && (retval <? 2 ^ 16) then Existing retval
  else NewFlow 0.
End Dissector.

Section DissectorFacts.
Context {K : Kernel} {L : KernelLaws} {B : BespokeDissector} {BL : BespokeLaws}.

Lemma dissector_cbpf_logs md st gc app w r gc' app' w' :
  dissector_cbpf md st gc app w = (r, gc', app', w') → logs_only w w'.
Proof.
  unfold dissector_cbpf. intros H.
  assert (∃ code v w1, logs_only w w1 ∧ w' = w1 ∧
    (if dis_bespoke_digest (dis st) =? 0 then interpret_cbpf md st 0 w
     else run_bespoke_by_digest md (dis_bespoke_digest (dis st)) st 0 w) = (code, v, w1)) as Hw.
  { destruct (dis_bespoke_digest (dis st) =? 0).
    - destruct (interpret_cbpf md st 0 w) as [[c v] w1] eqn:E. exists c, v, w1.
      split; [by eapply interpret_cbpf_logs|]. repeat case_match; by simplify_eq.
    - destruct (run_bespoke_by_digest _ _ _ _ _) as [[c v] w1] eqn:E. exists c, v, w1.
      split; [by eapply bespoke_logs|]. repeat case_match; by simplify_eq. }
  destruct Hw as (? & ? & ? & ? & -> & _). done.
Qed.

(** The application index is the caller's, or that of an application of the group. *)
Lemma dissector_cbpf_app md st gc app w r gc' app' w' :
  dissector_cbpf md st gc app w = (r, gc', app', w') →
  app' = app ∨ (r = IERR_BADRETURNVALUE ∧ 0 <= app' < dis_max_apps (dis st)).
Proof.
  unfold dissector_cbpf. intros H. repeat case_match; simplify_eq; auto; right; split; (done || lia).
Qed.

Lemma dissector_cbpf_verdict md st gc app w code v w1 :
  (if dis_bespoke_digest (dis st) =? 0 then interpret_cbpf md st 0 w
   else run_bespoke_by_digest md (dis_bespoke_digest (dis st)) st 0 w) = (code, v, w1) →
  - 2 ^ 31 <= v < 2 ^ 31 → 0 <= dis_max_apps (dis st) < 2 ^ 31 →
  dissector_cbpf md st gc app w =
    if code =? IERR_OK then
      match verdict_of (dis_max_apps (dis st)) v with
      | NewFlow a => (IERR_BADRETURNVALUE, gc,
                      (if v <? - 2 ^ 31 + dis_max_apps (dis st) then a else app), w1)
      | Existing c => (IERR_OK, c, app, w1)
      end
    else (code, gc, app, w1).
Proof.
  intros E Hv Hm. unfold dissector_cbpf. rewrite E.
  destruct (code =? IERR_OK) eqn:Ec; [|done]. cbn [negb]. unfold verdict_of.
  set (app' := u32 (u64 (u32 v - 0x80000000))).
  assert (app' = v + 2 ^ 31) as Happ by (subst app'; unfold u32, u64; Z.div_mod_to_equations; lia).
  replace (app' <? dis_max_apps (dis st)) with (v <? - 2 ^ 31 + dis_max_apps (dis st)) by lia.
  replace (0 <=? app') with true by lia.
  cbn [andb]. destruct (Z.ltb_spec v (- 2 ^ 31 + dis_max_apps (dis st))); [by rewrite Happ|].
  destruct (Z.ltb_spec v 0); destruct (Z.leb_spec 0 v); try lia; cbn [orb andb].
  - done.
  - destruct (Z.ltb_spec 0xffff v); destruct (Z.ltb_spec v (2 ^ 16)); try lia; [done|].
    by rewrite u16_small by lia.
Qed.
End DissectorFacts.

(** A bytecode program speaks to the dispatcher through its 32-bit return
    value: [0x80000000 + a] with [a] an application of the group asks for a new flow
    of that application, a value of 16 bits is the cookie of an existing flow, every
    other value is a new flow of the caller's application; a program that did not
    return hands its error code on and neither cookie nor application is touched. *)
Theorem dissector_cbpf_classifies {K : Kernel} {L : KernelLaws} {B : BespokeDissector}
  md st gc app w :
  dis_bespoke_digest (dis st) = 0 → dis_filter_len (dis st) <= MAX_INSTR →
  0 <= dis_max_apps (dis st) < 2 ^ 31 →
  let '(code, v, w1) := interpret_cbpf md st 0 w in
  dissector_cbpf md st gc app w =
    if code =? IERR_OK then
      match verdict_of (dis_max_apps (dis st)) v with
      | NewFlow a => (IERR_BADRETURNVALUE, gc,
                      (if v <? - 2 ^ 31 + dis_max_apps (dis st) then a else app), w1)
      | Existing c => (IERR_OK, c, app, w1)
      end
    else (code, gc, app, w1).
Proof.
  intros Hd Hf Hm. pose proof (interpret_cbpf_classified md st 0 w Hf) as Hr.
  destruct (interpret_cbpf md st 0 w) as [[code v] w1] eqn:E.
  apply dissector_cbpf_verdict; try done; [by rewrite Hd|]. lia.
Qed.

(** The bespoke interface of a build without hard-coded dissectors. *)
Definition no_bespoke (K : Kernel) : BespokeDissector :=
  {| run_bespoke_by_digest _ _ _ retval w := (IERR_INSTREXCEEDED, retval, w) |}.
#[export] Instance no_bespoke_laws K : @BespokeLaws K (no_bespoke K).
Proof.
  split.
  - cbn. intros. simplify_eq. reflexivity.
  - cbn. intros. by simplify_eq.
Qed.

Lemma dissector_cbpf_classifies_witness :
  let '(code, v, w1) := interpret_cbpf (K := good_kernel) (example_packet [0x61; 1; 2])
                          example_storage 0 empty_world in
  dissector_cbpf (K := good_kernel) (B := no_bespoke good_kernel) (example_packet [0x61; 1; 2])
    example_storage 0 0 empty_world =
    if code =? IERR_OK then
      match verdict_of (dis_max_apps (dis example_storage)) v with
      | NewFlow a => (IERR_BADRETURNVALUE, 0,
                      (if v <? - 2 ^ 31 + dis_max_apps (dis example_storage) then a else 0), w1)
      | Existing c => (IERR_OK, c, 0, w1)
      end
    else (code, 0, 0, w1).
Proof.
  apply (dissector_cbpf_classifies (K := good_kernel) (B := no_bespoke good_kernel)
    (example_packet [0x61; 1; 2]) example_storage 0 0 empty_world).
  - reflexivity.
  - vm_compute. discriminate.
  - split; vm_compute; [discriminate|reflexivity].
Defined.
