(* ===== verification/Reuseport.v ===== *)
(** The receive path: [udpgrm_reuseport_prog] of [ebpf/ebpf.c], run by the kernel
    for each packet of a reuseport group to select a socket.

    The labels of the source ([have_hash], [have_cookie], [have_third_stage], the
    error exits) are functions; a [goto] or a fall-through is a tail call. *)

From S2P Require Import Prelude Cookie SipHash Storage Cbpf Dissector.

(** The program's return value and the socket cookie selected, if any. *)
Record rx_result := mk_rx { rx_ret : Z; rx_selected : option Z }.

(** [flow_entry_timeout_sec] with its default. *)
Definition flow_timeout_sec (st : reuseport_storage) : Z :=
  if dis_flow_entry_timeout_sec (dis st) =? 0 then FLOW_DEFAULT_TIMEOUT_SEC
  else dis_flow_entry_timeout_sec (dis st).

Section Reuseport.
Context {K : Kernel} {B : BespokeDissector}.

Definition verb (st : reuseport_storage) : bool := negb (verbose st =? 0).

(** [x % y] in the program; [TO_WRK_GEN] with it. *)
Definition bpf_mod (x y : Z) : Z := if y =? 0 then mod_by_zero x else x mod y.
Definition bpf_TO_WRK_GEN (max_apps app_idx working_gen : Z) : Z :=
  match TO_WRK_GEN max_apps app_idx working_gen with
  | Some g => g
  | None => u32 (mod_by_zero working_gen)
  end.

Definition sk_select (md : sk_reuseport_md) (cookie : Z) (w : world) : Z :=
  bpf_sk_select_reuseport (w_sockhash w) (md_sk md) cookie.

(** The cookie the third stage dispatches a new flow to. *)
Definition working_gen_slot (st : reuseport_storage) (app_idx : Z) : Z :=
  bpf_TO_WRK_GEN (dis_max_apps (dis st)) app_idx (nthZ (working_gen st) (app_idx mod MAX_APPS)).
Definition new_flow_cookie (st : reuseport_storage) (app_idx hash : Z) : Z :=
  let wrk_gen := working_gen_slot st app_idx in
  let max_idx := nthZ (max_idx st) (wrk_gen mod MAX_GENS) in
  cookie_at st (wrk_gen mod MAX_GENS) (bpf_mod hash max_idx mod MAX_SOCKETS_IN_GEN).

(** [*] Third stage, new flow dispatch *)
Definition third_stage (md : sk_reuseport_md) (app_idx : Z) (st : reuseport_storage) (w : world)
  : rx_result * reuseport_storage * world :=
  let st := METRIC_INC rx_new_flow_total st in
  let wrk_gen := working_gen_slot st app_idx in
  let max_idx := nthZ (max_idx st) (wrk_gen mod MAX_GENS) in
  let sock_cookie := new_flow_cookie st app_idx (md_hash md) in
  let err := sk_select md sock_cookie w in
  if err =? 0 then
    let st := METRIC_INC rx_new_flow_working_gen_dispatch_ok st in
    let w := log_if (verb st) "[o] ok from working_gen=%d, max=%d, mdhash=0x%x so_cookie=0x%lx"
               [wrk_gen; max_idx; md_hash md; sock_cookie] w in
    (mk_rx SK_PASS (Some sock_cookie), st, w)
  else
    let st := METRIC_INC rx_new_flow_working_gen_dispatch_error st in
    let w := log_if (verb st) "[#] mdhash=#%x fallback to no selection!" [md_hash md] w in
    (mk_rx SK_PASS None, st, w).

Definition have_third_stage (md : sk_reuseport_md) (app_idx : Z) (st : reuseport_storage) (w : world) :=
  let st := METRIC_INC rx_dissected_ok_total st in
  let st := METRIC_INC rx_flow_new_unseen st in
  third_stage md app_idx st w.

(** [*] Second stage, existing flow dispatch, by flow hash *)
Definition have_hash (md : sk_reuseport_md) (hash app_idx : Z) (st : reuseport_storage) (w : world)
  : rx_result * reuseport_storage * world :=
  let st := METRIC_INC rx_dissected_ok_total st in
  let value := bpf_map_lookup_elem (w_flows w) hash in
  let '(now, w) := ktime_get_ns w in
  let fail st w := third_stage md app_idx st (log_if (verb st) "[-] by hash fail=#%x" [hash] w) in
  let unseen :=
    let st := METRIC_INC rx_flow_new_unseen st in
    let st := match value with Some _ => METRIC_INC rx_flow_new_had_expired st | None => st end in
    fail st w in
  match value with
  | Some v =>
      if u64 (now - last_tx_ns v) <=? SEC_TO_NSEC (flow_timeout_sec st) then
        let w := log_if (verb st) "[#] by hash ok=#%x existing flow, sock so_cookie=0x%x"
                   [hash; lru_cookie v] w in
        let err := sk_select md (lru_cookie v) w in
        if err =? 0 then
          let st := METRIC_INC rx_flow_ok st in
          let w := log_if (verb st) "[#] existing flow ok" [] w in
          (mk_rx SK_PASS (Some (lru_cookie v)), st, w)
        else if err =? - EBADF then fail (METRIC_INC rx_flow_rg_conflict st) w
        else fail (METRIC_INC rx_flow_other_error st) w
      else unseen
  | None => unseen
  end.

(** [*] Second stage, existing flow dispatch, by cookie; [dcid_len] is never
    assigned by the program. *)
Definition have_cookie (md : sk_reuseport_md) (sock_cookie sock_gen sock_idx app_idx : Z)
  (st : reuseport_storage) (w : world) : rx_result * reuseport_storage * world :=
  let dcid_len := 0 in
  let st := METRIC_INC rx_dissected_ok_total st in
  let err := sk_select md sock_cookie w in
  if err =? 0 then
    let st := METRIC_INC rx_flow_ok st in
    let w := log_if (verb st) "[#] by cookie ok so_cookie=0x%lx gen=0x%x idx=0x%x (short)"
               [sock_cookie; sock_gen; sock_idx] w in
    (mk_rx SK_PASS (Some sock_cookie), st, w)
  else
    let st :=
      if err =? - EBADF then METRIC_INC rx_flow_rg_conflict st
      else if (sock_cookie =? u64 (-1)) || (sock_cookie =? 0) || (sock_cookie =? u64 (-2)) then
        let st := METRIC_INC rx_flow_new_unseen st in
        if sock_cookie =? u64 (-2) then METRIC_INC rx_flow_new_bad_cookie st else st
      else METRIC_INC rx_flow_other_error st in
    let w := log_if (verb st) "[-] by cookie fail so_cookie=0x%lx gen=0x%x idx=0x%x dcid_len=%d"
               [sock_cookie; sock_gen; sock_idx; dcid_len] w in
    third_stage md app_idx st w.

(** The error exits. *)
Definition rx_error (m : metric) (st : reuseport_storage) (w : world)
  : rx_result * reuseport_storage * world := (mk_rx SK_PASS None, METRIC_INC m st, w).

(** [case DISSECTOR_CBPF: case DISSECTOR_BESPOKE:] *)
Definition dissect_by_program (md : sk_reuseport_md) (st : reuseport_storage) (w : world)
  : rx_result * reuseport_storage * world :=
  let '(r, grm_cookie, app_idx, w) := dissector_cbpf md st 0 0 w in
  if r =? IERR_LOAD then rx_error rx_packet_too_short_error st w
  else if r =? IERR_BADRETURNVALUE then
    have_cookie md (u64 (-1)) (u32 (-1)) (u32 (-1)) app_idx st w
  else if r =? IERR_OK then
    match grm_cookie_unpack grm_cookie with
    | Some (sock_gen, sock_idx) =>
        have_cookie md (cookie_at st (sock_gen mod MAX_GENS) (sock_idx mod MAX_SOCKETS_IN_GEN))
          sock_gen sock_idx app_idx st w
    | None =>
        let w := log_if (verb st) "[#] cookie checksum fail. Cookie extracted by cBPF 0x%04x"
                   [grm_cookie] w in
        have_cookie md (u64 (-2)) (u32 (-1)) (u32 (-1)) app_idx st w
    end
  else rx_error rx_cbpf_prog_error st w.

(** [*] First stage, parsing. The body on the storage of the group. *)
Definition rx_state (md : sk_reuseport_md) (st : reuseport_storage) (w : world)
  : rx_result * reuseport_storage * world :=
  let st := METRIC_INC rx_processed_total st in
  let type := DISSECTOR_TYPE (dis_type (dis st)) in
  if type =? DISSECTOR_FLOW then
    let '(r, hash) := dissector_flow md (u32 (-1)) (random_id st) in
    if negb (r =? 0) then rx_error rx_packet_too_short_error st w
    else have_hash md hash 0 st w
  else if (type =? DISSECTOR_CBPF) || (type =? DISSECTOR_BESPOKE) then dissect_by_program md st w
  else if type =? DISSECTOR_NOOP then have_third_stage md 0 st w
  else rx_error rx_internal_state_error st w.

Definition udpgrm_reuseport_prog (md : sk_reuseport_md) (w : world) : rx_result * world :=
  match get_state (md_sk md) false w with
  | (None, _, w) => (mk_rx 1 None, w)
  | (Some st, _, w) =>
      let '(res, st, w) := rx_state md st w in
      (res, put_state (md_sk md) st w)
  end.
End Reuseport.

(** ** Increments of the counters *)

Definition bump (t : list metric) (st : reuseport_storage) : reuseport_storage :=
  foldr METRIC_INC st t.
Definition incs (m : metric) (t : list metric) : Z := Z.of_nat (length (filter (λ x, m = x) t)).

Lemma incs_cons m x t : incs m (x :: t) = (if decide (m = x) then 1 else 0) + incs m t.
Proof. unfold incs. rewrite filter_cons. destruct (decide (m = x)); cbn [length]; lia. Qed.

Lemma bump_metrics t st m :
  metrics (bump t st) m mod 2 ^ 64 = (metrics st m + incs m t) mod 2 ^ 64.
Proof.
  induction t as [|x t IH]; [by rewrite Z.add_0_r|]. rewrite incs_cons.
  cbn [bump foldr]. unfold METRIC_INC at 1, fetch_and_add. cbn [metrics set_metrics].
  destruct (decide (m = x)) as [->|Hne].
  - rewrite fn_lookup_insert. fold (bump t st). unfold u64.
    rewrite Z.mod_mod by lia. rewrite <- Z.add_mod_idemp_l, IH, Z.add_mod_idemp_l by lia.
    f_equal. lia.
  - rewrite fn_lookup_insert_ne by done. fold (bump t st). by rewrite IH.
Qed.

(** The increments that made [st] from [s0], read off the term. *)
Ltac reify_incs s0 st :=
  match st with
  | s0 => constr:(@nil metric)
  | METRIC_INC ?m ?s => let t := reify_incs s0 s in constr:(@cons metric m t)
  end.
Ltac exists_incs :=
  match goal with
  | |- ∃ t, ?st = bump t ?s0 ∧ _ =>
      let t := reify_incs s0 st in exists t; split; [reflexivity|]
  end.

(** A change of nothing but counters. *)
Definition same_config (st st' : reuseport_storage) : Prop := ∃ m, st' = set_metrics m st.
Lemma bump_config t st : same_config st (bump t st).
Proof.
  induction t as [|x t [m E]]; [exists (metrics st); by destruct st|].
  cbn [bump foldr]. fold (bump t st). rewrite E. by eexists.
Qed.

(** ** Accounting *)

Record accounted (t : list metric) (sel : option Z) : Prop := {
  acc_processed : incs rx_processed_total t = 1;
  acc_dissected : 1 = incs rx_internal_state_error t + incs rx_cbpf_prog_error t
                      + incs rx_packet_too_short_error t + incs rx_dissected_ok_total t;
  acc_existing : incs rx_dissected_ok_total t = incs rx_flow_ok t + incs rx_flow_rg_conflict t
                      + incs rx_flow_other_error t + incs rx_flow_new_unseen t;
  acc_new : incs rx_new_flow_total t = incs rx_flow_rg_conflict t
                      + incs rx_flow_other_error t + incs rx_flow_new_unseen t;
  acc_dispatch : incs rx_new_flow_total t = incs rx_new_flow_working_gen_dispatch_ok t
                      + incs rx_new_flow_working_gen_dispatch_error t;
  acc_subsets : incs rx_flow_new_had_expired t + incs rx_flow_new_bad_cookie t
                      <= incs rx_flow_new_unseen t;
  acc_selected : (match sel with Some _ => 1 | None => 0 end)
                      = incs rx_flow_ok t + incs rx_new_flow_working_gen_dispatch_ok t;
  acc_only_rx : Forall (λ m, incs m t = 0) [socket_critical_gauge; socket_critical; tx_total;
    tx_flow_create_ok; tx_flow_create_from_expired_ok; tx_flow_create_error;
    tx_flow_update_ok; tx_flow_update_conflict];
}.

Ltac check_accounting :=
  split; [vm_compute; reflexivity..|vm_compute; discriminate|vm_compute; reflexivity
    |repeat (constructor; [vm_compute; reflexivity|]); constructor].

Section Accounting.
Context {K : Kernel} {L : KernelLaws} {B : BespokeDissector} {BL : BespokeLaws}.

(** A stage run on [st] with counters [t0] already incremented on [s0]. *)
Definition stage_ok (s0 : reuseport_storage) (t0 : list metric) (w0 : world)
  (good : list metric → option Z → Prop) (out : rx_result * reuseport_storage * world) : Prop :=
  let '(res, st, w) := out in
  ∃ t, st = bump (t ++ t0) s0 ∧ logs_only w0 w ∧ good t (rx_selected res)
    ∧ rx_ret res = SK_PASS
    ∧ (∀ c, rx_selected res = Some c → is_Some (bpf_map_lookup_elem (w_sockhash w0) c)).

(** The increments of each stage. *)
Definition third_incs (t : list metric) (sel : option Z) : Prop :=
  (t = [rx_new_flow_working_gen_dispatch_ok; rx_new_flow_total] ∧ is_Some sel) ∨
  (t = [rx_new_flow_working_gen_dispatch_error; rx_new_flow_total] ∧ sel = None).
Definition second_incs (t : list metric) (sel : option Z) : Prop :=
  (t = [rx_flow_ok; rx_dissected_ok_total] ∧ is_Some sel) ∨
  (∃ t3 t2, t = t3 ++ t2 ++ [rx_dissected_ok_total] ∧ third_incs t3 sel ∧
    t2 ∈ [[rx_flow_rg_conflict]; [rx_flow_other_error]; [rx_flow_new_unseen];
          [rx_flow_new_had_expired; rx_flow_new_unseen];
          [rx_flow_new_bad_cookie; rx_flow_new_unseen]]).
Definition parse_errors : list metric := [rx_cbpf_prog_error; rx_packet_too_short_error].
Definition first_incs (errors t : list metric) (sel : option Z) : Prop :=
  (∃ m, t = [m] ∧ m ∈ errors ∧ sel = None) ∨ second_incs t sel.

Lemma first_incs_accounted t sel :
  first_incs (rx_internal_state_error :: parse_errors) t sel → accounted (t ++ [rx_processed_total]) sel.
Proof.
  intros [(m & -> & Hm & ->)|[(-> & [c ->])|(t3 & t2 & -> & H3 & H2)]].
  - repeat (apply elem_of_cons in Hm as [->|Hm]; [check_accounting|]). set_solver.
  - check_accounting.
  - destruct H3 as [(-> & [c ->])|(-> & ->)];
      repeat (apply elem_of_cons in H2 as [->|H2]; [check_accounting|]); set_solver.
Qed.

Lemma third_stage_ok md a s0 t0 w : stage_ok s0 t0 w third_incs (third_stage md a (bump t0 s0) w).
Proof.
  unfold third_stage, stage_ok.
  set (st1 := METRIC_INC rx_new_flow_total _). set (c := new_flow_cookie _ _ _).
  destruct (Z.eqb_spec (sk_select md c w) 0) as [Hs|Hs].
  - exists [rx_new_flow_working_gen_dispatch_ok; rx_new_flow_total].
    split_and!; [done|apply logs_only_if|left; split; [done|by eexists]|done|]. cbn. intros c' [= <-].
    by eapply select_found.
  - exists [rx_new_flow_working_gen_dispatch_error; rx_new_flow_total].
    split_and!; [done|apply logs_only_if|by right|done|done].
Qed.

(** A later stage inside an earlier one. *)
Lemma stage_ok_compose s0 t0 t1 w0 w1 (good good' : list metric → option Z → Prop) out :
  logs_only w0 w1 → (∀ t sel, good t sel → good' (t ++ t1) sel) →
  stage_ok s0 (t1 ++ t0) w1 good out → stage_ok s0 t0 w0 good' out.
Proof.
  intros Hw Hg. destruct out as [[res st] w]. intros (t & -> & Hl & Ht & Hr & Hs).
  exists (t ++ t1). rewrite <- app_assoc. split; [done|].
  split; [by etrans|]. split; [auto|]. split; [done|].
  intros c Hc. rewrite <- (lo_sockhash _ _ Hw). auto.
Qed.

Lemma third_in_second t2 t sel :
  t2 ∈ [[rx_flow_rg_conflict]; [rx_flow_other_error]; [rx_flow_new_unseen];
        [rx_flow_new_had_expired; rx_flow_new_unseen];
        [rx_flow_new_bad_cookie; rx_flow_new_unseen]] →
  third_incs t sel → second_incs (t ++ t2 ++ [rx_dissected_ok_total]) sel.
Proof. intros H2 H3. right. by exists t, t2. Qed.

Lemma have_third_stage_ok md a s0 t0 w :
  stage_ok s0 t0 w second_incs (have_third_stage md a (bump t0 s0) w).
Proof.
  eapply (stage_ok_compose _ _ ([rx_flow_new_unseen] ++ [rx_dissected_ok_total]) w w third_incs);
    [reflexivity| |apply third_stage_ok].
  intros t sel. apply third_in_second. set_solver.
Qed.

Lemma have_cookie_ok md c g i a s0 t0 w :
  stage_ok s0 t0 w second_incs (have_cookie md c g i a (bump t0 s0) w).
Proof.
  unfold have_cookie. cbv zeta.
  destruct (Z.eqb_spec (sk_select md c w) 0) as [Hs|Hs].
  { exists [rx_flow_ok; rx_dissected_ok_total]. split_and!; [done|apply logs_only_if|left; split; [done|by eexists]|done|].
    cbn. intros c' [= <-]. by eapply select_found. }
  assert (∃ t2, t2 ∈ [[rx_flow_rg_conflict]; [rx_flow_other_error]; [rx_flow_new_unseen];
        [rx_flow_new_had_expired; rx_flow_new_unseen];
        [rx_flow_new_bad_cookie; rx_flow_new_unseen]] ∧ ∀ st,
   (if sk_select md c w =? - EBADF then METRIC_INC rx_flow_rg_conflict st
    else if (c =? u64 (-1)) || (c =? 0) || (c =? u64 (-2)) then
      if c =? u64 (-2) then METRIC_INC rx_flow_new_bad_cookie (METRIC_INC rx_flow_new_unseen st)
      else METRIC_INC rx_flow_new_unseen st
    else METRIC_INC rx_flow_other_error st) = bump t2 st) as (t2 & Ht2 & E).
  { repeat case_match;
      [exists [rx_flow_rg_conflict]|exists [rx_flow_new_bad_cookie; rx_flow_new_unseen]
      |exists [rx_flow_new_unseen]|exists [rx_flow_other_error]]; (split; [set_solver|done]). }
  rewrite E.
  replace (bump t2 _) with (bump ((t2 ++ [rx_dissected_ok_total]) ++ t0) s0)
    by (unfold bump; by rewrite !foldr_app).
  eapply (stage_ok_compose _ _ (t2 ++ [rx_dissected_ok_total]) w _ third_incs);
    [apply logs_only_if| |apply third_stage_ok].
  intros t sel. by apply third_in_second.
Qed.

Lemma have_hash_ok md h a s0 t0 w :
  stage_ok s0 t0 w second_incs (have_hash md h a (bump t0 s0) w).
Proof.
  assert (∀ t2 w1, logs_only w w1 →
    t2 ∈ [[rx_flow_rg_conflict]; [rx_flow_other_error]; [rx_flow_new_unseen];
        [rx_flow_new_had_expired; rx_flow_new_unseen];
        [rx_flow_new_bad_cookie; rx_flow_new_unseen]] → ∀ msg args,
    let st := bump ((t2 ++ [rx_dissected_ok_total]) ++ t0) s0 in
    stage_ok s0 t0 w second_incs (third_stage md a st (log_if (verb st) msg args w1))) as Hfail.
  { intros t2 w1 Hw H2 msg args st.
    eapply (stage_ok_compose _ _ (t2 ++ [rx_dissected_ok_total]) w _ third_incs);
      [|intros t sel; by apply third_in_second|apply third_stage_ok].
    etrans; [done|apply logs_only_if]. }
  unfold have_hash. unfold ktime_get_ns. cbv zeta.
  destruct (bpf_map_lookup_elem (w_flows w) h) as [v|].
  2: { apply (Hfail [rx_flow_new_unseen]); [apply logs_only_tick|set_solver]. }
  destruct (u64 _ <=? _).
  2: { apply (Hfail [rx_flow_new_had_expired; rx_flow_new_unseen]); [apply logs_only_tick|set_solver]. }
  set (w1 := log_if _ _ _ (tick w)).
  assert (logs_only w w1) as Hw1 by (etrans; [apply logs_only_tick|apply logs_only_if]).
  destruct (Z.eqb_spec (sk_select md (lru_cookie v) w1) 0) as [Hs|Hs].
  { exists [rx_flow_ok; rx_dissected_ok_total]. split; [done|].
    split; [etrans; [done|apply logs_only_if]|]. split; [left; split; [done|by eexists]|]. split; [done|].
    cbn. intros c' [= <-]. rewrite <- (lo_sockhash _ _ Hw1). by eapply select_found. }
  destruct (_ =? - EBADF);
    [apply (Hfail [rx_flow_rg_conflict])|apply (Hfail [rx_flow_other_error])]; done || set_solver.
Qed.

Lemma rx_error_ok errors m s0 t0 w :
  m ∈ errors → stage_ok s0 t0 w (first_incs errors) (rx_error m (bump t0 s0) w).
Proof. intros Hm. exists [m]. split_and!; [done|reflexivity|left; by exists m|done|done]. Qed.

Lemma second_in_first errors s0 t0 w w1 out :
  logs_only w w1 → stage_ok s0 t0 w1 second_incs out → stage_ok s0 t0 w (first_incs errors) out.
Proof.
  intros Hw. apply (stage_ok_compose s0 t0 [] w w1); [done|].
  intros t sel Ht. rewrite app_nil_r. by right.
Qed.

Lemma dissect_by_program_ok md s0 t0 w :
  stage_ok s0 t0 w (first_incs parse_errors) (dissect_by_program md (bump t0 s0) w).
Proof.
  unfold dissect_by_program.
  destruct (dissector_cbpf md (bump t0 s0) 0 0 w) as [[[r c] a] w1] eqn:E.
  apply dissector_cbpf_logs in E.
  assert (∀ m, m ∈ parse_errors →
    stage_ok s0 t0 w (first_incs parse_errors) (rx_error m (bump t0 s0) w1)) as He.
  { intros m Hm. eapply (stage_ok_compose s0 t0 [] w w1 (first_incs parse_errors)); [done| |by apply rx_error_ok].
    intros t sel. by rewrite app_nil_r. }
  repeat case_match; simplify_eq; try (apply He; set_solver);
    (eapply second_in_first; [|apply have_cookie_ok]); try done.
  etrans; [done|apply logs_only_if].
Qed.

Lemma first_incs_mono (e e' : list metric) t sel :
  (∀ m, m ∈ e → m ∈ e') → first_incs e t sel → first_incs e' t sel.
Proof. intros He [(m & -> & Hm & ->)|?]; [left; exists m; auto|by right]. Qed.

Definition known_type (type : Z) : bool :=
  (type =? DISSECTOR_FLOW) || (type =? DISSECTOR_CBPF) || (type =? DISSECTOR_BESPOKE) || (type =? DISSECTOR_NOOP).
Definition rx_errors (st : reuseport_storage) : list metric :=
  if known_type (DISSECTOR_TYPE (dis_type (dis st))) then parse_errors
  else rx_internal_state_error :: parse_errors.

Lemma rx_state_errors md st w :
  stage_ok st [rx_processed_total] w (first_incs (rx_errors st)) (rx_state md st w).
Proof.
  unfold rx_state, rx_errors, known_type. cbv zeta.
  change (METRIC_INC rx_processed_total st) with (bump [rx_processed_total] st).
  change (dis (bump [rx_processed_total] st)) with (dis st).
  destruct (dissector_flow _ _ _) as [r h].
  destruct (_ =? DISSECTOR_FLOW); [|destruct (_ =? DISSECTOR_CBPF); [|destruct (_ =? DISSECTOR_BESPOKE);
    [|destruct (_ =? DISSECTOR_NOOP)]]]; cbn [orb]; try apply dissect_by_program_ok;
    try (case_match; [apply rx_error_ok; set_solver|]); try (apply rx_error_ok; set_solver);
    (eapply second_in_first; [reflexivity|]); [apply have_hash_ok|apply have_third_stage_ok].
Qed.

Lemma stage_ok_mono s0 t0 w (good good' : list metric → option Z → Prop) out :
  (∀ t sel, good t sel → good' t sel) → stage_ok s0 t0 w good out → stage_ok s0 t0 w good' out.
Proof. intros Hg. destruct out as [[res st] w']. intros (t & ? & ? & ? & ?). exists t. auto. Qed.

Lemma rx_state_ok md st w :
  stage_ok st [rx_processed_total] w (first_incs (rx_internal_state_error :: parse_errors)) (rx_state md st w).
Proof.
  eapply stage_ok_mono; [|apply rx_state_errors]. intros t sel. apply first_incs_mono.
  intros m Hm. unfold rx_errors in Hm. case_match; [by apply elem_of_cons; right|done].
Qed.

Lemma get_state_existing sk create st w :
  bpf_map_lookup_elem (w_groups w) (_skey_from_bpf_sock sk) = Some st →
  get_state sk create w = (Some st, false, w).
Proof. intros H. unfold get_state. by rewrite H. Qed.

Lemma lookup_put_state sk st st0 w :
  bpf_map_lookup_elem (w_groups w) (_skey_from_bpf_sock sk) = Some st0 →
  bpf_map_lookup_elem (w_groups (put_state sk st w)) (_skey_from_bpf_sock sk) = Some st.
Proof. intros H. apply (map_write_same (exact := true)). by eexists. Qed.

Lemma prog_unfold md w st :
  bpf_map_lookup_elem (w_groups w) (_skey_from_bpf_sock (md_sk md)) = Some st →
  udpgrm_reuseport_prog md w =
    let '(res, st', w') := rx_state md st w in (res, put_state (md_sk md) st' w').
Proof. intros H. unfold udpgrm_reuseport_prog. by rewrite (get_state_existing _ _ st). Qed.
End Accounting.

(** C4. Every packet of a known group is accounted for exactly once: one
    [rx_processed_total], then one of the three parse errors or
    [rx_dissected_ok_total]; a dissected packet is one of existing flow, group
    conflict, other error, new or unseen; all but the first go to the new-flow stage,
    which counts one outcome. A socket is selected exactly when [rx_flow_ok] or
    [rx_new_flow_working_gen_dispatch_ok] is counted, and it is one the sockhash
    holds. No other counter of the group changes, nothing else of the group, no other
    group, no flow entry and no socket; the ring buffer gains only log messages. *)
Theorem rx_accounting {K : Kernel} {L : KernelLaws} {B : BespokeDissector} {BL : BespokeLaws}
  md w st :
  bpf_map_lookup_elem (w_groups w) (_skey_from_bpf_sock (md_sk md)) = Some st →
  let '(res, w') := udpgrm_reuseport_prog md w in
  rx_ret res = SK_PASS ∧
  (∀ c, rx_selected res = Some c → is_Some (bpf_map_lookup_elem (w_sockhash w) c)) ∧
  (∃ t st', accounted t (rx_selected res) ∧ same_config st st' ∧
     (∀ m, metrics st' m mod 2 ^ 64 = (metrics st m + incs m t) mod 2 ^ 64) ∧
     bpf_map_lookup_elem (w_groups w') (_skey_from_bpf_sock (md_sk md)) = Some st') ∧
  (∀ k, k ≠ _skey_from_bpf_sock (md_sk md) →
     bpf_map_lookup_elem (w_groups w') k = bpf_map_lookup_elem (w_groups w) k) ∧
  w_flows w' = w_flows w ∧ w_socks w' = w_socks w ∧ w_sockhash w' = w_sockhash w ∧
  (∃ l, w_rb w' = w_rb w ++ l ∧ Forall is_log l).
Proof.
  intros Hst. rewrite (prog_unfold md w st Hst).
  pose proof (rx_state_ok md st w) as H. destruct (rx_state md st w) as [[res st'] w'].
  destruct H as (t & -> & [Hg Hf Hs Hh Hrb _] & Ht & Hr & Hsel).
  split_and!; try done.
  - exists (t ++ [rx_processed_total]), (bump (t ++ [rx_processed_total]) st).
    split_and!; [by apply first_incs_accounted|apply bump_config|intros m; apply bump_metrics|].
    apply (lookup_put_state _ _ st). by rewrite Hg.
  - intros k Hk. cbn [put_state w_groups set_groups].
    rewrite (map_write_other (exact := true)) by done. by rewrite Hg.
Qed.

(** ** Where packets go *)
Section Dispatch.
Context {K : Kernel} {L : KernelLaws} {B : BespokeDissector} {BL : BespokeLaws}.

(** The result of the program on a group with a bytecode dissector. *)
Lemma prog_cbpf md w st code v w1 :
  bpf_map_lookup_elem (w_groups w) (_skey_from_bpf_sock (md_sk md)) = Some st →
  DISSECTOR_TYPE (dis_type (dis st)) = DISSECTOR_CBPF → dis_bespoke_digest (dis st) = 0 →
  dis_filter_len (dis st) <= MAX_INSTR → 0 <= dis_max_apps (dis st) < 2 ^ 31 →
  interpret_cbpf md st 0 w = (code, v, w1) →
  fst (udpgrm_reuseport_prog md w) = fst (fst
    (let st := METRIC_INC rx_processed_total st in
     if code =? IERR_OK then
       match verdict_of (dis_max_apps (dis st)) v with
       | NewFlow a => have_cookie md (u64 (-1)) (u32 (-1)) (u32 (-1)) a st w1
       | Existing c =>
           match grm_cookie_unpack c with
           | Some (g, i) => have_cookie md (cookie_at st (g mod MAX_GENS) (i mod MAX_SOCKETS_IN_GEN)) g i 0 st w1
           | None => have_cookie md (u64 (-2)) (u32 (-1)) (u32 (-1)) 0 st
                (log_if (verb st) "[#] cookie checksum fail. Cookie extracted by cBPF 0x%04x" [c] w1)
           end
       end
     else rx_error (if code =? IERR_LOAD then rx_packet_too_short_error else rx_cbpf_prog_error) st w1)).
Proof.
  intros Hst Ht Hd Hf Hm E. rewrite (prog_unfold md w st Hst). unfold rx_state.
  cbn [dis METRIC_INC fetch_and_add set_metrics]. rewrite Ht. cbn [Z.eqb orb Pos.eqb DISSECTOR_CBPF DISSECTOR_FLOW].
  unfold dissect_by_program.
  pose proof (interpret_cbpf_classified md st 0 w Hf) as Hr. rewrite E in Hr.
  set (st1 := METRIC_INC rx_processed_total st). change (dis st) with (dis st1) in Hd, Hm.
  rewrite (dissector_cbpf_verdict md st1 0 0 w code v w1); [|by rewrite Hd|lia|done].
  destruct (Z.eqb_spec code IERR_OK) as [->|Hc].
  - destruct (verdict_of _ v) as [a|c] eqn:Ev.
    + replace (if v <? _ then a else 0) with a.
      2: { unfold verdict_of in Ev. repeat case_match; simplify_eq; done. }
      change (IERR_BADRETURNVALUE =? IERR_LOAD) with false.
      change (IERR_BADRETURNVALUE =? IERR_BADRETURNVALUE) with true.
      cbv iota. by destruct (have_cookie _ _ _ _ _ _ _) as [[? ?] ?].
    + change (IERR_OK =? IERR_LOAD) with false. change (IERR_OK =? IERR_BADRETURNVALUE) with false.
      change (IERR_OK =? IERR_OK) with true. cbv iota.
      destruct (grm_cookie_unpack c) as [[g i]|]; by destruct (have_cookie _ _ _ _ _ _ _) as [[? ?] ?].
  - destruct (Z.eqb_spec code IERR_LOAD); [done|].
    assert (code ≠ IERR_BADRETURNVALUE).
    { destruct Hr as [[? _]|[Hin _]]; [done|]. intros ->. repeat (apply elem_of_cons in Hin as [Hin|Hin]; [done|]). by apply not_elem_of_nil in Hin. }
    apply Z.eqb_neq in Hc. replace (code =? IERR_BADRETURNVALUE) with false by (symmetry; by apply Z.eqb_neq).
    by rewrite Hc.
Qed.

(** Operands of the slot computation that a validated dissector guarantees. *)
Lemma new_flow_cookie_spec st a hash :
  0 <= dis_max_apps (dis st) <= MAX_APPS → 0 <= a < Z.max 1 (dis_max_apps (dis st)) →
  Forall (λ g, 0 <= g) (working_gen st) →
  let m := Z.max 1 (dis_max_apps (dis st)) in
  let slot := a * (MAX_GENS / m) + nthZ (working_gen st) a mod (MAX_GENS / m) in
  let n := nthZ (max_idx st) slot in
  0 <= slot < MAX_GENS ∧
  (n ≠ 0 → new_flow_cookie st a hash = cookie_at st slot ((hash mod n) mod MAX_SOCKETS_IN_GEN)).
Proof.
  intros Hm Ha Hw m slot n. unfold MAX_APPS in Hm.
  assert (0 <= nthZ (working_gen st) a) as Hg.
  { unfold nthZ. destruct (nth_in_or_default (Z.to_nat a) (working_gen st) 0) as [Hin| ->]; [|done].
    rewrite Forall_forall in Hw. apply Hw. by apply list_elem_of_In. }
  destruct (TO_WRK_GEN_spec m a (nthZ (working_gen st) a)) as [E R]; [unfold MAX_GENS; lia|lia|done|].
  fold slot in E, R. split; [done|]. intros Hn.
  assert (working_gen_slot st a = slot) as Es.
  { unfold working_gen_slot, bpf_TO_WRK_GEN. rewrite (Z.mod_small a) by (unfold MAX_APPS; lia).
    replace (TO_WRK_GEN (dis_max_apps (dis st)) a _) with (Some slot); [done|].
    rewrite <- E. subst m. destruct (Z.eq_dec (dis_max_apps (dis st)) 0) as [->|].
    - symmetry. apply TO_WRK_GEN_max_apps_0.
    - by rewrite Z.max_r by lia. }
  unfold new_flow_cookie. rewrite Es, (Z.mod_small slot) by (unfold MAX_GENS in *; lia).
  fold n. unfold bpf_mod. apply Z.eqb_neq in Hn. by rewrite Hn.
Qed.

(** The third stage selects the socket of the new flow, or none. *)
Definition new_flow_selected (md : sk_reuseport_md) (a : Z) (st : reuseport_storage) (w : world) : option Z :=
  if bpf_sk_select_reuseport (w_sockhash w) (md_sk md) (new_flow_cookie st a (md_hash md)) =? 0
  then Some (new_flow_cookie st a (md_hash md)) else None.
Lemma third_stage_selected md a st st1 w w1 :
  same_config st st1 → logs_only w w1 →
  rx_selected (fst (fst (third_stage md a st1 w1))) = new_flow_selected md a st w.
Proof.
  intros [m ->] Hw. unfold third_stage, sk_select, new_flow_selected. cbv zeta. rewrite (lo_sockhash _ _ Hw).
  change (new_flow_cookie (METRIC_INC _ _) a (md_hash md)) with (new_flow_cookie st a (md_hash md)).
  by destruct (bpf_sk_select_reuseport _ _ (new_flow_cookie st a (md_hash md)) =? 0).
Qed.

(** A refused cookie leaves the packet to the third stage. *)
Lemma have_cookie_refused md c g i a st1 w1 w st :
  logs_only w w1 → same_config st st1 →
  bpf_sk_select_reuseport (w_sockhash w) (md_sk md) c ≠ 0 →
  rx_selected (fst (fst (have_cookie md c g i a st1 w1))) = new_flow_selected md a st w.
Proof.
  intros Hw [m ->] Hsel. unfold have_cookie, sk_select. cbv zeta. rewrite (lo_sockhash _ _ Hw).
  apply Z.eqb_neq in Hsel. rewrite Hsel. cbv iota.
  repeat case_match; (apply third_stage_selected; [by eexists|]); (etrans; [done|apply logs_only_if]).
Qed.

(** So do a flow hash without a live entry, and one whose socket is refused. *)
Lemma have_hash_refused md h a st1 w1 w st :
  logs_only w w1 → same_config st st1 →
  (∀ e, bpf_map_lookup_elem (w_flows w) h = Some e →
     (u64 (bpf_ktime_get_ns (w_tick w1) - last_tx_ns e) <=? SEC_TO_NSEC (flow_timeout_sec st)) = true →
     bpf_sk_select_reuseport (w_sockhash w) (md_sk md) (lru_cookie e) ≠ 0) →
  rx_selected (fst (fst (have_hash md h a st1 w1))) = new_flow_selected md a st w.
Proof.
  intros Hw [m ->] Hsel. unfold have_hash, ktime_get_ns. cbv zeta. rewrite (lo_flows _ _ Hw).
  assert (∀ st2 w2 msg args, same_config st st2 → logs_only w w2 →
    rx_selected (fst (fst (third_stage md a st2 (log_if (verb st2) msg args w2)))) = new_flow_selected md a st w) as H3.
  { intros st2 w2 msg args Hc Hw2. apply third_stage_selected; [done|]. etrans; [done|apply logs_only_if]. }
  assert (logs_only w (tick w1)) as Ht by (etrans; [done|apply logs_only_tick]).
  destruct (bpf_map_lookup_elem (w_flows w) h) as [e|]; [|apply H3; [by eexists|done]].
  specialize (Hsel e eq_refl).
  match goal with |- context [u64 ?x <=? ?y] => change (SEC_TO_NSEC (flow_timeout_sec st)) with y in Hsel end.
  destruct (u64 _ <=? _); [|apply H3; [by eexists|done]]. specialize (Hsel eq_refl).
  match goal with |- context [log_if ?b ?f ?ar (tick w1)] =>
    assert (logs_only w (log_if b f ar (tick w1))) as Hl by (etrans; [apply Ht|apply logs_only_if]);
    set (w2 := log_if b f ar (tick w1)) in *; clearbody w2 end.
  unfold sk_select. rewrite (lo_sockhash _ _ Hl). apply Z.eqb_neq in Hsel. rewrite Hsel. cbv iota.
  case_match; (apply H3; [by eexists|done]).
Qed.

Lemma prog_cookie_hit md w st gen idx w1 :
  bpf_map_lookup_elem (w_groups w) (_skey_from_bpf_sock (md_sk md)) = Some st →
  DISSECTOR_TYPE (dis_type (dis st)) = DISSECTOR_CBPF → dis_bespoke_digest (dis st) = 0 →
  dis_filter_len (dis st) <= MAX_INSTR → 0 <= dis_max_apps (dis st) <= MAX_APPS →
  0 <= gen < MAX_GENS → 0 <= idx < MAX_SOCKETS_IN_GEN →
  interpret_cbpf md st 0 w = (IERR_OK, grm_cookie_of gen idx, w1) →
  bpf_sk_select_reuseport (w_sockhash w) (md_sk md) (cookie_at st gen idx) = 0 →
  rx_selected (fst (udpgrm_reuseport_prog md w)) = Some (cookie_at st gen idx).
Proof.
  intros Hst Ht Hd Hf Hm Hg Hi E Hsel. unfold MAX_APPS in Hm.
  rewrite (prog_cbpf md w st _ _ _ Hst Ht Hd Hf ltac:(lia) E). cbv zeta.
  change (IERR_OK =? IERR_OK) with true. cbv iota.
  pose proof (grm_cookie_of_range gen idx) as Hr. cbn [dis METRIC_INC fetch_and_add set_metrics].
  unfold verdict_of. destruct (Z.ltb_spec (grm_cookie_of gen idx) (- 2 ^ 31 + dis_max_apps (dis st))); [lia|].
  replace ((0 <=? grm_cookie_of gen idx) && (grm_cookie_of gen idx <? 2 ^ 16)) with true by lia.
  unfold MAX_GENS, MAX_SOCKETS_IN_GEN in *.
  rewrite unpack_cookie_of, !Z.mod_mod, !Z.mod_small by lia. apply interpret_cbpf_logs in E.
  unfold have_cookie, sk_select. cbv zeta. rewrite (lo_sockhash _ _ E).
  change (cookie_at (METRIC_INC rx_processed_total st) gen idx) with (cookie_at st gen idx).
  by rewrite Hsel.
Qed.
(** A new flow of a bytecode group, with the verdict of the bytecode. *)
Lemma prog_new_flow md w st v w1 a :
  bpf_map_lookup_elem (w_groups w) (_skey_from_bpf_sock (md_sk md)) = Some st →
  DISSECTOR_TYPE (dis_type (dis st)) = DISSECTOR_CBPF → dis_bespoke_digest (dis st) = 0 →
  dis_filter_len (dis st) <= MAX_INSTR → 0 <= dis_max_apps (dis st) <= MAX_APPS →
  bpf_sk_select_reuseport (w_sockhash w) (md_sk md) (u64 (-1)) ≠ 0 →
  bpf_sk_select_reuseport (w_sockhash w) (md_sk md) (u64 (-2)) ≠ 0 →
  interpret_cbpf md st 0 w = (IERR_OK, v, w1) → - 2 ^ 31 <= v < 2 ^ 31 →
  match verdict_of (dis_max_apps (dis st)) v with
  | NewFlow a' => a' = a
  | Existing c => grm_cookie_unpack c = None ∧ a = 0
  end →
  0 <= a < Z.max 1 (dis_max_apps (dis st)) ∧
  rx_selected (fst (udpgrm_reuseport_prog md w)) = new_flow_selected md a st w.
Proof.
  intros Hst Ht Hd Hf Hm Hs1 Hs2 E Hv Hver. split.
  { unfold verdict_of in Hver. repeat case_match; destruct_and?; simplify_eq; lia. }
  unfold MAX_APPS in Hm.
  rewrite (prog_cbpf md w st _ _ _ Hst Ht Hd Hf ltac:(lia) E). cbv zeta.
  change (IERR_OK =? IERR_OK) with true. cbv iota.
  change (dis (METRIC_INC rx_processed_total st)) with (dis st).
  apply interpret_cbpf_logs in E.
  destruct (verdict_of _ v) as [a'|c].
  - subst a'. by apply have_cookie_refused; [|apply (bump_config [_])|].
  - destruct Hver as [-> ->]. apply have_cookie_refused; [|apply (bump_config [_])|done].
    etrans; [done|apply logs_only_if].
Qed.
End Dispatch.

(** C5. Cookie affinity: when the bytecode extracts from a packet the cookie of the
    socket registered at generation slot [gen] and index [idx], and the kernel accepts
    that socket, the packet is delivered to it, whatever the working generation is. *)
Theorem rx_cookie_affinity {K : Kernel} {L : KernelLaws} {B : BespokeDissector} {BL : BespokeLaws}
  md w st gen idx w1 :
  bpf_map_lookup_elem (w_groups w) (_skey_from_bpf_sock (md_sk md)) = Some st →
  DISSECTOR_TYPE (dis_type (dis st)) = DISSECTOR_CBPF → dis_bespoke_digest (dis st) = 0 →
  dis_filter_len (dis st) <= MAX_INSTR → 0 <= dis_max_apps (dis st) <= MAX_APPS →
  0 <= gen < MAX_GENS → 0 <= idx < MAX_SOCKETS_IN_GEN →
  interpret_cbpf md st 0 w = (IERR_OK, grm_cookie_of gen idx, w1) →
  bpf_sk_select_reuseport (w_sockhash w) (md_sk md) (cookie_at st gen idx) = 0 →
  rx_selected (fst (udpgrm_reuseport_prog md w)) = Some (cookie_at st gen idx).
Proof. apply prog_cookie_hit. Qed.

(** C6. New flows: when the bytecode asks for a new flow of application [a] (or
    extracts a cookie with a bad checksum, [a] being then application 0), the packet
    goes to the socket of index [hash mod n] among the [n] sockets of the slot that
    the working generation of [a] maps to; if the kernel refuses that socket, none is
    selected. The sentinel cookies -1 and -2 are assumed not to be registered. *)
Theorem rx_new_flow_dispatch {K : Kernel} {L : KernelLaws} {B : BespokeDissector} {BL : BespokeLaws}
  md w st v w1 a :
  bpf_map_lookup_elem (w_groups w) (_skey_from_bpf_sock (md_sk md)) = Some st →
  DISSECTOR_TYPE (dis_type (dis st)) = DISSECTOR_CBPF → dis_bespoke_digest (dis st) = 0 →
  dis_filter_len (dis st) <= MAX_INSTR → 0 <= dis_max_apps (dis st) <= MAX_APPS →
  Forall (λ g, 0 <= g) (working_gen st) →
  bpf_sk_select_reuseport (w_sockhash w) (md_sk md) (u64 (-1)) ≠ 0 →
  bpf_sk_select_reuseport (w_sockhash w) (md_sk md) (u64 (-2)) ≠ 0 →
  interpret_cbpf md st 0 w = (IERR_OK, v, w1) → - 2 ^ 31 <= v < 2 ^ 31 →
  match verdict_of (dis_max_apps (dis st)) v with
  | NewFlow a' => a' = a
  | Existing c => grm_cookie_unpack c = None ∧ a = 0
  end →
  let m := Z.max 1 (dis_max_apps (dis st)) in
  let slot := a * (MAX_GENS / m) + nthZ (working_gen st) a mod (MAX_GENS / m) in
  let n := nthZ (max_idx st) slot in
  let target := cookie_at st slot ((md_hash md mod n) mod MAX_SOCKETS_IN_GEN) in
  n ≠ 0 →
  0 <= slot < MAX_GENS ∧
  rx_selected (fst (udpgrm_reuseport_prog md w)) =
    if bpf_sk_select_reuseport (w_sockhash w) (md_sk md) target =? 0 then Some target else None.
Proof.
  intros Hst Ht Hd Hf Hm Hw Hs1 Hs2 E Hv Hver m slot n target Hn.
  destruct (prog_new_flow md w st v w1 a Hst Ht Hd Hf Hm Hs1 Hs2 E Hv Hver) as [Ha ->].
  destruct (new_flow_cookie_spec st a (md_hash md) Hm Ha Hw) as [Hslot Hc].
  split; [exact Hslot|]. unfold new_flow_selected. by rewrite (Hc Hn).
Qed.

(** ** Evaluation: a group with one bytecode dissector and two sockets *)

Definition example_sk : bpf_sock := mk_bpf_sock 1 AF_INET 1 (0, 0, 0, 0) 4433.
Definition example_group : reuseport_storage :=
  set_cookies (<[0%nat := <[0%nat := 41]> (zeros 256)]> (<[1%nat := <[2%nat := 42]> (zeros 256)]> (repeat (zeros 256) 32)))
    (set_max_idx (<[0%nat := 1]> (<[1%nat := 3]> (zeros 32))) example_storage).
Definition example_world : world (K := good_kernel) :=
  set_sockhash (K := good_kernel) (<[41 := 2]> (<[42 := 1]> (∅ : gmap Z Z)))
    (set_groups (K := good_kernel)
      (<[_skey_from_bpf_sock example_sk := example_group]> (∅ : gmap reuseport_storage_key reuseport_storage))
      empty_world).

Section Witnesses.
#[local] Existing Instance good_kernel.
#[local] Existing Instance no_bespoke.

Definition example_md : sk_reuseport_md := example_packet [0x61; 2; 225].

Lemma example_lookup : bpf_map_lookup_elem (w_groups example_world)
  (_skey_from_bpf_sock (md_sk example_md)) = Some example_group.
Proof. apply lookup_insert_eq. Qed.

Lemma rx_accounting_witness :
  let '(res, w') := udpgrm_reuseport_prog example_md example_world in
  rx_ret res = SK_PASS ∧
  (∀ c, rx_selected res = Some c → is_Some (bpf_map_lookup_elem (w_sockhash example_world) c)) ∧
  (∃ t st', accounted t (rx_selected res) ∧ same_config example_group st' ∧
     (∀ m, metrics st' m mod 2 ^ 64 = (metrics example_group m + incs m t) mod 2 ^ 64) ∧
     bpf_map_lookup_elem (w_groups w') (_skey_from_bpf_sock (md_sk example_md)) = Some st') ∧
  (∀ k, k ≠ _skey_from_bpf_sock (md_sk example_md) → bpf_map_lookup_elem (w_groups w') k = bpf_map_lookup_elem (w_groups example_world) k) ∧
  w_flows w' = w_flows example_world ∧ w_socks w' = w_socks example_world
  ∧ w_sockhash w' = w_sockhash example_world ∧
  (∃ l, w_rb w' = w_rb example_world ++ l ∧ Forall is_log l).
Proof.
  pose proof (rx_accounting example_md example_world example_group example_lookup) as H. exact H.
Defined.

Lemma rx_cookie_affinity_witness :
  rx_selected (fst (udpgrm_reuseport_prog example_md example_world)) = Some (cookie_at example_group 1 2).
Proof.
  apply (rx_cookie_affinity example_md example_world example_group 1 2
    (snd (interpret_cbpf example_md example_group 0 example_world)) example_lookup).
  - vm_compute. reflexivity.
  - vm_compute. reflexivity.
  - vm_compute. discriminate.
  - split; vm_compute; discriminate.
  - split; [discriminate|reflexivity].
  - split; [discriminate|reflexivity].
  - apply pair_of_fst. vm_compute. reflexivity.
  - vm_compute. reflexivity.
Defined.

(** The same group: a packet whose first byte is not 0x61 is a new flow. *)
Definition example_new_md : sk_reuseport_md := example_packet [0x62; 2; 225].
Lemma rx_new_flow_dispatch_witness :
  0 <= 0 < MAX_GENS ∧
  rx_selected (fst (udpgrm_reuseport_prog example_new_md example_world)) = Some 41.
Proof.
  apply (rx_new_flow_dispatch example_new_md example_world example_group (-1)
    (snd (interpret_cbpf example_new_md example_group 0 example_world)) 0 example_lookup).
  - vm_compute. reflexivity.
  - vm_compute. reflexivity.
  - vm_compute. discriminate.
  - split; vm_compute; discriminate.
  - repeat constructor; discriminate.
  - vm_compute. discriminate.
  - vm_compute. discriminate.
  - apply pair_of_fst. vm_compute. reflexivity.
  - split; [discriminate|reflexivity].
  - vm_compute. reflexivity.
  - vm_compute. discriminate.
Defined.
End Witnesses.
