(* ===== verification/Bytecode.v ===== *)
(** The bytecode of the examples ([examples/cbpf-basic.sh], [examples/cbpf-naive-quic.sh]) on
    the interpreter of [Cbpf] and the receive path of [Reuseport].

    [runs p d]: the dissector [d] holds the program [p]. Each program is given what it reads
    from a packet as a [verdict], and the socket that the receive path selects follows. *)

From S2P Require Import Prelude Cookie Storage Cbpf Dissector Reuseport.

(** ** Programs *)

Record runs (p : list sock_filter) (d : list Z) : Prop := {
  rn_bytes : bytes_ok d;
  rn_len : dis_filter_len d = Z.of_nat (length p);
  rn_max : (length p <= 64)%nat;
  rn_each : ∀ i f, p !! i = Some f → dis_filter d i = f;
}.

(** [cbpf-basic.sh]: the first byte is the application, ASCII 0 to 3; otherwise the cookie
    starts at offset 1. *)
Definition basic_prog : list sock_filter :=
  [ mk_filter 0x30 0 0 0; mk_filter 0x35 0 4 0x30; mk_filter 0x25 3 0 0x33; mk_filter 0x14 0 0 0x30;
    mk_filter 0x44 0 0 0x80000000; mk_filter 0x16 0 0 0; mk_filter 0x28 0 0 1; mk_filter 0x16 0 0 0 ].

(** [cbpf-naive-quic.sh]: the cookie is in the first two bytes of the connection id, at offset
    1 of a short header and at offset 6 of a long one, where the length must be 16. *)
Definition naive_quic_prog : list sock_filter :=
  [ mk_filter 0x30 0 0 0; mk_filter 0x54 0 0 0x80; mk_filter 0x15 0 5 0x80; mk_filter 0x30 0 0 5;
    mk_filter 0x15 0 2 0x10; mk_filter 0x01 0 0 6; mk_filter 0x05 0 0 3; mk_filter 0x06 0 0 0xffffffff;
    mk_filter 0x01 0 0 1; mk_filter 0x05 0 0 0; mk_filter 0x48 0 0 0; mk_filter 0x16 0 0 0 ].

Section Programs.
Context {K : Kernel} {L : KernelLaws}.

(** [Ref.run] on a list of instructions. *)
Fixpoint list_run (fuel : nat) (md : sk_reuseport_md) (p : list sock_filter) (pc : Z) (r : bpf_regs) : Z * option Z :=
  match fuel with
  | O => (IERR_INSTREXCEEDED, None)
  | S fuel =>
      match p !! Z.to_nat pc with
      | None => (IERR_INSTREXCEEDED, None)
      | Some f =>
          match Ref.step md f r with
          | Ref.Next r => list_run fuel md p (pc + 1) r
          | Ref.Goto off r => list_run fuel md p (pc + 1 + off) r
          | Ref.Halt c v => (c, v)
          end
      end
  end.

Lemma goto_nonneg md f r off r' :
  0 <= f_jt f → 0 <= f_jf f → 0 <= f_k f → Ref.step md f r = Ref.Goto off r' → 0 <= off.
Proof. intros ? ? ? E. unfold Ref.step, Ref.to_A in E. repeat case_match; simplify_eq; done. Qed.

Lemma run_list fuel md p d pc r : runs p d → 0 <= pc →
  Ref.run fuel md d (dis_filter_len d) pc r = list_run fuel md p pc r.
Proof.
  intros Hp. revert pc r. induction fuel as [|fuel IH]; intros pc r Hpc; [done|]. cbn [Ref.run list_run].
  rewrite (rn_len _ _ Hp). pose proof (rn_max _ _ Hp). destruct (p !! Z.to_nat pc) as [f|] eqn:Ef.
  - apply lookup_lt_Some in Ef as Hlt. destruct (Z.leb_spec (Z.of_nat (length p)) pc); [lia|].
    unfold MAX_INSTR. destruct (Z.leb_spec 64 pc); [lia|]. rewrite (rn_each _ _ Hp _ _ Ef).
    rewrite <- (rn_len _ _ Hp). destruct (Ref.step md f r) as [r'|off r'|] eqn:Es; [apply IH; lia| |done].
    apply IH. pose proof (filter_ranges d (Z.to_nat pc) (rn_bytes _ _ Hp)) as (? & ? & ?).
    rewrite (rn_each _ _ Hp _ _ Ef) in *. apply goto_nonneg in Es; lia.
  - apply lookup_ge_None in Ef. destruct (Z.leb_spec (Z.of_nat (length p)) pc); [done|lia].
Qed.

Lemma forall_below_intro n P : (∀ i, 0 <= i < Z.of_nat n → P i = true) → forall_below n P = true.
Proof.
  unfold forall_below. intros H. assert (∀ j, 0 <= j < 0 + Z.of_nat n → P j = true) as H' by (intros; apply H; lia).
  clear H. revert H'. generalize 0 as i. induction n as [|n IH]; intros i H; [done|]. cbn [forall_from].
  rewrite H by lia. apply IH. intros j Hj. apply H. lia.
Qed.
Lemma runs_classic p d : runs p d →
  (∀ j f, p !! j = Some f → classic_insn (Z.of_nat j) f = true) → classic_prog d = true.
Proof.
  intros Hp Hc. unfold classic_prog. apply forall_below_intro. intros j Hj. rewrite (rn_len _ _ Hp).
  destruct (Z.leb_spec (Z.of_nat (length p)) j); [done|]. cbn [orb].
  destruct (lookup_lt_is_Some_2 p (Z.to_nat j)) as [f Hf]; [lia|]. rewrite (rn_each _ _ Hp _ _ Hf).
  rewrite <- (Hc _ _ Hf). f_equal. lia.
Qed.

Lemma checked_insns p : forallb (λ '(j, f), classic_insn (Z.of_nat j) f) (zip (seq 0 (length p)) p) = true →
  ∀ j f, p !! j = Some f → classic_insn (Z.of_nat j) f = true.
Proof.
  rewrite forallb_forall. intros H j f Hf. apply (H (j, f)), list_elem_of_In, (list_elem_of_lookup_2 _ j).
  apply lookup_zip_with_Some. exists j, f. split_and!; try done. apply lookup_seq. apply lookup_lt_Some in Hf. lia.
Qed.

(** The interpreter on a dissector that holds [p]. *)
Lemma runs_interpret p md st w : runs p (dis st) → md_ok md →
  (∀ j f, p !! j = Some f → classic_insn (Z.of_nat j) f = true) →
  let '(code, v) := list_run (length p) md p 0 initial_regs in
  let '(code', v', _) := interpret_cbpf md st 0 w in code' = code ∧ v' = default 0 v.
Proof.
  intros Hp Hmd Hc. pose proof (interpret_cbpf_run md st 0 w Hmd (rn_bytes _ _ Hp) (runs_classic _ _ Hp Hc)) as H.
  unfold Ref.interpret in H. rewrite (run_list _ _ _ _ _ _ Hp), (rn_len _ _ Hp), Nat2Z.id in H by lia.
  apply H. pose proof (rn_max _ _ Hp). unfold BPF_MAX_LOOPS. lia.
Qed.

(** *** What the programs read *)

Definition payload := Ref.payload.
Lemma payload_range md n off v : md_ok md → payload md n off = Some v → 0 <= v < 2 ^ (8 * Z.of_nat n).
Proof.
  intros Hmd. unfold payload, Ref.payload. destruct (md_load_bytes _ _ _) as [bs|] eqn:E; [|done].
  intros [= <-]. apply (md_load_ok _ Hmd) in E as [<- E]. by apply be_combine_range.
Qed.

(** [None]: the packet is too short. *)
Definition basic_reads (max_apps : Z) (md : sk_reuseport_md) : option verdict :=
  match payload md 1 0 with
  | None => None
  | Some b =>
      if (0x30 <=? b) && (b <=? 0x33) then Some (NewFlow (if b - 0x30 <? max_apps then b - 0x30 else 0))
      else Existing <$> payload md 2 1
  end.
Definition naive_quic_reads (md : sk_reuseport_md) : option verdict :=
  match payload md 1 0 with
  | None => None
  | Some b =>
      if b <? 128 then Existing <$> payload md 2 1
      else match payload md 1 5 with
           | None => None
           | Some len => if len =? 16 then Existing <$> payload md 2 6 else Some (NewFlow 0)
           end
  end.

(** What a run answers for a reading. *)
Definition answers (max_apps : Z) (o : option verdict) (out : Z * option Z) : Prop :=
  match o with
  | None => out = (IERR_LOAD, None)
  | Some x => ∃ v, out = (IERR_OK, Some v) ∧ - 2 ^ 31 <= v < 2 ^ 31 ∧ verdict_of max_apps v = x
  end.

(** One instruction at a time. *)
Lemma list_run_S fuel md p pc r f : p !! Z.to_nat pc = Some f →
  list_run (S fuel) md p pc r =
    match Ref.step md f r with
    | Ref.Next r => list_run fuel md p (pc + 1) r
    | Ref.Goto off r => list_run fuel md p (pc + 1 + off) r
    | Ref.Halt c v => (c, v)
    end.
Proof. intros E. cbn [list_run]. by rewrite E. Qed.
Section Steps.
Context (md : sk_reuseport_md) (r : bpf_regs) (jt jf k : Z).
Lemma step_ldb : Ref.step md (mk_filter 0x30 jt jf k) r = Ref.to_A r (payload md 1 k).
Proof. reflexivity. Qed.
Lemma step_ldh : Ref.step md (mk_filter 0x28 jt jf k) r =
  if k =? SKF_PROTOCOL then Ref.Next (Ref.set_a r (bswap16 (md_eth_protocol md))) else Ref.to_A r (payload md 2 k).
Proof. reflexivity. Qed.
Lemma step_ldh_ind : Ref.step md (mk_filter 0x48 jt jf k) r = Ref.to_A r (payload md 2 (u32 (r_X r + k))).
Proof. reflexivity. Qed.
Lemma step_ldx : Ref.step md (mk_filter 0x01 jt jf k) r = Ref.Next (Ref.set_x r k).
Proof. reflexivity. Qed.
Lemma step_ja : Ref.step md (mk_filter 0x05 jt jf k) r = Ref.Goto k r.
Proof. reflexivity. Qed.
Lemma step_jeq : Ref.step md (mk_filter 0x15 jt jf k) r = Ref.Goto (if r_A r =? k then jt else jf) r.
Proof. reflexivity. Qed.
Lemma step_jge : Ref.step md (mk_filter 0x35 jt jf k) r = Ref.Goto (if k <=? r_A r then jt else jf) r.
Proof. reflexivity. Qed.
Lemma step_jgt : Ref.step md (mk_filter 0x25 jt jf k) r = Ref.Goto (if k <? r_A r then jt else jf) r.
Proof. reflexivity. Qed.
Lemma step_sub : Ref.step md (mk_filter 0x14 jt jf k) r = Ref.Next (Ref.set_a r (u32 (r_A r - k))).
Proof. reflexivity. Qed.
Lemma step_and : Ref.step md (mk_filter 0x54 jt jf k) r = Ref.Next (Ref.set_a r (Z.land (r_A r) k)).
Proof. reflexivity. Qed.
Lemma step_or : Ref.step md (mk_filter 0x44 jt jf k) r = Ref.Next (Ref.set_a r (Z.lor (r_A r) k)).
Proof. reflexivity. Qed.
Lemma step_ret_k : Ref.step md (mk_filter 0x06 jt jf k) r = Ref.Halt IERR_OK (Some (s32 k)).
Proof. reflexivity. Qed.
Lemma step_ret_a : Ref.step md (mk_filter 0x16 jt jf k) r = Ref.Halt IERR_OK (Some (s32 (r_A r))).
Proof. reflexivity. Qed.
End Steps.
Create Rewrite HintDb bytecode.
#[local] Hint Rewrite step_ldb step_ldh step_ldh_ind step_ldx step_ja step_jeq step_jge step_jgt step_sub step_and step_or
  step_ret_k step_ret_a : bytecode.
(** Runs up to the next case distinction. *)
Ltac exec := repeat (erewrite list_run_S by reflexivity; autorewrite with bytecode;
  cbn [Ref.to_A Ref.set_a Ref.set_x r_A r_X]).

(** The last two instructions: a load, and [ret a]. *)
Lemma answers_cookie md max_apps n off off' fuel p pc r (g : Z → bpf_regs → Z * option Z) :
  off' = off → md_ok md → (n <= 2)%nat → 0 <= max_apps <= MAX_APPS → p !! Z.to_nat pc = Some (mk_filter 0x16 0 0 0) →
  answers max_apps (Existing <$> payload md n off)
    match Ref.to_A r (payload md n off') with
    | Ref.Next r => list_run (S fuel) md p pc r
    | Ref.Goto o r => g o r
    | Ref.Halt c v => (c, v)
    end.
Proof.
  intros -> Hmd Hn Hm Hret. destruct (payload md n off) as [v|] eqn:E; [|done]. apply (payload_range _ _ _ _ Hmd) in E.
  cbn [Ref.to_A]. rewrite (list_run_S _ _ _ _ _ _ Hret), step_ret_a.
  assert (2 ^ (8 * Z.of_nat n) <= 2 ^ 16) as Hp by (apply Z.pow_le_mono_r; lia).
  assert (s32 v = v) as Es by (unfold s32; rewrite u32_small by lia; destruct (Z.ltb_spec v (2 ^ 31)); lia).
  change (r_A (Ref.set_a r v)) with v. exists v. rewrite Es. split_and!; try done; try lia. unfold verdict_of, MAX_APPS in *.
  destruct (Z.ltb_spec v (- 2 ^ 31 + max_apps)); [lia|]. destruct (Z.leb_spec 0 v); [|lia].
  destruct (Z.ltb_spec v (2 ^ 16)); [done|lia].
Qed.

Lemma top_bit b : 0 <= b < 2 ^ (8 * Z.of_nat 1) → Z.land b 128 = if b <? 128 then 0 else 128.
Proof.
  intros Hb. apply Z.eqb_eq. apply (forall_below_spec 256 (λ b, Z.land b 128 =? if b <? 128 then 0 else 128));
    [vm_compute; reflexivity|exact Hb].
Qed.
Lemma naive_quic_answers md max_apps : md_ok md → 0 <= max_apps <= MAX_APPS →
  answers max_apps (naive_quic_reads md) (list_run (length naive_quic_prog) md naive_quic_prog 0 initial_regs).
Proof.
  intros Hmd Hm. unfold naive_quic_reads. change (length naive_quic_prog) with 12%nat. exec.
  destruct (payload md 1 0) as [b|] eqn:Eb; [|done]. cbn [Ref.to_A]. exec.
  apply (payload_range _ _ _ _ Hmd) in Eb. rewrite (top_bit b Eb).
  destruct (Z.ltb_spec b 128).
  - change (if 0 =? 128 then 0 else 5) with 5. exec. apply answers_cookie; done || lia.
  - change (if 128 =? 128 then 0 else 5) with 0. exec. destruct (payload md 1 5) as [len|]; [|done]. cbn [Ref.to_A]. exec.
    destruct (Z.eqb_spec len 16) as [->|].
    + exec. apply answers_cookie; done || lia.
    + exec. exists (-1). split_and!; try done. unfold verdict_of, MAX_APPS in *.
      destruct (Z.ltb_spec (-1) (- 2 ^ 31 + max_apps)); [lia|done].
Qed.

Lemma new_flow_verdict max_apps a v : v = - 2 ^ 31 + a → 0 <= a < 4 → 0 <= max_apps <= MAX_APPS →
  verdict_of max_apps v = NewFlow (if a <? max_apps then a else 0).
Proof.
  intros -> Ha Hm. unfold verdict_of, MAX_APPS in *. destruct (Z.ltb_spec a max_apps).
  - destruct (Z.ltb_spec (- 2 ^ 31 + a) (- 2 ^ 31 + max_apps)); [|lia]. f_equal. lia.
  - destruct (Z.ltb_spec (- 2 ^ 31 + a) (- 2 ^ 31 + max_apps)); [lia|]. destruct (Z.leb_spec 0 (- 2 ^ 31 + a)); [lia|done].
Qed.
Lemma basic_answers md max_apps : md_ok md → 0 <= max_apps <= MAX_APPS →
  answers max_apps (basic_reads max_apps md) (list_run (length basic_prog) md basic_prog 0 initial_regs).
Proof.
  intros Hmd Hm. unfold basic_reads. change (length basic_prog) with 8%nat. exec.
  destruct (payload md 1 0) as [b|] eqn:Eb; [|done]. cbn [Ref.to_A]. exec.
  destruct (Z.leb_spec 0x30 b); cbn [andb].
  2: { exec. apply answers_cookie; done || lia. }
  replace (b <=? 0x33) with (negb (0x33 <? b)) by lia. exec. destruct (Z.ltb_spec 0x33 b); cbn [negb].
  { exec. apply answers_cookie; done || lia. }
  assert (b = 0x30 ∨ b = 0x31 ∨ b = 0x32 ∨ b = 0x33) as [-> | [-> | [-> | ->]]] by lia; exec;
    (eexists; split; [reflexivity|]; split; [split; [discriminate|reflexivity]|]); by apply new_flow_verdict.
Qed.
End Programs.

(** ** Where the packets go *)
Section Routes.
Context {K : Kernel} {L : KernelLaws} {B : BespokeDissector} {BL : BespokeLaws}.

(** The socket of a cookie if the kernel accepts it, otherwise that of a new flow. *)
Definition route (md : sk_reuseport_md) (st : reuseport_storage) (w : world) (o : option verdict) : option Z :=
  match o with
  | None => None
  | Some (NewFlow a) => new_flow_selected md a st w
  | Some (Existing c) =>
      match grm_cookie_unpack c with
      | Some (gen, idx) =>
          let so := cookie_at st gen idx in
          if bpf_sk_select_reuseport (w_sockhash w) (md_sk md) so =? 0 then Some so else new_flow_selected md 0 st w
      | None => new_flow_selected md 0 st w
      end
  end.

Lemma unpacked_range c g i : grm_cookie_unpack c = Some (g, i) → 0 <= g < MAX_GENS ∧ 0 <= i < MAX_SOCKETS_IN_GEN.
Proof.
  rewrite grm_cookie_unpack_eq. case_match; [|done]. intros [= <- <-].
  split; apply Z.mod_pos_bound; reflexivity.
Qed.

Lemma have_cookie_routed md c g i a st1 w1 w st :
  logs_only w w1 → same_config st st1 →
  rx_selected (fst (fst (have_cookie md c g i a st1 w1))) =
    if bpf_sk_select_reuseport (w_sockhash w) (md_sk md) c =? 0 then Some c else new_flow_selected md a st w.
Proof.
  intros Hw Hc. destruct (Z.eqb_spec (bpf_sk_select_reuseport (w_sockhash w) (md_sk md) c) 0) as [E|E].
  - unfold have_cookie, sk_select. cbv zeta. rewrite (lo_sockhash _ _ Hw), E. reflexivity.
  - by apply have_cookie_refused.
Qed.

Lemma program_routes p o md w st :
  bpf_map_lookup_elem (w_groups w) (_skey_from_bpf_sock (md_sk md)) = Some st →
  DISSECTOR_TYPE (dis_type (dis st)) = DISSECTOR_CBPF → dis_bespoke_digest (dis st) = 0 →
  0 <= dis_max_apps (dis st) <= MAX_APPS → md_ok md → runs p (dis st) →
  bpf_sk_select_reuseport (w_sockhash w) (md_sk md) (u64 (-1)) ≠ 0 →
  bpf_sk_select_reuseport (w_sockhash w) (md_sk md) (u64 (-2)) ≠ 0 →
  (∀ j f, p !! j = Some f → classic_insn (Z.of_nat j) f = true) →
  answers (dis_max_apps (dis st)) o (list_run (length p) md p 0 initial_regs) →
  rx_selected (fst (udpgrm_reuseport_prog md w)) = route md st w o.
Proof.
  intros Hst Ht Hd Hm Hmd Hp Hs1 Hs2 Hc Ha. pose proof (runs_interpret p md st w Hp Hmd Hc) as Hi.
  destruct (list_run _ _ _ _ _) as [code v]. destruct (interpret_cbpf md st 0 w) as [[code' v'] w1] eqn:E.
  destruct Hi as [-> ->]. pose proof (interpret_cbpf_logs _ _ _ _ _ _ _ E) as Hw.
  assert (dis_filter_len (dis st) <= MAX_INSTR) as Hf.
  { rewrite (rn_len _ _ Hp). pose proof (rn_max _ _ Hp). unfold MAX_INSTR. lia. }
  rewrite (prog_cbpf md w st _ _ _ Hst Ht Hd Hf ltac:(unfold MAX_APPS in *; lia) E). cbv zeta.
  set (st1 := METRIC_INC rx_processed_total st).
  assert (same_config st st1) as Hcfg by (by eexists).
  change (dis st1) with (dis st). destruct o as [x|]; cbn [answers] in Ha; [|by injection Ha as -> ->].
  destruct Ha as (v0 & [= -> ->] & _ & Hx).
  change (IERR_OK =? IERR_OK) with true. cbv iota. cbn [default id]. rewrite Hx.
  destruct x as [a|c]; cbn [route].
  - by apply have_cookie_refused.
  - destruct (grm_cookie_unpack c) as [[g i]|] eqn:Eu.
    + apply unpacked_range in Eu as [Hg Hidx]. rewrite !Z.mod_small by done.
      change (cookie_at st1 g i) with (cookie_at st g i). by apply have_cookie_routed.
    + apply have_cookie_refused; [|done|done]. etrans; [done|apply logs_only_if].
Qed.
End Routes.

(** C8. The bytecode of the examples, from the packet to the socket. In a group that runs
    [cbpf-basic.sh] a packet whose first byte is an application in ASCII is a new flow of that
    application, and any other carries its cookie at offset 1. In a group that runs
    [cbpf-naive-quic.sh] the cookie is at offset 1 of a short header and at offset 6 of a long
    header with a connection id of 16 bytes; a long header with another length is a new flow.
    A cookie leads to the socket it names if the kernel accepts it, and otherwise, like a
    wrong checksum, to a new flow of application 0; a packet too short selects no socket. *)
Theorem example_bytecode_routes {K : Kernel} {L : KernelLaws} {B : BespokeDissector} {BL : BespokeLaws} md w st :
  bpf_map_lookup_elem (w_groups w) (_skey_from_bpf_sock (md_sk md)) = Some st →
  DISSECTOR_TYPE (dis_type (dis st)) = DISSECTOR_CBPF → dis_bespoke_digest (dis st) = 0 →
  0 <= dis_max_apps (dis st) <= MAX_APPS → md_ok md →
  bpf_sk_select_reuseport (w_sockhash w) (md_sk md) (u64 (-1)) ≠ 0 →
  bpf_sk_select_reuseport (w_sockhash w) (md_sk md) (u64 (-2)) ≠ 0 →
  (runs basic_prog (dis st) →
     rx_selected (fst (udpgrm_reuseport_prog md w)) = route md st w (basic_reads (dis_max_apps (dis st)) md)) ∧
  (runs naive_quic_prog (dis st) →
     rx_selected (fst (udpgrm_reuseport_prog md w)) = route md st w (naive_quic_reads md)).
Proof.
  intros Hst Ht Hd Hm Hmd Hs1 Hs2.
  split; intros Hp; apply (program_routes _ _ md w st Hst Ht Hd Hm Hmd Hp Hs1 Hs2).
  1: by apply (checked_insns basic_prog).
  1: by apply basic_answers.
  1: by apply (checked_insns naive_quic_prog).
  by apply naive_quic_answers.
Qed.

(** ** Evaluation *)
Section Witnesses.
#[local] Existing Instance good_kernel.
#[local] Existing Instance no_bespoke.

Definition quic_group : reuseport_storage := set_dis (cbpf_dissector naive_quic_prog) example_group.
Definition quic_world : world :=
  set_groups (<[_skey_from_bpf_sock example_sk := quic_group]> (∅ : gmap reuseport_storage_key reuseport_storage)) example_world.
Lemma quic_group_runs : runs naive_quic_prog (dis quic_group).
Proof.
  split; [|reflexivity|cbn; lia|].
  - apply (bool_decide_unpack _). vm_compute. exact I.
  - intros i f Hf. do 12 (destruct i as [|i]; [injection Hf as <-; vm_compute; reflexivity|]). done.
Qed.

(** A long header: flags, version, length 16, and the cookie of index 2 of slot 1. *)
Definition long_header (len : Z) : sk_reuseport_md :=
  example_packet ([0xC0; 0; 0; 0; 1; len; 2; 225] ++ zeros 14).
Lemma long_header_ok len : 0 <= len < 256 → md_ok (long_header len).
Proof.
  intros Hl. apply example_packet_ok; [|reflexivity]. apply Forall_app.
  split; [repeat constructor; try done; lia|apply bytes_ok_zeros].
Qed.
Lemma quic_lookup : bpf_map_lookup_elem (w_groups quic_world) (_skey_from_bpf_sock example_sk) = Some quic_group.
Proof. apply lookup_insert_eq. Qed.

Lemma example_bytecode_routes_witness :
  rx_selected (fst (udpgrm_reuseport_prog (long_header 16) quic_world)) = Some 42 ∧
  rx_selected (fst (udpgrm_reuseport_prog (long_header 8) quic_world)) = Some 41.
Proof.
  assert (∀ len, 0 <= len < 256 →
    rx_selected (fst (udpgrm_reuseport_prog (long_header len) quic_world)) =
      route (long_header len) quic_group quic_world (naive_quic_reads (long_header len))) as H.
  { intros len Hl. apply (example_bytecode_routes (long_header len) quic_world quic_group quic_lookup).
    - vm_compute. reflexivity.
    - vm_compute. reflexivity.
    - split; vm_compute; discriminate.
    - by apply long_header_ok.
    - vm_compute. discriminate.
    - vm_compute. discriminate.
    - exact quic_group_runs. }
  split; (rewrite H by (split; [discriminate|reflexivity])); vm_compute; reflexivity.
Defined.
End Witnesses.
