(* ===== verification/Flow.v ===== *)
(** The flow table: [flow_assure] and the sendmsg hooks of [ebpf/ebpf.c].

    A transmitted datagram creates or refreshes the entry of its flow; the receive
    path of [Reuseport] reads it. [flow_stickiness] relates the two. *)

From S2P Require Import Prelude Cookie SipHash Storage Cbpf Dissector Reuseport.

(** [struct bpf_sock_addr], with what the helpers answer for its socket:
    [bpf_get_socket_cookie], [bpf_get_netns_cookie], and [bpf_getsockopt] of
    [SO_REUSEPORT] ([None] when the helper fails). *)
Record bpf_sock_addr := mk_sock_addr {
  sa_sk : bpf_sock;
  user_family : Z;
  user_ip4 : Z;
  user_ip6 : ip6;
  user_port : Z;
  protocol : Z;
  sa_cookie : Z;
  sa_netns_cookie : Z;
  sa_reuseport : option Z;
}.

(** [uint32_t remote_ip[4]] in memory. *)
Definition ip_bytes (a : ip6) : list Z :=
  let '(a0, a1, a2, a3) := a in
  le_bytes 4 a0 ++ le_bytes 4 a1 ++ le_bytes 4 a2 ++ le_bytes 4 a3.

Section Flow.
Context {K : Kernel} {B : BespokeDissector}.

(** Result (0 on conflict or failure), storage, world. *)
Definition flow_assure (st : reuseport_storage) (s : socket_storage) (hash : Z) (w : world)
  : Z * reuseport_storage * world :=
  let st := METRIC_INC tx_total st in
  match bpf_map_lookup_elem (w_flows w) hash with
  | None =>
      let w := log_if (verb st) "[ ] hash=#%x new so_cookie=0x%x" [hash; so_cookie s] w in
      let '(now, w) := ktime_get_ns w in
      let val := mk_lru now (so_cookie s) in
      let '(m, r) := bpf_map_update_elem (w_flows w) hash val BPF_NOEXIST in
      let w := set_flows m w in
      if r =? 0 then (1, METRIC_INC tx_flow_create_ok st, w)
      else (0, METRIC_INC tx_flow_create_error st, w)
  | Some value =>
      let w := log_if (verb st) "[ ] hash=#%x confirmed so_cookie=0x%x" [hash; so_cookie s] w in
      let '(now, w) := ktime_get_ns w in
      if u64 (now - last_tx_ns value) <=? SEC_TO_NSEC (flow_timeout_sec st) then
        if lru_cookie value =? so_cookie s then
          let st := METRIC_INC tx_flow_update_ok st in
          (1, st, set_flows (map_value_write (w_flows w) hash (mk_lru now (lru_cookie value))) w)
        else (0, METRIC_INC tx_flow_update_conflict st, w)
      else
        let st := METRIC_INC tx_flow_create_ok st in
        let st := METRIC_INC tx_flow_create_from_expired_ok st in
        let '(now, w) := ktime_get_ns w in
        (1, st, set_flows (map_value_write (w_flows w) hash (mk_lru now (so_cookie s))) w)
  end.

(** The flow key of an outgoing datagram. *)
Definition sendmsg_flow (ctx : bpf_sock_addr) (family reuseport_group_id : Z) : ip_flow_hash :=
  let ip :=
    if family =? AF_INET then (user_ip4 ctx, 0, 0, 0)
    else if family =? AF_INET6 then user_ip6 ctx
    else (0, 0, 0, 0) in
  mk_flow (ip_bytes ip) reuseport_group_id (u16 (user_port ctx)).

Definition _udp_sendmsg (ctx : bpf_sock_addr) (family : Z) (w : world) : Z * world :=
  match get_state (sa_sk ctx) false w with
  | (None, _, w) => (1, w)
  | (Some st, _, w) =>
      if negb (DISSECTOR_TYPE (dis_type (dis st)) =? DISSECTOR_FLOW) then (1, w)
      else
        let hash := count_ip_flow_hash (sendmsg_flow ctx family (random_id st)) in
        match bpf_map_lookup_elem (w_socks w) (bs_id (sa_sk ctx)) with
        | None => (1, w)
        | Some s =>
            let '(_, st, w) := flow_assure st s hash w in
            (1, put_state (sa_sk ctx) st w)
        end
  end.

Definition udpgrm_udp6_sendmsg (ctx : bpf_sock_addr) := _udp_sendmsg ctx AF_INET6.
Definition udpgrm_udp4_sendmsg (ctx : bpf_sock_addr) := _udp_sendmsg ctx AF_INET.
End Flow.

(** ** The flow table keeps live flows *)

(** An entry that has not expired at time [now]. *)
Definition live (st : reuseport_storage) (now : Z) (e : lru_value) : bool :=
  u64 (now - last_tx_ns e) <=? SEC_TO_NSEC (flow_timeout_sec st).

Section FlowFacts.
Context {K : Kernel} {L : KernelLaws} {B : BespokeDissector}.

(** Time as read during a call that started in [w]. *)
Definition read_during (w : world) (now : Z) : Prop :=
  ∃ n, (w_tick w <= n)%nat ∧ now = bpf_ktime_get_ns n.

Lemma read_after_log w b fmt args : read_during w (bpf_ktime_get_ns (w_tick (log_if b fmt args w))).
Proof. eexists. split; [apply (lo_tick _ _ (logs_only_if w b fmt args))|done]. Qed.
Lemma read_after_log_tick w b fmt args :
  read_during w (bpf_ktime_get_ns (w_tick (tick (log_if b fmt args w)))).
Proof. eexists. split; [|done]. pose proof (lo_tick _ _ (logs_only_if w b fmt args)). cbn. lia. Qed.

(** What a call does to the entry of its own flow, and which counters it increments. *)
Inductive assured (st : reuseport_storage) (s : socket_storage) (w : world) (hash : Z)
  : option lru_value → option lru_value → Z → list metric → Prop :=
  | As_create now : read_during w now →
      assured st s w hash None (Some (mk_lru now (so_cookie s))) 1 [tx_flow_create_ok; tx_total]
  | As_full : assured st s w hash None None 0 [tx_flow_create_error; tx_total]
  | As_update e now : read_during w now → live st now e = true → lru_cookie e = so_cookie s →
      assured st s w hash (Some e) (Some (mk_lru now (so_cookie s))) 1 [tx_flow_update_ok; tx_total]
  | As_conflict e now : read_during w now → live st now e = true → lru_cookie e ≠ so_cookie s →
      assured st s w hash (Some e) (Some e) 0 [tx_flow_update_conflict; tx_total]
  | As_expired e now now' : read_during w now → live st now e = false → read_during w now' →
      assured st s w hash (Some e) (Some (mk_lru now' (so_cookie s))) 1
        [tx_flow_create_from_expired_ok; tx_flow_create_ok; tx_total].

Lemma flow_assure_spec st s hash w r st' w' :
  flow_assure st s hash w = (r, st', w') →
  ∃ t, st' = bump t st ∧
    assured st s w hash (bpf_map_lookup_elem (w_flows w) hash)
      (bpf_map_lookup_elem (w_flows w') hash) r t ∧
    (∀ h, h ≠ hash → bpf_map_lookup_elem (w_flows w') h = bpf_map_lookup_elem (w_flows w) h ∨
       bpf_map_lookup_elem (w_flows w') h = None) ∧
    logs_only w (set_flows (w_flows w) w').
Proof.
  unfold flow_assure, ktime_get_ns. cbv zeta.
  set (w1 := log_if _ _ _ w). set (w2 := log_if _ "[ ] hash=#%x new so_cookie=0x%x" _ w).
  assert (w_flows w1 = w_flows w) as E1 by apply logs_only_if.
  assert (w_flows w2 = w_flows w) as E2 by apply logs_only_if.
  assert (∀ w3 m, logs_only w w3 → logs_only w (set_flows (w_flows w) (set_flows m w3))) as Hlog.
  { intros w3 m []. by split. }
  assert (logs_only w w1) as H1 by apply logs_only_if.
  assert (logs_only w w2) as H2 by apply logs_only_if.
  destruct (bpf_map_lookup_elem (w_flows w) hash) as [e|] eqn:El.
  - change (u64 (bpf_ktime_get_ns (w_tick w1) - last_tx_ns e) <=? _)
      with (live st (bpf_ktime_get_ns (w_tick w1)) e).
    assert (is_Some (bpf_map_lookup_elem (w_flows w1) hash)) as Hs by (rewrite E1, El; by eexists).
    assert (∀ w3 v h, w_flows w3 = w_flows w1 → h ≠ hash →
      bpf_map_lookup_elem (map_value_write (w_flows w3) hash v) h = bpf_map_lookup_elem (w_flows w) h ∨
      bpf_map_lookup_elem (map_value_write (w_flows w3) hash v) h = None) as Ho.
    { intros w3 v h E Hne. left. rewrite E, (map_write_other (exact := false)) by done. by rewrite E1. }
    destruct (live st (bpf_ktime_get_ns (w_tick w1)) e) eqn:Hl; [destruct (Z.eqb_spec (lru_cookie e) (so_cookie s))|];
      intros [= <- <- <-]; exists_incs; split_and!.
    all: cbn [w_flows set_flows tick].
    + rewrite (map_write_same (exact := false)) by done. rewrite e0.
      eapply As_update; eauto using read_after_log.
    + intros h Hne. by apply (Ho (tick w1)).
    + apply Hlog. etrans; [apply H1|apply logs_only_tick].
    + rewrite E1, El. eapply As_conflict; eauto using read_after_log.
    + intros h Hne. left. by rewrite E1.
    + rewrite <- E1. destruct H1. split; try done; cbn; lia.
    + rewrite (map_write_same (exact := false)) by done.
      apply (As_expired _ _ _ _ _ (bpf_ktime_get_ns (w_tick w1))); [apply read_after_log|done|apply read_after_log_tick].
    + intros h Hne. by apply (Ho (tick (tick w1))).
    + apply Hlog. etrans; [apply H1|]. etrans; apply logs_only_tick.
  - cbn [w_flows tick]. destruct (bpf_map_update_elem (w_flows w2) hash _ BPF_NOEXIST) as [m ret] eqn:Eu.
    assert (∀ h, h ≠ hash → bpf_map_lookup_elem m h = bpf_map_lookup_elem (w_flows w) h
      ∨ bpf_map_lookup_elem m h = None) as Ho.
    { intros h Hne. rewrite <- E2. destruct (map_update_other (exact := false) _ _ _ _ _ _ h Eu Hne) as [?|[_ ?]]; auto. }
    destruct (Z.eqb_spec ret 0) as [->|Hr]; intros [= <- <- <-]; exists_incs;
      (split_and!; [|done|apply (Hlog (tick w2)); etrans; [apply H2|apply logs_only_tick]]);
      cbn [w_flows set_flows].
    + rewrite (map_update_ok (exact := false) _ _ _ _ _ Eu). apply As_create, read_after_log.
    + replace (bpf_map_lookup_elem m hash) with (@None lru_value); [apply As_full|].
      symmetry. destruct (map_update_fail (exact := false) _ _ _ _ _ _ Eu Hr) as [->|[_ ->]]; [|done].
      by rewrite E2.
Qed.

(** A call that meets no live entry of another socket leaves the caller's entry. *)
Lemma flow_assure_entry st s hash w r st' w' :
  flow_assure st s hash w = (r, st', w') →
  match bpf_map_lookup_elem (w_flows w) hash with
  | None => ∀ v, snd (bpf_map_update_elem (w_flows w) hash v BPF_NOEXIST) = 0
  | Some e => lru_cookie e = so_cookie s ∨ ∀ now, read_during w now → live st now e = false
  end →
  ∃ e, bpf_map_lookup_elem (w_flows w') hash = Some e ∧ lru_cookie e = so_cookie s ∧
    read_during w (last_tx_ns e).
Proof.
  intros E Hfree. destruct (flow_assure_spec _ _ _ _ _ _ _ E) as (t & _ & Ha & _).
  destruct (bpf_map_lookup_elem (w_flows w) hash) as [e0|] eqn:El.
  - inversion Ha; subst; try (eexists; by split_and!).
    destruct Hfree as [?|Hf]; [done|]. rewrite Hf in *; done.
  - revert E. unfold flow_assure, ktime_get_ns. cbv zeta. rewrite El.
    set (w2 := log_if _ _ _ w). cbn [w_flows tick].
    assert (w_flows w2 = w_flows w) as E2 by apply logs_only_if. rewrite E2.
    set (val := mk_lru _ _). specialize (Hfree val).
    destruct (bpf_map_update_elem (w_flows w) hash val BPF_NOEXIST) as [m ret] eqn:Eu.
    cbn in Hfree. subst ret. intros [= _ _ <-]. exists val.
    split; [apply (map_update_ok (exact := false) _ _ _ _ _ Eu)|]. split; [done|apply read_after_log].
Qed.

(** ** Transmission and reception of one flow *)

(** [md] comes from the address and port that the datagram of [ctx] goes to. *)
Inductive same_flow (md : sk_reuseport_md) (ctx : bpf_sock_addr) : Z → Prop :=
  | Same4 : md_eth_protocol md = ETH_P_IP →
      md_load_net md 12 4 = Some (le_bytes 4 (user_ip4 ctx)) →
      md_load_bytes md 0 2 = Some (le_bytes 2 (user_port ctx)) → same_flow md ctx AF_INET
  | Same6 : md_eth_protocol md = ETH_P_IPV6 →
      md_load_net md 8 16 = Some (ip_bytes (user_ip6 ctx)) →
      md_load_bytes md 0 2 = Some (le_bytes 2 (user_port ctx)) → same_flow md ctx AF_INET6.

Lemma store_full l bs : length bs = length l → store l 0 bs = bs.
Proof.
  intros H. unfold store. by rewrite take_0, app_nil_l, drop_ge, app_nil_r by (cbn; lia).
Qed.

Lemma length_ip_bytes a : length (ip_bytes a) = 16%nat.
Proof. by destruct a as [[[a0 a1] a2] a3]. Qed.

(** Both directions compute the same flow hash. *)
Lemma dissector_flow_same md ctx family hash gid :
  same_flow md ctx family →
  dissector_flow md hash gid = (0, count_ip_flow_hash (sendmsg_flow ctx family gid)).
Proof.
  intros [He Hn Hp|He Hn Hp]; unfold dissector_flow, sendmsg_flow; rewrite He, Hn, Hp.
  - change (ETH_P_IP =? ETH_P_IP) with true. cbv iota. cbn [load_rc from_option id Z.lor Z.eqb negb].
    rewrite le_combine_le_bytes. reflexivity.
  - change (ETH_P_IPV6 =? ETH_P_IP) with false. change (ETH_P_IPV6 =? ETH_P_IPV6) with true.
    cbv iota. cbn [load_rc from_option id Z.lor Z.eqb negb].
    rewrite store_full, le_combine_le_bytes by (by rewrite length_ip_bytes). reflexivity.
Qed.

Lemma _udp_sendmsg_flow ctx family w st s :
  bpf_map_lookup_elem (w_groups w) (_skey_from_bpf_sock (sa_sk ctx)) = Some st →
  DISSECTOR_TYPE (dis_type (dis st)) = DISSECTOR_FLOW →
  bpf_map_lookup_elem (w_socks w) (bs_id (sa_sk ctx)) = Some s →
  _udp_sendmsg ctx family w =
    let '(_, st', w') := flow_assure st s
       (count_ip_flow_hash (sendmsg_flow ctx family (random_id st))) w in
    (1, put_state (sa_sk ctx) st' w').
Proof.
  intros Hg Ht Hs. unfold _udp_sendmsg. rewrite (get_state_existing _ _ st) by done.
  by rewrite Ht, Hs.
Qed.

(** A live entry with a selectable socket decides where a packet of the flow goes. *)
Lemma prog_flow_hit md w st h e :
  bpf_map_lookup_elem (w_groups w) (_skey_from_bpf_sock (md_sk md)) = Some st →
  DISSECTOR_TYPE (dis_type (dis st)) = DISSECTOR_FLOW →
  dissector_flow md (u32 (-1)) (random_id st) = (0, h) →
  bpf_map_lookup_elem (w_flows w) h = Some e →
  live st (bpf_ktime_get_ns (w_tick w)) e = true →
  bpf_sk_select_reuseport (w_sockhash w) (md_sk md) (lru_cookie e) = 0 →
  rx_selected (fst (udpgrm_reuseport_prog md w)) = Some (lru_cookie e).
Proof.
  intros Hg Ht Hd Hl Hlive Hsel. rewrite (prog_unfold md w st Hg). unfold rx_state. cbv zeta.
  set (st1 := METRIC_INC rx_processed_total st).
  change (dis st1) with (dis st). change (random_id st1) with (random_id st).
  rewrite Ht, Hd. cbn [Z.eqb negb DISSECTOR_FLOW].
  unfold have_hash, ktime_get_ns. cbv zeta. rewrite Hl.
  change (u64 (bpf_ktime_get_ns (w_tick w) - last_tx_ns e) <=? _)
    with (live st (bpf_ktime_get_ns (w_tick w)) e).
  rewrite Hlive. unfold sk_select.
  match goal with |- context [w_sockhash (log_if ?b ?f ?a (tick w))] =>
    rewrite (lo_sockhash _ _ (logs_only_if (tick w) b f a)) end.
  cbn [w_sockhash tick]. by rewrite Hsel.
Qed.

(** A packet of a flow without a live entry, or whose socket is refused, is a new flow. *)
Lemma prog_flow_new md w st h :
  bpf_map_lookup_elem (w_groups w) (_skey_from_bpf_sock (md_sk md)) = Some st →
  DISSECTOR_TYPE (dis_type (dis st)) = DISSECTOR_FLOW →
  dissector_flow md (u32 (-1)) (random_id st) = (0, h) →
  (∀ e, bpf_map_lookup_elem (w_flows w) h = Some e → live st (bpf_ktime_get_ns (w_tick w)) e = true →
     bpf_sk_select_reuseport (w_sockhash w) (md_sk md) (lru_cookie e) ≠ 0) →
  rx_selected (fst (udpgrm_reuseport_prog md w)) = new_flow_selected md 0 st w.
Proof.
  intros Hg Ht Hd Hl. rewrite (prog_unfold md w st Hg). unfold rx_state. cbv zeta.
  set (st1 := METRIC_INC rx_processed_total st).
  change (dis st1) with (dis st). change (random_id st1) with (random_id st).
  rewrite Ht, Hd. cbn [Z.eqb negb DISSECTOR_FLOW].
  pose proof (have_hash_refused md h 0 st1 w w st) as Hr.
  destruct (have_hash md h 0 st1 w) as [[res st2] w2]. cbn [fst] in *.
  apply Hr; [done|apply (bump_config [_])|exact Hl].
Qed.
End FlowFacts.

(** C1. Flow stickiness: when a socket of a FLOW group sends a datagram and its flow
    entry is not a live entry of another socket, the flow table holds the sender's
    cookie stamped with a time read during the call; and as long as that entry is
    there and its timeout has not elapsed, every packet that comes back from the
    same address and port to the group is delivered to the sender, whatever happened
    meanwhile to working generations, registrations and counters. *)
Theorem flow_stickiness {K : Kernel} {L : KernelLaws} {B : BespokeDissector} {BL : BespokeLaws}
  ctx family w st s w1 :
  bpf_map_lookup_elem (w_groups w) (_skey_from_bpf_sock (sa_sk ctx)) = Some st →
  DISSECTOR_TYPE (dis_type (dis st)) = DISSECTOR_FLOW →
  bpf_map_lookup_elem (w_socks w) (bs_id (sa_sk ctx)) = Some s →
  let h := count_ip_flow_hash (sendmsg_flow ctx family (random_id st)) in
  match bpf_map_lookup_elem (w_flows w) h with
  | None => ∀ v, snd (bpf_map_update_elem (w_flows w) h v BPF_NOEXIST) = 0
  | Some e => lru_cookie e = so_cookie s ∨ ∀ now, read_during w now → live st now e = false
  end →
  _udp_sendmsg ctx family w = (1, w1) →
  ∃ e, bpf_map_lookup_elem (w_flows w1) h = Some e ∧ lru_cookie e = so_cookie s ∧
    read_during w (last_tx_ns e) ∧
    ∀ md w2 st2, same_flow md ctx family →
      _skey_from_bpf_sock (md_sk md) = _skey_from_bpf_sock (sa_sk ctx) →
      bpf_map_lookup_elem (w_groups w2) (_skey_from_bpf_sock (md_sk md)) = Some st2 →
      dis st2 = dis st → random_id st2 = random_id st →
      bpf_map_lookup_elem (w_flows w2) h = Some e →
      live st (bpf_ktime_get_ns (w_tick w2)) e = true →
      bpf_sk_select_reuseport (w_sockhash w2) (md_sk md) (so_cookie s) = 0 →
      rx_selected (fst (udpgrm_reuseport_prog md w2)) = Some (so_cookie s).
Proof.
  intros Hg Ht Hs h Hfree. rewrite (_udp_sendmsg_flow ctx family w st s Hg Ht Hs). fold h.
  destruct (flow_assure st s h w) as [[r st'] w'] eqn:E. intros [= <-].
  assert (∃ e, bpf_map_lookup_elem (w_flows w') h = Some e ∧ lru_cookie e = so_cookie s ∧
    read_during w (last_tx_ns e)) as (e & He & Hc & Hn) by (by eapply flow_assure_entry).
  exists e. split_and!; try done. intros md w2 st2 Hsame Hk Hg2 Hd2 Hr2 He2 Hlive Hsel.
  rewrite <- Hc in *. apply (prog_flow_hit md w2 st2 h e); try done.
  - by rewrite Hd2.
  - rewrite Hr2. by rewrite (dissector_flow_same md ctx family).
  - unfold live, flow_timeout_sec in *. by rewrite Hd2.
Qed.

(** A flow is never stolen: whatever socket sends whatever datagram, an entry of
    the flow table afterwards still names the socket it named before, or was evicted
    by the insertion of another flow, or is the sender's own flow that had expired at
    a time read during the call. A refused send changes no entry and reports it. *)
Theorem flow_assure_never_steals {K : Kernel} {L : KernelLaws} st s hash w r st' w' h e :
  flow_assure st s hash w = (r, st', w') →
  bpf_map_lookup_elem (w_flows w) h = Some e →
  (bpf_map_lookup_elem (w_flows w') h = None ∧ h ≠ hash) ∨
  (∃ e', bpf_map_lookup_elem (w_flows w') h = Some e' ∧
     (lru_cookie e' = lru_cookie e ∨
      (h = hash ∧ r = 1 ∧ lru_cookie e' = so_cookie s ∧
       ∃ now, read_during w now ∧ live st now e = false)) ∧
     (h = hash → r = 0 → e' = e ∧ lru_cookie e ≠ so_cookie s ∧
        metrics st' tx_flow_update_conflict mod 2 ^ 64
          = (metrics st tx_flow_update_conflict + 1) mod 2 ^ 64)).
Proof.
  intros E He. destruct (flow_assure_spec _ _ _ _ _ _ _ E) as (t & -> & Ha & Ho & _).
  destruct (decide (h = hash)) as [->|Hne].
  - right. rewrite He in Ha. inversion Ha; subst; eexists; (split; [done|]).
    + split; [left; done|done].
    + split; [by left|]. intros _ _. split_and!; [done|done|].
      rewrite bump_metrics. reflexivity.
    + split; [right; split_and!; [done|done|done|by exists now]|intros _ [=]].
  - destruct (Ho h Hne) as [Hs|Hs]; [right|left; done]. exists e. rewrite Hs.
    split; [done|]. split; [by left|done].
Qed.

(** ** Evaluation *)
Section Witnesses.
#[local] Existing Instance good_kernel.
#[local] Existing Instance no_bespoke.

Definition flow_group : reuseport_storage := set_random_id 7 empty_state.
Definition flow_world : world :=
  set_sockhash (<[42 := 1]> (∅ : gmap Z Z))
    (set_socks (<[1 := mk_sock 0 0 0 42 5]> (∅ : gmap Z socket_storage))
      (set_groups (<[_skey_from_bpf_sock example_sk := flow_group]>
        (∅ : gmap reuseport_storage_key reuseport_storage)) empty_world)).
Definition flow_ctx : bpf_sock_addr :=
  mk_sock_addr example_sk AF_INET 0x0200a8c0 (0, 0, 0, 0) 0x3930 IPPROTO_UDP 42 5 (Some 1).
(** 192.168.0.2:12345 *)
Definition flow_md : sk_reuseport_md :=
  packet_md example_sk ETH_P_IP 5 (zeros 12 ++ [192; 168; 0; 2] ++ zeros 4)
    [0x30; 0x39; 0x11; 0x51; 0; 9; 0; 0; 1].
Definition flow_sent : world := snd (_udp_sendmsg flow_ctx AF_INET flow_world).

Lemma flow_stickiness_witness :
  rx_selected (fst (udpgrm_reuseport_prog flow_md flow_sent)) = Some 42.
Proof.
  destruct (flow_stickiness flow_ctx AF_INET flow_world flow_group (mk_sock 0 0 0 42 5) flow_sent)
    as (e & He & Hc & _ & H).
  - apply lookup_insert_eq.
  - reflexivity.
  - reflexivity.
  - assert (bpf_map_lookup_elem (w_flows flow_world)
      (count_ip_flow_hash (sendmsg_flow flow_ctx AF_INET (random_id flow_group))) = None) as ->
      by (vm_compute; reflexivity).
    intros v. reflexivity.
  - assert (fst (_udp_sendmsg flow_ctx AF_INET flow_world) = 1) as E by (vm_compute; reflexivity).
    apply pair_of_fst, E.
  - assert (e = mk_lru 5000000000 42) as ->.
    { vm_compute in He. injection He as <-. reflexivity. }
    apply (H flow_md flow_sent (METRIC_INC tx_flow_create_ok (METRIC_INC tx_total flow_group))).
    + apply Same4; vm_compute; reflexivity.
    + reflexivity.
    + apply lookup_insert_eq.
    + reflexivity.
    + reflexivity.
    + exact He.
    + vm_compute. reflexivity.
    + vm_compute. reflexivity.
Defined.

Lemma flow_assure_never_steals_witness :
  let w := set_flows (<[9 := mk_lru 4000000000 41]> (∅ : gmap Z lru_value)) flow_world in
  let '(r, st', w') := flow_assure flow_group (mk_sock 0 0 0 42 5) 9 w in
  (bpf_map_lookup_elem (w_flows w') 9 = None ∧ 9 ≠ 9) ∨
  (∃ e', bpf_map_lookup_elem (w_flows w') 9 = Some e' ∧
     (lru_cookie e' = 41 ∨
      (9 = 9 ∧ r = 1 ∧ lru_cookie e' = 42 ∧
       ∃ now, read_during w now ∧ live flow_group now (mk_lru 4000000000 41) = false)) ∧
     (9 = 9 → r = 0 → e' = mk_lru 4000000000 41 ∧ 41 ≠ 42 ∧
        metrics st' tx_flow_update_conflict mod 2 ^ 64
          = (metrics flow_group tx_flow_update_conflict + 1) mod 2 ^ 64)).
Proof.
  intros w. destruct (flow_assure flow_group (mk_sock 0 0 0 42 5) 9 w) as [[r st'] w'] eqn:E.
  pose proof (flow_assure_never_steals flow_group (mk_sock 0 0 0 42 5) 9 w r st' w' 9
    (mk_lru 4000000000 41) E eq_refl) as H. exact H.
Defined.
End Witnesses.
