(* ===== verification/Race.v ===== *)
(** Calls on several CPUs at once: [flow_assure] and the receive path of a FLOW group
    ([ebpf/ebpf.c]), one access to shared memory at a time.

    The other files run a program to its end before the next one starts. Here a call is a
    [thread] with the point it has reached and the values it has read; [call_step] does its next
    access (a counter, a helper call, a load or a store through the pointer to the entry)
    and a schedule says which thread goes next. [flow_assure_alone] and [receive_alone]
    relate an undisturbed call to the functions of [Flow] and [Reuseport].

    A call whose entry was evicted goes on with its pointer: what it loads is the kernel's
    ([lru_stale]), what it stores is lost. That the memory of an evicted entry is given to
    another flow while a call still holds a pointer to it is not modelled, and of the
    group's storage only the counters change. *)

From S2P Require Import Prelude Cookie SipHash Storage Cbpf Dissector Reuseport Flow.

(** The point a call has reached: what it does next. *)
Inductive pc :=
  | Enter                        (* METRIC_INC(tx_total) *)
  | Lookup                       (* bpf_map_lookup_elem *)
  | New                          (* log_printf *)
  | New_time                     (* val.last_tx_ns = bpf_ktime_get_ns() *)
  | Insert (val : lru_value)     (* bpf_map_update_elem *)
  | Created                      (* METRIC_INC(tx_flow_create_ok) *)
  | Not_created                  (* METRIC_INC(tx_flow_create_error) *)
  | Found                        (* log_printf *)
  | Found_time                   (* now = bpf_ktime_get_ns() *)
  | Check_age (now : Z)          (* load value->last_tx_ns *)
  | Check_owner (now : Z)        (* load value->cookie *)
  | Update (now : Z)             (* METRIC_INC(tx_flow_update_ok) *)
  | Touch (now : Z)              (* value->last_tx_ns = now *)
  | Conflict                     (* METRIC_INC(tx_flow_update_conflict) *)
  | Expired                      (* METRIC_INC(tx_flow_create_ok) *)
  | From_expired                 (* METRIC_INC(tx_flow_create_from_expired_ok) *)
  | Expired_time                 (* bpf_ktime_get_ns() *)
  | Stamp (now : Z)              (* value->last_tx_ns = ... *)
  | Claim                        (* value->cookie = s->so_cookie *)
  | Return (r : Z)
  (* the receive path of a FLOW group *)
  | Rx_enter                     (* METRIC_INC(rx_processed_total) *)
  | Rx_parse                     (* dissector_flow, load state->random_id *)
  | Rx_short                     (* METRIC_INC(rx_packet_too_short_error) *)
  | Rx_dissected                 (* METRIC_INC(rx_dissected_ok_total) *)
  | Rx_lookup                    (* bpf_map_lookup_elem *)
  | Rx_time (found : bool)       (* now = bpf_ktime_get_ns() *)
  | Rx_age (now : Z)             (* load value->last_tx_ns *)
  | Rx_log                       (* log_printf, load value->cookie *)
  | Rx_select                    (* bpf_sk_select_reuseport, load value->cookie *)
  | Rx_ok (cookie : Z)           (* METRIC_INC(rx_flow_ok) *)
  | Rx_ok_log (cookie : Z)       (* log_printf *)
  | Rx_fail (err : Z)            (* METRIC_INC(rx_flow_rg_conflict), METRIC_INC(rx_flow_other_error) *)
  | Rx_unseen (found : bool)     (* METRIC_INC(rx_flow_new_unseen) *)
  | Rx_had_expired               (* METRIC_INC(rx_flow_new_had_expired) *)
  | Rx_fail_log                  (* log_printf *)
  | Rx_new                       (* METRIC_INC(rx_new_flow_total) *)
  | Rx_pick                      (* load state->working_gen[..], max_idx[..], cookies[..] *)
  | Rx_dispatch (cookie : Z)     (* bpf_sk_select_reuseport *)
  | Rx_dispatched (cookie : Z)   (* METRIC_INC(rx_new_flow_working_gen_dispatch_ok) *)
  | Rx_undispatched              (* METRIC_INC(rx_new_flow_working_gen_dispatch_error) *)
  | Rx_new_log (sel : option Z)  (* log_printf *)
  | Rx_end (sel : option Z).     (* SK_PASS, with the socket selected *)

(** A call of [flow_assure(state, s, hash)], or of the receive path for the packet [t_md]
    (its flow hash once it is dissected); [t_incs] are the counters it has incremented, the
    latest first, and [t_flow] what a reception took its packet for: one of an existing flow,
    of the socket with that cookie, or of a new flow. *)
Record thread := mk_thread {
  t_sock : socket_storage;
  t_md : sk_reuseport_md;
  t_hash : Z;
  t_pc : pc;
  t_incs : list metric;
  t_flow : option (option Z);
}.
Definition no_packet : sk_reuseport_md :=
  mk_md (mk_bpf_sock 0 0 0 (0, 0, 0, 0) 0) 0 0 0 [] (λ _ _, None) (λ _ _, None).
Definition send (s : socket_storage) (hash : Z) : thread := mk_thread s no_packet hash Enter [] None.
Definition receive (md : sk_reuseport_md) : thread :=
  mk_thread (mk_sock 0 0 0 0 0) md (u32 (-1)) Rx_enter [] None.
Definition goto (p : pc) (t : thread) : thread :=
  mk_thread (t_sock t) (t_md t) (t_hash t) p (t_incs t) (t_flow t).
Definition count (m : metric) (p : pc) (t : thread) : thread :=
  mk_thread (t_sock t) (t_md t) (t_hash t) p (m :: t_incs t) (t_flow t).
Definition set_hash (hash : Z) (t : thread) : thread :=
  mk_thread (t_sock t) (t_md t) hash (t_pc t) (t_incs t) (t_flow t).
Definition take_for (x : option Z) (t : thread) : thread :=
  mk_thread (t_sock t) (t_md t) (t_hash t) (t_pc t) (t_incs t) (Some x).

Section Race.
Context {K : Kernel}.

Definition entry (w : world) (hash : Z) : option lru_value := bpf_map_lookup_elem (w_flows w) hash.
Definition put_entry (hash : Z) (e : lru_value) (w : world) : world :=
  set_flows (map_value_write (w_flows w) hash e) w.
(** A load and a store through the pointer to the entry. *)
Definition load_entry (hash : Z) (w : world) : lru_value * world :=
  match entry w hash with
  | Some e => (e, w)
  | None => (lru_stale (w_tick w) hash, tick w)
  end.
Definition store_entry (hash : Z) (f : lru_value → lru_value) (w : world) : world :=
  match entry w hash with
  | Some e => put_entry hash (f e) w
  | None => w
  end.

(** The next access of a call; [None]: it has ended. *)
Definition call_step (st : reuseport_storage) (w : world) (t : thread)
  : option (reuseport_storage * world * thread) :=
  let hash := t_hash t in
  let s := t_sock t in
  let go p := Some (st, w, goto p t) in
  let inc m p := Some (METRIC_INC m st, w, count m p t) in
  let log fmt args p := Some (st, log_if (verb st) fmt args w, goto p t) in
  let time k := let '(now, w) := ktime_get_ns w in Some (st, w, goto (k now) t) in
  let load k := let '(value, w) := load_entry hash w in Some (st, w, k value) in
  let md := t_md t in
  match t_pc t with
  | Enter => inc tx_total Lookup
  | Lookup => go (match entry w hash with Some _ => Found | None => New end)
  | New => log "[ ] hash=#%x new so_cookie=0x%x" [hash; so_cookie s] New_time
  | New_time => time (λ now, Insert (mk_lru now (so_cookie s)))
  | Insert val =>
      let '(m, r) := bpf_map_update_elem (w_flows w) hash val BPF_NOEXIST in
      Some (st, set_flows m w, goto (if r =? 0 then Created else Not_created) t)
  | Created => inc tx_flow_create_ok (Return 1)
  | Not_created => inc tx_flow_create_error (Return 0)
  | Found => log "[ ] hash=#%x confirmed so_cookie=0x%x" [hash; so_cookie s] Found_time
  | Found_time => time Check_age
  | Check_age now => load (λ value, goto (if live st now value then Check_owner now else Expired) t)
  | Check_owner now => load (λ value, goto (if lru_cookie value =? so_cookie s then Update now else Conflict) t)
  | Update now => inc tx_flow_update_ok (Touch now)
  | Touch now => Some (st, store_entry hash (λ v, mk_lru now (lru_cookie v)) w, goto (Return 1) t)
  | Conflict => inc tx_flow_update_conflict (Return 0)
  | Expired => inc tx_flow_create_ok From_expired
  | From_expired => inc tx_flow_create_from_expired_ok Expired_time
  | Expired_time => time Stamp
  | Stamp now => Some (st, store_entry hash (λ v, mk_lru now (lru_cookie v)) w, goto Claim t)
  | Claim => Some (st, store_entry hash (λ v, mk_lru (last_tx_ns v) (so_cookie s)) w, goto (Return 1) t)
  | Return _ | Rx_end _ => None
  | Rx_enter => inc rx_processed_total Rx_parse
  | Rx_parse =>
      let '(r, hash) := dissector_flow md hash (random_id st) in
      Some (st, w, if negb (r =? 0) then goto Rx_short t else set_hash hash (goto Rx_dissected t))
  | Rx_short => inc rx_packet_too_short_error (Rx_end None)
  | Rx_dissected => inc rx_dissected_ok_total Rx_lookup
  | Rx_lookup => go (Rx_time (match entry w hash with Some _ => true | None => false end))
  | Rx_time found =>
      let '(now, w) := ktime_get_ns w in
      Some (st, w, if found then goto (Rx_age now) t else take_for None (goto (Rx_unseen false) t))
  | Rx_age now => load (λ value,
      if live st now value then goto Rx_log t else take_for None (goto (Rx_unseen true) t))
  | Rx_log =>
      let '(value, w) := load_entry hash w in
      Some (st, log_if (verb st) "[#] by hash ok=#%x existing flow, sock so_cookie=0x%x" [hash; lru_cookie value] w,
            goto Rx_select t)
  | Rx_select => load (λ value,
      let cookie := lru_cookie value in
      let err := sk_select md cookie w in
      take_for (Some cookie) (goto (if err =? 0 then Rx_ok cookie else Rx_fail err) t))
  | Rx_ok cookie => inc rx_flow_ok (Rx_ok_log cookie)
  | Rx_ok_log cookie => log "[#] existing flow ok" [] (Rx_end (Some cookie))
  | Rx_fail err => inc (if err =? - EBADF then rx_flow_rg_conflict else rx_flow_other_error) Rx_fail_log
  | Rx_unseen found => inc rx_flow_new_unseen (if found then Rx_had_expired else Rx_fail_log)
  | Rx_had_expired => inc rx_flow_new_had_expired Rx_fail_log
  | Rx_fail_log => log "[-] by hash fail=#%x" [hash] Rx_new
  | Rx_new => inc rx_new_flow_total Rx_pick
  | Rx_pick => go (Rx_dispatch (new_flow_cookie st 0 (md_hash md)))
  | Rx_dispatch cookie =>
      go (if sk_select md cookie w =? 0 then Rx_dispatched cookie else Rx_undispatched)
  | Rx_dispatched cookie => inc rx_new_flow_working_gen_dispatch_ok (Rx_new_log (Some cookie))
  | Rx_undispatched => inc rx_new_flow_working_gen_dispatch_error (Rx_new_log None)
  | Rx_new_log sel =>
      match sel with
      | Some cookie =>
          let wrk_gen := working_gen_slot st 0 in
          log "[o] ok from working_gen=%d, max=%d, mdhash=0x%x so_cookie=0x%lx"
            [wrk_gen; nthZ (max_idx st) (wrk_gen mod MAX_GENS); md_hash md; cookie] (Rx_end sel)
      | None => log "[#] mdhash=#%x fallback to no selection!" [md_hash md] (Rx_end sel)
      end
  end.

(** The group's storage, the shared state and the calls. *)
Record race_config := mk_config { c_st : reuseport_storage; c_world : world; c_threads : list thread }.

Definition step_at (c : race_config) (i : nat) : race_config :=
  match c_threads c !! i with
  | None => c
  | Some t =>
      match call_step (c_st c) (c_world c) t with
      | None => c
      | Some (st, w, t) => mk_config st w (<[i := t]> (c_threads c))
      end
  end.
Definition run_calls (sched : list nat) (c : race_config) : race_config := fold_left step_at sched c.

(** Two worlds that a program cannot tell apart. *)
Definition same_world (w w' : world) : Prop :=
  (∀ h, entry w h = entry w' h) ∧ set_flows (w_flows w) w' = w.
End Race.

(** ** An undisturbed call is the function *)
Section Alone.
Context {K : Kernel} {L : KernelLaws} {B : BespokeDissector}.

Lemma entry_put hash e e' w h : entry w hash = Some e → entry (put_entry hash e' w) h = if decide (h = hash) then Some e' else entry w h.
Proof.
  intros He. unfold entry, put_entry. cbn [w_flows set_flows]. destruct (decide (h = hash)) as [->|Hne].
  - apply (map_write_same (exact := false)). unfold entry in He. rewrite He. by eexists.
  - by apply (map_write_other (exact := false)).
Qed.
Lemma entry_log b f a w h : entry (log_if b f a w) h = entry w h.
Proof. unfold entry. by rewrite (lo_flows _ _ (logs_only_if w b f a)). Qed.

Lemma run_S n st w t st1 w1 t1 :
  call_step st w t = Some (st1, w1, t1) →
  run_calls (repeat 0%nat (S n)) (mk_config st w [t]) = run_calls (repeat 0%nat n) (mk_config st1 w1 [t1]).
Proof. intros H. cbn [repeat run_calls fold_left]. unfold step_at at 2. cbn [c_threads c_st c_world lookup list_lookup]. by rewrite H. Qed.

(** The single call of [c] ends within [k] accesses with [p], [st'] and [w']. *)
Definition ends (k : nat) (c : race_config) (p : pc) (st' : reuseport_storage) (w' : world) : Prop :=
  ∃ n w1 t, (n <= k)%nat ∧ same_world w1 w' ∧ t_pc t = p ∧ run_calls (repeat 0%nat n) c = mk_config st' w1 [t].
Lemma ends_step k st w t st1 w1 t1 p st' w' :
  call_step st w t = Some (st1, w1, t1) → ends k (mk_config st1 w1 [t1]) p st' w' →
  ends (S k) (mk_config st w [t]) p st' w'.
Proof.
  intros H (n & w2 & t2 & Hn & Hw & Hp & Hr). exists (S n), w2, t2. split_and!; [lia|done|done|].
  by rewrite (run_S _ _ _ _ _ _ _ H).
Qed.
Lemma ends_now k st w t w' : same_world w w' → ends k (mk_config st w [t]) (t_pc t) st w'.
Proof. intros Hw. exists 0%nat, w, t. split_and!; [lia|done|done|done]. Qed.
Lemma same_world_refl w : same_world w w.
Proof. split; [done|by destruct w]. Qed.

(** One access whose rule is read off the goal; [rewrite]s by the given equations. *)
Ltac reduce_call :=
  cbv beta iota zeta delta [call_step goto count take_for set_hash send receive load_entry store_entry
    t_pc t_hash t_sock t_md t_incs t_flow mbind option_bind].
Ltac access := eapply ends_step; [reduce_call; reflexivity|].
Tactic Notation "access" "by" uconstr(E) := eapply ends_step; [reduce_call; rewrite E; cbv beta iota; reflexivity|].

(** A call that no other call interrupts does what [flow_assure] does, in at most ten
    accesses. *)
Lemma flow_assure_alone st s hash w r st' w' :
  flow_assure st s hash w = (r, st', w') →
  ends 10 (mk_config st w [send s hash]) (Return r) st' w'.
Proof.
  intros H. access. unfold flow_assure in H. fold (entry w hash) in H. cbv zeta in H.
  destruct (entry w hash) as [e|] eqn:He.
  - access by He. access. set (w1 := log_if _ _ _ w) in *. unfold ktime_get_ns in H at 1.
    access. cbn beta iota zeta.
    assert (entry (tick w1) hash = Some e) as Ht by (change (entry w1 hash = Some e); unfold w1; by rewrite entry_log).
    access by Ht.
    change (u64 (bpf_ktime_get_ns (w_tick w1) - last_tx_ns e) <=? _)
      with (live (METRIC_INC tx_total st) (bpf_ktime_get_ns (w_tick w1)) e) in H.
    destruct (live _ _ e) eqn:Hl; [|].
    + access by Ht. destruct (lru_cookie e =? so_cookie s).
      * access. access by Ht. injection H as <- <- <-. by apply ends_now, same_world_refl.
      * access. injection H as <- <- <-. by apply ends_now, same_world_refl.
    + access. access. unfold ktime_get_ns in H. access.
      assert (entry (tick (tick w1)) hash = Some e) as Ht2 by exact Ht.
      access by Ht2.
      assert (entry (put_entry hash (mk_lru (bpf_ktime_get_ns (w_tick (tick w1))) (lru_cookie e)) (tick (tick w1))) hash
        = Some (mk_lru (bpf_ktime_get_ns (w_tick (tick w1))) (lru_cookie e))) as Ht3.
      { rewrite (entry_put hash e) by done. by rewrite decide_True. }
      access by Ht3. injection H as <- <- <-. apply ends_now. split; [|done]. intros h.
      rewrite (entry_put hash _ _ _ _ Ht3), (entry_put hash _ _ _ _ Ht2).
      change (set_flows _ (tick (tick w1))) with
        (put_entry hash (mk_lru (bpf_ktime_get_ns (w_tick (tick w1))) (so_cookie s)) (tick (tick w1))).
      rewrite (entry_put hash _ _ _ _ Ht2). by destruct (decide (h = hash)).
  - access by He. access. set (w1 := log_if _ _ _ w) in *. unfold ktime_get_ns in H.
    access. destruct (bpf_map_update_elem _ _ _ _) as [m q] eqn:E in H. access by E.
    destruct (q =? 0); access; injection H as <- <- <-; by apply ends_now, same_world_refl.
Qed.

Lemma ends_mono k k' c p st w : (k <= k')%nat → ends k c p st w → ends k' c p st w.
Proof. intros Hk (n & w1 & t & ? & ?). exists n, w1, t. by split; [lia|]. Qed.

(** The third stage, from its log message on. *)
Lemma third_alone st md hash w l f sel st' w' :
  third_stage md 0 st (log_if (verb st) "[-] by hash fail=#%x" [hash] w) = (mk_rx SK_PASS sel, st', w') →
  ends 6 (mk_config st w [mk_thread (mk_sock 0 0 0 0 0) md hash Rx_fail_log l f]) (Rx_end sel) st' w'.
Proof.
  intros H. access. access. access. unfold third_stage in H. cbv zeta in H.
  destruct (sk_select _ _ _ =? 0) eqn:Es in H; [injection H as <- <- <-|injection H as <- <- <-].
  - access by Es. access. access. apply ends_now, same_world_refl.
  - access by Es. access. access. apply ends_now, same_world_refl.
Qed.

(** An undisturbed reception of a FLOW group does what the receive path does, in at most 15
    accesses. *)
Lemma receive_alone st md w sel st' w' :
  DISSECTOR_TYPE (dis_type (dis st)) = DISSECTOR_FLOW →
  rx_state md st w = (mk_rx SK_PASS sel, st', w') →
  ends 15 (mk_config st w [receive md]) (Rx_end sel) st' w'.
Proof.
  intros Ht H. unfold rx_state in H. cbv zeta in H.
  change (DISSECTOR_TYPE (dis_type (dis (METRIC_INC rx_processed_total st))))
    with (DISSECTOR_TYPE (dis_type (dis st))) in H. rewrite Ht in H.
  change (DISSECTOR_FLOW =? DISSECTOR_FLOW) with true in H. cbv iota in H.
  change (random_id (METRIC_INC rx_processed_total st)) with (random_id st) in H.
  access. destruct (dissector_flow md (u32 (-1)) (random_id st)) as [r hash] eqn:Ed.
  eapply ends_step.
  { reduce_call. change (random_id (METRIC_INC rx_processed_total st)) with (random_id st). rewrite Ed. reflexivity. }
  destruct (r =? 0); cbn [negb] in H |- *.
  2: { access. injection H as <- <- <-. apply (ends_mono 0); [lia|]. by apply ends_now, same_world_refl. }
  unfold have_hash in H. fold (entry w hash) in H. cbv zeta in H. unfold ktime_get_ns in H.
  access. destruct (entry w hash) as [e|] eqn:He.
  - access by He. access. assert (entry (tick w) hash = Some e) as Ht1 by exact He.
    access by Ht1.
    change (u64 (bpf_ktime_get_ns (w_tick w) - last_tx_ns e) <=? _)
      with (live (METRIC_INC rx_dissected_ok_total (METRIC_INC rx_processed_total st)) (bpf_ktime_get_ns (w_tick w)) e) in H.
    destruct (live _ _ e) eqn:Hl.
    + access by Ht1. set (w1 := log_if _ _ _ (tick w)) in *.
      assert (entry w1 hash = Some e) as Ht2 by (unfold w1; by rewrite entry_log).
      destruct (sk_select md (lru_cookie e) w1 =? 0) eqn:Es in H.
      * eapply ends_step; [reduce_call; rewrite Ht2; cbv beta iota; rewrite Es; reflexivity|].
        access. access. injection H as <- <- <-. apply (ends_mono 0); [lia|]. by apply ends_now, same_world_refl.
      * eapply ends_step; [reduce_call; rewrite Ht2; cbv beta iota; rewrite Es; reflexivity|].
        destruct (_ =? - EBADF) eqn:Eb in H;
          (eapply ends_step; [reduce_call; rewrite Eb; reflexivity|]); by apply third_alone.
    + access. access. apply (ends_mono 6); [lia|]. by apply third_alone.
  - access by He. access. access. apply (ends_mono 6); [lia|]. by apply third_alone.
Qed.
End Alone.

(** ** Counters *)

(** The cases of an access that happened. *)
Ltac call_cases H :=
  cbv beta iota zeta delta [call_step goto count take_for set_hash t_pc t_hash t_sock t_md t_incs t_flow
    ktime_get_ns mbind option_bind] in H;
  try match type of H with context [load_entry ?h ?w] => destruct (load_entry h w) eqn:? end;
  try match type of H with context [bpf_map_update_elem ?m ?k ?v ?f] => destruct (bpf_map_update_elem m k v f) eqn:? end;
  try match type of H with context [match ?md with Some _ => _ | None => None end] => destruct md; [|done] end;
  try match type of H with context [load_entry ?h ?w] => destruct (load_entry h w) eqn:? end;
  try match type of H with context [dissector_flow ?m ?h ?r] => destruct (dissector_flow m h r) end;
  try match type of H with context [match ?x with Some _ => Some _ | None => _ end] => destruct x end;
  repeat match type of H with context [if ?b then _ else _] => destruct b eqn:? end;
  simplify_eq; cbn [t_sock t_md t_hash t_pc t_incs t_flow].

Section Counters.
Context {K : Kernel}.

(** Why a packet is one of a new flow. *)
Definition new_incs : list (list metric) :=
  [[rx_flow_rg_conflict]; [rx_flow_other_error]; [rx_flow_new_unseen]; [rx_flow_new_had_expired; rx_flow_new_unseen]].
Definition rx_dissected : list metric := [rx_dissected_ok_total; rx_processed_total].

(** The counters a call has incremented when it reaches a point. *)
Definition counted (p : pc) (l : list metric) : Prop :=
  match p with
  | Enter | Rx_enter => l = []
  | Touch _ => l = [tx_flow_update_ok; tx_total]
  | From_expired => l = [tx_flow_create_ok; tx_total]
  | Expired_time | Stamp _ | Claim => l = [tx_flow_create_from_expired_ok; tx_flow_create_ok; tx_total]
  | Return r =>
      (r = 1 ∧ l ∈ [[tx_flow_create_ok; tx_total]; [tx_flow_update_ok; tx_total];
                    [tx_flow_create_from_expired_ok; tx_flow_create_ok; tx_total]]) ∨
      (r = 0 ∧ l ∈ [[tx_flow_create_error; tx_total]; [tx_flow_update_conflict; tx_total]])
  | Rx_parse | Rx_short | Rx_dissected => l = [rx_processed_total]
  | Rx_lookup | Rx_time _ | Rx_age _ | Rx_log | Rx_select | Rx_ok _ | Rx_fail _ | Rx_unseen _ => l = rx_dissected
  | Rx_ok_log _ => l = rx_flow_ok :: rx_dissected
  | Rx_had_expired => l = rx_flow_new_unseen :: rx_dissected
  | Rx_fail_log | Rx_new => ∃ t, t ∈ new_incs ∧ l = t ++ rx_dissected
  | Rx_pick | Rx_dispatch _ | Rx_dispatched _ | Rx_undispatched =>
      ∃ t, t ∈ new_incs ∧ l = rx_new_flow_total :: t ++ rx_dissected
  | Rx_new_log sel => ∃ t, t ∈ new_incs ∧ l =
      (match sel with Some _ => rx_new_flow_working_gen_dispatch_ok | None => rx_new_flow_working_gen_dispatch_error end)
      :: rx_new_flow_total :: t ++ rx_dissected
  | Rx_end sel => ∃ t, l = t ++ [rx_processed_total] ∧ first_incs [rx_packet_too_short_error] t sel
  | _ => l = [tx_total]
  end.

Lemma counted_new sel t :
  t ∈ new_incs →
  first_incs [rx_packet_too_short_error]
    ((match sel with Some _ => rx_new_flow_working_gen_dispatch_ok | None => rx_new_flow_working_gen_dispatch_error end)
      :: rx_new_flow_total :: t ++ [rx_dissected_ok_total]) sel.
Proof.
  intros Ht. right. right. eexists [_; _], t. split; [reflexivity|]. split.
  - destruct sel as [c|]; [left; split; [done|by eexists]|by right].
  - unfold new_incs in Ht. set_solver.
Qed.

Lemma step_counted st w t st' w' t' :
  call_step st w t = Some (st', w', t') → counted (t_pc t) (t_incs t) →
  counted (t_pc t') (t_incs t') ∧ ∃ l, t_incs t' = l ++ t_incs t ∧ st' = bump l st.
Proof.
  destruct t as [s md h p l f]. cbn [t_pc t_incs]. intros H Hl.
  assert (Hn : ∀ t sel, t ∈ new_incs → ∃ x, (match sel with Some _ => rx_new_flow_working_gen_dispatch_ok
      | None => rx_new_flow_working_gen_dispatch_error end) :: rx_new_flow_total :: t ++ rx_dissected
      = x ++ [rx_processed_total] ∧ first_incs [rx_packet_too_short_error] x sel).
  { intros x sel Hx. eexists. split; [|by apply (counted_new sel x)]. cbn [app]. by rewrite <- app_assoc. }
  destruct p; call_cases H; (split; [|first [by exists []|eexists [_]; split; reflexivity]]);
    cbn [counted] in *; simplify_eq; try done.
  all: repeat case_match; simplify_eq; try done; try set_solver.
  - exists [rx_packet_too_short_error]. split; [done|]. left. exists rx_packet_too_short_error. set_solver.
  - exists [rx_flow_ok; rx_dissected_ok_total]. split; [done|]. right. left. split; [done|by eexists].
  - exists [rx_flow_new_unseen]. set_solver.
  - destruct Hl as (t & ? & ->). by exists t.
  - destruct Hl as (t & ? & ->). by exists t.
  - destruct Hl as (t & ? & ->). by exists t.
  - destruct Hl as (t & Ht & ->). exact (Hn t (Some _) Ht).
  - destruct Hl as (t & Ht & ->). exact (Hn t None Ht).
Qed.

Lemma step_config st w t st' w' t' : call_step st w t = Some (st', w', t') → same_config st st'.
Proof.
  destruct t as [s md h p l f]. intros H.
  destruct p; call_cases H; first [apply (bump_config [])|apply (bump_config [_])].
Qed.

(** A call ends: its accesses, and a bound on those that it still has to do. *)
Definition call_left (p : pc) : nat :=
  match p with
  | Enter => 10 | Lookup => 9 | Found => 8 | Found_time => 7 | Check_age _ => 6
  | Expired => 5 | From_expired => 4 | Expired_time => 3 | Stamp _ => 2 | Claim => 1
  | Check_owner _ => 3 | Update _ => 2 | Touch _ => 1 | Conflict => 1
  | New => 4 | New_time => 3 | Insert _ => 2 | Created | Not_created => 1 | Return _ => 0
  | Rx_enter => 15 | Rx_parse => 14 | Rx_short => 1 | Rx_dissected => 13 | Rx_lookup => 12 | Rx_time _ => 11
  | Rx_age _ => 10 | Rx_log => 9 | Rx_select => 8 | Rx_ok _ => 2 | Rx_ok_log _ => 1 | Rx_fail _ => 7
  | Rx_unseen _ => 8 | Rx_had_expired => 7 | Rx_fail_log => 6 | Rx_new => 5 | Rx_pick => 4
  | Rx_dispatch _ => 3 | Rx_dispatched _ | Rx_undispatched => 2 | Rx_new_log _ => 1 | Rx_end _ => 0
  end.
Lemma call_progress st w t :
  match call_step st w t with
  | None => call_left (t_pc t) = 0%nat
  | Some (_, _, t') => (call_left (t_pc t') < call_left (t_pc t))%nat
  end.
Proof.
  destruct (call_step st w t) as [[[st' w'] t']|] eqn:H.
  - destruct t as [s md h p l f]. destruct p; call_cases H; cbn [call_left]; try lia; case_match; cbn; lia.
  - destruct t as [s md h p l f]. destruct p; try done; exfalso; revert H;
      cbv beta iota zeta delta [call_step goto count take_for set_hash t_pc t_hash t_sock t_md ktime_get_ns];
      repeat case_match; done.
Qed.
Lemma load_entry_frame h w v w' : load_entry h w = (v, w') → w_groups w' = w_groups w ∧ w_socks w' = w_socks w.
Proof. unfold load_entry. by case_match; intros [= _ <-]. Qed.
Lemma log_if_frame b fmt args w : w_groups (log_if b fmt args w) = w_groups w ∧ w_socks (log_if b fmt args w) = w_socks w.
Proof. destruct (logs_only_if w b fmt args). by split. Qed.
Lemma call_step_frame st w t st' w' t' :
  call_step st w t = Some (st', w', t') → w_groups w' = w_groups w ∧ w_socks w' = w_socks w.
Proof.
  destruct t as [s md h p l f]. intros H. destruct p; call_cases H; try done; try apply log_if_frame;
    try (by eapply load_entry_frame); try (unfold store_entry; by case_match).
  match goal with Hl : load_entry _ _ = _ |- _ => destruct (load_entry_frame _ _ _ _ Hl) as [<- <-] end.
  apply log_if_frame.
Qed.

(** Increments of one counter by all the calls. *)
Definition total (m : metric) (ts : list thread) : Z := foldr (λ t n, incs m (t_incs t) + n) 0 ts.

Lemma total_insert m ts i t t' :
  ts !! i = Some t → total m (<[i := t']> ts) = total m ts - incs m (t_incs t) + incs m (t_incs t').
Proof.
  revert i. induction ts as [|x ts IH]; intros [|i] H; simplify_eq/=; [lia|]. rewrite (IH _ H). lia.
Qed.
Lemma incs_app m l l' : incs m (l ++ l') = incs m l + incs m l'.
Proof. unfold incs. rewrite filter_app, length_app. lia. Qed.

(** In every configuration: the points and counters of the calls agree, the counters of
    the group are those of the start plus the increments made. *)
Definition all_counted (st0 : reuseport_storage) (c : race_config) : Prop :=
  Forall (λ t, counted (t_pc t) (t_incs t)) (c_threads c) ∧ same_config st0 (c_st c) ∧
  ∀ m, metrics (c_st c) m mod 2 ^ 64 = (metrics st0 m + total m (c_threads c)) mod 2 ^ 64.

Lemma all_counted_step st0 c i : all_counted st0 c → all_counted st0 (step_at c i).
Proof.
  intros (Ht & Hc & Hm). unfold step_at. destruct (c_threads c !! i) as [t|] eqn:Hi; [|done].
  destruct (call_step (c_st c) (c_world c) t) as [[[st w] t']|] eqn:Hs; [|done].
  destruct (step_counted _ _ _ _ _ _ Hs) as (Hct & l & El & ->).
  { by eapply (Forall_lookup_1 _ _ _ _ Ht Hi). }
  split_and!; cbn [c_threads c_st].
  - by apply Forall_insert.
  - destruct Hc as [f ->], (bump_config l (set_metrics f st0)) as [g ->]. by exists g.
  - intros m. rewrite bump_metrics, (total_insert _ _ _ _ _ Hi), El, incs_app.
    rewrite <- Z.add_mod_idemp_l, Hm, Z.add_mod_idemp_l by lia. f_equal. lia.
Qed.

Lemma all_counted_run st0 sched c : all_counted st0 c → all_counted st0 (run_calls sched c).
Proof.
  revert c. induction sched as [|i sched IH]; intros c Hc; [done|]. cbn [run_calls fold_left].
  apply IH, all_counted_step, Hc.
Qed.

(** A call that has not started, one that has ended, and one that returned [r]; receptions,
    and those that selected a socket. *)
Definition fresh (t : thread) : bool :=
  match t_pc t, t_incs t, t_flow t with Enter, [], None | Rx_enter, [], None => true | _, _, _ => false end.
Definition finished (t : thread) : bool :=
  match t_pc t with Return _ | Rx_end _ => true | _ => false end.
Definition returned (r : Z) (t : thread) : bool :=
  match t_pc t with Return r' => r' =? r | _ => false end.
Definition received (t : thread) : bool :=
  match t_pc t with Rx_end _ => true | _ => false end.
Definition selected (t : thread) : bool :=
  match t_pc t with Rx_end (Some _) => true | _ => false end.
Definition number (f : thread → bool) (ts : list thread) : Z :=
  foldr (λ t n, (if f t then 1 else 0) + n) 0 ts.

Lemma fresh_counted st w ts : forallb fresh ts = true → all_counted st (mk_config st w ts).
Proof.
  intros H. assert (Forall (λ t, t_incs t = [] ∧ counted (t_pc t) (t_incs t)) ts) as Hf.
  { apply Forall_forall. intros t Ht. rewrite forallb_forall in H. apply list_elem_of_In in Ht.
    specialize (H t Ht). unfold fresh in H. destruct t as [s md h p l f].
    cbn [t_pc t_incs t_flow] in *. by destruct p, l. }
  split_and!; cbn [c_threads c_st].
  - eapply Forall_impl; [exact Hf|]. by intros t [_ ?].
  - exists (metrics st). by destruct st.
  - intros m. assert (total m ts = 0) as ->; [|by rewrite Z.add_0_r].
    clear H. induction Hf as [|t ts [E _] _ IH]; [done|]. unfold total in *. cbn [foldr]. by rewrite E, IH.
Qed.

(** The balance of the counters of calls: [f] their increments, [n1] and [n0] the sends that
    returned 1 and 0, [nr] the receptions and [ns] those that selected a socket. *)
Record balanced (f : metric → Z) (n1 n0 nr ns : Z) : Prop := {
  bal_tx : f tx_total = n1 + n0;
  bal_owned : f tx_flow_create_ok + f tx_flow_update_ok = n1;
  bal_refused : f tx_flow_create_error + f tx_flow_update_conflict = n0;
  bal_rx : f rx_processed_total = nr;
  bal_parsed : f rx_packet_too_short_error + f rx_dissected_ok_total = nr;
  bal_flow : f rx_flow_ok + f rx_flow_rg_conflict + f rx_flow_other_error + f rx_flow_new_unseen
    = f rx_dissected_ok_total;
  bal_new : f rx_flow_rg_conflict + f rx_flow_other_error + f rx_flow_new_unseen = f rx_new_flow_total;
  bal_dispatch : f rx_new_flow_working_gen_dispatch_ok + f rx_new_flow_working_gen_dispatch_error
    = f rx_new_flow_total;
  bal_selected : f rx_flow_ok + f rx_new_flow_working_gen_dispatch_ok = ns;
}.
Definition number_of (b : bool) : Z := if b then 1 else 0.

(** The counters of a finished call follow from how it ended. *)
Lemma finished_incs t :
  finished t = true → counted (t_pc t) (t_incs t) →
  balanced (λ m, incs m (t_incs t)) (number_of (returned 1 t)) (number_of (returned 0 t))
    (number_of (received t)) (number_of (selected t)).
Proof.
  destruct t as [s md h p l f]. unfold finished, returned, received, selected. cbn [t_pc t_incs].
  destruct p as [| | | | | | | | | | | | | | | | | | |r| | | | | | | | | | | | | | | | | | | | | |sel];
    try discriminate; intros _; cbn [counted].
  - intros [[-> Hl]|[-> Hl]];
      repeat (apply elem_of_cons in Hl as [->|Hl]; [split; vm_compute; reflexivity|]);
      by apply not_elem_of_nil in Hl.
  - intros (t & -> & [(m & -> & Hm & ->)|[(-> & [c ->])|(t3 & t2 & -> & H3 & H2)]]).
    + apply list_elem_of_singleton in Hm as ->. split; vm_compute; reflexivity.
    + split; vm_compute; reflexivity.
    + destruct H3 as [(-> & [c ->])|(-> & ->)];
        repeat (apply elem_of_cons in H2 as [->|H2]; [split; vm_compute; reflexivity|]); by apply not_elem_of_nil in H2.
Qed.

Lemma finished_total ts :
  forallb finished ts = true → Forall (λ t, counted (t_pc t) (t_incs t)) ts →
  balanced (λ m, total m ts) (number (returned 1) ts) (number (returned 0) ts) (number received ts) (number selected ts).
Proof.
  intros Hf Hc. induction Hc as [|t ts Ht _ IH]; [by split|].
  cbn [forallb] in Hf. apply andb_prop in Hf as [H1 H2]. specialize (IH H2).
  destruct (finished_incs t H1 Ht), IH. unfold total, number, number_of in *. split; cbn [foldr]; lia.
Qed.
End Counters.

(** C21. No increment is lost: whatever sends ([flow_assure]) and packets received run at
    once on one FLOW group, and however their accesses to memory interleave, entries evicted
    in mid-call included, when they have ended the growth [d] of the group's counters
    accounts for every call once: [tx_total] for the sends, the creations and updates for
    those that returned 1, the errors and conflicts for those that returned 0;
    [rx_processed_total] for the packets, each of them either too short or dissected, each
    dissected one counted either as one of an existing flow or under the reason why it is
    not, the latter all in [rx_new_flow_total] and dispatched or not; and the packets that
    got a socket are those of [rx_flow_ok] and [rx_new_flow_working_gen_dispatch_ok]. *)
Theorem interleaved_counters {K : Kernel} st w ts sched :
  forallb fresh ts = true →
  let c := run_calls sched (mk_config st w ts) in
  forallb finished (c_threads c) = true →
  let d m := metrics (c_st c) m - metrics st m in
  let number f := number f (c_threads c) in
  u64 (d tx_total) = u64 (number (returned 1) + number (returned 0)) ∧
  u64 (d tx_flow_create_ok + d tx_flow_update_ok) = u64 (number (returned 1)) ∧
  u64 (d tx_flow_create_error + d tx_flow_update_conflict) = u64 (number (returned 0)) ∧
  u64 (d rx_processed_total) = u64 (number received) ∧
  u64 (d rx_packet_too_short_error + d rx_dissected_ok_total) = u64 (number received) ∧
  u64 (d rx_flow_ok + d rx_flow_rg_conflict + d rx_flow_other_error + d rx_flow_new_unseen)
    = u64 (d rx_dissected_ok_total) ∧
  u64 (d rx_new_flow_total) = u64 (d rx_flow_rg_conflict + d rx_flow_other_error + d rx_flow_new_unseen) ∧
  u64 (d rx_new_flow_working_gen_dispatch_ok + d rx_new_flow_working_gen_dispatch_error)
    = u64 (d rx_new_flow_total) ∧
  u64 (d rx_flow_ok + d rx_new_flow_working_gen_dispatch_ok) = u64 (number selected).
Proof.
  intros Hfr c Hfi d num. destruct (all_counted_run st sched _ (fresh_counted st w ts Hfr)) as (Ht & _ & Hm).
  fold c in Ht, Hm. destruct (finished_total _ Hfi Ht). subst num. cbv beta.
  assert (∀ m, eq64 (d m) (total m (c_threads c))) as Hd.
  { intros m. subst d. cbv beta. specialize (Hm m). change (eq64 (metrics (c_st c) m) (metrics st m + total m (c_threads c))) in Hm.
    rewrite Hm. unfold eq64. f_equal. lia. }
  clearbody d. clear Hm. cbv beta in *. split_and!.
  all: match goal with |- u64 ?a = u64 ?b => change (eq64 a b) end; rewrite !Hd; unfold eq64; f_equal; lia.
Qed.

(** ** Ownership *)

(** The entry names the socket with cookie [c]. *)
Definition names (o : option lru_value) (c : Z) : Prop := ∃ e, o = Some e ∧ lru_cookie e = c.

Section Ownership.
Context {K : Kernel}.

(** The next access of call [i] loads a timestamp that is later than the time it read: an
    other call has stamped the entry in between. *)
Definition overtaken (h : Z) (c : race_config) (i : nat) : bool :=
  match c_threads c !! i with
  | Some t =>
      match t_pc t, entry (c_world c) h with
      | Check_age now, Some e | Rx_age now, Some e => (t_hash t =? h) && (now <? last_tx_ns e)
      | _, _ => false
      end
  | None => false
  end.
Definition present (h : Z) (c : race_config) : bool := bool_decide (is_Some (entry (c_world c) h)).

(** No call is overtaken on flow [h] and its entry is not evicted. *)
Fixpoint undisturbed (h : Z) (sched : list nat) (c : race_config) : bool :=
  match sched with
  | [] => true
  | i :: sched =>
      negb (overtaken h c i) && implb (present h c) (present h (step_at c i)) &&
      undisturbed h sched (step_at c i)
  end.

Lemma tick_load hash w v w' : load_entry hash w = (v, w') → (w_tick w <= w_tick w')%nat.
Proof. unfold load_entry. case_match; intros [= <- <-]; cbn; lia. Qed.
Lemma tick_store hash f w : w_tick (store_entry hash f w) = w_tick w.
Proof. unfold store_entry. by case_match. Qed.
Lemma tick_log b fmt args w : (w_tick w <= w_tick (log_if b fmt args w))%nat.
Proof. apply (lo_tick _ _ (logs_only_if w _ _ _)). Qed.

Lemma tick_step st w t st' w' t' : call_step st w t = Some (st', w', t') → (w_tick w <= w_tick w')%nat.
Proof.
  destruct t as [s md h p l f]. intros H. destruct p; call_cases H; cbn [w_tick tick set_flows]; rewrite ?tick_store;
    try lia; try apply tick_log; try (by eapply tick_load).
  etrans; [by eapply tick_load|apply tick_log].
Qed.
Lemma tick_step_at c i : (w_tick (c_world c) <= w_tick (c_world (step_at c i)))%nat.
Proof.
  unfold step_at. destruct (c_threads c !! i) as [t|]; [|lia].
  destruct (call_step (c_st c) (c_world c) t) as [[[st w] t']|] eqn:Hs; [|lia]. by eapply tick_step.
Qed.
Lemma tick_run sched c : (w_tick (c_world c) <= w_tick (c_world (run_calls sched c)))%nat.
Proof.
  revert c. induction sched as [|i sched IH]; intros c; [done|]. cbn [run_calls fold_left].
  pose proof (tick_step_at c i). specialize (IH (step_at c i)). unfold run_calls in IH. lia.
Qed.
End Ownership.

Section Owner.
Context {K : Kernel} {L : KernelLaws}.
Context (h T : Z) (st0 : reuseport_storage) (o0 : option lru_value).
Hypothesis HT : 0 <= T ∧ T + SEC_TO_NSEC (flow_timeout_sec st0) < 2 ^ 64.

(** Times so close that no entry expires between them. *)
Definition recent (now : Z) : Prop := T <= now <= T + SEC_TO_NSEC (flow_timeout_sec st0).

Lemma recent_live st now e :
  same_config st0 st → recent now → recent (last_tx_ns e) → last_tx_ns e <= now → live st now e = true.
Proof.
  intros [f ->] H1 H2 Hle. unfold live, recent in *. apply Z.leb_le.
  change (flow_timeout_sec (set_metrics f st0)) with (flow_timeout_sec st0).
  unfold u64. rewrite Z.mod_small; lia.
Qed.

(** What an access does to the entry of [h]. *)
Inductive access (t t' : thread) : option lru_value → option lru_value → Prop :=
  | A_none o : access t t' o o
  | A_evicted o : access t t' o None
  | A_insert val : t_hash t = h → t_pc t = Insert val → t_pc t' = Created → access t t' None (Some val)
  | A_touch now e : t_hash t = h → t_pc t = Touch now →
      access t t' (Some e) (Some (mk_lru now (lru_cookie e)))
  | A_stamp now e o : t_hash t = h → t_pc t = Stamp now → access t t' (Some e) o
  | A_claim e o : t_hash t = h → t_pc t = Claim → access t t' (Some e) o.

Lemma put_entry_access t t' w e :
  entry w (t_hash t) = Some e →
  ∀ e', (t_hash t = h → access t t' (Some e) (Some e')) →
  access t t' (entry w h) (entry (put_entry (t_hash t) e' w) h).
Proof.
  intros He e' Ha. rewrite (entry_put _ _ _ _ _ He). destruct (decide (h = t_hash t)) as [->|]; [|constructor].
  rewrite He. by apply Ha.
Qed.

Lemma load_keeps hash w v w' : load_entry hash w = (v, w') → entry w' h = entry w h.
Proof. unfold load_entry. by case_match; intros [= _ <-]. Qed.
Lemma store_access t t' w f :
  (∀ e, t_hash t = h → entry w h = Some e → access t t' (Some e) (Some (f e))) →
  access t t' (entry w h) (entry (store_entry (t_hash t) f w) h).
Proof.
  intros Ha. unfold store_entry. destruct (entry w (t_hash t)) as [e|] eqn:He; [|constructor].
  apply (put_entry_access t t' w e He). intros Hh. apply Ha; [done|]. by rewrite <- Hh.
Qed.

Lemma step_access st w t st' w' t' :
  call_step st w t = Some (st', w', t') → access t t' (entry w h) (entry w' h).
Proof.
  destruct t as [s md hash p l f]. intros H.
  destruct p; call_cases H; rewrite ?entry_log; try apply A_none;
    try (match goal with Hl : load_entry _ _ = _ |- _ => rewrite (load_keeps _ _ _ _ Hl); apply A_none end).
  - match goal with Hu : bpf_map_update_elem _ _ _ _ = (?m, ?r) |- _ => rename Hu into E; rename m into g; rename r into q end.
    unfold entry. cbn [w_flows set_flows]. destruct (decide (h = hash)) as [->|Hne].
    + match goal with Hq : (q =? 0) = true |- _ => apply Z.eqb_eq in Hq as -> end.
      rewrite (map_update_ok (exact := false) _ _ _ _ _ E), (map_update_noexist (exact := false) _ _ _ _ E).
      by constructor.
    + destruct (map_update_other (exact := false) _ _ _ _ _ _ h E Hne) as [->|[_ ->]]; constructor.
  - match goal with Hu : bpf_map_update_elem _ _ _ _ = (?m, ?r) |- _ => rename Hu into E; rename m into g; rename r into q end.
    unfold entry. cbn [w_flows set_flows]. destruct (decide (h = hash)) as [->|Hne].
    + match goal with Hq : (q =? 0) = false |- _ => apply Z.eqb_neq in Hq; rename Hq into Hr end.
      destruct (map_update_fail (exact := false) _ _ _ _ _ _ E Hr) as [->|[_ ->]]; constructor.
    + destruct (map_update_other (exact := false) _ _ _ _ _ _ h E Hne) as [->|[_ ->]]; constructor.
  - apply (store_access (mk_thread s md hash _ l f)). intros e Hh _. by apply A_touch.
  - apply (store_access (mk_thread s md hash _ l f)). intros e Hh _. by eapply A_stamp.
  - apply (store_access (mk_thread s md hash _ l f)). intros e Hh _. by apply A_claim.
Qed.

(** What holds of a call on [h] at each point, for the entry [o]. *)
Definition unparsed (t : thread) : Prop :=
  match t_pc t with Rx_enter | Rx_parse => t_flow t = None | _ => True end.
Definition owns (o : option lru_value) (t : thread) : Prop :=
  unparsed t ∧ (t_hash t = h →
  match t_pc t with
  | Insert val => recent (last_tx_ns val) ∧ lru_cookie val = so_cookie (t_sock t)
  | Found | Found_time | Rx_log | Rx_select | Rx_time true => is_Some o
  | Check_age now | Check_owner now | Rx_age now => is_Some o ∧ recent now
  | Update now | Touch now => recent now ∧ names o (so_cookie (t_sock t))
  | Created => names o (so_cookie (t_sock t))
  | Return r => r = 1 → names o (so_cookie (t_sock t))
  | Expired | From_expired | Expired_time | Stamp _ | Claim => False
  | Rx_time false => o0 = None
  | _ => True
  end ∧
  match t_flow t with Some (Some ck) => names o ck | Some None => o0 = None | None => True end).

(** The entry is recent and names the owner it had at the start. *)
Definition entry_ok (o : option lru_value) : Prop :=
  (∀ e, o = Some e → recent (last_tx_ns e)) ∧ (∀ e, o0 = Some e → names o (lru_cookie e)).

Lemma owns_keeps o o' t : (∀ ck, names o ck → names o' ck) → (is_Some o → is_Some o') → owns o t → owns o' t.
Proof.
  intros Hk Hs [Hu Ho]. split; [done|]. intros Hh. destruct (Ho Hh) as [Hp Hf]. split.
  - destruct (t_pc t); try exact Hp; try (by destruct Hp; split; auto); try (by auto).
    by destruct found; auto.
  - destruct (t_flow t) as [[ck|]|]; auto.
Qed.

Lemma access_keeps t t' o o' :
  access t t' o o' → owns o t → entry_ok o → (is_Some o → is_Some o') →
  (∀ ck, names o ck → names o' ck) ∧ entry_ok o'.
Proof.
  intros Ha Ho Hok Hs.
  assert ((∀ ck, names o ck → names o' ck) ∧ ((∀ e, o = Some e → recent (last_tx_ns e)) →
    ∀ e, o' = Some e → recent (last_tx_ns e))) as [Hk Hr].
  { destruct Ha as [o|o|val Hh Hp Hp'|now e Hh Hp|now e o Hh Hp|e o Hh Hp];
      try (destruct (proj2 Ho Hh) as [Hpt _]; rewrite Hp in Hpt).
    - by split.
    - split; [|by intros ? ? [=]]. intros ck (e & -> & _). destruct Hs; [by eexists|done].
    - split; [intros ck (e & [=] & _)|]. intros _ e [= <-]. apply Hpt.
    - split; [intros ck (e' & [= <-] & Hck); by eexists|]. intros _ e' [= <-]. apply Hpt.
    - done.
    - done. }
  split; [done|]. destruct Hok as [H1 H2]. split; [by apply Hr|]. intros e He. apply Hk, H2, He.
Qed.

(** One access of one call. *)
Lemma step_owns st w t st' w' t' :
  call_step st w t = Some (st', w', t') → same_config st0 st → owns (entry w h) t → entry_ok (entry w h) →
  (∀ n, (w_tick w <= n < w_tick w')%nat → recent (bpf_ktime_get_ns n)) →
  (∀ now e, t_hash t = h → t_pc t = Check_age now ∨ t_pc t = Rx_age now → entry w h = Some e → last_tx_ns e <= now) →
  (∀ ck, names (entry w h) ck → names (entry w' h) ck) → (is_Some (entry w h) → is_Some (entry w' h)) →
  owns (entry w' h) t'.
Proof.
  destruct t as [s md hash p l f]. intros H Hc [Hu Ho] [Hr Hn] Hclk Hover Hk Hs.
  assert (∀ v w1, hash = h → is_Some (entry w h) → load_entry hash w = (v, w1) → w1 = w ∧ entry w h = Some v) as Hload.
  { intros v w1 -> [e He]. unfold load_entry. rewrite He. by intros [= <- <-]. }
  assert (∀ now v w1, hash = h → is_Some (entry w h) → recent now → load_entry hash w = (v, w1) →
    p = Check_age now ∨ p = Rx_age now → live st now v = true) as Hlive.
  { intros now v w1 Hh Hsome Hrec Hl Hp. destruct (Hload v w1 Hh Hsome Hl) as [_ He].
    apply recent_live; [done|done|by apply Hr|by apply (Hover now)]. }
  destruct p; call_cases H; cbn [unparsed t_hash t_pc t_sock t_flow] in *; (split; [done|]);
    cbn [unparsed t_hash t_pc t_sock t_flow] in *; intros Hh.
  all: try (specialize (Ho Hh); destruct Ho as [Ho Hf]).
  all: try (split; [|destruct f as [[ck|]|]; [by apply Hk|done|done]]).
  all: try done.
  - subst hash. by eexists.
  - split; [apply Hclk; cbn; lia|done].
  - subst hash. match goal with Hq : (?q =? 0) = true, Hu : bpf_map_update_elem _ _ _ _ = (_, ?q) |- _ =>
      apply Z.eqb_eq in Hq as ->; eexists; split; [exact (map_update_ok (exact := false) _ _ _ _ _ Hu)|apply Ho] end.
  - by apply Hs.
  - split; [by apply Hs|apply Hclk; cbn; lia].
  - destruct Ho. split; [by apply Hs|done].
  - destruct Ho as [Ho1 Ho2].
    match goal with Hv : live _ _ _ = false |- _ =>
      rewrite (Hlive _ _ _ Hh Ho1 Ho2 eq_refl ltac:(by left)) in Hv; discriminate Hv end.
  - destruct Ho as [Ho1 Ho2]. split; [done|]. destruct (Hload _ _ Hh Ho1 eq_refl) as [-> He]. eexists. split; [exact He|by apply Z.eqb_eq].
  - intros _. apply Hk, Ho.
  - subst hash. by eexists.
  - subst hash. destruct o0 as [e|] eqn:E0; [|done]. destruct (Hn e eq_refl) as (? & ? & _). congruence.
  - split; [by apply Hs|apply Hclk; cbn; lia].
  - destruct Ho. by apply Hs.
  - destruct Ho as [Ho1 Ho2].
    match goal with Hv : live _ _ _ = false |- _ =>
      rewrite (Hlive _ _ _ Hh Ho1 Ho2 eq_refl ltac:(by right)) in Hv; discriminate Hv end.
  - by apply Hs.
  - split; [done|]. destruct (Hload _ _ Hh Ho eq_refl) as [-> He]. by eexists.
  - split; [done|]. destruct (Hload _ _ Hh Ho eq_refl) as [-> He]. by eexists.
Qed.
End Owner.

(** ** Runs *)
Section Runs.
Context {K : Kernel} {L : KernelLaws}.
Context (h T : Z) (st0 : reuseport_storage) (o0 : option lru_value).
Hypothesis HT : 0 <= T ∧ T + SEC_TO_NSEC (flow_timeout_sec st0) < 2 ^ 64.

Definition owned (c : race_config) : Prop :=
  same_config st0 (c_st c) ∧ entry_ok T st0 o0 (entry (c_world c) h) ∧
  Forall (owns h T st0 o0 (entry (c_world c) h)) (c_threads c).

Lemma owned_step c i :
  owned c → overtaken h c i = false → implb (present h c) (present h (step_at c i)) = true →
  (∀ n, (w_tick (c_world c) <= n < w_tick (c_world (step_at c i)))%nat → recent T st0 (bpf_ktime_get_ns n)) →
  owned (step_at c i).
Proof.
  intros (Hc & He & Ht) Hover Hp Hclk. revert Hp Hclk. unfold step_at.
  destruct (c_threads c !! i) as [t|] eqn:Hi; [|done].
  destruct (call_step (c_st c) (c_world c) t) as [[[st w] t']|] eqn:Hs; [|done].
  unfold present. cbn [c_world]. intros Hp Hclk.
  assert (owns h T st0 o0 (entry (c_world c) h) t) as Ho by exact (Forall_lookup_1 _ _ _ _ Ht Hi).
  assert (is_Some (entry (c_world c) h) → is_Some (entry w h)) as Hsome.
  { intros H. rewrite (bool_decide_eq_true_2 _ H) in Hp. by apply bool_decide_eq_true_1 in Hp. }
  destruct (access_keeps h T st0 o0 t t' _ _ (step_access h _ _ _ _ _ _ Hs) Ho He Hsome) as [Hk He'].
  split_and!; cbn [c_st c_world c_threads].
  - destruct Hc as [f Hf], (step_config _ _ _ _ _ _ Hs) as [g Hg]. exists g. by rewrite Hg, Hf.
  - done.
  - apply Forall_insert; [by eapply Forall_impl; [exact Ht|]; intros x Hx; eapply owns_keeps|].
    eapply (step_owns h T st0 o0 HT); try done. intros now e Hh Hpc Hent.
    unfold overtaken in Hover. rewrite Hi, Hent in Hover.
    destruct Hpc as [Hpc|Hpc]; rewrite Hpc, Hh, Z.eqb_refl in Hover; cbn [andb] in Hover; by apply Z.ltb_ge.
Qed.

Lemma owned_run sched c :
  owned c → undisturbed h sched c = true →
  (∀ n, (w_tick (c_world c) <= n < w_tick (c_world (run_calls sched c)))%nat → recent T st0 (bpf_ktime_get_ns n)) →
  owned (run_calls sched c).
Proof.
  revert c. induction sched as [|i sched IH]; intros c Hc Hu Hclk; [done|].
  cbn [run_calls fold_left] in *. apply andb_prop in Hu as [[Ho Hp]%andb_prop Hu]. apply negb_true_iff in Ho.
  pose proof (tick_step_at c i). pose proof (tick_run sched (step_at c i)) as Hr. unfold run_calls in Hr.
  apply IH; [|done|].
  - apply owned_step; try done. intros n Hn. apply Hclk. lia.
  - intros n Hn. apply Hclk. unfold run_calls in Hn. lia.
Qed.
End Runs.

(** C20. Agreement on a flow: whatever sends and receptions run at once and however their
    accesses interleave, within one timeout and as long as the entry of a flow is not
    evicted and no call on it is overtaken (an other call stamps the entry between its
    reading of the clock and of the timestamp), an entry that was there names the socket it
    named; every send that returned 1 is of the socket the entry names, so at most one
    socket believes it owns the flow; and every packet received goes to that socket, a
    packet of a known flow never being taken for a new one. *)
Theorem interleaved_owner {K : Kernel} {L : KernelLaws} st w ts sched h T :
  forallb fresh ts = true →
  let c := run_calls sched (mk_config st w ts) in
  let limit := T + SEC_TO_NSEC (flow_timeout_sec st) in
  undisturbed h sched (mk_config st w ts) = true →
  0 <= T → limit < 2 ^ 64 →
  (∀ n, (w_tick w <= n < w_tick (c_world c))%nat → T <= bpf_ktime_get_ns n <= limit) →
  (∀ e, entry w h = Some e → T <= last_tx_ns e <= limit) →
  (∀ e, entry w h = Some e → names (entry (c_world c) h) (lru_cookie e)) ∧
  ∀ t, t ∈ c_threads c → t_hash t = h →
    match t_pc t with
    | Return 1 => names (entry (c_world c) h) (so_cookie (t_sock t))
    | _ => True
    end ∧
    match t_flow t with
    | Some (Some ck) => names (entry (c_world c) h) ck
    | Some None => entry w h = None
    | None => True
    end.
Proof.
  intros Hfr c limit Hu HT Hlim Hclk He.
  assert (owned h T st (entry w h) c) as (_ & Hok & Ht).
  { apply owned_run; [by split| |done|done]. split_and!; cbn [c_st c_world c_threads].
    - exists (metrics st). by destruct st.
    - split; [exact He|]. intros e Ee. by exists e.
    - apply Forall_forall. intros t Hin. rewrite forallb_forall in Hfr. apply list_elem_of_In in Hin.
      specialize (Hfr t Hin). unfold fresh in Hfr. destruct t as [s md hash p l f]. cbn [t_pc t_incs t_flow] in Hfr.
      by destruct p, l, f. }
  split; [apply Hok|]. intros t Hin Hh. rewrite Forall_forall in Ht. destruct (Ht t Hin) as [_ Ho].
  destruct (Ho Hh) as [Hp Hf]. split; [|done]. destruct (t_pc t); try done. by destruct r as [|[]|]; auto.
Qed.

(** ** Evaluation *)
Section Witnesses.
#[local] Existing Instance good_kernel.

Definition sock_a : socket_storage := mk_sock 0 0 0 42 5.
Definition sock_b : socket_storage := mk_sock 0 1 0 41 5.
(** Two sockets send to one address at once, a packet comes back; one access each in turn. *)
Definition flow_hash : Z := snd (dissector_flow flow_md (u32 (-1)) (random_id flow_group)).
Definition race_calls : list thread := [send sock_a flow_hash; send sock_b flow_hash; receive flow_md].
Definition race_sched : list nat := [0; 1; 0; 1; 0; 1]%nat ++ concat (repeat [0; 1; 2]%nat 15).
Abbreviation race_end := (run_calls race_sched (mk_config flow_group flow_world race_calls)).

Lemma interleaved_counters_witness :
  (let d m := metrics (c_st race_end) m - metrics flow_group m in
   u64 (d tx_total) = 2 ∧ u64 (d rx_processed_total) = 1 ∧
   u64 (d rx_flow_ok + d rx_flow_rg_conflict + d rx_flow_other_error + d rx_flow_new_unseen) = u64 (d rx_dissected_ok_total) ∧
   u64 (d rx_flow_ok + d rx_new_flow_working_gen_dispatch_ok) = 1) ∧
  map t_pc (c_threads race_end) = [Return 1; Return 0; Rx_end (Some 42)].
Proof.
  split; [|vm_compute; reflexivity].
  destruct (interleaved_counters flow_group flow_world race_calls race_sched eq_refl) as
    (H1 & _ & _ & H2 & _ & H3 & _ & _ & H4); [vm_compute; reflexivity|].
  assert (number (returned 1) (c_threads race_end) = 1) as E1 by (vm_compute; reflexivity).
  assert (number (returned 0) (c_threads race_end) = 1) as E0 by (vm_compute; reflexivity).
  assert (number received (c_threads race_end) = 1) as Er by (vm_compute; reflexivity).
  assert (number selected (c_threads race_end) = 1) as Es by (vm_compute; reflexivity).
  cbv zeta in H1, H2, H3, H4 |- *. rewrite E1, E0 in H1. rewrite Er in H2. rewrite Es in H4.
  split_and!; [exact H1|exact H2|exact H3|exact H4].
Defined.

Lemma race_end_thread : c_threads race_end !! 0%nat =
  Some (mk_thread sock_a no_packet flow_hash (Return 1) [tx_flow_create_ok; tx_total] None).
Proof. vm_compute. reflexivity. Qed.
Lemma race_ticks : w_tick (c_world race_end) = 3%nat.
Proof. vm_compute. reflexivity. Qed.

Lemma race_undisturbed : undisturbed flow_hash race_sched (mk_config flow_group flow_world race_calls) = true.
Proof. vm_compute. reflexivity. Qed.
Lemma race_clock n :
  (w_tick flow_world <= n < w_tick (c_world race_end))%nat →
  5000000000 <= bpf_ktime_get_ns n <= 5000000000 + SEC_TO_NSEC (flow_timeout_sec flow_group).
Proof.
  rewrite race_ticks. change (w_tick flow_world) with 0%nat. intros Hn.
  assert (SEC_TO_NSEC (flow_timeout_sec flow_group) = 125000000000) as -> by (vm_compute; reflexivity).
  cbn [bpf_ktime_get_ns good_kernel test_kernel]. lia.
Qed.
Lemma race_absent : entry flow_world flow_hash = None.
Proof. vm_compute. reflexivity. Qed.

Lemma interleaved_owner_witness :
  names (entry (c_world race_end) flow_hash) (so_cookie sock_a).
Proof.
  assert (∀ e, entry flow_world flow_hash = Some e →
    5000000000 <= last_tx_ns e <= 5000000000 + SEC_TO_NSEC (flow_timeout_sec flow_group)) as He.
  { intros e He. rewrite race_absent in He. discriminate He. }
  destruct (interleaved_owner flow_group flow_world race_calls race_sched flow_hash 5000000000 eq_refl
    race_undisturbed ltac:(lia) ltac:(vm_compute; reflexivity) race_clock He) as [_ H].
  exact (proj1 (H _ (list_elem_of_lookup_2 _ _ _ race_end_thread) eq_refl)).
Defined.

(** The entry of [sock_b] is live all the time. [sock_a] reads the clock; [sock_b] refreshes
    the entry; [sock_a] now loads a timestamp after its own time, the unsigned difference is
    huge, and the entry counts as expired. *)
Definition live_world : world := set_flows (<[flow_hash := mk_lru 4000000000 41]> (∅ : gmap Z lru_value)) flow_world.
Definition overtaking : list nat := repeat 0%nat 4 ++ repeat 1%nat 8 ++ repeat 0%nat 6.
Example overtaken_send_steals :
  let c := run_calls overtaking (mk_config flow_group live_world [send sock_a flow_hash; send sock_b flow_hash]) in
  (lru_cookie <$> entry (c_world c) flow_hash, map t_pc (c_threads c)) = (Some 42, [Return 1; Return 1]).
Proof. vm_compute. reflexivity. Qed.

(** The receive path: the packet of a live flow is taken for a new one. *)
Example overtaken_packet_is_new :
  let c := run_calls (repeat 0%nat 5 ++ repeat 1%nat 8 ++ repeat 0%nat 10)
    (mk_config flow_group live_world [receive flow_md; send sock_b flow_hash]) in
  map t_flow (c_threads c) = [Some None; None] ∧ forallb finished (c_threads c) = true.
Proof. vm_compute. by split. Qed.

(** A call whose entry is evicted under it goes on. *)
Definition evict (c : race_config) : race_config :=
  mk_config (c_st c) (set_flows (∅ : gmap Z lru_value) (c_world c)) (c_threads c).
Example evicted_send_ends :
  let c := run_calls (repeat 0%nat 9) (evict (run_calls (repeat 0%nat 3)
    (mk_config flow_group live_world [send sock_b flow_hash]))) in
  map t_pc (c_threads c) = [Return 0].
Proof. vm_compute. reflexivity. Qed.
End Witnesses.
