(* ===== verification/Hooks.v ===== *)
(** The socket hooks of [ebpf/ebpf.c]: setsockopt, getsockopt, bind, and the program
    the daemon runs to write a group's storage ([udpgrm_cb_update_map]).

    [ctx->optlen], the return value set with [bpf_set_retval] and the option buffer
    are fields of the result. *)

From S2P Require Import Prelude Cookie SipHash Storage Cbpf Dissector Reuseport Flow.

(** [struct bpf_sockopt]: [so_optval] is the memory from [optval] to [optval_end];
    [so_get_retval] is what [bpf_get_retval] answers, [so_pid] the current task. *)
Record bpf_sockopt := mk_sockopt {
  so_sk : bpf_sock;
  so_level : Z;
  so_optname : Z;
  so_optlen : Z;
  so_optval : list Z;
  so_get_retval : Z;
  so_pid : Z;
}.

Record sockopt_result := mk_sores {
  sr_ret : Z;
  sr_optlen : Z;
  sr_retval : Z;
  sr_optval : list Z;
}.

Definition PERCPU_ARRAY_SIZE : nat := 0x400.
(** [sizeof(union setsockopt_opts)] and [sizeof(struct sockaddr_in6)]. *)
Definition setsockopt_opts_SZ : nat := 632.
Definition sockaddr_in6_SZ : nat := 28.

(** [memcmp]: zero for equal ranges, else of the sign of the first difference. *)
Fixpoint memcmp (a b : list Z) : Z :=
  match a, b with
  | x :: a, y :: b => if x =? y then memcmp a b else x - y
  | _, _ => 0
  end.

Definition dissector_cmp (a b : list Z) : Z :=
  if negb (DISSECTOR_TYPE (dis_type a) =? DISSECTOR_TYPE (dis_type b)) then -1
  else memcmp (slice a 4 (DISSECTOR_SZ - 4)) (slice b 4 (DISSECTOR_SZ - 4)).

(** The first size of the copy ladder that fits between [optval] and [optval_end]. *)
Definition first_fit (sizes : list nat) (optval : list Z) : option nat :=
  find (λ n, (n <=? length optval)%nat) sizes.
Definition setsockopt_sizes : list nat :=
  [setsockopt_opts_SZ; 116 + 4 + 256; 116; sockaddr_in6_SZ; 16; 12; 8; 4]%nat.
Definition getsockopt_sizes : list nat :=
  [setsockopt_opts_SZ; 116 + 4 + 256; 116; 16; 12; 8; 4]%nat.

(** The members of [union setsockopt_opts]. *)
Definition data_dis (data : list Z) : list Z := slice data 0 DISSECTOR_SZ.
Definition data_u32 (data : list Z) (off : nat) : Z := load 4 data off.
Definition sin_family (data : list Z) : Z := load 2 data 0.
Definition sin_port (data : list Z) : Z := load 2 data 2.
Definition sin_addr (data : list Z) : list Z := slice data 4 4.
Definition sin6_addr (data : list Z) : list Z := slice data 8 16.

(** The checks on a new dissector; [true] is [fail]. *)
Definition dissector_invalid (d : list Z) : bool :=
  let type := DISSECTOR_TYPE (dis_type d) in
  if type =? DISSECTOR_FLOW then
    negb (dis_filter_len d =? 0) || negb (dis_max_apps d =? 0) || negb (dis_bespoke_digest d =? 0)
  else if type =? DISSECTOR_CBPF then
    (dis_filter_len d <? 1) || (MAX_INSTR <? dis_filter_len d) || (MAX_APPS <? dis_max_apps d)
      || negb (dis_bespoke_digest d =? 0)
  else if type =? DISSECTOR_BESPOKE then
    (* the only assignment of this case is [fail = 0] *)
    false
  else if type =? DISSECTOR_NOOP then
    negb (dis_filter_len d =? 0) || negb (dis_max_apps d =? 0) || negb (dis_bespoke_digest d =? 0)
  else true.

Definition set_sock_gen v s := mk_sock v (sock_idx s) (sock_app s) (so_cookie s) (so_netns_cookie s).
Definition set_sock_app v s := mk_sock (sock_gen s) (sock_idx s) v (so_cookie s) (so_netns_cookie s).

Section Setsockopt.
Context {K : Kernel}.

(** [bpf_set_retval(-e); return 0], and [ctx->optlen = -1; bpf_set_retval(0); return 1]. *)
Definition reject (ctx : bpf_sockopt) (e : Z) : sockopt_result :=
  mk_sores 0 (so_optlen ctx) (- e) (so_optval ctx).
Definition accept (ctx : bpf_sockopt) : sockopt_result :=
  mk_sores 1 (-1) 0 (so_optval ctx).
Definition pass (ctx : bpf_sockopt) : sockopt_result :=
  mk_sores 1 (so_optlen ctx) (so_get_retval ctx) (so_optval ctx).
Definition pass_thru (ctx : bpf_sockopt) : sockopt_result :=
  mk_sores 1 (if 4096 <? so_optlen ctx then 0 else so_optlen ctx) (so_get_retval ctx) (so_optval ctx).

Definition not_ours (ctx : bpf_sockopt) : bool :=
  negb ((so_level ctx =? IPPROTO_UDP) && (_UDP_GRM_MIN <=? so_optname ctx)
        && (so_optname ctx <=? _UDP_GRM_MAX)).

(** [empty_percpu_page]: the page, zeroed. *)
Definition empty_percpu_page (w : world) : option (list Z) * world :=
  (if percpu_page_ok (w_tick w) then Some (zeros PERCPU_ARRAY_SIZE) else None, tick w).

Definition EV_WORKING_GEN_SZ : Z := 40.
Definition EV_REGISTER_SZ : Z := 52.
Definition EV_VALUE_SZ : Z := 32.

(** [if (ctx->optname == UDP_GRM_WORKING_GEN)] *)
Definition set_working_gen_opt (ctx : bpf_sockopt) (data : list Z) (s : socket_storage)
  (st : reuseport_storage) (w : world) : sockopt_result * world :=
  let skey := _skey_from_bpf_sock (so_sk ctx) in
  let app_idx := sock_app s mod MAX_APPS in
  let '(event, w) := ringbuf_reserve EV_WORKING_GEN_SZ w in
  match event with
  | None => (reject ctx EAGAIN, log_printf "[!] Error: rb failed: EGAIN" [] w)
  | Some _ =>
      let pos := List.length (w_rb w) in
      let gen := data_u32 data 0 in
      let old := s32 (nthZ (working_gen st) app_idx) in
      let st := set_working_gen (<[Z.to_nat app_idx := gen]> (working_gen st)) st in
      let w := put_state (so_sk ctx) st w in
      let event := mk_msg MSG_SET_WORKING_GEN skey (M_app app_idx gen) in
      let w := log_printfs skey "[+] setting working gen %d (old=%d) (app=%d)" [gen; old; app_idx] w in
      (accept ctx, rb_submit pos event w)
  end.

(** [if (ctx->optname == UDP_GRM_SOCKET_GEN)] *)
Definition set_socket_gen_opt (ctx : bpf_sockopt) (data : list Z) (s : socket_storage) (w : world)
  : sockopt_result * world :=
  let skey := _skey_from_bpf_sock (so_sk ctx) in
  let gen := data_u32 data 0 in
  if negb (sock_gen s =? gen) || (sock_idx s =? 0xffffffff) then
    let '(event, w) := ringbuf_reserve EV_REGISTER_SZ w in
    match event with
    | None => (reject ctx EAGAIN, log_printf "[!] Error: rb failed, EGAIN" [] w)
    | Some _ =>
        let pos := List.length (w_rb w) in
        let s := set_sock_gen gen s in
        let w := put_sock (bs_id (so_sk ctx)) s w in
        let event := mk_msg MSG_REGISTER_SOCKET skey (M_reg (so_pid ctx) (so_cookie s) gen (sock_app s)) in
        let w := log_printfs skey "[+] registering socket " [] w in
        let w := log_printf "so_cookie=0x%lx app=%d gen=%d pid=%d"
                   [so_cookie s; sock_app s; sock_gen s; so_pid ctx] w in
        (accept ctx, rb_submit pos event w)
    end
  else (accept ctx, w).

(** [!!(type & DISSECTOR_FLAG_VERBOSE)] *)
Definition verbose_of (type : Z) : Z := if Z.land type DISSECTOR_FLAG_VERBOSE =? 0 then 0 else 1.

(** [if (ctx->optname == UDP_GRM_DISSECTOR)] *)
Definition set_dissector_opt (ctx : bpf_sockopt) (data : list Z) (created : bool)
  (st : reuseport_storage) (w : world) : sockopt_result * world :=
  let skey := _skey_from_bpf_sock (so_sk ctx) in
  let d := data_dis data in
  if negb created then
    if negb (dissector_cmp (dis st) d =? 0) then (reject ctx EPERM, w)
    else (accept ctx, put_state (so_sk ctx) (set_verbose (verbose_of (dis_type d)) st) w)
  else if dissector_invalid d then
    let '(g, _) := bpf_map_delete_elem (w_groups w) skey in
    (reject ctx EPERM, set_groups g w)
  else
    let '(event, w) := ringbuf_reserve EV_VALUE_SZ w in
    match event with
    | None => (reject ctx EAGAIN, log_printf "[!] Error: rb failed: EGAIN" [] w)
    | Some _ =>
        let pos := List.length (w_rb w) in
        let st := set_dis d st in
        let st := set_verbose (verbose_of (dis_type d)) st in
        let st := set_dis_type (DISSECTOR_TYPE (dis_type d)) st in
        let w := put_state (so_sk ctx) st w in
        let event := mk_msg MSG_SET_DISSECTOR skey (M_value 0) in
        let w := log_printfs skey "[+] setting dissector type %d" [DISSECTOR_TYPE (dis_type d)] w in
        (accept ctx, rb_submit pos event w)
    end.

(** [if (ctx->optname == UDP_GRM_FLOW_ASSURE)] *)
Definition flow_assure_opt (ctx : bpf_sockopt) (data : list Z) (s : socket_storage)
  (st : reuseport_storage) (w : world) : sockopt_result * world :=
  if negb (DISSECTOR_TYPE (dis_type (dis st)) =? DISSECTOR_FLOW) then (reject ctx EPERM, w)
  else
    let flow :=
      if sin_family data =? AF_INET then
        Some (mk_flow (store (zeros 16) 0 (sin_addr data)) (random_id st) (sin_port data))
      else if sin_family data =? AF_INET6 then
        Some (mk_flow (store (zeros 16) 0 (sin6_addr data)) (random_id st) (sin_port data))
      else None in
    match flow with
    | None => (reject ctx EPERM, w)
    | Some flow =>
        let hash := count_ip_flow_hash flow in
        let '(r, st, w) := flow_assure st s hash w in
        let w := put_state (so_sk ctx) st w in
        if r =? 0 then (reject ctx EEXIST, w) else (accept ctx, w)
    end.

(** [if (ctx->optname == UDP_GRM_SOCKET_APP)] *)
Definition set_socket_app_opt (ctx : bpf_sockopt) (data : list Z) (s : socket_storage)
  (st : reuseport_storage) (w : world) : sockopt_result * world :=
  let value := data_u32 data 0 in
  if negb (sock_app s =? value) then
    if negb (sock_gen s =? 0xffffffff) || negb (sock_idx s =? 0xffffffff) then (reject ctx EEXIST, w)
    else if dis_max_apps (dis st) <=? value then (reject ctx EOVERFLOW, w)
    else (accept ctx, put_sock (bs_id (so_sk ctx)) (set_sock_app value s) w)
  else (accept ctx, w).

(** The option once socket storage and group storage are there. *)
Definition setsockopt_opt (ctx : bpf_sockopt) (data : list Z) (s : socket_storage) (created : bool)
  (st : reuseport_storage) (w : world) : sockopt_result * world :=
  if so_optname ctx =? UDP_GRM_WORKING_GEN then set_working_gen_opt ctx data s st w
  else if so_optname ctx =? UDP_GRM_SOCKET_GEN then set_socket_gen_opt ctx data s w
  else if so_optname ctx =? UDP_GRM_DISSECTOR then set_dissector_opt ctx data created st w
  else if so_optname ctx =? UDP_GRM_FLOW_ASSURE then flow_assure_opt ctx data s st w
  else if so_optname ctx =? UDP_GRM_SOCKET_APP then set_socket_app_opt ctx data s st w
  else (reject ctx EPERM, w).

(** [if (created != 0)]: the identity of a new group. *)
Definition init_state (netns rnd : Z) (st : reuseport_storage) : reuseport_storage :=
  let st := set_random_id rnd st in
  let st := set_netns_cookie netns st in
  let st := set_verbose 0 st in
  set_dis_type DISSECTOR_FLOW st.

Definition udpgrm_setsockopt (ctx : bpf_sockopt) (w : world) : sockopt_result * world :=
  if not_ours ctx then (pass_thru ctx, w)
  else if (so_optlen ctx =? -1) || negb (so_get_retval ctx =? 0) then (pass ctx, w)
  else
    let '(page, w) := empty_percpu_page w in
    match page with
    | None => (reject ctx ENOBUFS, w)
    | Some page =>
        match first_fit setsockopt_sizes (so_optval ctx) with
        | None => (reject ctx EFAULT, w)
        | Some n =>
            let data := store page 0 (take n (so_optval ctx)) in
            match bpf_map_lookup_elem (w_socks w) (bs_id (so_sk ctx)) with
            | None => (reject ctx EBADF, w)
            | Some s =>
                match get_state (so_sk ctx) true w with
                | (None, _, w) => (reject ctx EBADF, w)
                | (Some st, created, w) =>
                    let '(st, w) :=
                      if created then
                        let '(rnd, w) := get_prandom_u32 w in
                        let st := init_state (so_netns_cookie s) rnd st in
                        (st, put_state (so_sk ctx) st w)
                      else (st, w) in
                    if negb (netns_cookie st =? so_netns_cookie s) then (reject ctx EBADF, w)
                    else setsockopt_opt ctx data s created st w
                end
            end
        end
    end.
End Setsockopt.

Section Getsockopt.
Context {K : Kernel}.

(** The option value to copy out, or the error. *)
Definition getsockopt_data (ctx : bpf_sockopt) (page : list Z) (w : world) : list Z + Z :=
  let st := bpf_map_lookup_elem (w_groups w) (_skey_from_bpf_sock (so_sk ctx)) in
  let s := bpf_map_lookup_elem (w_socks w) (bs_id (so_sk ctx)) in
  if so_optname ctx =? UDP_GRM_WORKING_GEN then
    match st with
    | None => inl (store page 0 (le_bytes 4 (u32 (-1))))
    | Some st =>
        let app_idx := match s with None => 0 | Some s => sock_app s end in
        inl (store page 0 (le_bytes 4 (nthZ (working_gen st) (app_idx mod MAX_APPS))))
    end
  else if so_optname ctx =? UDP_GRM_SOCKET_GEN then
    match s with
    | None => inr EBADFD
    | Some s =>
        let page := store page 0 (le_bytes 4 (sock_gen s)) in
        let page := store page 4 (le_bytes 4 (sock_idx s)) in
        let xmax_apps := match st with None => 0 | Some st => dis_max_apps (dis st) end in
        let gen := bpf_TO_WRK_GEN xmax_apps (sock_app s) (sock_gen s) in
        inl (store page 8 (grm_cookie_pack gen (sock_idx s)))
    end
  else if so_optname ctx =? UDP_GRM_DISSECTOR then
    match st with
    | None => inr EBADFD
    | Some st => inl (store page 0 (dis st))
    end
  else if so_optname ctx =? UDP_GRM_SOCKET_APP then
    match s with
    | None => inr EBADFD
    | Some s => inl (store page 0 (le_bytes 4 (sock_app s)))
    end
  else inr EPERM.

Definition udpgrm_getsockopt (ctx : bpf_sockopt) (w : world) : sockopt_result * world :=
  if not_ours ctx then (pass_thru ctx, w)
  else if negb (so_get_retval ctx =? - ENOPROTOOPT) then (pass ctx, w)
  else
    let '(page, w) := empty_percpu_page w in
    match page with
    | None => (reject ctx ENOBUFS, w)
    | Some page =>
        match getsockopt_data ctx page w with
        | inr e => (reject ctx e, w)
        | inl data =>
            match first_fit getsockopt_sizes (so_optval ctx) with
            | None => (reject ctx EFAULT, w)
            | Some n =>
                (mk_sores 1 (so_optlen ctx) 0 (store (so_optval ctx) 0 (take n data)), w)
            end
        end
    end.
End Getsockopt.

Section Bind.
Context {K : Kernel}.

(** [bpf_sk_storage_get] with [BPF_LOCAL_STORAGE_GET_F_CREATE]: a new storage is zero. *)
Definition sk_storage_get_create (id : Z) (w : world) : option socket_storage * world :=
  match bpf_map_lookup_elem (w_socks w) id with
  | Some s => (Some s, w)
  | None =>
      let '(m, r) := bpf_map_update_elem (w_socks w) id (mk_sock 0 0 0 0 0) BPF_NOEXIST in
      let w := set_socks m w in
      (bpf_map_lookup_elem (w_socks w) id, w)
  end.

Definition _bpf_bind (ctx : bpf_sock_addr) (w : world) : Z * world :=
  if negb (user_family ctx =? AF_INET) && negb (user_family ctx =? AF_INET6) then (1, w)
  else if negb (protocol ctx =? IPPROTO_UDP) then (1, w)
  else
    match sa_reuseport ctx with
    | None => (1, w)
    | Some reuseport =>
        if reuseport =? 0 then (1, w)
        else
          let '(s, w) := sk_storage_get_create (bs_id (sa_sk ctx)) w in
          match s with
          | None => (1, log_printf "[!] Socket storage create failed" [] w)
          | Some s =>
              let s := mk_sock (u32 (-1)) (u32 (-1)) (sock_app s) (sa_cookie ctx) (sa_netns_cookie ctx) in
              (1, put_sock (bs_id (sa_sk ctx)) s w)
          end
    end.

Definition udpgrm_bpf_bind6 (ctx : bpf_sock_addr) := _bpf_bind ctx.
Definition udpgrm_bpf_bind4 (ctx : bpf_sock_addr) := _bpf_bind ctx.
End Bind.

Section UpdateMap.
Context {K : Kernel}.

(** [struct msg_value] in memory. *)
Definition msg_type (m : list Z) : Z := s32 (load 4 m 0).
Definition msg_skey (m : list Z) : reuseport_storage_key :=
  mk_skey (load 1 m 4) (load 1 m 5) (load 2 m 6) (load 4 m 8, load 4 m 12, load 4 m 16, load 4 m 20).
Definition msg_sock_gen (m : list Z) : Z := load 4 m 24.
Definition msg_sock_idx (m : list Z) : Z := load 4 m 28.
Definition msg_sock_gen_len (m : list Z) : Z := load 4 m 32.
Definition msg_sock_cookie (m : list Z) : Z := load 8 m 40.
Definition msg_int_value (m : list Z) : Z := s32 (load 4 m 24).

(** [state->cookies[gen][idx] = cookie; state->max_idx[gen] = len] *)
Definition set_cookie_slot (gen idx cookie len : Z) (st : reuseport_storage) : reuseport_storage :=
  let g := Z.to_nat gen in
  let row := <[Z.to_nat idx := cookie]> (nth g (cookies st) []) in
  let st := set_cookies (<[g := row]> (cookies st)) st in
  set_max_idx (<[g := len]> (max_idx st)) st.

(** [data] is the packet of the test run: the message. *)
Definition udpgrm_cb_update_map (data : list Z) (w : world) : Z * world :=
  if Z.of_nat (List.length data) <? MSG_SZ then (1, w)
  else
    let skey := msg_skey data in
    match bpf_map_lookup_elem (w_groups w) skey with
    | None => (1, w)
    | Some st =>
        let put st := set_groups (map_value_write (w_groups w) skey st) w in
        if msg_type data =? GSM_SET_COOKIES then
          (0, put (set_cookie_slot (msg_sock_gen data mod MAX_GENS)
                     (msg_sock_idx data mod MAX_SOCKETS_IN_GEN) (msg_sock_cookie data)
                     (msg_sock_gen_len data) st))
        else if msg_type data =? GSM_SET_SOCKET_CRITICAL_GAUGE then
          (0, put (fetch_and_add socket_critical_gauge (msg_int_value data) st))
        else if msg_type data =? GSM_INCR_SOCKET_CRITICAL then
          (0, put (fetch_and_add socket_critical (msg_int_value data) st))
        else (1, w)
    end.
End UpdateMap.

(** ** What a setsockopt call works on *)
Section Setup.
Context {K : Kernel} {L : KernelLaws}.

(** Everything but the groups is as before, up to log messages and time. *)
Record aside (w w' : world) : Prop := {
  as_flows : w_flows w' = w_flows w;
  as_socks : w_socks w' = w_socks w;
  as_sockhash : w_sockhash w' = w_sockhash w;
  as_rb : ∃ l, w_rb w' = w_rb w ++ l ∧ Forall is_log l;
  as_tick : (w_tick w <= w_tick w')%nat;
}.
#[export] Instance aside_preorder : PreOrder aside.
Proof.
  split.
  - intros w. split; try done. exists []. by rewrite app_nil_r.
  - intros w1 w2 w3 [? ? ? (l & E & Hl) ?] [? ? ? (l' & E' & Hl') ?].
    split; try congruence; [|lia]. exists (l ++ l'). split; [by rewrite E', E, app_assoc|by apply Forall_app].
Qed.
Lemma logs_aside w w' : logs_only w w' → aside w w'.
Proof. by intros []. Qed.
Lemma aside_groups g w : aside w (set_groups g w).
Proof. split; try done. exists []. by rewrite app_nil_r. Qed.

Definition group_at (w : world) (k : reuseport_storage_key) : option reuseport_storage :=
  bpf_map_lookup_elem (w_groups w) k.

Lemma group_at_logs w w' k : logs_only w w' → group_at w' k = group_at w k.
Proof. intros H. unfold group_at. by rewrite (lo_groups _ _ H). Qed.
Lemma group_at_put_same sk st w :
  is_Some (group_at w (_skey_from_bpf_sock sk)) → group_at (put_state sk st w) (_skey_from_bpf_sock sk) = Some st.
Proof. intros [st0 H]. by eapply lookup_put_state. Qed.
Lemma group_at_put_other sk st w k :
  k ≠ _skey_from_bpf_sock sk → group_at (put_state sk st w) k = group_at w k.
Proof. intros H. apply (map_write_other (exact := true)). done. Qed.

(** [get_state] with creation. *)
Lemma get_state_create sk w o created w' :
  get_state sk true w = (o, created, w') →
  let k := _skey_from_bpf_sock sk in
  aside w w' ∧ (∀ k', k' ≠ k → group_at w' k' = group_at w k') ∧ group_at w' k = o ∧
  if created then group_at w k = None ∧ (o = Some empty_state ∨ o = None)
  else group_at w k = o ∧ is_Some o ∧ w' = w.
Proof.
  intros H k. unfold get_state in H. fold k in H. unfold group_at.
  destruct (bpf_map_lookup_elem (w_groups w) k) as [st|] eqn:El.
  { simplify_eq. split_and!; try done. }
  destruct (bpf_map_update_elem (w_groups w) k empty_state BPF_NOEXIST) as [g r] eqn:Eu.
  set (w1 := log_printfs _ _ _ _) in H.
  assert (logs_only (set_groups g w) w1) as Hlog.
  { subst w1. etrans; [apply logs_only_if|apply logs_only_printfs]. }
  injection H as <- <- <-. rewrite (lo_groups _ _ Hlog). cbn [w_groups set_groups].
  split_and!; try done.
  - etrans; [apply (aside_groups g)|by apply logs_aside].
  - intros k' Hk. by destruct (map_update_other (exact := true) _ _ _ _ _ _ k' Eu Hk) as [?|[? _]].
  - destruct (Z.eq_dec r 0) as [->|Hr].
    + left. by apply (map_update_ok (exact := true)) in Eu.
    + right. destruct (map_update_fail (exact := true) _ _ _ _ _ _ Eu Hr) as [->|[? _]]; done.
Qed.

(** The world and storage an option is processed on: those of the call when the
    group exists, and a group with a fresh identity when it does not. *)
Inductive prepared (ctx : bpf_sockopt) (w : world) (data : list Z) (s : socket_storage)
  : bool → reuseport_storage → world → Prop :=
  | Prep_old st w1 : logs_only w w1 → group_at w (_skey_from_bpf_sock (so_sk ctx)) = Some st →
      prepared ctx w data s false st w1
  | Prep_new rnd w1 : aside w w1 → group_at w (_skey_from_bpf_sock (so_sk ctx)) = None →
      (∀ k, k ≠ _skey_from_bpf_sock (so_sk ctx) → group_at w1 k = group_at w k) →
      group_at w1 (_skey_from_bpf_sock (so_sk ctx))
        = Some (init_state (so_netns_cookie s) rnd empty_state) →
      prepared ctx w data s true (init_state (so_netns_cookie s) rnd empty_state) w1.

Definition setsockopt_data (ctx : bpf_sockopt) (n : nat) : list Z :=
  store (zeros PERCPU_ARRAY_SIZE) 0 (take n (so_optval ctx)).

Lemma prepared_aside ctx w data s c st w1 : prepared ctx w data s c st w1 → aside w w1.
Proof. intros [? ? H|]; [by apply logs_aside|done]. Qed.

(** The outcomes of a call on one of our options. *)
Inductive setsockopt_outcome (ctx : bpf_sockopt) (w : world) : sockopt_result * world → Prop :=
  | So_pass w1 : w1 = w → so_optlen ctx = -1 ∨ so_get_retval ctx ≠ 0 → setsockopt_outcome ctx w (pass ctx, w1)
  | So_early e w1 : logs_only w w1 → e ∈ [ENOBUFS; EFAULT; EBADF] →
      setsockopt_outcome ctx w (reject ctx e, w1)
  | So_no_group w1 : aside w w1 →
      (∀ k, group_at w1 k = group_at w k) → setsockopt_outcome ctx w (reject ctx EBADF, w1)
  | So_netns data s st w1 : prepared ctx w data s false st w1 → netns_cookie st ≠ so_netns_cookie s →
      setsockopt_outcome ctx w (reject ctx EBADF, w1)
  | So_option n s created st w1 : first_fit setsockopt_sizes (so_optval ctx) = Some n →
      bpf_map_lookup_elem (w_socks w) (bs_id (so_sk ctx)) = Some s →
      prepared ctx w (setsockopt_data ctx n) s created st w1 → netns_cookie st = so_netns_cookie s →
      setsockopt_outcome ctx w (setsockopt_opt ctx (setsockopt_data ctx n) s created st w1).

Lemma udpgrm_setsockopt_outcome ctx w :
  not_ours ctx = false → setsockopt_outcome ctx w (udpgrm_setsockopt ctx w).
Proof.
  intros Ho. unfold udpgrm_setsockopt. rewrite Ho.
  destruct (Z.eqb_spec (so_optlen ctx) (-1)) as [?|_]; [constructor; auto|].
  destruct (Z.eqb_spec (so_get_retval ctx) 0) as [_|?]; cbn [orb negb]; [|constructor; auto].
  unfold empty_percpu_page. destruct (percpu_page_ok _).
  2: { apply So_early; [apply logs_only_tick|set_solver]. }
  destruct (first_fit _ _) as [n|] eqn:En.
  2: { apply So_early; [apply logs_only_tick|set_solver]. }
  cbn [w_socks tick].
  destruct (bpf_map_lookup_elem (w_socks w) _) as [s|] eqn:Es.
  2: { apply So_early; [apply logs_only_tick|set_solver]. }
  destruct (get_state (so_sk ctx) true (tick w)) as [[o created] w1] eqn:Eg.
  apply get_state_create in Eg as (Ha & Hother & Hk & Hc).
  assert (aside w w1) as Ha' by (etrans; [apply logs_aside, logs_only_tick|done]).
  destruct o as [st|].
  2: { apply So_no_group; [done|]. intros k.
       destruct created; [|destruct Hc as (_ & [? ?] & _); done].
       destruct (decide (k = _skey_from_bpf_sock (so_sk ctx))) as [->|Hne]; [|by apply Hother].
       rewrite Hk. symmetry. apply Hc. }
  destruct created.
  - destruct Hc as [Hnone [[= ->]|?]]; [|done]. unfold get_prandom_u32.
    set (st1 := init_state _ _ _). set (w2 := put_state _ _ _).
    assert (netns_cookie st1 = so_netns_cookie s) as Hns by done.
    rewrite Hns, Z.eqb_refl. cbn [negb]. apply So_option; [done|done| |done].
    apply Prep_new.
    + etrans; [apply Ha'|]. etrans; [apply logs_aside, logs_only_tick|apply aside_groups].
    + done.
    + intros k Hne. subst w2. rewrite group_at_put_other by done. by apply Hother.
    + subst w2. apply group_at_put_same. rewrite (group_at_logs w1 _ _ (logs_only_tick w1)), Hk. by eexists.
  - destruct Hc as (Hold & _ & ->).
    destruct (Z.eqb_spec (netns_cookie st) (so_netns_cookie s)) as [Hns|Hns]; cbn [negb].
    + apply So_option; [done|done| |done]. apply Prep_old; [apply logs_only_tick|done].
    + apply (So_netns _ _ [] s st); [|done]. apply Prep_old; [apply logs_only_tick|done].
Qed.
End Setup.

(** ** Rejected calls *)
Section Rejected.
Context {K : Kernel} {L : KernelLaws}.

(** Sockets and registrations as before, no message but logs, and no flow entry
    other than evicted ones changed. *)
Record kept (w w' : world) : Prop := {
  k_socks : w_socks w' = w_socks w;
  k_sockhash : w_sockhash w' = w_sockhash w;
  k_rb : ∃ l, w_rb w' = w_rb w ++ l ∧ Forall is_log l;
  k_flows : ∀ h, bpf_map_lookup_elem (w_flows w') h = bpf_map_lookup_elem (w_flows w) h ∨
                 bpf_map_lookup_elem (w_flows w') h = None;
}.
Lemma aside_kept w w' : aside w w' → kept w w'.
Proof. intros [Hf ? ? ? _]. split; try done. intros h. left. by rewrite Hf. Qed.
Lemma logs_kept w w' : logs_only w w' → kept w w'.
Proof. intros H. by apply aside_kept, logs_aside. Qed.
Lemma kept_trans w1 w2 w3 : kept w1 w2 → kept w2 w3 → kept w1 w3.
Proof.
  intros [? ? (l & E & Hl) Hf] [? ? (l' & E' & Hl') Hf']. split; try congruence.
  - exists (l ++ l'). split; [by rewrite E', E, app_assoc|by apply Forall_app].
  - intros h. destruct (Hf' h) as [-> | ->]; auto.
Qed.
Lemma kept_groups w w' g : kept w w' → kept w (set_groups g w').
Proof. intros []. by split. Qed.

Definition rejected_on (ctx : bpf_sockopt) (created : bool) (st : reuseport_storage) (w w' : world) : Prop :=
  let key := _skey_from_bpf_sock (so_sk ctx) in
  kept w w' ∧ (∀ k, k ≠ key → group_at w' k = group_at w k) ∧
  ((∃ st', group_at w' key = Some st' ∧ same_config st st') ∨ (created = true ∧ group_at w' key = None)).

Definition is_reject (ctx : bpf_sockopt) (res : sockopt_result) : Prop :=
  ∃ e, res = reject ctx e ∧ 0 < e.

Lemma same_config_refl st : same_config st st.
Proof. exists (metrics st). by destruct st. Qed.

Lemma rejected_logs ctx created st w w' :
  group_at w (_skey_from_bpf_sock (so_sk ctx)) = Some st → logs_only w w' → rejected_on ctx created st w w'.
Proof.
  intros Hst Hl. split; [by apply logs_kept|]. split; [intros k _; by apply group_at_logs|].
  left. exists st. split; [by rewrite (group_at_logs w)|apply same_config_refl].
Qed.

Lemma flow_assure_rejected ctx created s st hash w r st' w' :
  group_at w (_skey_from_bpf_sock (so_sk ctx)) = Some st → flow_assure st s hash w = (r, st', w') → r = 0 →
  rejected_on ctx created st w (put_state (so_sk ctx) st' w').
Proof.
  intros Hst E ->. apply flow_assure_spec in E as (t & -> & Ha & Ho & [Hg _ Hs Hh Hrb _]).
  cbn in Hg, Hs, Hh, Hrb. assert (∀ k, group_at w' k = group_at w k) as Hgat by (intros k; unfold group_at; by rewrite Hg).
  split; [|split].
  - apply kept_groups. split; try done. intros h. destruct (decide (h = hash)) as [->|Hne]; [|by apply Ho].
    left. by inversion Ha.
  - intros k Hk. by rewrite group_at_put_other.
  - left. exists (bump t st). split; [|apply bump_config].
    apply group_at_put_same. rewrite Hgat. by eexists.
Qed.

(** Every option: a result of 0 is a negative errno and has no effect. *)
Lemma setsockopt_opt_rejected ctx data s created st w res w' :
  group_at w (_skey_from_bpf_sock (so_sk ctx)) = Some st →
  setsockopt_opt ctx data s created st w = (res, w') → sr_ret res = 0 →
  is_reject ctx res ∧ rejected_on ctx created st w w'.
Proof.
  intros Hst E Hr. unfold setsockopt_opt, set_working_gen_opt, set_socket_gen_opt, set_dissector_opt,
    flow_assure_opt, set_socket_app_opt, ringbuf_reserve in E.
  assert (∀ e w1, 0 < e → logs_only w w1 → is_reject ctx (reject ctx e) ∧ rejected_on ctx created st w w1) as Hlog.
  { intros e w1 He Hl. split; [by exists e|by apply rejected_logs]. }
  assert (logs_only w (log_printf "[!] Error: rb failed: EGAIN" [] (tick w))) as Hl1
    by (etrans; [apply logs_only_tick|apply logs_only_printf]).
  assert (logs_only w (log_printf "[!] Error: rb failed, EGAIN" [] (tick w))) as Hl2
    by (etrans; [apply logs_only_tick|apply logs_only_printf]).
  repeat case_match; simplify_eq; try (by apply Hlog); try done.
  all: try (split; [by eexists|]).
  - (* an invalid dissector deletes the group created by the call *)
    match goal with H : bpf_map_delete_elem _ _ = (?g, _) |- _ =>
      rename H into Hd; set (m := g) in * end.
    split; [by apply kept_groups, logs_kept|]. split.
    + intros k Hk. by apply (map_delete_other (exact := true) _ _ _ _ _ Hd).
    + right. split; [by destruct created|]. by apply (map_delete_ok (exact := true)) in Hd.
  - match goal with H : flow_assure _ _ _ _ = _ |- _ =>
      eapply (flow_assure_rejected ctx created) in H; [exact H|exact Hst|lia] end.
  - match goal with H : flow_assure _ _ _ _ = _ |- _ =>
      eapply (flow_assure_rejected ctx created) in H; [exact H|exact Hst|lia] end.
Qed.

Lemma unchanged_match (o o' : option reuseport_storage) (P : Prop) :
  o' = o →
  match o with
  | Some st => ∃ st', o' = Some st' ∧ same_config st st'
  | None => o' = None ∨ P
  end.
Proof. intros ->. destruct o as [st|]; [exists st; split; [done|apply same_config_refl]|by left]. Qed.

Lemma setsockopt_rejected ctx w res w' :
  not_ours ctx = false → udpgrm_setsockopt ctx w = (res, w') → sr_ret res = 0 →
  let key := _skey_from_bpf_sock (so_sk ctx) in
  is_reject ctx res ∧ kept w w' ∧ (∀ k, k ≠ key → group_at w' k = group_at w k) ∧
  match group_at w key with
  | Some st => ∃ st', group_at w' key = Some st' ∧ same_config st st'
  | None => group_at w' key = None ∨ ∃ netns rnd st', group_at w' key = Some st' ∧
      same_config (init_state netns rnd empty_state) st'
  end.
Proof.
  intros Ho E Hr key. pose proof (udpgrm_setsockopt_outcome ctx w Ho) as H. rewrite E in H. clear E.
  inversion H as [w1 E1 _ E2|e w1 Hl He E2|w1 Ha Hg E2|data s st w1 Hp Hns E2|n s created st w1 Hn Hs Hp Hns E2]; subst.
  - done.
  - split; [exists e; split; [done|]|].
    { repeat (apply elem_of_cons in He as [->|He]; [done|]). by apply not_elem_of_nil in He. }
    split; [by apply logs_kept|]. split; [intros k _; by apply group_at_logs|].
    apply unchanged_match. by apply group_at_logs.
  - split; [by exists EBADF|]. split; [by apply aside_kept|]. split; [intros k _; apply Hg|].
    apply unchanged_match, Hg.
  - inversion Hp as [? ? Hl Hst|]; subst. split; [by exists EBADF|]. split; [by apply logs_kept|].
    split; [intros k _; by apply group_at_logs|]. apply unchanged_match. by apply group_at_logs.
  - pose proof (prepared_aside _ _ _ _ _ _ _ Hp) as Ha.
    assert (group_at w1 key = Some st) as Hst.
    { inversion Hp as [? ? Hl Hst|]; subst; [|done]. by rewrite (group_at_logs w). }
    destruct (setsockopt_opt_rejected ctx _ s created st w1 res w' Hst E2 Hr) as (Hrej & Hk & Hoth & Hown).
    split; [done|]. split; [eapply kept_trans; [by apply aside_kept|done]|].
    inversion Hp as [? ? Hl Hold|rnd ? Ha' Hnone Hoth' Hnew]; subst.
    + split; [intros k Hne; rewrite Hoth by done; by apply group_at_logs|].
      unfold key. rewrite Hold. destruct Hown as [?|[? _]]; done.
    + split; [intros k Hne; rewrite Hoth by done; by apply Hoth'|].
      unfold key. rewrite Hnone. destruct Hown as [(st' & ? & ?)|[_ ?]]; [right|by left].
      by exists (so_netns_cookie s), rnd, st'.
Qed.
End Rejected.

(** C23. A failed setsockopt has no effect: when the hook refuses one of the udpgrm
    options, errno is set, the option buffer is untouched, no socket storage and no
    registration changes, the daemon gets no message other than logs, no flow entry
    changes (entries may be evicted), no other group changes, and the socket's own
    group, if it exists, changes in its counters only; a group the call had to create
    is either removed again or left with a fresh identity and the default dissector. *)
Theorem setsockopt_failure_atomic {K : Kernel} {L : KernelLaws} ctx w res w' :
  not_ours ctx = false → udpgrm_setsockopt ctx w = (res, w') → sr_ret res = 0 →
  sr_retval res < 0 ∧ sr_optval res = so_optval ctx ∧ sr_optlen res = so_optlen ctx ∧
  w_socks w' = w_socks w ∧ w_sockhash w' = w_sockhash w ∧
  (∃ l, w_rb w' = w_rb w ++ l ∧ Forall is_log l) ∧
  (∀ h, bpf_map_lookup_elem (w_flows w') h = bpf_map_lookup_elem (w_flows w) h ∨
        bpf_map_lookup_elem (w_flows w') h = None) ∧
  (∀ k, k ≠ _skey_from_bpf_sock (so_sk ctx) → group_at w' k = group_at w k) ∧
  match group_at w (_skey_from_bpf_sock (so_sk ctx)) with
  | Some st => ∃ st', group_at w' (_skey_from_bpf_sock (so_sk ctx)) = Some st' ∧ same_config st st'
  | None => group_at w' (_skey_from_bpf_sock (so_sk ctx)) = None ∨
      ∃ netns rnd st', group_at w' (_skey_from_bpf_sock (so_sk ctx)) = Some st' ∧
        same_config (init_state netns rnd empty_state) st'
  end.
Proof.
  intros Ho E Hr. set (key := _skey_from_bpf_sock (so_sk ctx)).
  assert (is_reject ctx res ∧ kept w w' ∧ (∀ k, k ≠ key → group_at w' k = group_at w k) ∧
    match group_at w key with
    | Some st => ∃ st', group_at w' key = Some st' ∧ same_config st st'
    | None => group_at w' key = None ∨ ∃ netns rnd st', group_at w' key = Some st' ∧
        same_config (init_state netns rnd empty_state) st'
    end) as ((e & -> & He) & [? ? ? ?] & ? & ?).
  { by eapply setsockopt_rejected. }
  split_and!; try done. cbn. lia.
Qed.

(** ** Accepted calls *)
Section Accepted.
Context {K : Kernel} {L : KernelLaws}.

(** A call that reaches the kernel hook first and is accepted ran an option. *)
Lemma setsockopt_accepted ctx w res w' :
  not_ours ctx = false → so_optlen ctx ≠ -1 → so_get_retval ctx = 0 →
  udpgrm_setsockopt ctx w = (res, w') → sr_ret res = 1 →
  ∃ n s created st w1, first_fit setsockopt_sizes (so_optval ctx) = Some n ∧
    bpf_map_lookup_elem (w_socks w) (bs_id (so_sk ctx)) = Some s ∧
    prepared ctx w (setsockopt_data ctx n) s created st w1 ∧
    setsockopt_opt ctx (setsockopt_data ctx n) s created st w1 = (res, w').
Proof.
  intros Ho Hl Hv E Hr. pose proof (udpgrm_setsockopt_outcome ctx w Ho) as H. rewrite E in H. clear E.
  inversion H as [w1 E1 [?|?] E2|e w1 ? He E2|w1 Ha Hg E2|data s st w1 Hp Hns E2|n s created st w1 Hn Hs Hp Hns E2];
    subst; try done. by exists n, s, created, st, w1.
Qed.

Lemma prepared_at ctx w data s created st w1 :
  prepared ctx w data s created st w1 → group_at w1 (_skey_from_bpf_sock (so_sk ctx)) = Some st.
Proof. intros [? ? Hl Hst|]; [|done]. by rewrite (group_at_logs w). Qed.

(** The storage of a group right after its dissector was set. *)
Definition dissector_storage (netns rnd : Z) (d : list Z) : reuseport_storage :=
  set_dis_type (DISSECTOR_TYPE (dis_type d))
    (set_verbose (verbose_of (dis_type d)) (set_dis d (init_state netns rnd empty_state))).

Lemma group_at_submit pos m w k : group_at (rb_submit pos m w) k = group_at w k.
Proof. done. Qed.

Lemma set_dissector_new ctx w res w' :
  so_optname ctx = UDP_GRM_DISSECTOR → not_ours ctx = false →
  so_optlen ctx ≠ -1 → so_get_retval ctx = 0 →
  udpgrm_setsockopt ctx w = (res, w') → sr_ret res = 1 →
  group_at w (_skey_from_bpf_sock (so_sk ctx)) = None →
  ∃ n s rnd, first_fit setsockopt_sizes (so_optval ctx) = Some n ∧
    bpf_map_lookup_elem (w_socks w) (bs_id (so_sk ctx)) = Some s ∧
    let d := data_dis (setsockopt_data ctx n) in
    dissector_invalid d = false ∧ res = accept ctx ∧
    group_at w' (_skey_from_bpf_sock (so_sk ctx)) = Some (dissector_storage (so_netns_cookie s) rnd d).
Proof.
  intros Hopt Ho Hl Hv E Hr Hnone.
  destruct (setsockopt_accepted ctx w res w' Ho Hl Hv E Hr) as (n & s & created & st & w1 & Hn & Hs & Hp & E').
  pose proof (prepared_at _ _ _ _ _ _ _ Hp) as Hat.
  inversion Hp as [|rnd ? _ _ _ Hat']; subst; [congruence|].
  exists n, s, rnd. split; [done|]. split; [done|]. cbv zeta.
  unfold setsockopt_opt in E'. rewrite Hopt in E'. cbn [Z.eqb Pos.eqb UDP_GRM_DISSECTOR UDP_GRM_WORKING_GEN UDP_GRM_SOCKET_GEN] in E'.
  unfold set_dissector_opt in E'. cbn [negb] in E'.
  destruct (dissector_invalid _) eqn:Hi.
  { destruct (bpf_map_delete_elem _ _). by simplify_eq. }
  split; [done|]. unfold ringbuf_reserve in E'.
  destruct (bpf_ringbuf_reserve _ _); [|by simplify_eq]. simplify_eq. split; [done|].
  rewrite group_at_submit. match goal with |- group_at (log_printfs ?k ?f ?a ?w0) _ = _ =>
    rewrite (group_at_logs w0 _ _ (logs_only_printfs w0 k f a)) end.
  apply group_at_put_same. by eexists.
Qed.

(** A call of getsockopt on a known group. *)
Lemma getsockopt_dissector ctx w st :
  so_level ctx = IPPROTO_UDP → so_optname ctx = UDP_GRM_DISSECTOR → so_get_retval ctx = - ENOPROTOOPT →
  percpu_page_ok (w_tick w) = true → length (so_optval ctx) = DISSECTOR_SZ →
  group_at w (_skey_from_bpf_sock (so_sk ctx)) = Some st → length (dis st) = DISSECTOR_SZ →
  fst (udpgrm_getsockopt ctx w) = mk_sores 1 (so_optlen ctx) 0 (dis st).
Proof.
  intros Hlv Hopt Hrv Hp Hlen Hst Hd. unfold udpgrm_getsockopt, not_ours.
  rewrite Hlv, Hopt, Hrv, Z.eqb_refl. cbn [negb andb Z.leb Z.eqb Z.compare Pos.compare Pos.compare_cont
    _UDP_GRM_MIN _UDP_GRM_MAX UDP_GRM_DISSECTOR IPPROTO_UDP Pos.eqb CompOpp].
  unfold empty_percpu_page. rewrite Hp. unfold getsockopt_data.
  cbn [w_groups tick]. unfold group_at in Hst. rewrite Hst, Hopt.
  cbn [Z.eqb Pos.eqb UDP_GRM_DISSECTOR UDP_GRM_WORKING_GEN UDP_GRM_SOCKET_GEN].
  unfold first_fit, getsockopt_sizes, find. rewrite Hlen. change (setsockopt_opts_SZ <=? DISSECTOR_SZ)%nat with true.
  cbn [fst]. f_equal.
  assert (take setsockopt_opts_SZ (store (zeros PERCPU_ARRAY_SIZE) 0 (dis st)) = dis st) as ->.
  { rewrite <- (slice_store_same (zeros PERCPU_ARRAY_SIZE) 0 (dis st)) at 2.
    - unfold slice. by rewrite Hd.
    - rewrite Hd. unfold PERCPU_ARRAY_SIZE, DISSECTOR_SZ. rewrite length_zeros. lia. }
  rewrite store_full by (by rewrite Hd, Hlen). reflexivity.
Qed.

Lemma length_data_dis ctx n : length (data_dis (setsockopt_data ctx n)) = DISSECTOR_SZ.
Proof.
  unfold data_dis, setsockopt_data. apply length_slice. etrans; [|apply length_store_ge].
  rewrite length_zeros. unfold DISSECTOR_SZ, PERCPU_ARRAY_SIZE. lia.
Qed.

(** With a full-size option value the dissector is the value itself. *)
Lemma data_dis_full ctx n :
  first_fit setsockopt_sizes (so_optval ctx) = Some n → length (so_optval ctx) = DISSECTOR_SZ →
  data_dis (setsockopt_data ctx n) = so_optval ctx.
Proof.
  intros Hn Hl. unfold first_fit, setsockopt_sizes, find in Hn. rewrite Hl in Hn.
  change (setsockopt_opts_SZ <=? DISSECTOR_SZ)%nat with true in Hn. injection Hn as <-.
  unfold data_dis, setsockopt_data. rewrite take_ge by (rewrite Hl; unfold DISSECTOR_SZ, setsockopt_opts_SZ; lia).
  rewrite <- (slice_store_same (zeros PERCPU_ARRAY_SIZE) 0 (so_optval ctx)) at 2.
  - by rewrite Hl.
  - rewrite Hl, length_zeros. unfold PERCPU_ARRAY_SIZE, DISSECTOR_SZ. lia.
Qed.

(** A working generation that was accepted is in the storage, and the daemon's
    message is in the ring buffer. *)
Lemma set_working_gen_accepted ctx w res w' :
  so_optname ctx = UDP_GRM_WORKING_GEN → not_ours ctx = false →
  so_optlen ctx ≠ -1 → so_get_retval ctx = 0 →
  udpgrm_setsockopt ctx w = (res, w') → sr_ret res = 1 →
  ∃ n s created st w1, first_fit setsockopt_sizes (so_optval ctx) = Some n ∧
    bpf_map_lookup_elem (w_socks w) (bs_id (so_sk ctx)) = Some s ∧
    prepared ctx w (setsockopt_data ctx n) s created st w1 ∧
    let gen := data_u32 (setsockopt_data ctx n) 0 in
    let app := sock_app s mod MAX_APPS in
    res = accept ctx ∧ w_socks w' = w_socks w ∧ w_sockhash w' = w_sockhash w ∧
    group_at w' (_skey_from_bpf_sock (so_sk ctx))
      = Some (set_working_gen (<[Z.to_nat app := gen]> (working_gen st)) st) ∧
    ∃ l l', w_rb w' = w_rb w ++ l ++
      mk_msg MSG_SET_WORKING_GEN (_skey_from_bpf_sock (so_sk ctx)) (M_app app gen) :: l' ∧
      Forall is_log (l ++ l').
Proof.
  intros Hopt Ho Hl Hv E Hr.
  destruct (setsockopt_accepted ctx w res w' Ho Hl Hv E Hr) as (n & s & created & st & w1 & Hn & Hs & Hp & E').
  pose proof (prepared_at _ _ _ _ _ _ _ Hp) as Hat.
  pose proof (prepared_aside _ _ _ _ _ _ _ Hp) as [_ Hsk Hsh (lp & Hrb & Hlp) _].
  exists n, s, created, st, w1. do 3 (split; [done|]). cbv zeta.
  unfold setsockopt_opt in E'. rewrite Hopt, Z.eqb_refl in E'.
  unfold set_working_gen_opt, ringbuf_reserve in E'.
  destruct (bpf_ringbuf_reserve _ _); [|by simplify_eq]. injection E' as <- <-. split; [done|].
  match goal with |- context [log_printfs ?k ?f ?a ?w0] =>
    destruct (logs_only_printfs w0 k f a) as [Hg _ Hsk' Hsh' (ll & Hll & Hfl) _];
    set (w2 := log_printfs k f a w0) in *; clearbody w2 end.
  cbn in Hsk', Hsh', Hll.
  split; [cbn; by rewrite Hsk', Hsk|]. split; [cbn; by rewrite Hsh', Hsh|]. split.
  - rewrite group_at_submit. unfold group_at. rewrite Hg. apply group_at_put_same. by eexists.
  - exists lp, ll. split; [|by apply Forall_app]. cbn [w_rb rb_submit set_rb tick].
    rewrite Hll. cbn [w_rb tick]. rewrite take_app_length, drop_app_length, Hrb. by rewrite <- app_assoc.
Qed.

(** A registration that was accepted: the generation is in the socket's storage, the
    request in the ring buffer; a socket that is registered already is left alone. *)
Lemma set_socket_gen_accepted ctx w res w' :
  so_optname ctx = UDP_GRM_SOCKET_GEN → not_ours ctx = false →
  so_optlen ctx ≠ -1 → so_get_retval ctx = 0 →
  udpgrm_setsockopt ctx w = (res, w') → sr_ret res = 1 →
  ∃ n s created st w1, first_fit setsockopt_sizes (so_optval ctx) = Some n ∧
    bpf_map_lookup_elem (w_socks w) (bs_id (so_sk ctx)) = Some s ∧
    prepared ctx w (setsockopt_data ctx n) s created st w1 ∧
    let key := _skey_from_bpf_sock (so_sk ctx) in
    let gen := data_u32 (setsockopt_data ctx n) 0 in
    res = accept ctx ∧ (∀ k, group_at w' k = group_at w1 k) ∧ w_sockhash w' = w_sockhash w ∧
    if negb (sock_gen s =? gen) || (sock_idx s =? 0xffffffff) then
      bpf_map_lookup_elem (w_socks w') (bs_id (so_sk ctx)) = Some (set_sock_gen gen s) ∧
      (∀ id, id ≠ bs_id (so_sk ctx) → bpf_map_lookup_elem (w_socks w') id = bpf_map_lookup_elem (w_socks w) id) ∧
      ∃ l l', w_rb w' = w_rb w ++ l ++
        mk_msg MSG_REGISTER_SOCKET key (M_reg (so_pid ctx) (so_cookie s) gen (sock_app s)) :: l' ∧
        Forall is_log (l ++ l')
    else w_socks w' = w_socks w ∧ ∃ l, w_rb w' = w_rb w ++ l ∧ Forall is_log l.
Proof.
  intros Hopt Ho Hl Hv E Hr.
  destruct (setsockopt_accepted ctx w res w' Ho Hl Hv E Hr) as (n & s & created & st & w1 & Hn & Hs & Hp & E').
  pose proof (prepared_aside _ _ _ _ _ _ _ Hp) as [_ Hsk Hsh (lp & Hrb & Hlp) _].
  exists n, s, created, st, w1. do 3 (split; [done|]). cbv zeta.
  unfold setsockopt_opt in E'. rewrite Hopt in E'.
  cbn [Z.eqb Pos.eqb UDP_GRM_DISSECTOR UDP_GRM_WORKING_GEN UDP_GRM_SOCKET_GEN] in E'.
  unfold set_socket_gen_opt, ringbuf_reserve in E'.
  destruct (negb (sock_gen s =? _) || _) in E' |- *; [|injection E' as <- <-; split_and!; try done; by exists lp].
  destruct (bpf_ringbuf_reserve _ _); [|by simplify_eq]. injection E' as <- <-. split; [done|].
  match goal with |- context [log_printf ?f2 ?a2 (log_printfs ?k ?f ?a ?w0)] =>
    assert (logs_only w0 (log_printf f2 a2 (log_printfs k f a w0))) as [Hg _ Hsk' Hsh' (ll & Hll & Hfl) _]
      by (etrans; [apply logs_only_printfs|apply logs_only_printf]);
    set (w2 := log_printf f2 a2 (log_printfs k f a w0)) in *; clearbody w2 end.
  cbn [w_groups w_socks w_sockhash w_rb put_sock set_socks tick] in Hg, Hsk', Hsh', Hll.
  split; [intros k; rewrite group_at_submit; unfold group_at; by rewrite Hg|].
  cbn [w_sockhash w_socks w_rb rb_submit set_rb tick]. rewrite Hsk', Hsh', Hsk, Hsh, Hll. split; [done|].
  split; [|split].
  - apply (map_write_same (exact := true)). rewrite Hs. by eexists.
  - intros id Hne. by rewrite (map_write_other (exact := true)).
  - exists lp, ll. split; [|by apply Forall_app].
    rewrite take_app_length, drop_app_length, Hrb. by rewrite <- app_assoc.
Qed.

Lemma data_u32_first ctx n :
  first_fit setsockopt_sizes (so_optval ctx) = Some n → (4 <= length (so_optval ctx))%nat →
  data_u32 (setsockopt_data ctx n) 0 = load 4 (so_optval ctx) 0.
Proof.
  intros Hn Hl. unfold data_u32, load, setsockopt_data. f_equal.
  assert (4 <= n <= length (so_optval ctx) ∧ n <= PERCPU_ARRAY_SIZE)%nat as (Hn4 & Hpg).
  { unfold first_fit in Hn. apply find_some in Hn as [Hin Hle]. apply Nat.leb_le in Hle.
    unfold setsockopt_sizes, setsockopt_opts_SZ, sockaddr_in6_SZ, PERCPU_ARRAY_SIZE in *.
    cbn [In] in Hin. lia. }
  pose proof (slice_store_same (zeros PERCPU_ARRAY_SIZE) 0 (take n (so_optval ctx))) as H.
  unfold slice in *. rewrite length_take, length_zeros in H.
  replace (n `min` length (so_optval ctx))%nat with n in H by lia.
  specialize (H ltac:(lia)). rewrite !drop_0 in *.
  apply (f_equal (take 4)) in H. rewrite !take_take in H. by rewrite !Nat.min_l in H by lia.
Qed.

(** A read of one of our options into a buffer of one of the sizes. *)
Lemma getsockopt_fits ctx w data n :
  so_level ctx = IPPROTO_UDP → _UDP_GRM_MIN <= so_optname ctx <= _UDP_GRM_MAX → so_get_retval ctx = - ENOPROTOOPT →
  percpu_page_ok (w_tick w) = true → first_fit getsockopt_sizes (so_optval ctx) = Some n →
  getsockopt_data ctx (zeros PERCPU_ARRAY_SIZE) (tick w) = inl data →
  fst (udpgrm_getsockopt ctx w) = mk_sores 1 (so_optlen ctx) 0 (store (so_optval ctx) 0 (take n data)).
Proof.
  intros Hlv Hopt Hrv Hp Hn Hd. unfold udpgrm_getsockopt, not_ours. rewrite Hlv, Hrv, Z.eqb_refl.
  rewrite (proj2 (Z.leb_le _ _)), (proj2 (Z.leb_le _ _)) by apply Hopt. cbn [negb andb].
  change (- ENOPROTOOPT =? - ENOPROTOOPT) with true. cbn [negb]. unfold empty_percpu_page. by rewrite Hp, Hd, Hn.
Qed.
Lemma page_begin bs : (length bs <= PERCPU_ARRAY_SIZE)%nat → take (length bs) (store (zeros PERCPU_ARRAY_SIZE) 0 bs) = bs.
Proof.
  intros H. pose proof (slice_store_same (zeros PERCPU_ARRAY_SIZE) 0 bs) as Hx. unfold slice in Hx. rewrite drop_0 in Hx.
  apply Hx. by rewrite length_zeros.
Qed.
Lemma getsockopt_u32 ctx w v :
  so_level ctx = IPPROTO_UDP → _UDP_GRM_MIN <= so_optname ctx <= _UDP_GRM_MAX → so_get_retval ctx = - ENOPROTOOPT →
  percpu_page_ok (w_tick w) = true → length (so_optval ctx) = 4%nat →
  getsockopt_data ctx (zeros PERCPU_ARRAY_SIZE) (tick w) = inl (store (zeros PERCPU_ARRAY_SIZE) 0 (le_bytes 4 v)) →
  fst (udpgrm_getsockopt ctx w) = mk_sores 1 (so_optlen ctx) 0 (le_bytes 4 v).
Proof.
  intros Hlv Hopt Hrv Hp Hlen Hd. rewrite (getsockopt_fits ctx w (store (zeros PERCPU_ARRAY_SIZE) 0 (le_bytes 4 v)) 4 Hlv Hopt Hrv Hp); [|by unfold first_fit, getsockopt_sizes, find, setsockopt_opts_SZ; rewrite Hlen|exact Hd].
  f_equal. pose proof (page_begin (le_bytes 4 v) ltac:(cbn; unfold PERCPU_ARRAY_SIZE; lia)) as Hx.
  rewrite length_le_bytes in Hx. rewrite Hx. apply store_full. by rewrite length_le_bytes, Hlen.
Qed.
(** The number of the application of a socket. *)
Lemma getsockopt_app ctx w s :
  so_level ctx = IPPROTO_UDP → so_optname ctx = UDP_GRM_SOCKET_APP → so_get_retval ctx = - ENOPROTOOPT →
  percpu_page_ok (w_tick w) = true → length (so_optval ctx) = 4%nat →
  bpf_map_lookup_elem (w_socks w) (bs_id (so_sk ctx)) = Some s →
  fst (udpgrm_getsockopt ctx w) = mk_sores 1 (so_optlen ctx) 0 (le_bytes 4 (sock_app s)).
Proof.
  intros Hlv Hopt Hrv Hp Hlen Hs.
  apply getsockopt_u32; try done; [by rewrite Hopt|].
  unfold getsockopt_data. cbn [w_groups w_socks tick]. by rewrite Hs, Hopt.
Qed.
(** Generation, index and cookie of a socket. *)
Lemma getsockopt_socket_gen ctx w st s slot :
  so_level ctx = IPPROTO_UDP → so_optname ctx = UDP_GRM_SOCKET_GEN → so_get_retval ctx = - ENOPROTOOPT →
  percpu_page_ok (w_tick w) = true → length (so_optval ctx) = 12%nat →
  group_at w (_skey_from_bpf_sock (so_sk ctx)) = Some st →
  bpf_map_lookup_elem (w_socks w) (bs_id (so_sk ctx)) = Some s →
  TO_WRK_GEN (dis_max_apps (dis st)) (sock_app s) (sock_gen s) = Some slot →
  fst (udpgrm_getsockopt ctx w) = mk_sores 1 (so_optlen ctx) 0
    (le_bytes 4 (sock_gen s) ++ le_bytes 4 (sock_idx s) ++ grm_cookie_pack slot (sock_idx s)).
Proof.
  intros Hlv Hopt Hrv Hp Hlen Hst Hs Hslot. set (a := le_bytes 4 (sock_gen s)). set (b := le_bytes 4 (sock_idx s)).
  set (c := grm_cookie_pack slot (sock_idx s)).
  assert (length a = 4%nat ∧ length b = 4%nat ∧ length c = 4%nat) as (Ha & Hb & Hc) by done.
  assert (length (zeros PERCPU_ARRAY_SIZE) = 1024%nat) as Hz by by rewrite length_zeros.
  rewrite (getsockopt_fits ctx w (store (store (store (zeros PERCPU_ARRAY_SIZE) 0 a) 4 b) 8 c) 12); try done.
  - f_equal. pose proof (store_store_app (zeros PERCPU_ARRAY_SIZE) 0 a b ltac:(rewrite Hz; lia)) as H1. rewrite Ha in H1.
    pose proof (store_store_app (zeros PERCPU_ARRAY_SIZE) 0 (a ++ b) c ltac:(rewrite length_app, Hz; lia)) as H2.
    rewrite length_app, Ha, Hb in H2. cbn [Nat.add] in H1, H2. rewrite H1, H2, <- app_assoc.
    pose proof (page_begin (a ++ b ++ c) ltac:(rewrite !length_app, Ha, Hb, Hc; unfold PERCPU_ARRAY_SIZE; lia)) as Hx.
    rewrite !length_app, Ha, Hb, Hc in Hx. cbn [Nat.add] in Hx. rewrite Hx.
    apply store_full. by rewrite !length_app, Ha, Hb, Hc, Hlen.
  - by rewrite Hopt.
  - unfold first_fit, getsockopt_sizes, find, setsockopt_opts_SZ. by rewrite Hlen.
  - unfold getsockopt_data. cbn [w_groups w_socks tick]. unfold group_at in Hst. rewrite Hst, Hs, Hopt.
    cbn [Z.eqb Pos.eqb UDP_GRM_WORKING_GEN UDP_GRM_SOCKET_GEN]. unfold bpf_TO_WRK_GEN. by rewrite Hslot.
Qed.

(** The 16-bit cookie that UDP_GRM_SOCKET_GEN returns. *)
Lemma getsockopt_cookie ctx w st s slot :
  so_level ctx = IPPROTO_UDP → so_optname ctx = UDP_GRM_SOCKET_GEN → so_get_retval ctx = - ENOPROTOOPT →
  percpu_page_ok (w_tick w) = true → length (so_optval ctx) = 12%nat →
  group_at w (_skey_from_bpf_sock (so_sk ctx)) = Some st →
  bpf_map_lookup_elem (w_socks w) (bs_id (so_sk ctx)) = Some s →
  TO_WRK_GEN (dis_max_apps (dis st)) (sock_app s) (sock_gen s) = Some slot →
  slice (sr_optval (fst (udpgrm_getsockopt ctx w))) 8 2 = take 2 (grm_cookie_pack slot (sock_idx s)).
Proof.
  intros Hlv Hopt Hrv Hp Hlen Hst Hs Hslot. by rewrite (getsockopt_socket_gen ctx w st s slot).
Qed.

(** The index that an 8-byte read of UDP_GRM_SOCKET_GEN returns, behind the generation. *)
Lemma getsockopt_index ctx w res w' :
  so_level ctx = IPPROTO_UDP → so_optname ctx = UDP_GRM_SOCKET_GEN → so_get_retval ctx = - ENOPROTOOPT →
  length (so_optval ctx) = 8%nat → udpgrm_getsockopt ctx w = (res, w') → sr_ret res = 1 →
  w' = tick w ∧ ∃ s, bpf_map_lookup_elem (w_socks w) (bs_id (so_sk ctx)) = Some s ∧
    load 4 (sr_optval res) 4 = u32 (sock_idx s).
Proof.
  intros Hlv Hopt Hrv Hlen. unfold udpgrm_getsockopt, not_ours.
  rewrite Hlv, Hopt, Hrv, Z.eqb_refl. cbn [negb andb Z.leb Z.eqb Z.compare Pos.compare Pos.compare_cont
    _UDP_GRM_MIN _UDP_GRM_MAX UDP_GRM_SOCKET_GEN IPPROTO_UDP Pos.eqb CompOpp].
  change (- ENOPROTOOPT =? - ENOPROTOOPT) with true. cbn [negb].
  unfold empty_percpu_page. destruct (percpu_page_ok _); [|by intros [= <- <-]].
  unfold getsockopt_data. cbn [w_groups w_socks tick]. rewrite Hopt.
  cbn [Z.eqb Pos.eqb UDP_GRM_WORKING_GEN UDP_GRM_SOCKET_GEN].
  destruct (bpf_map_lookup_elem (w_socks w) _) as [s|] eqn:Hs; [|by intros [= <- <-]].
  unfold first_fit, getsockopt_sizes, find, setsockopt_opts_SZ. rewrite Hlen. cbn [Nat.leb Nat.add].
  set (pg0 := store (zeros PERCPU_ARRAY_SIZE) 0 (le_bytes 4 (sock_gen s))).
  set (pg := store pg0 4 _). set (v := grm_cookie_pack _ _).
  assert (length pg0 = PERCPU_ARRAY_SIZE) as Hpg0 by (unfold pg0; rewrite length_store; rewrite length_zeros; [done|]; rewrite length_le_bytes; unfold PERCPU_ARRAY_SIZE; lia).
  assert (length pg = PERCPU_ARRAY_SIZE) as Hpg by (unfold pg; rewrite length_store; [done|]; rewrite Hpg0, length_le_bytes; unfold PERCPU_ARRAY_SIZE; lia).
  set (data := take 8 (store pg 8 v)). assert (data = take 8 pg) as ->.
  { unfold data. apply list_eq. intros i. destruct (Nat.lt_ge_cases i 8); [|by rewrite !lookup_take_ge by lia].
    rewrite !lookup_take_lt by lia. unfold store. rewrite lookup_app_l by (rewrite length_take, Hpg; unfold PERCPU_ARRAY_SIZE; lia).
    by rewrite lookup_take_lt by lia. }
  remember (take 8 pg) as o eqn:Ho.
  intros E _. injection E as <- <-. split; [done|]. exists s. split; [done|]. cbn [sr_optval]. rewrite Ho.
  rewrite store_full by (rewrite length_take, Hpg, Hlen; unfold PERCPU_ARRAY_SIZE; lia).
  unfold load, slice. rewrite take_drop_commute. change (4 + 4)%nat with 8%nat. rewrite take_take, Nat.min_id.
  change 8%nat with (4 + 4)%nat at 1. rewrite <- take_drop_commute.
  change (take 4 (drop 4 pg)) with (slice pg 4 4).
  pose proof (slice_store_same pg0 4 (le_bytes 4 (sock_idx s))) as Hslice. rewrite length_le_bytes, Hpg0 in Hslice.
  unfold pg. rewrite Hslice by (unfold PERCPU_ARRAY_SIZE; lia).
  apply (le_combine_le_bytes 4).
Qed.

Lemma getsockopt_working_gen ctx w st s :
  so_level ctx = IPPROTO_UDP → so_optname ctx = UDP_GRM_WORKING_GEN → so_get_retval ctx = - ENOPROTOOPT →
  percpu_page_ok (w_tick w) = true → length (so_optval ctx) = 4%nat →
  group_at w (_skey_from_bpf_sock (so_sk ctx)) = Some st →
  bpf_map_lookup_elem (w_socks w) (bs_id (so_sk ctx)) = Some s →
  fst (udpgrm_getsockopt ctx w) = mk_sores 1 (so_optlen ctx) 0
    (le_bytes 4 (nthZ (working_gen st) (sock_app s mod MAX_APPS))).
Proof.
  intros Hlv Hopt Hrv Hp Hlen Hst Hs. set (v := nthZ (working_gen st) (sock_app s mod MAX_APPS)).
  apply getsockopt_u32; try done; [by rewrite Hopt|].
  unfold getsockopt_data. cbn [w_groups w_socks tick]. unfold group_at in Hst. by rewrite Hst, Hs, Hopt.
Qed.
End Accepted.

(** Setting a dissector: on a socket whose group does not exist yet, an accepted
    UDP_GRM_DISSECTOR has passed the validation, and reading the option back, at any
    later time at which the group still holds it, returns the same 632 bytes with the
    flag bits of the type cleared; the flags ended up in [verbose]. *)
Theorem dissector_roundtrip {K : Kernel} {L : KernelLaws} ctx w res w' :
  so_optname ctx = UDP_GRM_DISSECTOR → not_ours ctx = false →
  so_optlen ctx ≠ -1 → so_get_retval ctx = 0 → length (so_optval ctx) = DISSECTOR_SZ →
  udpgrm_setsockopt ctx w = (res, w') → sr_ret res = 1 →
  group_at w (_skey_from_bpf_sock (so_sk ctx)) = None →
  dissector_invalid (so_optval ctx) = false ∧ sr_retval res = 0 ∧ sr_optlen res = -1 ∧
  ∃ st', group_at w' (_skey_from_bpf_sock (so_sk ctx)) = Some st' ∧
    verbose st' = verbose_of (dis_type (so_optval ctx)) ∧
    ∀ ctx2 w2, so_sk ctx2 = so_sk ctx → so_level ctx2 = IPPROTO_UDP →
      so_optname ctx2 = UDP_GRM_DISSECTOR → so_get_retval ctx2 = - ENOPROTOOPT →
      length (so_optval ctx2) = DISSECTOR_SZ → percpu_page_ok (w_tick w2) = true →
      group_at w2 (_skey_from_bpf_sock (so_sk ctx)) = Some st' →
      fst (udpgrm_getsockopt ctx2 w2) = mk_sores 1 (so_optlen ctx2) 0
        (store (so_optval ctx) 0 (le_bytes 4 (DISSECTOR_TYPE (dis_type (so_optval ctx))))).
Proof.
  intros Hopt Ho Hl Hv Hlen E Hr Hnone.
  destruct (set_dissector_new ctx w res w' Hopt Ho Hl Hv E Hr Hnone) as (n & s & rnd & Hn & Hs & Hd & -> & Hat).
  rewrite (data_dis_full ctx n Hn Hlen) in Hd, Hat.
  do 3 (split; [done|]). eexists. split; [apply Hat|]. split; [done|].
  intros ctx2 w2 Hsk Hlv2 Hopt2 Hrv2 Hlen2 Hp2 Hat2. rewrite <- Hsk in Hat2.
  rewrite (getsockopt_dissector ctx2 w2 _ Hlv2 Hopt2 Hrv2 Hp2 Hlen2 Hat2); [done|].
  unfold dissector_storage. cbn [dis set_dis set_dis_type set_verbose]. rewrite length_store; [done|]. rewrite length_le_bytes, Hlen. unfold DISSECTOR_SZ. lia.
Qed.

(** Setting the working generation: an accepted UDP_GRM_WORKING_GEN stores the
    value for the socket's application, changes no other application's, and posts
    exactly one message to the daemon, for this group, application and value; reading
    the option back returns the value. *)
Theorem working_gen_roundtrip {K : Kernel} {L : KernelLaws} ctx w res w' s st :
  so_optname ctx = UDP_GRM_WORKING_GEN → not_ours ctx = false →
  so_optlen ctx ≠ -1 → so_get_retval ctx = 0 → (4 <= length (so_optval ctx))%nat →
  udpgrm_setsockopt ctx w = (res, w') → sr_ret res = 1 →
  bpf_map_lookup_elem (w_socks w) (bs_id (so_sk ctx)) = Some s →
  group_at w (_skey_from_bpf_sock (so_sk ctx)) = Some st → length (working_gen st) = 4%nat →
  let gen := load 4 (so_optval ctx) 0 in
  let app := sock_app s mod MAX_APPS in
  group_at w' (_skey_from_bpf_sock (so_sk ctx))
    = Some (set_working_gen (<[Z.to_nat app := gen]> (working_gen st)) st) ∧
  (∃ l l', w_rb w' = w_rb w ++ l ++
      mk_msg MSG_SET_WORKING_GEN (_skey_from_bpf_sock (so_sk ctx)) (M_app app gen) :: l' ∧
      Forall is_log (l ++ l')) ∧
  ∀ ctx2, so_sk ctx2 = so_sk ctx → so_level ctx2 = IPPROTO_UDP →
    so_optname ctx2 = UDP_GRM_WORKING_GEN → so_get_retval ctx2 = - ENOPROTOOPT →
    length (so_optval ctx2) = 4%nat → percpu_page_ok (w_tick w') = true →
    fst (udpgrm_getsockopt ctx2 w') = mk_sores 1 (so_optlen ctx2) 0 (le_bytes 4 gen).
Proof.
  intros Hopt Ho Hl Hv Hlen E Hr Hs Hst Hwg gen app.
  destruct (set_working_gen_accepted ctx w res w' Hopt Ho Hl Hv E Hr)
    as (n & s' & created & st' & w1 & Hn & Hs' & Hp & -> & Hsk & _ & Hat & Hrb).
  rewrite Hs in Hs'. injection Hs' as <-.
  inversion Hp as [? ? _ Hst'|]; subst; [|congruence]. rewrite Hst in Hst'. injection Hst' as <-.
  rewrite (data_u32_first ctx n Hn Hlen) in Hat, Hrb. fold gen app in Hat, Hrb.
  split; [done|]. split; [done|]. intros ctx2 Hsk2 Hlv2 Hopt2 Hrv2 Hlen2 Hp2.
  rewrite <- Hsk2 in *. rewrite (getsockopt_working_gen ctx2 w' _ s Hlv2 Hopt2 Hrv2 Hp2 Hlen2 Hat);
    [|by rewrite Hsk].
  f_equal. f_equal. cbn [working_gen set_working_gen]. fold app. unfold nthZ.
  apply nth_lookup_Some. apply list_lookup_insert_eq. rewrite Hwg. subst app. unfold MAX_APPS.
  pose proof (Z.mod_pos_bound (sock_app s) 4 ltac:(lia)). lia.
Qed.

(** ** Evaluation *)
Section Witnesses.
#[local] Existing Instance good_kernel.

(** A bound socket (id 1, cookie 42) without a group, and with the group of [Flow]. *)
Definition bound_world : world :=
  set_socks (<[1 := mk_sock (u32 (-1)) (u32 (-1)) 0 42 0]> (∅ : gmap Z socket_storage)) empty_world.
Definition grouped_world : world :=
  set_groups (<[_skey_from_bpf_sock example_sk := flow_group]>
    (∅ : gmap reuseport_storage_key reuseport_storage)) bound_world.
Definition set_ctx (optname : Z) (v : list Z) : bpf_sockopt :=
  mk_sockopt example_sk IPPROTO_UDP optname (Z.of_nat (List.length v)) v 0 99.
Definition get_ctx (optname : Z) (n : nat) : bpf_sockopt :=
  mk_sockopt example_sk IPPROTO_UDP optname (Z.of_nat n) (zeros n) (- ENOPROTOOPT) 99.

(** A bytecode dissector is refused on a group that has a FLOW dissector. *)
Definition refused_ctx := set_ctx UDP_GRM_DISSECTOR (cbpf_dissector example_prog).
Lemma setsockopt_failure_atomic_witness :
  let '(res, w') := udpgrm_setsockopt refused_ctx grouped_world in
  sr_retval res = - EPERM ∧ w_socks w' = w_socks grouped_world ∧
  ∃ st', group_at w' (_skey_from_bpf_sock example_sk) = Some st' ∧ same_config flow_group st'.
Proof.
  pose proof (setsockopt_failure_atomic refused_ctx grouped_world
    (fst (udpgrm_setsockopt refused_ctx grouped_world)) (snd (udpgrm_setsockopt refused_ctx grouped_world))
    eq_refl (surjective_pairing _)) as H.
  assert (fst (udpgrm_setsockopt refused_ctx grouped_world) = reject refused_ctx EPERM) as E
    by (vm_compute; reflexivity).
  rewrite E in H. specialize (H eq_refl). destruct H as (_ & _ & _ & Hs & _ & _ & _ & _ & Hg).
  destruct (udpgrm_setsockopt refused_ctx grouped_world) as [res w']. cbn [fst snd] in *. rewrite E.
  split; [reflexivity|]. split; [exact Hs|].
  assert (group_at grouped_world (_skey_from_bpf_sock (so_sk refused_ctx)) = Some flow_group) as Hf
    by apply lookup_insert_eq.
  rewrite Hf in Hg. exact Hg.
Defined.

(** A bytecode dissector with the verbose flag, on a socket without a group. *)
Definition verbose_dissector : list Z :=
  store (cbpf_dissector example_prog) 0 (le_bytes 4 (DISSECTOR_CBPF + DISSECTOR_FLAG_VERBOSE)).
Definition fresh_ctx := set_ctx UDP_GRM_DISSECTOR verbose_dissector.
Definition fresh_set : world := snd (udpgrm_setsockopt fresh_ctx bound_world).
Lemma dissector_roundtrip_witness :
  fst (udpgrm_getsockopt (get_ctx UDP_GRM_DISSECTOR 632) fresh_set)
    = mk_sores 1 632 0 (cbpf_dissector example_prog).
Proof.
  destruct (dissector_roundtrip fresh_ctx bound_world (fst (udpgrm_setsockopt fresh_ctx bound_world)) fresh_set)
    as (_ & _ & _ & st' & Hat & _ & H).
  - reflexivity.
  - reflexivity.
  - discriminate.
  - reflexivity.
  - vm_compute. reflexivity.
  - apply surjective_pairing.
  - vm_compute. reflexivity.
  - vm_compute. reflexivity.
  - rewrite (H (get_ctx UDP_GRM_DISSECTOR 632) fresh_set) by (exact Hat || vm_compute; reflexivity).
    vm_compute. reflexivity.
Defined.

Definition gen_ctx := set_ctx UDP_GRM_WORKING_GEN (le_bytes 4 7).
Definition gen_set : world := snd (udpgrm_setsockopt gen_ctx grouped_world).
Lemma working_gen_roundtrip_witness :
  fst (udpgrm_getsockopt (get_ctx UDP_GRM_WORKING_GEN 4) gen_set) = mk_sores 1 4 0 [7; 0; 0; 0].
Proof.
  destruct (working_gen_roundtrip gen_ctx grouped_world (fst (udpgrm_setsockopt gen_ctx grouped_world)) gen_set
    (mk_sock (u32 (-1)) (u32 (-1)) 0 42 0) flow_group) as (_ & _ & H).
  - reflexivity.
  - reflexivity.
  - discriminate.
  - reflexivity.
  - vm_compute. lia.
  - apply surjective_pairing.
  - vm_compute. reflexivity.
  - reflexivity.
  - apply lookup_insert_eq.
  - reflexivity.
  - rewrite (H (get_ctx UDP_GRM_WORKING_GEN 4)); reflexivity.
Defined.
End Witnesses.
