(* ===== verification/Creation.v ===== *)
(** Several CPUs in [udpgrm_setsockopt] at once: the creation of a group, the choice of its
    dissector and the other options ([get_state] and [udpgrm_setsockopt] of
    [ebpf/ebpf.c]), one access to shared memory at a time.

    [System] runs one program after the other. Here a call is a [caller] with the point it
    has reached; [caller_step] does its next access (a helper call, or a load or a store of a
    field through the pointer to the group or to the socket's storage) and a schedule says
    which call goes next; the accesses of [flow_assure] are those of [Race].
    [settled_group] says what holds under every schedule once a group exists and nobody is
    creating it; the examples at the end show what two creators do to each other. The copy
    of the dissector counts as one access, and a message goes to where the ring buffer
    ended when it was reserved, whatever was submitted since. *)

From S2P Require Import Prelude Cookie SipHash Storage Cbpf Dissector Reuseport Flow Race Hooks.

(** The option of a call, with what it was given (and, for a registration, the process). *)
Inductive request :=
  | Dissector (d : list Z)
  | Working_gen (gen : Z)
  | Socket_gen (gen pid : Z)
  | Flow_assure (addr : list Z)
  | Socket_app (value : Z)
  | No_option.

(** The point a call has reached: what it does next. *)
Inductive point :=
  | Get_lookup                  (* get_state: bpf_map_lookup_elem *)
  | Get_insert                  (* bpf_map_update_elem, BPF_NOEXIST *)
  | Get_failed (r : Z)          (* log_printf("new state error") *)
  | Get_log                     (* log_printfs("socket group created"), *created_ptr = 1 *)
  | Get_again                   (* bpf_map_lookup_elem *)
  | Init_random                 (* bpf_get_prandom_u32() *)
  | Init_id (rnd : Z)           (* state->random_id = .. *)
  | Init_netns                  (* state->netns_cookie = s->netns_cookie *)
  | Init_verbose                (* state->verbose = 0 *)
  | Init_type                   (* state->dis.dissector_type = DISSECTOR_FLOW *)
  | Check_netns                 (* load state->netns_cookie *)
  | Option                      (* switch to the option's own code *)
  (* UDP_GRM_DISSECTOR *)
  | Dis_cmp                     (* dissector_cmp(&state->dis, &data->dis) *)
  | Dis_verbose                 (* state->verbose = .. *)
  | Dis_reserve                 (* bpf_ringbuf_reserve *)
  | Rb_again (msg : string)     (* log_printf("rb failed") *)
  | Dis_copy (pos : nat)                   (* memcpy(&state->dis, ..) *)
  | Dis_copy_verbose (pos : nat)           (* state->verbose = .. *)
  | Dis_copy_type (pos : nat)              (* state->dis.dissector_type = .. *)
  | Dis_log (pos : nat)                    (* log_printfs("setting dissector type") *)
  | Dis_submit (pos : nat)                 (* bpf_ringbuf_submit *)
  | Dis_delete                  (* bpf_map_delete_elem *)
  (* UDP_GRM_WORKING_GEN *)
  | Wrk_app                                (* load s->sock_app *)
  | Wrk_reserve (app : Z)                  (* bpf_ringbuf_reserve *)
  | Wrk_old (app : Z) (pos : nat)          (* load state->working_gen[app] *)
  | Wrk_store (app old : Z) (pos : nat)    (* state->working_gen[app] = .. *)
  | Wrk_log (app old : Z) (pos : nat)      (* log_printfs("setting working gen") *)
  | Wrk_submit (app : Z) (pos : nat)       (* bpf_ringbuf_submit *)
  (* UDP_GRM_SOCKET_GEN *)
  | Gen_gen                                (* load s->sock_gen *)
  | Gen_idx                                (* load s->sock_idx *)
  | Gen_reserve                            (* bpf_ringbuf_reserve *)
  | Gen_store (pos : nat)                  (* s->sock_gen = .. *)
  | Gen_app (pos : nat)                    (* load s->sock_app *)
  | Gen_logs (app : Z) (pos : nat)         (* log_printfs("registering socket") *)
  | Gen_log (app : Z) (pos : nat)          (* log_printf, load s->sock_app, s->sock_gen *)
  | Gen_submit (app : Z) (pos : nat)       (* bpf_ringbuf_submit *)
  (* UDP_GRM_FLOW_ASSURE *)
  | Flow_type                              (* load state->dis.dissector_type *)
  | Flow_id                                (* load state->random_id; the hash of the address *)
  | Flow_call (t : thread)                 (* flow_assure(state, s, hash) *)
  (* UDP_GRM_SOCKET_APP *)
  | App_cmp                                (* load s->sock_app *)
  | App_gen                                (* load s->sock_gen *)
  | App_idx                                (* load s->sock_idx *)
  | App_max                                (* load state->dis.max_apps *)
  | App_store                              (* s->sock_app = .. *)
  | Returned (retval : Z).

(** A call: its socket, the storage of the socket as the call found it (of which only the
    cookies are used, which no option changes), the option and [created]. *)
Record caller := mk_caller {
  cl_sk : bpf_sock;
  cl_sock : socket_storage;
  cl_req : request;
  cl_created : bool;
  cl_at : point;
}.
Definition go (p : point) (c : caller) : caller := mk_caller (cl_sk c) (cl_sock c) (cl_req c) (cl_created c) p.
Definition creating (c : caller) : caller := mk_caller (cl_sk c) (cl_sock c) (cl_req c) true Get_log.
Definition calls (sk : bpf_sock) (s : socket_storage) (r : request) : caller := mk_caller sk s r false Get_lookup.

(** The flow key of [UDP_GRM_FLOW_ASSURE], for an address of a known family. *)
Definition assured_flow (addr : list Z) (reuseport_group_id : Z) : option ip_flow_hash :=
  if sin_family addr =? AF_INET then
    Some (mk_flow (store (zeros 16) 0 (sin_addr addr)) reuseport_group_id (sin_port addr))
  else if sin_family addr =? AF_INET6 then
    Some (mk_flow (store (zeros 16) 0 (sin6_addr addr)) reuseport_group_id (sin_port addr))
  else None.

Section Creation.
Context {K : Kernel}.

Definition cl_key (c : caller) : reuseport_storage_key := _skey_from_bpf_sock (cl_sk c).

(** The next access of a call. [None]: there is none, or what the call holds a pointer to
    was deleted. *)
Definition caller_step (w : world) (c : caller) : option (world * caller) :=
  let key := cl_key c in
  let group := bpf_map_lookup_elem (w_groups w) key in
  let sock := bpf_map_lookup_elem (w_socks w) (bs_id (cl_sk c)) in
  let load (k : reuseport_storage → point) := st ← group; Some (w, go (k st) c) in
  let store (f : reuseport_storage → reuseport_storage) (p : point) :=
    st ← group; Some (put_state (cl_sk c) (f st) w, go p c) in
  let load_s (k : socket_storage → point) := s ← sock; Some (w, go (k s) c) in
  let store_s (f : socket_storage → socket_storage) (p : point) :=
    s ← sock; Some (put_sock (bs_id (cl_sk c)) (f s) w, go p c) in
  let log fmt args p := Some (log_printf fmt args w, go p c) in
  let logs fmt args p := Some (log_printfs key fmt args w, go p c) in
  let reserve (size : Z) (msg : string) (p : nat → point) :=
    let '(event, w) := ringbuf_reserve size w in
    Some (w, go (match event with None => Rb_again msg | Some _ => p (List.length (w_rb w)) end) c) in
  let submit pos type body := Some (rb_submit pos (mk_msg type key body) w, go (Returned 0) c) in
  let dis (k : list Z → option (world * caller)) := match cl_req c with Dissector d => k d | _ => None end in
  let wrk (k : Z → option (world * caller)) := match cl_req c with Working_gen g => k g | _ => None end in
  let sgen (k : Z → Z → option (world * caller)) := match cl_req c with Socket_gen g pid => k g pid | _ => None end in
  let app (k : Z → option (world * caller)) := match cl_req c with Socket_app v => k v | _ => None end in
  match cl_at c with
  | Get_lookup => Some (w, go (match group with Some _ => Check_netns | None => Get_insert end) c)
  | Get_insert =>
      let '(g, r) := bpf_map_update_elem (w_groups w) key empty_state BPF_NOEXIST in
      Some (set_groups g w, if r =? 0 then creating c else go (Get_failed r) c)
  | Get_failed r => Some (log_printf "new state error %d" [r] w, creating c)
  | Get_log => logs "[#] socket group created" [] Get_again
  | Get_again => Some (w, go (match group with Some _ => Init_random | None => Returned (- EBADF) end) c)
  | Init_random => let '(rnd, w) := get_prandom_u32 w in Some (w, go (Init_id rnd) c)
  | Init_id rnd => store (set_random_id rnd) Init_netns
  | Init_netns => store (set_netns_cookie (so_netns_cookie (cl_sock c))) Init_verbose
  | Init_verbose => store (set_verbose 0) Init_type
  | Init_type => store (set_dis_type DISSECTOR_FLOW) Check_netns
  | Check_netns => load (λ st,
      if negb (netns_cookie st =? so_netns_cookie (cl_sock c)) then Returned (- EBADF) else Option)
  | Option =>
      Some (w, go
        (match cl_req c with
         | Dissector d =>
             if negb (cl_created c) then Dis_cmp else if dissector_invalid d then Dis_delete else Dis_reserve
         | Working_gen _ => Wrk_app
         | Socket_gen _ _ => Gen_gen
         | Flow_assure _ => Flow_type
         | Socket_app _ => App_cmp
         | No_option => Returned (- EPERM)
         end) c)
  | Dis_cmp => dis (λ d, load (λ st,
      if negb (dissector_cmp (Storage.dis st) d =? 0) then Returned (- EPERM) else Dis_verbose))
  | Dis_verbose => dis (λ d, store (set_verbose (verbose_of (dis_type d))) (Returned 0))
  | Dis_delete =>
      Some (set_groups (fst (bpf_map_delete_elem (w_groups w) key)) w, go (Returned (- EPERM)) c)
  | Dis_reserve => reserve EV_VALUE_SZ "[!] Error: rb failed: EGAIN" Dis_copy
  | Rb_again msg => log msg [] (Returned (- EAGAIN))
  | Dis_copy pos => dis (λ d, store (set_dis d) (Dis_copy_verbose pos))
  | Dis_copy_verbose pos => dis (λ d, store (set_verbose (verbose_of (dis_type d))) (Dis_copy_type pos))
  | Dis_copy_type pos => dis (λ d, store (set_dis_type (DISSECTOR_TYPE (dis_type d))) (Dis_log pos))
  | Dis_log pos => dis (λ d, logs "[+] setting dissector type %d" [DISSECTOR_TYPE (dis_type d)] (Dis_submit pos))
  | Dis_submit pos => submit pos MSG_SET_DISSECTOR (M_value 0)
  | Wrk_app => load_s (λ s, Wrk_reserve (sock_app s mod MAX_APPS))
  | Wrk_reserve app => reserve EV_WORKING_GEN_SZ "[!] Error: rb failed: EGAIN" (Wrk_old app)
  | Wrk_old app pos => load (λ st, Wrk_store app (s32 (nthZ (working_gen st) app)) pos)
  | Wrk_store app old pos => wrk (λ gen,
      store (λ st, set_working_gen (<[Z.to_nat app := gen]> (working_gen st)) st) (Wrk_log app old pos))
  | Wrk_log app old pos => wrk (λ gen,
      logs "[+] setting working gen %d (old=%d) (app=%d)" [gen; old; app] (Wrk_submit app pos))
  | Wrk_submit app pos => wrk (λ gen, submit pos MSG_SET_WORKING_GEN (M_app app gen))
  | Gen_gen => sgen (λ gen _, load_s (λ s, if negb (sock_gen s =? gen) then Gen_reserve else Gen_idx))
  | Gen_idx => load_s (λ s, if sock_idx s =? 0xffffffff then Gen_reserve else Returned 0)
  | Gen_reserve => reserve EV_REGISTER_SZ "[!] Error: rb failed, EGAIN" Gen_store
  | Gen_store pos => sgen (λ gen _, store_s (set_sock_gen gen) (Gen_app pos))
  | Gen_app pos => load_s (λ s, Gen_logs (sock_app s) pos)
  | Gen_logs app pos => logs "[+] registering socket " [] (Gen_log app pos)
  | Gen_log app pos => sgen (λ _ pid, s ← sock;
      log "so_cookie=0x%lx app=%d gen=%d pid=%d" [so_cookie (cl_sock c); sock_app s; sock_gen s; pid]
        (Gen_submit app pos))
  | Gen_submit app pos => sgen (λ gen pid,
      submit pos MSG_REGISTER_SOCKET (M_reg pid (so_cookie (cl_sock c)) gen app))
  | Flow_type => load (λ st,
      if negb (DISSECTOR_TYPE (dis_type (Storage.dis st)) =? DISSECTOR_FLOW) then Returned (- EPERM) else Flow_id)
  | Flow_id =>
      match cl_req c with
      | Flow_assure addr => load (λ st,
          match assured_flow addr (random_id st) with
          | None => Returned (- EPERM)
          | Some flow => Flow_call (send (cl_sock c) (count_ip_flow_hash flow))
          end)
      | _ => None
      end
  | Flow_call t =>
      st ← group;
      match call_step st w t with
      | Some (st, w, t) => Some (put_state (cl_sk c) st w, go (Flow_call t) c)
      | None => Some (w, go (Returned (match t_pc t with Return 0 => - EEXIST | _ => 0 end)) c)
      end
  | App_cmp => app (λ v, load_s (λ s, if negb (sock_app s =? v) then App_gen else Returned 0))
  | App_gen => load_s (λ s, if negb (sock_gen s =? 0xffffffff) then Returned (- EEXIST) else App_idx)
  | App_idx => load_s (λ s, if negb (sock_idx s =? 0xffffffff) then Returned (- EEXIST) else App_max)
  | App_max => app (λ v, load (λ st, if dis_max_apps (Storage.dis st) <=? v then Returned (- EOVERFLOW) else App_store))
  | App_store => app (λ v, store_s (set_sock_app v) (Returned 0))
  | Returned _ => None
  end.

Definition callers_step (c : world * list caller) (i : nat) : world * list caller :=
  let '(w, l) := c in
  match l !! i with
  | None => c
  | Some t => match caller_step w t with None => c | Some (w, t) => (w, <[i := t]> l) end
  end.
Definition run_callers (sched : list nat) (c : world * list caller) : world * list caller :=
  fold_left callers_step sched c.
End Creation.

(** An access read off its rule. *)
Ltac reduce_step :=
  cbv beta iota zeta delta [caller_step cl_key go creating calls cl_at cl_sk cl_sock cl_req cl_created negb mbind option_bind].

(** ** An undisturbed call is the program *)
Section Alone.
Context {K : Kernel} {L : KernelLaws}.

(** Two worlds that differ at most in how a map of groups with the same entries came about. *)
Definition same_groups (w w' : world) : Prop :=
  (∀ k, group_at w k = group_at w' k) ∧ set_groups (w_groups w) w' = w.

Definition alone (n : nat) (w : world) (c : caller) : world * list caller := run_callers (repeat 0%nat n) (w, [c]).
Definition ends_with (n : nat) (w : world) (c : caller) (r : Z) (w' : world) : Prop :=
  ∃ k w1 c1, (k <= n)%nat ∧ alone k w c = (w1, [c1]) ∧ cl_at c1 = Returned r ∧ same_groups w1 w'.

Lemma ends_next n w c w1 c1 r w' : caller_step w c = Some (w1, c1) → ends_with n w1 c1 r w' →
  ends_with (S n) w c r w'.
Proof.
  intros E (k & w2 & c2 & Hk & Ha & Hr & Hw). exists (S k), w2, c2. split_and!; [lia| |done|done].
  unfold alone, run_callers in *. cbn [repeat fold_left]. unfold callers_step at 2. cbn. by rewrite E.
Qed.
Lemma ends_here n w c r : cl_at c = Returned r → ends_with n w c r w.
Proof. intros E. exists 0%nat, w, c. split_and!; [lia|done|done|split; [done|by destruct w]]. Qed.

Lemma same_groups_refl w : same_groups w w.
Proof. split; [done|by destruct w]. Qed.
Lemma same_groups_put sk w w' st : same_groups w w' → is_Some (group_at w (_skey_from_bpf_sock sk)) →
  same_groups (put_state sk st w) (put_state sk st w').
Proof.
  intros [Hg Hw] Hs. split.
  - intros k. destruct (decide (k = _skey_from_bpf_sock sk)) as [->|Hne].
    + rewrite !group_at_put_same; [done|by rewrite <- Hg|done].
    + rewrite !group_at_put_other by done. apply Hg.
  - unfold put_state. rewrite <- Hw. by destruct w'.
Qed.
Lemma same_groups_over sk w w' a b : same_groups w w' → is_Some (group_at w (_skey_from_bpf_sock sk)) →
  same_groups (put_state sk b (put_state sk a w)) (put_state sk b w').
Proof.
  intros Hw Hs. destruct (same_groups_put sk w w' b Hw Hs) as [Hg Hr]. split.
  - intros k. rewrite <- Hg. destruct (decide (k = _skey_from_bpf_sock sk)) as [->|Hne].
    + rewrite !group_at_put_same; [done|done|]. rewrite group_at_put_same by done. eauto.
    + by rewrite !group_at_put_other.
  - unfold put_state. destruct Hw as [_ <-]. by destruct w'.
Qed.
Lemma same_groups_tick w w' : same_groups w w' → same_groups (tick w) (tick w').
Proof. intros [Hg <-]. by split. Qed.
Lemma same_groups_submit pos m w w' : same_groups w w' → same_groups (rb_submit pos m w) (rb_submit pos m w').
Proof. intros [Hg <-]. by split. Qed.
Lemma log_printfs_groups key fmt args g w :
  log_printfs key fmt args (set_groups g w) = set_groups g (log_printfs key fmt args w).
Proof. unfold log_printfs, ringbuf_reserve. cbn. by repeat case_match. Qed.
Lemma same_groups_log key fmt args w w' : same_groups w w' →
  same_groups (log_printfs key fmt args w) (log_printfs key fmt args w').
Proof.
  intros [Hg <-]. rewrite log_printfs_groups. split; [|done].
  intros k. rewrite (group_at_logs _ _ k (logs_only_printfs w' key fmt args)). apply Hg.
Qed.
Lemma log_printf_groups fmt args g w : log_printf fmt args (set_groups g w) = set_groups g (log_printf fmt args w).
Proof. unfold log_printf, ringbuf_reserve. cbn. by repeat case_match. Qed.
Lemma same_groups_logf fmt args w w' : same_groups w w' →
  same_groups (log_printf fmt args w) (log_printf fmt args w').
Proof.
  intros [Hg <-]. rewrite log_printf_groups. split; [|done].
  intros k. pose proof (group_at_logs _ _ k (logs_only_if w' true fmt args)) as E. cbn [log_if] in E. rewrite E. apply Hg.
Qed.
Lemma same_groups_trans w1 w2 w3 : same_groups w1 w2 → same_groups w2 w3 → same_groups w1 w3.
Proof.
  intros [H1 E1] [H2 E2]. split; [intros k; by rewrite H1, H2|]. rewrite <- E1, <- E2. by destruct w3.
Qed.
Lemma ends_with_same n w c r w1 w2 : ends_with n w c r w1 → same_groups w1 w2 → ends_with n w c r w2.
Proof.
  intros (k & w' & c' & Hk & Ha & Hr & Hs) Hw. exists k, w', c'. split_and!; [done..|].
  by eapply same_groups_trans.
Qed.

(** The call from [get_state] on, as [Hooks] has it. *)
Definition with_group (ctx : bpf_sockopt) (data : list Z) (s : socket_storage) (created : bool)
  (st : reuseport_storage) (w : world) : sockopt_result * world :=
  let '(st, w) :=
    if created then
      let '(rnd, w) := get_prandom_u32 w in
      let st := init_state (so_netns_cookie s) rnd st in
      (st, put_state (so_sk ctx) st w)
    else (st, w) in
  if negb (netns_cookie st =? so_netns_cookie s) then (reject ctx EBADF, w)
  else set_dissector_opt ctx data created st w.
Definition dissector_call (ctx : bpf_sockopt) (data : list Z) (s : socket_storage) (w : world) : sockopt_result * world :=
  match get_state (so_sk ctx) true w with
  | (None, _, w) => (reject ctx EBADF, w)
  | (Some st, created, w) => with_group ctx data s created st w
  end.

(** One access, whose rule is read off the goal with the given equations. *)
Ltac hop := eapply ends_next; [reduce_step; reflexivity|].
Tactic Notation "hop" "by" uconstr(E) :=
  eapply ends_next; [reduce_step; rewrite E; cbv beta iota; cbn [mbind option_bind]; reflexivity|]; reduce_step.

Lemma old_group_alone ctx data s st w :
  group_at w (_skey_from_bpf_sock (so_sk ctx)) = Some st → netns_cookie st = so_netns_cookie s →
  ends_with 4 w (go Check_netns (calls (so_sk ctx) s (Dissector (data_dis data))))
    (sr_retval (fst (set_dissector_opt ctx data false st w))) (snd (set_dissector_opt ctx data false st w)).
Proof.
  intros Hg Hn. unfold group_at in Hg. unfold set_dissector_opt. cbn [negb].
  hop by Hg. rewrite Hn, Z.eqb_refl. cbn [negb]. hop. hop by Hg.
  destruct (dissector_cmp (dis st) (data_dis data) =? 0); cbn [negb fst snd].
  - hop by Hg. by apply ends_here.
  - by apply ends_here.
Qed.

(** The world of a chain of stores is the base with the last store. *)
Definition holding (sk : bpf_sock) (w base : world) (st : reuseport_storage) : Prop :=
  same_groups w (put_state sk st base) ∧ is_Some (group_at base (_skey_from_bpf_sock sk)).
Lemma holding_first sk w base st : same_groups w base → is_Some (group_at base (_skey_from_bpf_sock sk)) →
  holding sk (put_state sk st w) base st.
Proof. intros Hw Hs. split; [|done]. apply same_groups_put; [done|]. by rewrite (proj1 Hw). Qed.
Lemma holding_at sk w base st : holding sk w base st →
  bpf_map_lookup_elem (w_groups w) (_skey_from_bpf_sock sk) = Some st.
Proof. intros [[Hg _] Hs]. etrans; [exact (Hg _)|]. by apply (group_at_put_same sk st base). Qed.
Lemma holding_store sk w base st st' : holding sk w base st → holding sk (put_state sk st' w) base st'.
Proof.
  intros Hw. pose proof (holding_at _ _ _ _ Hw) as Hg. destruct Hw as [Hw Hs]. split; [|done].
  eapply same_groups_trans; [apply (same_groups_put sk _ _ st' Hw); unfold group_at; by rewrite Hg|].
  apply same_groups_over; [apply same_groups_refl|done].
Qed.
Lemma holding_end sk w base st : holding sk w base st → same_groups w (put_state sk st base).
Proof. by intros [? _]. Qed.

(** The stores that follow a successful reservation. *)
Lemma copy_alone sk s d w base st created pos :
  same_groups w base → group_at base (_skey_from_bpf_sock sk) = Some st →
  let st := set_dis_type (DISSECTOR_TYPE (dis_type d)) (set_verbose (verbose_of (dis_type d)) (set_dis d st)) in
  let skey := _skey_from_bpf_sock sk in
  ends_with 5 w (mk_caller sk s (Dissector d) created (Dis_copy pos)) 0
    (rb_submit pos (mk_msg MSG_SET_DISSECTOR skey (M_value 0))
      (log_printfs skey "[+] setting dissector type %d" [DISSECTOR_TYPE (dis_type d)] (put_state sk st base))).
Proof.
  intros Hw Hg. cbv zeta.
  assert (Hg0 : bpf_map_lookup_elem (w_groups w) (_skey_from_bpf_sock sk) = Some st)
    by (etrans; [exact (proj1 Hw _)|exact Hg]).
  hop by Hg0. pose proof (holding_first sk w base (set_dis d st) Hw ltac:(eauto)) as H1.
  hop by (holding_at _ _ _ _ H1).
  apply (holding_store _ _ _ _ (set_verbose (verbose_of (dis_type d)) (set_dis d st))) in H1.
  hop by (holding_at _ _ _ _ H1).
  apply (holding_store _ _ _ _ (set_dis_type (DISSECTOR_TYPE (dis_type d))
    (set_verbose (verbose_of (dis_type d)) (set_dis d st)))) in H1.
  hop. hop. eapply ends_with_same; [by apply ends_here|].
  apply same_groups_submit, same_groups_log, holding_end, H1.
Qed.

Lemma same_groups_delete key w w' : same_groups w w' →
  same_groups (set_groups (fst (bpf_map_delete_elem (w_groups w) key)) w)
    (set_groups (fst (bpf_map_delete_elem (w_groups w') key)) w').
Proof.
  intros [Hg Hw]. split.
  - intros k. unfold group_at in *. cbn [w_groups set_groups].
    destruct (bpf_map_delete_elem (w_groups w) key) as [g r] eqn:E1.
    destruct (bpf_map_delete_elem (w_groups w') key) as [g' r'] eqn:E2. cbn [fst].
    destruct (decide (k = key)) as [->|Hne].
    + by rewrite (map_delete_ok (exact := true) _ _ _ _ E1), (map_delete_ok (exact := true) _ _ _ _ E2).
    + by rewrite (map_delete_other (exact := true) _ _ _ _ _ E1 Hne), (map_delete_other (exact := true) _ _ _ _ _ E2 Hne).
  - rewrite <- Hw. by destruct w'.
Qed.
Lemma same_groups_fields w w' : same_groups w w' → w_tick w = w_tick w' ∧ w_rb w = w_rb w'.
Proof. intros [_ E]. by rewrite <- E. Qed.

(** The creator, from the second lookup on. *)
Lemma new_group_alone ctx data s st w :
  group_at w (_skey_from_bpf_sock (so_sk ctx)) = Some st →
  let '(rnd, w1) := get_prandom_u32 w in
  let st1 := init_state (so_netns_cookie s) rnd st in
  let res := set_dissector_opt ctx data true st1 (put_state (so_sk ctx) st1 w1) in
  ends_with 14 w (mk_caller (so_sk ctx) s (Dissector (data_dis data)) true Get_again)
    (sr_retval (fst res)) (snd res).
Proof.
  intros Hg. unfold group_at in Hg. cbn [get_prandom_u32]. cbv zeta.
  set (rnd := bpf_get_prandom_u32 (w_tick w)). set (w1 := tick w).
  unfold set_dissector_opt. set (sk := so_sk ctx) in *. set (d := data_dis data). cbn [negb].
  assert (Hg1 : bpf_map_lookup_elem (w_groups w1) (_skey_from_bpf_sock sk) = Some st) by exact Hg.
  assert (Hs : is_Some (group_at w1 (_skey_from_bpf_sock sk))) by (unfold group_at; rewrite Hg1; eauto).
  hop by Hg. hop. fold rnd w1. hop by Hg1.
  pose proof (holding_first sk w1 w1 (set_random_id rnd st) (same_groups_refl w1) Hs) as H1.
  hop by (holding_at _ _ _ _ H1). set (s2 := set_netns_cookie (so_netns_cookie s) (set_random_id rnd st)).
  apply (holding_store _ _ _ _ s2) in H1.
  hop by (holding_at _ _ _ _ H1). apply (holding_store _ _ _ _ (set_verbose 0 s2)) in H1.
  hop by (holding_at _ _ _ _ H1). apply (holding_store _ _ _ _ (set_dis_type DISSECTOR_FLOW (set_verbose 0 s2))) in H1.
  change (set_dis_type DISSECTOR_FLOW (set_verbose 0 s2)) with (init_state (so_netns_cookie s) rnd st) in *.
  set (st1 := init_state (so_netns_cookie s) rnd st) in *.
  match type of H1 with holding _ ?w' _ _ => set (w2 := w') in * end.
  hop by (holding_at _ _ _ _ H1). change (netns_cookie st1) with (so_netns_cookie s). rewrite Z.eqb_refl. cbn [negb].
  hop. pose proof (holding_end _ _ _ _ H1) as Hw2.
  assert (Hg2 : group_at (put_state sk st1 w1) (_skey_from_bpf_sock sk) = Some st1) by by apply group_at_put_same.
  destruct (dissector_invalid d).
  - pose proof (same_groups_delete (_skey_from_bpf_sock sk) _ _ Hw2) as Hd. hop.
    destruct (bpf_map_delete_elem (w_groups (put_state sk st1 w1)) (_skey_from_bpf_sock sk)).
    eapply ends_with_same; [by apply ends_here|exact Hd].
  - hop. destruct (same_groups_fields _ _ Hw2) as [Et Erb].
    unfold ringbuf_reserve. rewrite Et. pose proof (same_groups_tick _ _ Hw2) as Hw3.
    destruct (bpf_ringbuf_reserve _ EV_VALUE_SZ); cbn [fst snd].
    + rewrite <- (proj2 (same_groups_fields _ _ Hw3)). apply (copy_alone sk s d (tick w2) (tick (put_state sk st1 w1)) st1); done.
    + hop. eapply ends_with_same; [by apply ends_here|]. by apply same_groups_logf.
Qed.

Lemma ends_with_mono n m w c r w' : (n <= m)%nat → ends_with n w c r w' → ends_with m w c r w'.
Proof. intros Hn (k & w1 & c1 & Hk & ?). exists k, w1, c1. split; [lia|done]. Qed.

(** The creator, from its log message on. *)
Definition logged_call (ctx : bpf_sockopt) (data : list Z) (s : socket_storage) (w : world) : sockopt_result * world :=
  let skey := _skey_from_bpf_sock (so_sk ctx) in
  let w := log_printfs skey "[#] socket group created" [] w in
  match bpf_map_lookup_elem (w_groups w) skey with
  | None => (reject ctx EBADF, w)
  | Some st => with_group ctx data s true st w
  end.
Lemma logged_alone ctx data s w :
  ends_with 15 w (mk_caller (so_sk ctx) s (Dissector (data_dis data)) true Get_log)
    (sr_retval (fst (logged_call ctx data s w))) (snd (logged_call ctx data s w)).
Proof.
  unfold logged_call. cbv zeta. hop. set (w2 := log_printfs _ _ _ w).
  destruct (bpf_map_lookup_elem (w_groups w2) (_skey_from_bpf_sock (so_sk ctx))) as [st|] eqn:Ha.
  - unfold with_group. cbn [get_prandom_u32].
    change (netns_cookie (init_state (so_netns_cookie s) _ st)) with (so_netns_cookie s).
    rewrite Z.eqb_refl. exact (new_group_alone ctx data s st w2 Ha).
  - hop by Ha. by apply ends_here.
Qed.

(** A call that no other call interrupts does what the program does, in at most 18 accesses. *)
Lemma caller_alone ctx data s w :
  let res := dissector_call ctx data s w in
  ends_with 18 w (calls (so_sk ctx) s (Dissector (data_dis data))) (sr_retval (fst res)) (snd res).
Proof.
  cbv zeta. unfold dissector_call, get_state.
  destruct (bpf_map_lookup_elem (w_groups w) (_skey_from_bpf_sock (so_sk ctx))) as [st|] eqn:Hg.
  - unfold with_group. hop by Hg. destruct (Z.eqb_spec (netns_cookie st) (so_netns_cookie s)) as [Hn|Hn]; cbn [negb].
    + eapply (ends_with_mono 4); [lia|]. exact (old_group_alone ctx data s st w Hg Hn).
    + hop by Hg. apply Z.eqb_neq in Hn. rewrite Hn. by apply ends_here.
  - hop by Hg.
    destruct (bpf_map_update_elem (w_groups w) (_skey_from_bpf_sock (so_sk ctx)) empty_state BPF_NOEXIST) as [g r] eqn:Eu.
    eapply ends_next; [reduce_step; rewrite Eu; reflexivity|]. reduce_step.
    set (w1 := log_if _ _ _ _). pose proof (logged_alone ctx data s w1) as Hl. unfold logged_call in Hl. cbv zeta in Hl.
    eapply (ends_with_mono 16); [lia|].
    assert (∀ res w', ends_with 15 w1 (mk_caller (so_sk ctx) s (Dissector (data_dis data)) true Get_log) res w' →
      ends_with 16 (set_groups g w) (if r =? 0 then mk_caller (so_sk ctx) s (Dissector (data_dis data)) true Get_log
        else mk_caller (so_sk ctx) s (Dissector (data_dis data)) false (Get_failed r)) res w') as Hi.
    { intros res w' Hr. unfold w1 in Hr. destruct (r =? 0); cbn [negb log_if] in Hr; [eapply (ends_with_mono 15); [lia|exact Hr]|].
      hop. exact Hr. }
    destruct (bpf_map_lookup_elem (w_groups (log_printfs _ _ _ w1)) _); apply Hi; exact Hl.
Qed.

(** The other options on a group that is there, from [switch] on ([flow_assure]:
    [Race.flow_assure_alone]). *)
Lemma working_gen_alone ctx data s st w :
  group_at w (_skey_from_bpf_sock (so_sk ctx)) = Some st →
  bpf_map_lookup_elem (w_socks w) (bs_id (so_sk ctx)) = Some s →
  ends_with 7 w (mk_caller (so_sk ctx) s (Working_gen (data_u32 data 0)) false Option)
    (sr_retval (fst (set_working_gen_opt ctx data s st w))) (snd (set_working_gen_opt ctx data s st w)).
Proof.
  intros Hg Hs. unfold set_working_gen_opt, ringbuf_reserve. cbv zeta.
  assert (Hg1 : bpf_map_lookup_elem (w_groups (tick w)) (_skey_from_bpf_sock (so_sk ctx)) = Some st) by exact Hg.
  hop. hop by Hs. hop. destruct (bpf_ringbuf_reserve _ _); cbn [fst snd].
  - hop by Hg1. hop by Hg1. hop. hop. by apply ends_here.
  - hop. by apply ends_here.
Qed.

Lemma register_alone ctx data s w :
  bpf_map_lookup_elem (w_socks w) (bs_id (so_sk ctx)) = Some s →
  negb (sock_gen s =? data_u32 data 0) || (sock_idx s =? 0xffffffff) = true →
  ends_with 6 w (mk_caller (so_sk ctx) s (Socket_gen (data_u32 data 0) (so_pid ctx)) false Gen_reserve)
    (sr_retval (fst (set_socket_gen_opt ctx data s w))) (snd (set_socket_gen_opt ctx data s w)).
Proof.
  intros Hs Hc. unfold set_socket_gen_opt, ringbuf_reserve. cbv zeta. rewrite Hc. hop.
  destruct (bpf_ringbuf_reserve _ _); cbn [fst snd].
  - assert (Hs1 : bpf_map_lookup_elem (w_socks (tick w)) (bs_id (so_sk ctx)) = Some s) by exact Hs.
    hop by Hs1. set (w1 := put_sock _ _ _).
    assert (Hs2 : bpf_map_lookup_elem (w_socks w1) (bs_id (so_sk ctx)) = Some (set_sock_gen (data_u32 data 0) s)).
    { apply (map_write_same (exact := true)). rewrite Hs1. by eexists. }
    hop by Hs2. hop. set (w2 := log_printfs _ _ _ w1).
    assert (Hs3 : bpf_map_lookup_elem (w_socks w2) (bs_id (so_sk ctx)) = Some (set_sock_gen (data_u32 data 0) s)).
    { unfold w2. by rewrite (lo_socks _ _ (logs_only_printfs w1 _ _ _)). }
    hop by Hs3. hop. by apply ends_here.
  - hop. by apply ends_here.
Qed.
Lemma socket_gen_alone ctx data s st w :
  group_at w (_skey_from_bpf_sock (so_sk ctx)) = Some st →
  bpf_map_lookup_elem (w_socks w) (bs_id (so_sk ctx)) = Some s →
  ends_with 9 w (mk_caller (so_sk ctx) s (Socket_gen (data_u32 data 0) (so_pid ctx)) false Option)
    (sr_retval (fst (set_socket_gen_opt ctx data s w))) (snd (set_socket_gen_opt ctx data s w)).
Proof.
  intros Hg Hs. pose proof (register_alone ctx data s w Hs) as Hreg. hop. hop by Hs.
  destruct (sock_gen s =? data_u32 data 0) eqn:Eg; cbn [negb orb] in Hreg.
  - hop by Hs. destruct (sock_idx s =? 0xffffffff) eqn:Ei; [by apply Hreg|].
    unfold set_socket_gen_opt. cbv zeta. rewrite Eg, Ei. cbn [negb orb]. by apply ends_here.
  - eapply (ends_with_mono 6); [lia|]. by apply Hreg.
Qed.

Lemma socket_app_alone ctx data s st w :
  group_at w (_skey_from_bpf_sock (so_sk ctx)) = Some st →
  bpf_map_lookup_elem (w_socks w) (bs_id (so_sk ctx)) = Some s →
  ends_with 6 w (mk_caller (so_sk ctx) s (Socket_app (data_u32 data 0)) false Option)
    (sr_retval (fst (set_socket_app_opt ctx data s st w))) (snd (set_socket_app_opt ctx data s st w)).
Proof.
  intros Hg Hs. unfold group_at in Hg. unfold set_socket_app_opt. cbv zeta. hop. hop by Hs.
  destruct (sock_app s =? data_u32 data 0); cbn [negb]; [by apply ends_here|]. hop by Hs.
  destruct (sock_gen s =? 0xffffffff); cbn [negb orb]; [|by apply ends_here]. hop by Hs.
  destruct (sock_idx s =? 0xffffffff); cbn [negb]; [|by apply ends_here]. hop by Hg.
  destruct (dis_max_apps (dis st) <=? data_u32 data 0); [by apply ends_here|]. hop by Hs. by apply ends_here.
Qed.
End Alone.

(** ** A settled group under every schedule *)
Section Settled.
Context {K : Kernel} {L : KernelLaws}.

(** What the program may answer a call on the group [st]. *)
Definition answers (st : reuseport_storage) (c : caller) (r : Z) : Prop :=
  if negb (netns_cookie st =? so_netns_cookie (cl_sock c)) then r = - EBADF
  else
    match cl_req c with
    | Dissector d => r = if negb (dissector_cmp (dis st) d =? 0) then - EPERM else 0
    | Working_gen _ | Socket_gen _ _ => r = 0 ∨ r = - EAGAIN
    | Flow_assure addr =>
        if negb (DISSECTOR_TYPE (dis_type (dis st)) =? DISSECTOR_FLOW) then r = - EPERM
        else match assured_flow addr (random_id st) with None => r = - EPERM | Some _ => r = 0 ∨ r = - EEXIST end
    | Socket_app v => r = 0 ∨ r = - EEXIST ∨ (r = - EOVERFLOW ∧ dis_max_apps (dis st) <= v)
    | No_option => r = - EPERM
    end.

(** A bound on the accesses that a call that is not a creator still has to do. *)
Definition accesses_left (c : caller) : nat :=
  match cl_at c with
  | Get_lookup => 17 | Check_netns => 16 | Option => 15
  | Dis_cmp => 2 | Dis_verbose => 1
  | Wrk_app => 6 | Wrk_reserve _ => 5 | Wrk_old _ _ => 4 | Wrk_store _ _ _ => 3 | Wrk_log _ _ _ => 2 | Wrk_submit _ _ => 1
  | Rb_again _ => 1
  | Gen_gen => 8 | Gen_idx => 7 | Gen_reserve => 6 | Gen_store _ => 5 | Gen_app _ => 4 | Gen_logs _ _ => 3
  | Gen_log _ _ => 2 | Gen_submit _ _ => 1
  | Flow_type => 13 | Flow_id => 12 | Flow_call t => S (call_left (t_pc t))
  | App_cmp => 5 | App_gen => 4 | App_idx => 3 | App_max => 2 | App_store => 1
  | _ => 0
  end.
(** The points of each option. *)
Definition own_point (st : reuseport_storage) (p : point) (r : request) : Prop :=
  match r, p with
  | _, Option => True
  | Dissector _, Dis_cmp => True
  | Dissector d, Dis_verbose => dissector_cmp (dis st) d = 0
  | Working_gen _, (Wrk_app | Wrk_reserve _ | Wrk_old _ _ | Wrk_store _ _ _ | Wrk_log _ _ _ | Wrk_submit _ _ | Rb_again _) => True
  | Socket_gen _ _, (Gen_gen | Gen_idx | Gen_reserve | Gen_store _ | Gen_app _ | Gen_logs _ _ | Gen_log _ _
      | Gen_submit _ _ | Rb_again _) => True
  | Flow_assure _, Flow_type => True
  | Flow_assure _, Flow_id => DISSECTOR_TYPE (dis_type (dis st)) = DISSECTOR_FLOW
  | Flow_assure addr, Flow_call t => DISSECTOR_TYPE (dis_type (dis st)) = DISSECTOR_FLOW ∧
      is_Some (assured_flow addr (random_id st)) ∧ (call_left (t_pc t) <= 10)%nat
  | Socket_app _, (App_cmp | App_gen | App_idx | App_max) => True
  | Socket_app v, App_store => v < dis_max_apps (dis st)
  | _, _ => False
  end.
(** Such a call on the group [st], at a point that agrees with its answer. *)
Definition on_course (st : reuseport_storage) (c : caller) : Prop :=
  cl_created c = false ∧
  match cl_at c with
  | Get_lookup | Check_netns => True
  | Returned r => answers st c r
  | p => netns_cookie st = so_netns_cookie (cl_sock c) ∧ own_point st p (cl_req c)
  end.

(** What calls with the options [R] may change of a group: the verbose flag, the counters,
    and a working generation, to one that is asked for. *)
Definition by_options (R : list request) (st st' : reuseport_storage) : Prop :=
  ∃ v g m, st' = set_metrics m (set_working_gen g (set_verbose v st)) ∧
    List.length g = List.length (working_gen st) ∧
    ∀ i x, g !! i = Some x → working_gen st !! i = Some x ∨ Working_gen x ∈ R.

Lemma by_options_refl R st : by_options R st st.
Proof. exists (verbose st), (working_gen st), (metrics st). split; [by destruct st|]. split; [done|auto]. Qed.
Lemma by_options_same R st st' : by_options R st st' →
  netns_cookie st' = netns_cookie st ∧ dis st' = dis st ∧ random_id st' = random_id st.
Proof. by intros (v & g & m & -> & _). Qed.
Lemma by_options_verbose R st st' v : by_options R st st' → by_options R st (set_verbose v st').
Proof. intros (v' & g & m & -> & ?). by exists v, g, m. Qed.
Lemma by_options_metrics R st st1 st2 : by_options R st st1 → same_config st1 st2 → by_options R st st2.
Proof. intros (v & g & m & -> & ?) [m' ->]. by exists v, g, m'. Qed.
Lemma by_options_working_gen R st st' i x : Working_gen x ∈ R → by_options R st st' →
  by_options R st (set_working_gen (<[i := x]> (working_gen st')) st').
Proof.
  intros Hx (v & g & m & -> & Hl & Hg). exists v, (<[i := x]> g), m. split_and!; [done|by rewrite length_insert|].
  intros j y. cbn. destruct (decide (i = j)) as [->|Hne].
  - destruct (decide (j < List.length g)%nat) as [Hj|Hj].
    + rewrite list_lookup_insert_eq by done. intros [= <-]. by right.
    + rewrite list_insert_ge by lia. apply Hg.
  - rewrite list_lookup_insert_ne by done. apply Hg.
Qed.

(** What a step leaves: the group with options applied, every socket's storage. *)
Definition leaves (R : list request) (key : reuseport_storage_key) (st : reuseport_storage) (w w' : world) : Prop :=
  (∃ st', group_at w' key = Some st' ∧ by_options R st st') ∧
  ∀ id, is_Some (bpf_map_lookup_elem (w_socks w) id) → is_Some (bpf_map_lookup_elem (w_socks w') id).
Section Leaves.
Context (R : list request) (key : reuseport_storage_key) (st0 st : reuseport_storage) (w : world).
Hypothesis Hg : group_at w key = Some st.
Hypothesis Hb : by_options R st0 st.

Lemma leaves_same w' : w_groups w' = w_groups w → w_socks w' = w_socks w → leaves R key st0 w w'.
Proof. intros Eg Es. split; [exists st; split; [unfold group_at in *; by rewrite Eg|done]|by rewrite Es]. Qed.
Lemma leaves_logs w' : logs_only w w' → leaves R key st0 w w'.
Proof. intros []. by apply leaves_same. Qed.
Lemma leaves_put sk st' w1 : _skey_from_bpf_sock sk = key → w_groups w1 = w_groups w → w_socks w1 = w_socks w →
  by_options R st0 st' → leaves R key st0 w (put_state sk st' w1).
Proof.
  intros <- Eg Es Hb'. split; [|cbn; by rewrite Es]. exists st'. split; [|done].
  apply group_at_put_same. unfold group_at in *. rewrite Eg, Hg. by eexists.
Qed.
Lemma leaves_put_sock id s : leaves R key st0 w (put_sock id s w).
Proof.
  split; [by exists st|]. intros id' Hid. unfold put_sock. cbn [w_socks set_socks].
  destruct (decide (id' = id)) as [->|Hne].
  - rewrite (map_write_same (exact := true)) by done. by eexists.
  - by rewrite (map_write_other (exact := true)).
Qed.
End Leaves.

Ltac on_step := split_and!; try done; try (unfold accesses_left; cbn; lia).

Lemma settled_step R st0 w c key st :
  cl_key c = key → group_at w key = Some st → by_options R st0 st → on_course st0 c → cl_req c ∈ R →
  is_Some (bpf_map_lookup_elem (w_socks w) (bs_id (cl_sk c))) →
  match caller_step w c with
  | None => accesses_left c = 0%nat
  | Some (w', c') => cl_sk c' = cl_sk c ∧ cl_sock c' = cl_sock c ∧ cl_req c' = cl_req c ∧ on_course st0 c' ∧
      (accesses_left c' < accesses_left c)%nat ∧ leaves R key st0 w w'
  end.
Proof.
  intros Hk Hg Hb [Hcr Hat] HR [s Hs]. destruct c as [sk sc r cr p].
  cbn [cl_created cl_at cl_sock cl_req cl_sk] in *. unfold cl_key in Hk. cbn [cl_sk] in Hk. subst cr.
  destruct (by_options_same _ _ _ Hb) as (Hn & Hd & Hr).
  assert (Hg' : bpf_map_lookup_elem (w_groups w) key = Some st) by exact Hg.
  pose proof (leaves_same R key st0 st w Hg Hb w eq_refl eq_refl) as Hsame.
  destruct p, r; try (exfalso; tauto); try (destruct Hat as [En Hat]); cbn [own_point] in *; try done;
    reduce_step; rewrite ?Hk, ?Hg', ?Hs; cbn [mbind option_bind]; rewrite ?Hn, ?Hd, ?Hr;
    try (unfold ringbuf_reserve; destruct (bpf_ringbuf_reserve _ _));
    try (match goal with |- context [if (if ?b then _ else _) then _ else _] => destruct b eqn:Hq end);
    try (match goal with |- context [if ?b then _ else _] => destruct b eqn:Hq end);
    split_and?; try done; try (unfold accesses_left; cbn; lia);
    try (by apply (leaves_same R key st0 st w Hg Hb)); try (apply (leaves_put_sock R key st0 st w Hg Hb));
    try (apply (leaves_logs R key st0 st w Hg Hb), logs_only_printfs);
    try (apply (leaves_logs R key st0 st w Hg Hb), (logs_only_if w true));
    try (split; [done|]; cbn [cl_at cl_req cl_sock own_point]; split; [done|]; done).
  all: try (match goal with |- on_course _ _ => split; [done|]; cbn [cl_at cl_req cl_sock own_point] end).
  all: try (match goal with |- answers _ _ _ => unfold answers, negb; cbn [cl_sock cl_req];
    first [rewrite En, Z.eqb_refl|rewrite Hq]; try done; try (by left); try (by right); try (by rewrite Hq);
    try (by right; left); try (rewrite Hat; by left) end).
  all: try (split; [by apply Z.eqb_eq|done]).
  - split; [done|by apply Z.eqb_eq].
  - by rewrite Hat, Z.eqb_refl.
  - apply (leaves_put R key st0 st w Hg); try done. by apply by_options_verbose.
  - apply (leaves_put R key st0 st w Hg); try done. by apply by_options_working_gen.
  - split; [done|by apply Z.eqb_eq].
  - destruct (assured_flow addr (random_id st0)) as [flow|] eqn:Ef.
    + split_and!; [done|done|by eexists|cbn; lia].
    + unfold answers, negb. cbn [cl_sock cl_req]. by rewrite En, Z.eqb_refl, Hat, Ef.
  - unfold accesses_left. cbn. destruct (assured_flow _ _); cbn; lia.
  - destruct Hat as (Ht & [flow Ef] & Hle). pose proof (call_progress st w t) as Hp.
    destruct (call_step st w t) as [[[st1 w1] t1]|] eqn:Es; split_and!; try done.
    + split; [done|]. cbn [cl_at cl_req cl_sock own_point]. split_and!; [done|done|by eexists|lia].
    + unfold accesses_left. cbn. lia.
    + destruct (call_step_frame _ _ _ _ _ _ Es). apply (leaves_put R key st0 st w Hg); try done.
      eapply by_options_metrics; [done|by eapply step_config].
    + split; [done|]. cbn [cl_at cl_req cl_sock]. unfold answers, negb. cbn [cl_sock cl_req].
      rewrite En, Z.eqb_refl, Ht, Ef. change (DISSECTOR_FLOW =? DISSECTOR_FLOW) with true. cbv iota.
      destruct (t_pc t); auto. destruct r; auto.
    + unfold accesses_left. cbn. lia.
  - right; right. split; [done|]. by apply Z.leb_le.
  - split; [done|]. by apply Z.leb_gt.
Qed.

(** The calls after a schedule: [n i] accesses were given to call [i]. *)
Definition schedule_count (i : nat) (sched : list nat) : nat := count_occ Nat.eq_dec sched i.
Definition answered (st : reuseport_storage) (c : caller) : Prop :=
  match cl_at c with Returned r => answers st c r | _ => False end.
Lemma on_course_done st c : on_course st c → accesses_left c = 0%nat → answered st c.
Proof.
  destruct c as [sk s r cr p]. intros [_ Hat] Hd. unfold answered, accesses_left in *. cbn [cl_at cl_req cl_sock] in *.
  destruct p, r; try done; try lia; cbn [own_point] in Hat; tauto.
Qed.

Definition settled (R : list request) (key : reuseport_storage_key) (st : reuseport_storage) (c : world * list caller) : Prop :=
  (∃ st', group_at (fst c) key = Some st' ∧ by_options R st st') ∧
  Forall (λ t, cl_key t = key ∧ on_course st t ∧ cl_req t ∈ R ∧
    is_Some (bpf_map_lookup_elem (w_socks (fst c)) (bs_id (cl_sk t)))) (snd c).
Lemma settled_steps R key st c i : settled R key st c → settled R key st (callers_step c i).
Proof.
  destruct c as [w l]. intros [(st' & Hg & Hb) Hl]. unfold callers_step. cbn [fst snd] in *.
  destruct (l !! i) as [t|] eqn:Et; [|by split; [exists st'|]].
  pose proof (Forall_lookup_1 _ _ _ _ Hl Et) as (Hk & Ho & HR & Hs).
  pose proof (settled_step R st w t key st' Hk Hg Hb Ho HR Hs) as Hst.
  destruct (caller_step w t) as [[w' t']|]; [|by split; [exists st'|]].
  destruct Hst as (Esk & _ & Er & Ho' & _ & Hg' & Hsk). split; [done|]. cbn [fst snd]. apply Forall_insert.
  - eapply Forall_impl; [exact Hl|]. intros x (? & ? & ? & ?). split_and!; auto.
  - unfold cl_key in *. rewrite Esk, Er. split_and!; auto.
Qed.
Lemma settled_run R key st sched c : settled R key st c → settled R key st (run_callers sched c).
Proof. revert c. induction sched as [|i sched IH]; intros c Hc; [done|]. by apply IH, settled_steps. Qed.

(** A call makes progress with every access it is given, whatever the others do. *)
Lemma step_progress R key st c i j t : settled R key st c → snd c !! i = Some t →
  ∃ t', snd (callers_step c j) !! i = Some t' ∧ cl_sock t' = cl_sock t ∧ cl_req t' = cl_req t ∧
    (accesses_left t' <= accesses_left t - (if decide (j = i) then 1 else 0))%nat.
Proof.
  destruct c as [w l]. intros [(st' & Hg & Hb) Hl] Ht. unfold callers_step. cbn [fst snd] in *.
  destruct (l !! j) as [u|] eqn:Eu.
  2:{ exists t. split_and!; try done. destruct (decide (j = i)) as [->|]; [congruence|lia]. }
  pose proof (Forall_lookup_1 _ _ _ _ Hl Eu) as (Hk & Ho & HR & Hsk).
  pose proof (settled_step R st w u key st' Hk Hg Hb Ho HR Hsk) as Hs.
  destruct (decide (j = i)) as [->|Hne].
  - rewrite Ht in Eu. injection Eu as <-. destruct (caller_step w t) as [[w' u']|].
    + destruct Hs as (_ & Hs1 & Hs2 & _ & Hlt & _). exists u'. split_and!; try done; [|lia].
      apply list_lookup_insert_eq. by eapply lookup_lt_Some.
    + exists t. split_and!; try done. lia.
  - exists t. split_and!; try done; [|lia]. destruct (caller_step w u) as [[w' u']|]; [|done].
    cbn [snd]. by rewrite list_lookup_insert_ne.
Qed.
Lemma run_progress R key st sched : ∀ c i t, settled R key st c → snd c !! i = Some t →
  ∃ t', snd (run_callers sched c) !! i = Some t' ∧ cl_sock t' = cl_sock t ∧ cl_req t' = cl_req t ∧
    (accesses_left t' <= accesses_left t - schedule_count i sched)%nat.
Proof.
  induction sched as [|j sched IH]; intros c i t Hs Ht.
  { exists t. split_and!; try done. cbn. lia. }
  destruct (step_progress R key st c i j t Hs Ht) as (t1 & Ht1 & Es & Ed & Hl1).
  destruct (IH (callers_step c j) i t1 (settled_steps _ _ _ _ _ Hs) Ht1) as (t2 & Ht2 & Es2 & Ed2 & Hl2).
  exists t2. split_and!; [done|congruence|congruence|]. unfold schedule_count in *. cbn [count_occ].
  destruct (Nat.eq_dec j i) as [->|Hne]; [rewrite decide_True in Hl1 by done|rewrite decide_False in Hl1 by done]; lia.
Qed.
End Settled.


(** ** Evaluation *)
Section Witnesses.
#[local] Existing Instance good_kernel.

Definition sock_in (netns : Z) : socket_storage := mk_sock (u32 (-1)) (u32 (-1)) 0 42 netns.
Definition example_key : reuseport_storage_key := _skey_from_bpf_sock example_sk.
Definition code : list Z := cbpf_dissector example_prog.
(** A group of namespace 7 with a bytecode dissector, and six calls at once of three sockets
    of its address. *)
Definition sk_no (id : Z) : bpf_sock := mk_bpf_sock id AF_INET 1 (0, 0, 0, 0) 4433.
Definition coded_group : reuseport_storage := set_dis code (set_netns_cookie 7 empty_state).
Definition coded_world : world :=
  set_socks (<[1 := sock_in 7]> (<[2 := sock_in 8]> (<[3 := sock_in 7]> (∅ : gmap Z socket_storage))))
    (set_groups (<[example_key := coded_group]> (∅ : gmap reuseport_storage_key reuseport_storage)) empty_world).
Definition six_calls : list caller :=
  [calls (sk_no 1) (sock_in 7) (Dissector code); calls (sk_no 2) (sock_in 8) (Dissector code);
   calls (sk_no 1) (sock_in 7) (Dissector (zeros DISSECTOR_SZ)); calls (sk_no 3) (sock_in 7) (Working_gen 5);
   calls (sk_no 1) (sock_in 7) (Socket_gen 5 99); calls (sk_no 3) (sock_in 7) (Socket_app 9)].
Definition mixed : list nat := concat (repeat [0; 1; 2; 5; 4; 3; 3; 1; 0; 2]%nat 17).


(** What the theorem excludes. Two calls that both find no group: the first creates it and
    sets a bytecode dissector; the insertion of the second fails, but [*created_ptr] is 1
    all the same, and it gives the group another identity and the FLOW dissector back. *)
Definition two_creators : list caller :=
  [calls example_sk (sock_in 7) (Dissector code); calls example_sk (sock_in 7) (Socket_app 9)].
Definition seen (w : world) : option (Z * Z * Z) :=
  (λ st, (random_id st, dis_type (dis st), dis_filter_len (dis st))) <$> group_at w example_key.
Definition first_done : list nat := 1%nat :: repeat 0%nat 17.
Definition sock_world : world := set_socks (<[1 := sock_in 7]> (∅ : gmap Z socket_storage)) empty_world.
Example second_creator_resets_group :
  let c1 := run_callers first_done (sock_world, two_creators) in
  let c2 := run_callers (repeat 1%nat 16) c1 in
  cl_at <$> snd c1 !! 0%nat = Some (Returned 0) ∧
  seen (fst c1) = Some (79, DISSECTOR_CBPF, dis_filter_len code) ∧
  seen (fst c2) = Some (87, DISSECTOR_FLOW, dis_filter_len code) ∧
  map cl_at (snd c2) = [Returned 0; Returned (- EOVERFLOW)].
Proof. vm_compute. repeat split. Qed.

(** A call that finds the group between its insertion and the store of its namespace is
    refused, although its socket is in the namespace of the creator. *)
Example unfinished_group_refuses :
  map cl_at (snd (run_callers (repeat 0%nat 4 ++ repeat 1%nat 2) (sock_world, two_creators)))
  = [Init_random; Returned (- EBADF)].
Proof. vm_compute. reflexivity. Qed.
End Witnesses.

(** One call after the other, the ring buffer full at first: [EAGAIN] leaves the new group
    with the FLOW dissector, and the second attempt is refused for good. *)
Definition full_kernel : Kernel :=
  test_kernel (λ n, 1000000000 * Z.of_nat n) (λ n _, if (n <? 4)%nat then None else Some (0, zero_skey)) (λ _ _, 0).
Definition full_world (K := full_kernel) : world := mk_world K ∅ ∅ ∅ ∅ [] 0.
Example again_means_never (K := full_kernel) :
  map cl_at (snd (run_callers (repeat 0%nat 14 ++ repeat 1%nat 5)
    (full_world, [calls example_sk (sock_in 7) (Dissector code); calls example_sk (sock_in 7) (Dissector code)])))
  = [Returned (- EAGAIN); Returned (- EPERM)].
Proof. vm_compute. reflexivity. Qed.
