(* ===== verification/Host.v ===== *)
(** The host side of the daemon: descriptors, [src/pidfd.c], and the helpers of
    [src/uspace.c] that convert addresses and call back into the programs.

    [Host] is the interface to the operating system; [daemon] the state of the daemon
    process ([src/udpgrm.c], [src/tubular.c]). [error(-1, ..)] ends the process:
    functions that may end it return an [outcome]. *)

From S2P Require Import Prelude Cookie SipHash Storage Cbpf Dissector Reuseport Flow Hooks.

(** ** Descriptors *)

(** [struct sockaddr_storage] of the two families (a port is in network order); any
    other family has no address. *)
Record sockaddr := mk_ss { ss_family : Z; ss_port : Z; ss_ip : ip6 }.

(** What the socket calls answer on a descriptor; [None] is a failing [getsockopt].
    [fl_sock] is the identity of the socket behind it. *)
Record file := mk_file {
  fl_domain : option Z;
  fl_type : option Z;
  fl_protocol : option Z;
  fl_name : sockaddr;
  fl_cookie : option Z;
  fl_sock : Z;
}.
Abbreviation fds := (gmap Z file).

(** A request to Tubular: a call that failed, with its errno, or the bytes read. *)
Inductive tubular_outcome :=
  | T_socket_failed (e : Z) | T_connect_failed (e : Z) | T_sendmsg_failed (e : Z)
  | T_read_failed (e : Z) | T_reply (buf : list Z).

(** The operating system. The process table is a function of the time: the
    descriptors of a process, if it exists. *)
Class Host := {
  proc_files : nat → Z → option (Z → option file);
  fresh_fd : fds → Z;
  attach_reuseport_ok : nat → Z → bool;
  realtime_now : nat → Z;
  (* [bpf_prog_test_run_opts] itself succeeds *)
  test_run_ok : nat → bool;
  (* [SO_COOKIE] of a socket, which is what a sockhash lookup from user space returns *)
  sock_cookie : Z → Z;
  (* outcome of the exchange with Tubular on its socket *)
  tubular_io : nat → list Z → list Z → tubular_outcome;
}.
Class HostLaws {H : Host} := {
  fresh_fd_spec : ∀ t, t !! fresh_fd t = None ∧ 0 < fresh_fd t;
}.

Definition SOCK_DGRAM : Z := 2.

(** ** [pidfd_find_socket] *)
Section Pidfd.
Context {H : Host}.

(** The checks on a stolen descriptor, in their order. *)
Definition addr_match (ss addr : sockaddr) : bool :=
  if negb (ss_family ss =? ss_family addr) then false
  else if ss_family ss =? AF_INET then
    if negb (ss_port ss =? ss_port addr) then false
    else let '(a, _, _, _) := ss_ip ss in let '(b, _, _, _) := ss_ip addr in a =? b
  else if ss_family ss =? AF_INET6 then
    if negb (ss_port ss =? ss_port addr) then false
    else bool_decide (ss_ip ss = ss_ip addr)
  else false.
Definition answers (o : option Z) (v : Z) : bool :=
  match o with Some x => x =? v | None => false end.
Definition socket_match (type protocol : Z) (addr : sockaddr) (cookie : Z) (f : file) : bool :=
  if negb (answers (fl_domain f) (ss_family addr)) then false
  else if negb (answers (fl_type f) type) then false
  else if negb (answers (fl_protocol f) protocol) then false
  else if negb (addr_match (fl_name f) addr) then false
  else answers (fl_cookie f) cookie.

(** The loop from descriptor [i] with [gap] missing descriptors just seen;
    [fuel] is the number of iterations left of [16 * 1024]. *)
Fixpoint pidfd_find_from (fuel : nat) (i : Z) (gap max_gap type protocol : Z) (addr : sockaddr) (cookie : Z)
  (proc : Z → option file) (t : fds) : Z * fds :=
  match fuel with
  | O => (-1, t)
  | S fuel =>
      if negb (gap <? max_gap) then (-1, t)
      else
        match proc i with
        | None => pidfd_find_from fuel (i + 1) (gap + 1) max_gap type protocol addr cookie proc t
        | Some file =>
            let f := fresh_fd t in
            let t := <[f := file]> t in
            if socket_match type protocol addr cookie file then (f, t)
            else pidfd_find_from fuel (i + 1) 0 max_gap type protocol addr cookie proc (delete f t)
        end
  end.
Definition pidfd_find_socket (max_gap type protocol : Z) (addr : sockaddr) (cookie : Z)
  (proc : Z → option file) (t : fds) : Z * fds :=
  pidfd_find_from (16 * 1024) 0 0 max_gap type protocol addr cookie proc t.
End Pidfd.

(** Index [i] is scanned: no run of [max_gap] missing descriptors ends before it. *)
Definition reached (proc : Z → option file) (max_gap i : Z) : Prop :=
  ∀ j, 0 <= j → j + max_gap <= i → ∃ k, j <= k < j + max_gap ∧ is_Some (proc k).

Section PidfdFacts.
Context {H : Host} {HL : HostLaws}.

Lemma find_fuel : Z.of_nat (16 * 1024) = 16384.
Proof. rewrite Nat2Z.inj_mul. reflexivity. Qed.

Lemma pidfd_find_from_spec fuel i gap max_gap type protocol addr cookie proc t f t' :
  pidfd_find_from fuel i gap max_gap type protocol addr cookie proc t = (f, t') →
  (f = -1 ∧ t' = t) ∨
  (∃ k file, i <= k < i + Z.of_nat fuel ∧ proc k = Some file ∧
     socket_match type protocol addr cookie file = true ∧
     (∀ j fj, i <= j < k → proc j = Some fj → socket_match type protocol addr cookie fj = false) ∧
     t !! f = None ∧ 0 < f ∧ t' = <[f := file]> t).
Proof.
  revert i gap t. induction fuel as [|fuel IH]; intros i gap t.
  { intros [= <- <-]. by left. }
  cbn [pidfd_find_from]. destruct (gap <? max_gap); cbn [negb]; [|intros [= <- <-]; by left].
  destruct (proc i) as [file|] eqn:Ei.
  - destruct (socket_match _ _ _ _ file) eqn:Em.
    + cbv zeta. intros [= <- <-]. right. exists i, file. destruct (fresh_fd_spec t) as [Hf Hf'].
      split_and!; try done; lia.
    + destruct (fresh_fd_spec t) as [Hf _]. cbv zeta. rewrite delete_insert_id by done.
      intros E. apply IH in E as [?|(k & f' & Hk & Hp & Hm & Hb & ? & ? & ->)]; [by left|right].
      exists k, f'. split_and!; try done; try lia. intros j fj Hj Hpj.
      destruct (Z.eq_dec j i) as [->|]; [congruence|]. apply (Hb j); [lia|done].
  - intros E. apply IH in E as [?|(k & f' & Hk & Hp & Hm & Hb & ? & ? & ->)]; [by left|right].
    exists k, f'. split_and!; try done; try lia. intros j fj Hj Hpj.
    destruct (Z.eq_dec j i) as [->|]; [congruence|]. apply (Hb j); [lia|done].
Qed.

Lemma pidfd_find_from_complete fuel i gap max_gap type protocol addr cookie proc t k file :
  0 <= gap → i <= k < i + Z.of_nat fuel → proc k = Some file →
  socket_match type protocol addr cookie file = true →
  (∀ j, i - gap <= j → j + max_gap <= k → ∃ x, i <= x ∧ j <= x < j + max_gap ∧ is_Some (proc x)) →
  0 < fst (pidfd_find_from fuel i gap max_gap type protocol addr cookie proc t).
Proof.
  revert i gap t. induction fuel as [|fuel IH]; intros i gap t Hg Hk Hp Hm Hgap; [lia|].
  cbn [pidfd_find_from]. destruct (Z.ltb_spec gap max_gap) as [_|Hge]; cbn [negb].
  2: { destruct (Hgap (i - gap)) as (x & ? & ? & _); lia. }
  destruct (fresh_fd_spec t) as [_ Hpos]. destruct (Z.eq_dec i k) as [->|Hne].
  { by rewrite Hp, Hm. }
  destruct (proc i) as [fi|] eqn:Ei.
  - destruct (socket_match _ _ _ _ fi); [done|]. apply IH; [lia|lia|done|done|].
    intros j Hj Hjk. destruct (Hgap j) as (x & ? & ? & ?); [lia|lia|]. exists x. split_and!; lia || done.
  - apply IH; [lia|lia|done|done|]. intros j Hj Hjk. destruct (Hgap j) as (x & ? & ? & Hx); [lia|lia|].
    exists x. destruct (Z.eq_dec x i) as [->|]; [rewrite Ei in Hx; by destruct Hx|]. split_and!; lia || done.
Qed.

Lemma pidfd_find_socket_found max_gap type protocol addr cookie proc t f t' :
  pidfd_find_socket max_gap type protocol addr cookie proc t = (f, t') →
  (f = -1 ∧ t' = t) ∨
  (∃ k file, 0 <= k < 16384 ∧ proc k = Some file ∧ socket_match type protocol addr cookie file = true ∧
     (∀ j fj, 0 <= j < k → proc j = Some fj → socket_match type protocol addr cookie fj = false) ∧
     t !! f = None ∧ 0 < f ∧ t' = <[f := file]> t).
Proof.
  unfold pidfd_find_socket. pose proof find_fuel as Hn. revert Hn.
  generalize (16 * 1024)%nat. intros n Hn E.
  apply pidfd_find_from_spec in E as [?|(k & file & Hk & ?)]; [by left|right]. exists k, file. split; [lia|done].
Qed.

Lemma pidfd_find_socket_complete max_gap type protocol addr cookie proc t k file :
  0 <= k < 16384 → proc k = Some file → socket_match type protocol addr cookie file = true →
  reached proc max_gap k → 0 < fst (pidfd_find_socket max_gap type protocol addr cookie proc t).
Proof.
  intros Hk Hp Hm Hr. unfold pidfd_find_socket. pose proof find_fuel as Hn. revert Hn.
  generalize (16 * 1024)%nat. intros n Hn.
  apply (pidfd_find_from_complete _ _ _ _ _ _ _ _ _ _ k file); [lia|lia|done|done|]. intros j Hj Hjk.
  destruct (Hr j) as (x & ? & ?); [lia|lia|]. exists x. split_and!; lia || done.
Qed.
End PidfdFacts.

(** C25. Fishing a socket out of a process: the search returns a new descriptor of the
    first descriptor of the process that has the requested family, type, protocol,
    address and cookie, and leaves no other descriptor behind; it returns -1 and the
    table as it was otherwise; and it does find the socket if it is among the first
    16384 descriptors and no run of [max_gap] unused descriptors precedes it. *)
Theorem pidfd_find_socket_spec {H : Host} {HL : HostLaws} max_gap type protocol addr cookie proc t :
  let '(f, t') := pidfd_find_socket max_gap type protocol addr cookie proc t in
  ((f = -1 ∧ t' = t) ∨
   (∃ k file, 0 <= k < 16384 ∧ proc k = Some file ∧ socket_match type protocol addr cookie file = true ∧
      (∀ j fj, 0 <= j < k → proc j = Some fj → socket_match type protocol addr cookie fj = false) ∧
      t !! f = None ∧ 0 < f ∧ t' = <[f := file]> t)) ∧
  (∀ k file, 0 <= k < 16384 → proc k = Some file → socket_match type protocol addr cookie file = true →
     reached proc max_gap k → 0 < f).
Proof.
  destruct (pidfd_find_socket max_gap type protocol addr cookie proc t) as [f t'] eqn:E.
  split; [by apply (pidfd_find_socket_found max_gap)|]. intros k file Hk Hp Hm Hr.
  replace f with (fst (pidfd_find_socket max_gap type protocol addr cookie proc t)) by (by rewrite E).
  by apply (pidfd_find_socket_complete _ _ _ _ _ _ _ k file).
Qed.

(** ** A host, to evaluate the daemon: descriptors are numbered upwards, every
    process has one socket at descriptor 3, Tubular accepts. *)
Definition max_fd (t : fds) : Z := foldr (λ p m, Z.max (fst p) m) 2 (map_to_list t).
Definition test_host (proc : nat → Z → option (Z → option file)) (tub : nat → list Z → list Z → tubular_outcome) : Host := {|
  proc_files := proc;
  fresh_fd t := 1 + max_fd t;
  attach_reuseport_ok _ _ := true;
  realtime_now n := Z.of_nat n;
  test_run_ok _ := true;
  sock_cookie id := 41 + id;
  tubular_io := tub;
|}.

Lemma max_fd_spec t f : is_Some (t !! f) → f <= max_fd t.
Proof.
  intros [x Hx]. unfold max_fd. apply elem_of_map_to_list in Hx. revert Hx.
  generalize (map_to_list t). intros l. induction l as [|p l IH]; intros Hx; [by apply not_elem_of_nil in Hx|].
  cbn. apply elem_of_cons in Hx as [<-|Hx]; [cbn; lia|]. specialize (IH Hx). lia.
Qed.
Lemma max_fd_pos t : 2 <= max_fd t.
Proof. unfold max_fd. induction (map_to_list t); cbn; lia. Qed.
#[export] Instance test_host_laws proc tub : @HostLaws (test_host proc tub).
Proof.
  split. intros t. cbn. pose proof (max_fd_pos t). split; [|lia].
  apply eq_None_not_Some. intros Hs. apply max_fd_spec in Hs. lia.
Qed.

Definition example_file : file :=
  mk_file (Some AF_INET) (Some SOCK_DGRAM) (Some IPPROTO_UDP)
    (mk_ss AF_INET 0x5111 (1, 0, 0, 0)) (Some 42) 1.
Definition good_host : Host :=
  test_host (λ _ pid, if pid =? 99 then Some (λ i, if i =? 3 then Some example_file else None) else None)
    (λ _ _ _, T_reply [0x4f; 0x4b]).

Definition example_proc (i : Z) : option file := if i =? 3 then Some example_file else None.
Lemma pidfd_find_socket_spec_witness :
  0 < fst (@pidfd_find_socket good_host 8 SOCK_DGRAM IPPROTO_UDP (mk_ss AF_INET 0x5111 (1, 0, 0, 0)) 42
        example_proc ∅).
Proof.
  pose proof (pidfd_find_socket_spec (H := good_host) (HL := test_host_laws _ _) 8 SOCK_DGRAM IPPROTO_UDP
    (mk_ss AF_INET 0x5111 (1, 0, 0, 0)) 42 example_proc ∅) as H.
  destruct (pidfd_find_socket _ _ _ _ _ _ _) as [f t']. destruct H as [_ H].
  apply (H 3 example_file); [lia|reflexivity|reflexivity|]. intros j Hj Hj3. lia.
Defined.
