(* ===== verification/Daemon.v ===== *)
(** The daemon: [handle_msg] of [src/udpgrm.c], [src/uspace.c] and the bookkeeping of
    [src/tubular.c].

    The daemon reads the messages of the ring buffer, fishes sockets out of the
    processes that register them, gives each a slot of its generation, and hands
    sockets over to Tubular. It writes group storage only by running
    [udpgrm_cb_update_map] on a message. *)

From S2P Require Import Prelude Cookie SipHash Storage Cbpf Dissector Reuseport Flow Hooks Host.

(** How the process can end: [error(-1, ..)], the signal of a division by zero, and
    (not an end in C, but without a meaning here) a message whose type says that
    another member of its union was written. *)
Inductive stop := Exit_error | Div_by_zero | Bad_union.
Inductive outcome (A : Type) := Done (a : A) | Stop (s : stop).
Arguments Done {A} a.
Arguments Stop {A} s.
Definition obind {A B} (x : outcome A) (f : A → outcome B) : outcome B :=
  match x with Done a => f a | Stop s => Stop s end.
Notation "'do' x <- e ; k" := (obind e (λ x, k)) (at level 10, x pattern, e at level 100, k at level 200).

Definition EPROTO : Z := 71.

(** A group of descriptors kept for Tubular ([struct reuseport_group]). *)
Record reuseport_group := mk_rgroup {
  rg_random_id : Z;
  rg_last_modified : Z;
  rg_max_idx : list Z;
  rg_sockets : list (list Z);
}.

(** The process: [list_of_tubular_sockets], open descriptors, requests made to Tubular. *)
Record daemon := mk_daemon {
  d_groups : list reuseport_group;
  d_fds : fds;
  d_sent : list (list Z * list Z);
}.
Definition set_d_groups v d := mk_daemon v (d_fds d) (d_sent d).
Definition set_d_fds v d := mk_daemon (d_groups d) v (d_sent d).
Definition set_d_sent v d := mk_daemon (d_groups d) (d_fds d) v.
Definition close (f : Z) (d : daemon) : daemon := set_d_fds (delete f (d_fds d)) d.

(** ** [src/uspace.c] *)
Section Uspace.
Context {K : Kernel} {H : Host}.

(** [bpf_map_lookup_elem] on the sockhash from user space: the cookie of the socket. *)
Definition sockhash_lookup (w : world) (uc : Z) : option Z :=
  sock_cookie <$> bpf_map_lookup_elem (w_sockhash w) uc.
Definition slot_live (w : world) (uc : Z) : bool :=
  match sockhash_lookup w uc with Some v => negb (v =? 0) | None => false end.

(** The loop body on [(prev_pos, free_pos, gen_len)]. *)
Definition find_empty_step (row : list Z) (w : world) (cookie : Z) (acc : Z * Z * Z) (i : nat) : Z * Z * Z :=
  let '(prev_pos, free_pos, gen_len) := acc in
  let i := Z.of_nat i in
  let uc := nthZ row i in
  match sockhash_lookup w uc with
  | Some v =>
      if negb (v =? 0) then
        let prev_pos := if (v =? cookie) && (prev_pos =? -1) then i else prev_pos in
        (prev_pos, free_pos, i + 1)
      else if free_pos =? -1 then (prev_pos, i, i + 1) else (prev_pos, free_pos, gen_len)
  | None => if free_pos =? -1 then (prev_pos, i, i + 1) else (prev_pos, free_pos, gen_len)
  end.
Definition cookies_find_empty (st : reuseport_storage) (gen : Z) (w : world) (cookie : Z) : Z * Z * Z :=
  fold_left (find_empty_step (nth (Z.to_nat (gen mod MAX_GENS)) (cookies st) []) w cookie)
    (seq 0 (Z.to_nat MAX_SOCKETS_IN_GEN)) (-1, -1, 0).

(** [struct msg_value] as the daemon builds it. *)
Definition skey_bytes (k : reuseport_storage_key) : list Z :=
  le_bytes 1 (family k) ++ le_bytes 1 (key_reserved k) ++ le_bytes 2 (src_port k) ++ ip_bytes (src_ip k).
Definition cookies_msg (k : reuseport_storage_key) (sock_gen sock_idx sock_gen_len sock_cookie : Z) : list Z :=
  store (zeros (Z.to_nat MSG_SZ)) 0
    (le_bytes 4 GSM_SET_COOKIES ++ skey_bytes k ++ le_bytes 4 sock_gen ++ le_bytes 4 sock_idx
     ++ le_bytes 4 sock_gen_len ++ zeros 4 ++ le_bytes 8 sock_cookie).
Definition value_msg (type : Z) (k : reuseport_storage_key) (value : Z) : list Z :=
  store (zeros (Z.to_nat MSG_SZ)) 0 (le_bytes 4 type ++ skey_bytes k ++ le_bytes 4 value).

Definition run_cb_update_map (msg : list Z) (w : world) : outcome world :=
  let ok := test_run_ok (w_tick w) in
  let '(retval, w) := udpgrm_cb_update_map msg (tick w) in
  if negb ok || negb (retval =? 0) then Stop Exit_error else Done w.

Definition metric_incr_critical (k : reuseport_storage_key) (counter gauge : Z) (w : world) : outcome world :=
  do w <- run_cb_update_map (value_msg GSM_SET_SOCKET_CRITICAL_GAUGE k gauge) w;
  if negb (counter =? 0) then run_cb_update_map (value_msg GSM_INCR_SOCKET_CRITICAL k counter) w
  else Done w.
End Uspace.

(** ** [src/tubular.c] *)
Section Tubular.
Context {H : Host}.

Definition has_label (st : reuseport_storage) : bool := negb (nthZ (dis_label (dis st)) 0 =? 0).

(** The bytes of a C string, and [snprintf] of [label#] into 256 bytes. *)
Fixpoint c_string (l : list Z) : list Z :=
  match l with [] => [] | c :: l => if c =? 0 then [] else c :: c_string l end.
Definition label_payload (label : list Z) : list Z := take 255 (c_string label ++ [0x23]).

(** [tubular_register]: 0 or an errno. *)
Definition tubular_register (now : nat) (label : list Z) (fds : list Z) : Z :=
  match tubular_io now (label_payload label) fds with
  | T_socket_failed e | T_connect_failed e | T_sendmsg_failed e | T_read_failed e => e
  | T_reply buf =>
      if negb (List.length buf =? 2)%nat || negb (memcmp buf [0x4f; 0x4b] =? 0) then EPROTO else 0
  end.

Definition reuseport_group_lookup (rid : Z) (d : daemon) : option reuseport_group :=
  find (λ g, rg_random_id g =? rid) (d_groups d).
(** A store through the pointer that the lookup returned. *)
Fixpoint update_group (rid : Z) (g : reuseport_group) (l : list reuseport_group) : list reuseport_group :=
  match l with
  | [] => []
  | x :: l => if rg_random_id x =? rid then g :: l else x :: update_group rid g l
  end.
Fixpoint delete_group (rid : Z) (l : list reuseport_group) : list reuseport_group :=
  match l with
  | [] => []
  | x :: l => if rg_random_id x =? rid then l else x :: delete_group rid l
  end.

Definition new_group (rid now : Z) : reuseport_group :=
  mk_rgroup rid now (zeros 32) (repeat (zeros 256) 32).
Definition reuseport_group_lookup_or_add (rid : Z) (now : nat) (d : daemon) : reuseport_group * daemon :=
  match reuseport_group_lookup rid d with
  | Some g => (g, d)
  | None => let g := new_group rid (realtime_now now) in (g, set_d_groups (g :: d_groups d) d)
  end.

(** [close] of a kept descriptor, if there is one. *)
Definition close_held (f : Z) (d : daemon) : daemon := if 0 <? f then close f d else d.

(** [close_fd], and the process after it. *)
Definition tubular_maybe_preserve_fd (st : reuseport_storage) (gen gen_len free_pos f : Z) (now : nat)
  (d : daemon) : bool * daemon :=
  if has_label st then
    let '(g, d) := reuseport_group_lookup_or_add (random_id st) now d in
    let wg := Z.to_nat (gen mod MAX_GENS) in
    let row := nth wg (rg_sockets g) [] in
    let d := close_held (nthZ row free_pos) d in
    let g := mk_rgroup (rg_random_id g) (realtime_now now) (<[wg := gen_len]> (rg_max_idx g))
               (<[wg := <[Z.to_nat free_pos := f]> row]> (rg_sockets g)) in
    (false, set_d_groups (update_group (random_id st) g (d_groups d)) d)
  else (true, d).

(** [tubular_close_wg]: the first [max_idx] entries. *)
Definition tubular_close_wg (wg : Z) (g : reuseport_group) (d : daemon) : reuseport_group * daemon :=
  let wg := Z.to_nat (wg mod MAX_GENS) in
  let row := nth wg (rg_sockets g) [] in
  let n := Z.to_nat (nth wg (rg_max_idx g) 0) in
  let d := foldr close_held d (take n row) in
  (mk_rgroup (rg_random_id g) (rg_last_modified g) (<[wg := 0]> (rg_max_idx g))
     (<[wg := replicate n (-1) ++ drop n row]> (rg_sockets g)), d).

Definition reuseport_group_maybe_delete (g : reuseport_group) (d : daemon) : daemon :=
  if forallb (λ m, m =? 0) (rg_max_idx g)
  then set_d_groups (delete_group (rg_random_id g) (d_groups d)) d else d.

Definition tubular_maybe_register (st : reuseport_storage) (wg : Z) (tubular_path : bool) (now : nat)
  (d : daemon) : Z * daemon :=
  if has_label st then
    let sk_group := reuseport_group_lookup (random_id st) d in
    let '(err, d) :=
      if negb tubular_path then (ENOENT, d)
      else
        match sk_group with
        | None => (EBADF, d)
        | Some g =>
            let fds := take (Z.to_nat (nth (Z.to_nat wg) (rg_max_idx g) 0)) (nth (Z.to_nat wg) (rg_sockets g) []) in
            (tubular_register now (dis_label (dis st)) fds,
             set_d_sent (d_sent d ++ [(label_payload (dis_label (dis st)), fds)]) d)
        end in
    match sk_group with
    | None => (err, d)
    | Some g =>
        let '(g, d) := tubular_close_wg wg g d in
        let d := set_d_groups (update_group (rg_random_id g) g (d_groups d)) d in
        (err, reuseport_group_maybe_delete g d)
    end
  else (0, d).

(** [reuseport_groups_maybe_cleanup_stale]: groups not modified for 10 seconds. *)
Definition close_all_wg (g : reuseport_group) (d : daemon) : reuseport_group * daemon :=
  fold_left (λ '(g, d) wg, tubular_close_wg (Z.of_nat wg) g d) (seq 0 (Z.to_nat MAX_GENS)) (g, d).
Definition cleanup_group (now : Z) (d : daemon) (g : reuseport_group) : daemon :=
  if 10 * 1000000000 <? u64 (now - rg_last_modified g) then
    let '(g, d) := close_all_wg g d in
    let d := set_d_groups (update_group (rg_random_id g) g (d_groups d)) d in
    reuseport_group_maybe_delete g d
  else d.
Definition reuseport_groups_maybe_cleanup_stale (now : nat) (d : daemon) : daemon :=
  fold_left (cleanup_group (realtime_now now)) (d_groups d) d.
End Tubular.

(** ** [handle_msg] *)
Section HandleMsg.
Context {K : Kernel} {H : Host}.

(** [sockaddr_from_msg_value] *)
Definition sockaddr_from_msg_value (k : reuseport_storage_key) : sockaddr :=
  if family k =? AF_INET then
    let '(ip4, _, _, _) := src_ip k in mk_ss AF_INET (bswap16 (src_port k)) (ip4, 0, 0, 0)
  else if family k =? AF_INET6 then mk_ss AF_INET6 (bswap16 (src_port k)) (src_ip k)
  else mk_ss 0 0 (0, 0, 0, 0).

(** A socket was found: it gets a slot of its generation. [s] is its storage, [sk] its
    identity; the result tells whether a slot was given and whether the descriptor
    stays open. *)
Definition register_socket (st : reuseport_storage) (k : reuseport_storage_key)
  (socket_cookie socket_gen socket_app : Z) (f : Z) (sk : Z) (s : socket_storage)
  (d : daemon) (w : world) : outcome (daemon * world) :=
  match TO_WRK_GEN (dis_max_apps (dis st)) socket_app socket_gen with
  | None => Stop Div_by_zero
  | Some gen =>
      let '(prev_pos, free_pos, gen_len) := cookies_find_empty st gen w socket_cookie in
      if (free_pos <? 0) || (MAX_SOCKETS_IN_GEN <=? free_pos) then
        if attach_reuseport_ok (w_tick w) f then Done (close f d, tick w) else Stop Exit_error
      else
        let '(h, r) := bpf_map_update_elem (w_sockhash w) socket_cookie sk BPF_NOEXIST in
        if negb (r =? 0) && negb (r =? - EEXIST) then Stop Exit_error
        else
          let w := set_sockhash h w in
          let '(close_fd, d) := tubular_maybe_preserve_fd st gen gen_len free_pos f (w_tick w) d in
          do w <- run_cb_update_map (cookies_msg k gen free_pos gen_len socket_cookie) (tick w);
          let s := mk_sock (sock_gen s) free_pos (sock_app s) (so_cookie s) (so_netns_cookie s) in
          let '(m, r) := bpf_map_update_elem (w_socks w) sk s BPF_EXIST in
          if negb (r =? 0) then Stop Exit_error
          else
            let w := set_socks m w in
            if attach_reuseport_ok (w_tick w) f
            then Done (if close_fd then close f d else d, tick w) else Stop Exit_error
  end.

Definition handle_register_socket (st : reuseport_storage) (k : reuseport_storage_key)
  (pid socket_cookie socket_gen socket_app : Z) (d : daemon) (w : world) : outcome (daemon * world) :=
  let proc := proc_files (w_tick w) pid in
  let w := tick w in
  match proc with
  | None => Done (d, w)
  | Some proc =>
      let '(f, t) := pidfd_find_socket 8 SOCK_DGRAM IPPROTO_UDP (sockaddr_from_msg_value k)
                       socket_cookie proc (d_fds d) in
      let d := set_d_fds t d in
      if 0 <=? f then
        match d_fds d !! f with
        | None => Stop Exit_error
        | Some file =>
            match bpf_map_lookup_elem (w_socks w) (fl_sock file) with
            | None => Stop Exit_error
            | Some s => register_socket st k socket_cookie socket_gen socket_app f (fl_sock file) s d w
            end
        end
      else
        do w <- metric_incr_critical k 1 1 w;
        Done (d, w)
  end.

Definition handle_working_gen (st : reuseport_storage) (k : reuseport_storage_key) (tubular_path : bool)
  (app_working_gen : Z) (d : daemon) (w : world) : outcome (daemon * world) :=
  let wg := app_working_gen mod MAX_GENS in
  let '(err, d) := tubular_maybe_register st wg tubular_path (w_tick w) d in
  do w <- (if negb (err =? 0) then metric_incr_critical k 1 1 (tick w)
           else metric_incr_critical k 0 0 (tick w));
  Done (d, w).

(** One message; printing is left out. *)
Definition handle_msg (tubular_path : bool) (e : msg_value) (d : daemon) (w : world)
  : outcome (daemon * world) :=
  match bpf_map_lookup_elem (w_groups w) (m_skey e) with
  | None => if m_type e =? MSG_LOG then Done (d, w) else Stop Exit_error
  | Some st =>
      if m_type e =? MSG_REGISTER_SOCKET then
        match m_body e with
        | M_reg pid socket_cookie socket_gen socket_app =>
            handle_register_socket st (m_skey e) pid socket_cookie socket_gen socket_app d w
        | _ => Stop Bad_union
        end
      else if m_type e =? MSG_SET_WORKING_GEN then
        match m_body e with
        | M_app _ app_working_gen => handle_working_gen st (m_skey e) tubular_path app_working_gen d w
        | _ => Stop Bad_union
        end
      else Done (d, w)
  end.

(** [ring_buffer__consume]: every message that is in the buffer, in order. *)
Fixpoint handle_msgs (tubular_path : bool) (l : list msg_value) (d : daemon) (w : world)
  : outcome (daemon * world) :=
  match l with
  | [] => Done (d, w)
  | e :: l => do p <- handle_msg tubular_path e d w; handle_msgs tubular_path l (fst p) (snd p)
  end.
Definition ring_buffer_consume (tubular_path : bool) (d : daemon) (w : world) : outcome (daemon * world) :=
  handle_msgs tubular_path (w_rb w) d (set_rb [] w).
End HandleMsg.

(** ** [udpgrm delete] *)
Definition net_get_port (ss : sockaddr) : Z :=
  if ss_family ss =? AF_INET then bswap16 (ss_port ss)
  else if ss_family ss =? AF_INET6 then bswap16 (ss_port ss)
  else -1.
Definition skey_from_ss (ss : sockaddr) : reuseport_storage_key :=
  let ip :=
    if ss_family ss =? AF_INET then let '(ip4, _, _, _) := ss_ip ss in (ip4, 0, 0, 0)
    else if ss_family ss =? AF_INET6 then ss_ip ss
    else (0, 0, 0, 0) in
  mk_skey (u8 (ss_family ss)) 0 (u16 (net_get_port ss)) ip.

(** [do_command == CMD_DELETE] *)
Definition cmd_delete {K : Kernel} (reuseport_ss : sockaddr) (w : world) : outcome world :=
  let key := skey_from_ss reuseport_ss in
  match bpf_map_lookup_elem (w_groups w) key with
  | None => Stop Exit_error
  | Some _ =>
      let '(g, r) := bpf_map_delete_elem (w_groups w) key in
      if negb (r =? 0) then Stop Exit_error else Done (set_groups g w)
  end.

(** ** Free slots *)
Section FindEmpty.
Context {K : Kernel} {H : Host}.

(** What the loop knows after the first [n] slots. *)
Record find_ok (row : list Z) (w : world) (cookie : Z) (n : Z) (acc : Z * Z * Z) : Prop := {
  fe_free : let '(_, free, _) := acc in
    (free = -1 ∧ ∀ i, 0 <= i < n → slot_live w (nthZ row i) = true) ∨
    (0 <= free < n ∧ slot_live w (nthZ row free) = false ∧
     ∀ i, 0 <= i < free → slot_live w (nthZ row i) = true);
  fe_len : let '(_, free, len) := acc in
    0 <= len <= n ∧ (∀ i, 0 <= i < n → slot_live w (nthZ row i) = true ∨ i = free → i < len) ∧
    (len = 0 ∨ slot_live w (nthZ row (len - 1)) = true ∨ len - 1 = free);
  fe_prev : let '(prev, _, _) := acc in
    (prev = -1 ∧ ∀ i, 0 <= i < n → slot_live w (nthZ row i) = true →
       sockhash_lookup w (nthZ row i) ≠ Some cookie) ∨
    (0 <= prev < n ∧ sockhash_lookup w (nthZ row prev) = Some cookie ∧
       slot_live w (nthZ row prev) = true);
}.

Lemma find_dead row w cookie n prev free len :
  find_ok row w cookie (Z.of_nat n) (prev, free, len) →
  slot_live w (nthZ row (Z.of_nat n)) = false →
  find_ok row w cookie (Z.of_nat (S n))
    (if free =? -1 then (prev, Z.of_nat n, Z.of_nat n + 1) else (prev, free, len)).
Proof.
  intros [Hf [Hl1 [Hl2 Hl3]] Hp] Hd.
  assert (∀ i, 0 <= i < Z.of_nat (S n) → i < Z.of_nat n ∨ i = Z.of_nat n) as Hcase by lia.
  assert (∀ i, slot_live w (nthZ row i) = true → i ≠ Z.of_nat n) as Hne by (intros i Hi ->; congruence).
  destruct (Z.eqb_spec free (-1)) as [->|Hfree].
  - destruct Hf as [(_ & Hall)|(? & _)]; [|lia]. split.
    + right. split_and!; [lia|lia|done|]. intros i Hi. apply Hall. lia.
    + split_and!; [lia|lia|intros; lia|right; right; lia].
    + destruct Hp as [[-> Hp]|(? & ? & ?)]; [left|right; split_and!; [lia|lia|done|done]].
      split; [done|]. intros i Hi Hlive. apply Hp; [|done]. specialize (Hne i Hlive). lia.
  - destruct Hf as [(? & _)|(Hr & Hdf & Hall)]; [lia|]. split.
    + right. split_and!; [lia|lia|done|done].
    + split_and!; [lia|lia| |done]. intros i Hi [Hlive|Hif].
      * apply Hl2; [|by left]. specialize (Hne i Hlive). lia.
      * apply Hl2; [lia|by right].
    + destruct Hp as [[-> Hp]|(? & ? & ?)]; [left|right; split_and!; [lia|lia|done|done]].
      split; [done|]. intros i Hi Hlive. apply Hp; [|done]. specialize (Hne i Hlive). lia.
Qed.

Lemma find_empty_step_ok row w cookie n acc :
  find_ok row w cookie (Z.of_nat n) acc →
  find_ok row w cookie (Z.of_nat (S n)) (find_empty_step row w cookie acc n).
Proof.
  destruct acc as [[prev free] len]. intros [Hf [Hl1 [Hl2 Hl3]] Hp].
  assert (∀ P : Z → Prop, (∀ i, 0 <= i < Z.of_nat n → P i) → P (Z.of_nat n) →
    ∀ i, 0 <= i < Z.of_nat (S n) → P i) as Hext.
  { intros P H0 H1 i Hi. destruct (Z.eq_dec i (Z.of_nat n)) as [->|]; [done|]. apply H0. lia. }
  unfold find_empty_step. destruct (sockhash_lookup w (nthZ row (Z.of_nat n))) as [v|] eqn:Ev.
  - assert (slot_live w (nthZ row (Z.of_nat n)) = negb (v =? 0)) as Hlive.
    { unfold slot_live. by rewrite Ev. }
    destruct (Z.eqb_spec v 0) as [->|Hv]; cbn [negb] in *.
    + apply (find_dead row w cookie n prev free len); done.
    + split.
      * destruct Hf as [(-> & Hall)|(Hr & Hd & Hall)]; [left|right].
        -- split; [done|]. by apply Hext.
        -- split_and!; [lia|lia|done|done].
      * split_and!; [lia|lia| |right; left; by replace (Z.of_nat n + 1 - 1) with (Z.of_nat n) by lia].
        intros i Hi _. lia.
      * destruct (Z.eqb_spec v cookie) as [->|Hc]; cbn [andb].
        -- destruct (Z.eqb_spec prev (-1)) as [->|Hp1].
           ++ right. split_and!; [lia|lia|done|done].
           ++ right. destruct Hp as [[? _]|(? & ? & ?)]; [done|]. split_and!; [lia|lia|done|done].
        -- destruct Hp as [[-> Hall]|(? & ? & ?)]; [left|right; split_and!; [lia|lia|done|done]].
           split; [done|]. intros i Hi Hli. destruct (Z.eq_dec i (Z.of_nat n)) as [->|]; [congruence|].
           apply Hall; [lia|done].
  - apply (find_dead row w cookie n prev free len); [done|].
    unfold slot_live. by rewrite Ev.
Qed.

Lemma find_fold_ok row w cookie m n acc :
  find_ok row w cookie (Z.of_nat n) acc →
  find_ok row w cookie (Z.of_nat (n + m)) (fold_left (find_empty_step row w cookie) (seq n m) acc).
Proof.
  revert n acc. induction m as [|m IH]; intros n acc Hok; [by rewrite Nat.add_0_r|].
  cbn [seq fold_left]. replace (n + S m)%nat with (S n + m)%nat by lia.
  by apply IH, find_empty_step_ok.
Qed.

Lemma cookies_find_empty_ok st gen w cookie :
  find_ok (nth (Z.to_nat (gen mod MAX_GENS)) (cookies st) []) w cookie 256 (cookies_find_empty st gen w cookie).
Proof.
  unfold cookies_find_empty. apply (find_fold_ok _ w cookie 256 0). split.
  - left. split; [done|]. intros; lia.
  - split_and!; [lia|lia|intros; lia|by left].
  - left. split; [done|]. intros; lia.
Qed.
End FindEmpty.

(** The slot search: of the 256 slots of a generation the search returns the first
    one whose cookie names no live socket (-1 if there is none); the generation's new
    length is the least that covers that slot and every live socket; [prev_pos] is a slot
    that already holds the cookie, or -1 if there is none. *)
Theorem cookies_find_empty_spec {K : Kernel} {H : Host} st gen w cookie :
  let row := nth (Z.to_nat (gen mod MAX_GENS)) (cookies st) [] in
  let live i := slot_live w (nthZ row i) in
  let '(prev, free, len) := cookies_find_empty st gen w cookie in
  ((free = -1 ∧ ∀ i, 0 <= i < MAX_SOCKETS_IN_GEN → live i = true) ∨
   (0 <= free < MAX_SOCKETS_IN_GEN ∧ live free = false ∧ ∀ i, 0 <= i < free → live i = true)) ∧
  (0 <= len <= MAX_SOCKETS_IN_GEN ∧
   (∀ i, 0 <= i < MAX_SOCKETS_IN_GEN → live i = true ∨ i = free → i < len) ∧
   (len = 0 ∨ live (len - 1) = true ∨ len - 1 = free)) ∧
  ((prev = -1 ∧ ∀ i, 0 <= i < MAX_SOCKETS_IN_GEN → live i = true → sockhash_lookup w (nthZ row i) ≠ Some cookie) ∨
   (0 <= prev < MAX_SOCKETS_IN_GEN ∧ sockhash_lookup w (nthZ row prev) = Some cookie ∧ live prev = true)).
Proof.
  intros row live. pose proof (cookies_find_empty_ok st gen w cookie) as Hok.
  destruct (cookies_find_empty st gen w cookie) as [[prev free] len]. by destruct Hok.
Qed.

(** ** Messages to the program *)
Section Messages.
Context {K : Kernel} {H : Host}.

Record skey_ok (k : reuseport_storage_key) : Prop := {
  sk_family : 0 <= family k < 2 ^ 8;
  sk_reserved : 0 <= key_reserved k < 2 ^ 8;
  sk_port : 0 <= src_port k < 2 ^ 16;
  sk_ip : let '(a, b, c, d) := src_ip k in
    0 <= a < 2 ^ 32 ∧ 0 <= b < 2 ^ 32 ∧ 0 <= c < 2 ^ 32 ∧ 0 <= d < 2 ^ 32;
}.

Ltac skip_fields :=
  repeat (rewrite load_app_skip by (rewrite ?length_le_bytes, ?length_zeros; cbn; lia);
          rewrite ?length_le_bytes, ?length_zeros; cbn [Nat.sub]).
Ltac read_field :=
  rewrite load_store_in by
    (rewrite ?length_app, ?length_le_bytes, ?length_zeros; cbn; lia);
  rewrite <- ?app_assoc; skip_fields; first [apply load_app_here|apply load_app_end].

Lemma cookies_msg_fields k g i l c :
  let m := cookies_msg k g i l c in
  load 4 m 0 = GSM_SET_COOKIES ∧ load 1 m 4 = u8 (family k) ∧ load 1 m 5 = u8 (key_reserved k) ∧
  load 2 m 6 = u16 (src_port k) ∧ load 4 m 24 = u32 g ∧ load 4 m 28 = u32 i ∧
  load 4 m 32 = u32 l ∧ load 8 m 40 = u64 c ∧
  let '(a0, a1, a2, a3) := src_ip k in
  load 4 m 8 = u32 a0 ∧ load 4 m 12 = u32 a1 ∧ load 4 m 16 = u32 a2 ∧ load 4 m 20 = u32 a3.
Proof.
  cbv zeta. unfold cookies_msg, skey_bytes, ip_bytes. change (Z.to_nat MSG_SZ) with 128%nat.
  destruct (src_ip k) as [[[a0 a1] a2] a3]. split_and!; read_field.
Qed.

Lemma length_skey_bytes k : length (skey_bytes k) = 20%nat.
Proof. unfold skey_bytes. by rewrite !length_app, !length_le_bytes, length_ip_bytes. Qed.
Lemma cookies_msg_decode k g i l c :
  skey_ok k → let m := cookies_msg k g i l c in
  length m = 128%nat ∧ msg_type m = GSM_SET_COOKIES ∧ msg_skey m = k ∧ msg_sock_gen m = u32 g ∧
  msg_sock_idx m = u32 i ∧ msg_sock_gen_len m = u32 l ∧ msg_sock_cookie m = u64 c.
Proof.
  intros [Hf Hr Hp Hip] m. destruct (cookies_msg_fields k g i l c) as (E0 & E4 & E5 & E6 & E24 & E28 & E32 & E40 & Eip).
  fold m in E0, E4, E5, E6, E24, E28, E32, E40, Eip.
  assert (length m = 128%nat) as Hlen.
  { unfold m, cookies_msg. rewrite length_store; rewrite length_zeros; [done|].
    rewrite !length_app, length_skey_bytes, length_zeros, !length_le_bytes. unfold MSG_SZ. lia. }
  assert (msg_type m = GSM_SET_COOKIES) as Ht by (unfold msg_type; by rewrite E0). clearbody m.
  split_and!; try done.
  - unfold msg_skey. rewrite E4, E5, E6. destruct k as [f r p [[[a0 a1] a2] a3]]. cbn in *.
    destruct Eip as (-> & -> & -> & ->). rewrite (u8_small f), (u8_small r), u16_small, !u32_small by lia. done.
Qed.

Lemma value_msg_decode t k v :
  skey_ok k → 0 <= t < 2 ^ 31 → let m := value_msg t k v in
  length m = 128%nat ∧ msg_type m = t ∧ msg_skey m = k ∧ msg_int_value m = s32 v.
Proof.
  intros [Hf Hr Hp Hip] Ht m.
  assert (load 4 m 0 = u32 t ∧ load 1 m 4 = u8 (family k) ∧ load 1 m 5 = u8 (key_reserved k) ∧
    load 2 m 6 = u16 (src_port k) ∧ load 4 m 24 = u32 v ∧
    let '(a0, a1, a2, a3) := src_ip k in
    load 4 m 8 = u32 a0 ∧ load 4 m 12 = u32 a1 ∧ load 4 m 16 = u32 a2 ∧ load 4 m 20 = u32 a3)
    as (E0 & E4 & E5 & E6 & E24 & Eip).
  { unfold m, value_msg, skey_bytes, ip_bytes. change (Z.to_nat MSG_SZ) with 128%nat.
    destruct (src_ip k) as [[[a0 a1] a2] a3]. split_and!; read_field. }
  split_and!.
  - unfold m, value_msg. rewrite length_store; rewrite length_zeros; [done|].
    rewrite !length_app, length_skey_bytes, !length_le_bytes. unfold MSG_SZ. lia.
  - unfold msg_type. rewrite E0, u32_small by lia. unfold s32. rewrite u32_small by lia.
    by destruct (Z.ltb_spec t (2 ^ 31)); [|lia].
  - unfold msg_skey. rewrite E4, E5, E6. destruct k as [f r p [[[a0 a1] a2] a3]]. cbn in *.
    destruct Eip as (-> & -> & -> & ->). rewrite (u8_small f), (u8_small r), u16_small, !u32_small by lia. done.
  - unfold msg_int_value. rewrite E24. unfold s32, u32. by rewrite Z.mod_mod.
Qed.

(** The tables of a storage have their declared sizes. *)
Record shape (st : reuseport_storage) : Prop := {
  sh_cookies : length (cookies st) = 32%nat;
  sh_rows : Forall (λ row, length row = 256%nat) (cookies st);
  sh_max_idx : length (max_idx st) = 32%nat;
}.

Lemma shape_row st g : shape st → 0 <= g < 32 → length (nth (Z.to_nat g) (cookies st) []) = 256%nat.
Proof.
  intros [Hc Hr _] Hg. rewrite Forall_forall in Hr. apply Hr, list_elem_of_In, nth_In. lia.
Qed.

(** Reading a list after an update. *)
Lemma nthZ_insert_eq l i v : 0 <= i < Z.of_nat (length l) → nthZ (<[Z.to_nat i := v]> l) i = v.
Proof. intros Hi. unfold nthZ. apply nth_lookup_Some, list_lookup_insert_eq. lia. Qed.
Lemma nth_insert_ne {A} (l : list A) i j v d : i ≠ j → nth j (<[i := v]> l) d = nth j l d.
Proof. intros Hne. rewrite !nth_lookup. by rewrite list_lookup_insert_ne. Qed.
Lemma nth_insert_eq {A} (l : list A) i v d : (i < length l)%nat → nth i (<[i := v]> l) d = v.
Proof. intros Hi. by apply nth_lookup_Some, list_lookup_insert_eq. Qed.

Lemma set_cookie_slot_spec st gen idx c len :
  shape st → 0 <= gen < 32 → 0 <= idx < 256 →
  let st' := set_cookie_slot gen idx c len st in
  shape st' ∧ cookie_at st' gen idx = c ∧ nthZ (max_idx st') gen = len ∧
  (∀ g i, 0 <= g → 0 <= i → g ≠ gen ∨ i ≠ idx → cookie_at st' g i = cookie_at st g i) ∧
  (∀ g, 0 <= g → g ≠ gen → nthZ (max_idx st') g = nthZ (max_idx st) g).
Proof.
  intros Hsh Hg Hi st'. pose proof (shape_row st gen Hsh Hg) as Hrow. destruct Hsh as [Hc Hr Hm].
  unfold st', set_cookie_slot, cookie_at. cbn [cookies max_idx set_cookies set_max_idx].
  split_and!.
  - split; cbn [cookies max_idx set_cookies set_max_idx]; rewrite ?length_insert; try done.
    apply Forall_insert; [done|]. by rewrite length_insert.
  - rewrite nth_insert_eq by lia. apply nthZ_insert_eq. lia.
  - apply nthZ_insert_eq. lia.
  - intros g i Hg0 Hi0 Hne. destruct (Z.eq_dec g gen) as [->|Hgn].
    + rewrite nth_insert_eq by lia. unfold nthZ. apply nth_insert_ne. lia.
    + rewrite nth_insert_ne by lia. done.
  - intros g Hg0 Hne. unfold nthZ. apply nth_insert_ne. lia.
Qed.

Lemma run_cookies_msg k g i l c w st w' :
  skey_ok k → group_at w k = Some st → 0 <= g < 32 → 0 <= i < 256 → 0 <= l < 2 ^ 32 → 0 <= c < 2 ^ 64 →
  run_cb_update_map (cookies_msg k g i l c) w = Done w' →
  w' = set_groups (map_value_write (w_groups w) k (set_cookie_slot g i c l st)) (tick w).
Proof.
  intros Hk Hst Hg Hi Hl Hc E.
  destruct (cookies_msg_decode k g i l c Hk) as (Hlen & Ht & Hsk & Hsg & Hsi & Hsl & Hsc).
  unfold run_cb_update_map in E. revert E.
  unfold udpgrm_cb_update_map. rewrite Hlen. change (Z.of_nat 128 <? MSG_SZ) with false. cbv iota zeta.
  rewrite Hsk. unfold group_at in Hst. cbn [w_groups tick]. rewrite Hst, Ht.
  change (GSM_SET_COOKIES =? GSM_SET_COOKIES) with true. cbv iota.
  rewrite Hsg, Hsi, Hsl, Hsc, !u32_small, u64_small by lia.
  rewrite (Z.mod_small g), (Z.mod_small i) by (unfold MAX_GENS, MAX_SOCKETS_IN_GEN; lia).
  destruct (negb _ || negb _); [done|]. by intros [= <-].
Qed.

(** The two metric messages. *)
Lemma run_value_msg t m k v w st w' :
  (t, m) ∈ [(GSM_SET_SOCKET_CRITICAL_GAUGE, socket_critical_gauge); (GSM_INCR_SOCKET_CRITICAL, socket_critical)] →
  skey_ok k → group_at w k = Some st → run_cb_update_map (value_msg t k v) w = Done w' →
  w' = set_groups (map_value_write (w_groups w) k (fetch_and_add m (s32 v) st)) (tick w).
Proof.
  intros Htm Hk Hst E.
  assert (0 <= t < 2 ^ 31) as Ht.
  { repeat (apply elem_of_cons in Htm as [[= -> ->]|Htm]; [cbv; split; congruence|]). by apply not_elem_of_nil in Htm. }
  destruct (value_msg_decode t k v Hk Ht) as (Hlen & Hty & Hsk & Hv).
  revert E. unfold run_cb_update_map, udpgrm_cb_update_map. rewrite Hlen.
  change (Z.of_nat 128 <? MSG_SZ) with false. cbv iota zeta.
  rewrite Hsk. unfold group_at in Hst. cbn [w_groups tick]. rewrite Hst, Hty, Hv.
  repeat (apply elem_of_cons in Htm as [[= -> ->]|Htm];
    [cbn [Z.eqb Pos.eqb GSM_SET_COOKIES GSM_SET_SOCKET_CRITICAL_GAUGE GSM_INCR_SOCKET_CRITICAL];
     destruct (negb _ || negb _); [done|]; by intros [= <-]|]).
  by apply not_elem_of_nil in Htm.
Qed.
End Messages.

(** ** Registration *)
Section Register.
Context {K : Kernel} {L : KernelLaws} {H : Host}.

(** A slot was given: [free] in generation slot [slot]. *)
Record registered (st : reuseport_storage) (k : reuseport_storage_key) (cookie sk : Z) (s : socket_storage)
  (slot : Z) (w w' : world) (free len : Z) : Prop := {
  rg_free : 0 <= free < MAX_SOCKETS_IN_GEN;
  rg_was_free : slot_live w (cookie_at st slot free) = false;
  rg_group : group_at w' k = Some (set_cookie_slot slot free cookie len st);
  rg_others : ∀ k', k' ≠ k → group_at w' k' = group_at w k';
  rg_len : free < len <= MAX_SOCKETS_IN_GEN;
  rg_live : ∀ i, 0 <= i < MAX_SOCKETS_IN_GEN → slot_live w (cookie_at st slot i) = true → i < len;
  rg_sock : bpf_map_lookup_elem (w_socks w') sk
              = Some (mk_sock (sock_gen s) free (sock_app s) (so_cookie s) (so_netns_cookie s));
  rg_sockhash : is_Some (bpf_map_lookup_elem (w_sockhash w') cookie);
  rg_flows : w_flows w' = w_flows w;
  rg_tick : (w_tick w <= w_tick w')%nat;
  rg_first : ∀ i, 0 <= i < free → slot_live w (cookie_at st slot i) = true;
  rg_least : len - 1 = free ∨ slot_live w (cookie_at st slot (len - 1)) = true;
  rg_socks_other : ∀ id, id ≠ sk → bpf_map_lookup_elem (w_socks w') id = bpf_map_lookup_elem (w_socks w) id;
  rg_new_cookie : bpf_map_lookup_elem (w_sockhash w) cookie = None →
    bpf_map_lookup_elem (w_sockhash w') cookie = Some sk;
  rg_other_cookies : ∀ c, c ≠ cookie →
    bpf_map_lookup_elem (w_sockhash w') c = bpf_map_lookup_elem (w_sockhash w) c;
  rg_rb : w_rb w' = w_rb w;
}.

Lemma register_socket_spec st k cookie gen app f sk s d w d' w' slot :
  skey_ok k → group_at w k = Some st → shape st → 0 <= cookie < 2 ^ 64 →
  TO_WRK_GEN (dis_max_apps (dis st)) app gen = Some slot → 0 <= slot < MAX_GENS →
  register_socket st k cookie gen app f sk s d w = Done (d', w') →
  (w' = tick w ∧ ∀ i, 0 <= i < MAX_SOCKETS_IN_GEN → slot_live w (cookie_at st slot i) = true) ∨
  (∃ free len, registered st k cookie sk s slot w w' free len).
Proof.
  intros Hk Hst Hsh Hc Hslot Hr. unfold register_socket. rewrite Hslot.
  pose proof (cookies_find_empty_ok st slot w cookie) as Hok.
  rewrite (Z.mod_small slot) in Hok by done.
  destruct (cookies_find_empty st slot w cookie) as [[prev free] len].
  destruct Hok as [Hfree (Hlen & Hlive & Hleast) _]. cbn in Hfree, Hlen, Hlive, Hleast.
  destruct Hfree as [(-> & Hall)|(Hfr & Hdead & Hfirst)].
  { cbn [Z.ltb orb Z.compare]. destruct (attach_reuseport_ok _ _); [|done]. intros [= <- <-]. left. by split. }
  replace ((free <? 0) || (MAX_SOCKETS_IN_GEN <=? free)) with false by (unfold MAX_SOCKETS_IN_GEN; lia).
  cbv iota. destruct (bpf_map_update_elem (w_sockhash w) cookie sk BPF_NOEXIST) as [h r] eqn:Eh.
  destruct (negb (r =? 0) && negb (r =? - EEXIST)) eqn:Er; [done|].
  destruct (tubular_maybe_preserve_fd st slot len free f _ d) as [close_fd d1].
  destruct (run_cb_update_map _ _) as [w1|] eqn:E1; [|done]. cbn [obind].
  apply (run_cookies_msg k slot free len cookie _ st) in E1; [|done|done|done|done|unfold MAX_SOCKETS_IN_GEN in *; lia|done].
  destruct (bpf_map_update_elem (w_socks w1) sk _ BPF_EXIST) as [m r2] eqn:Em.
  destruct (Z.eqb_spec r2 0) as [->|]; cbn [negb]; [|done].
  destruct (attach_reuseport_ok _ _); [|done]. intros [= _ <-]. right. exists free, len. subst w1.
  split; try done.
  - unfold group_at. cbn [w_groups set_socks set_groups tick].
    apply (map_write_same (exact := true)). cbn [w_groups set_sockhash tick].
    unfold group_at in Hst. rewrite Hst. by eexists.
  - intros k' Hne. apply (map_write_other (exact := true)). done.
  - split; [apply Hlive; [lia|by right]|]. unfold MAX_SOCKETS_IN_GEN. lia.
  - intros i Hi Hli. apply Hlive; [done|by left].
  - by apply (map_update_ok (exact := true)) in Em.
  - cbn. destruct (Z.eqb_spec r 0) as [->|Hr0].
    + apply (map_update_ok (exact := true)) in Eh. by rewrite Eh.
    + assert (r = - EEXIST) as -> by lia.
      destruct (map_update_fail (exact := true) _ _ _ _ _ _ Eh) as [->|[? _]]; [done| |done].
      by apply (map_update_eexist (exact := true)) in Eh.
  - cbn. lia.
  - destruct Hleast as [->|[?|?]]; [|by right|by left]. specialize (Hlive free ltac:(lia) ltac:(by right)). lia.
  - intros id Hne. by destruct (map_update_other (exact := true) _ _ _ _ _ _ _ Em Hne) as [?|[? _]].
  - intros Hnone. destruct (Z.eqb_spec r 0) as [->|Hr0]; [by apply (map_update_ok (exact := true)) in Eh|].
    assert (r = - EEXIST) as -> by lia. apply (map_update_eexist (exact := true)) in Eh. rewrite Hnone in Eh. by destruct Eh.
  - intros c Hne. by destruct (map_update_other (exact := true) _ _ _ _ _ _ _ Eh Hne) as [?|[? _]].
Qed.
End Register.

(** C14. Registering a socket: when the daemon gives the socket a slot, the slot named
    no live socket before, it now holds the socket's cookie, every other slot of every
    generation is as it was, and the new length of the generation covers the slot and
    every live socket, so that no live socket leaves the range new flows are spread
    over; the socket's storage has the index, the sockhash the cookie, no other group
    changes. No slot is given only if all 256 name live sockets. *)
Theorem register_socket_keeps_live {K : Kernel} {L : KernelLaws} {H : Host}
  st k cookie gen app f sk s d w d' w' :
  skey_ok k → group_at w k = Some st → shape st → 0 <= cookie < 2 ^ 64 →
  0 <= dis_max_apps (dis st) <= MAX_GENS → 0 <= app < Z.max 1 (dis_max_apps (dis st)) → 0 <= gen →
  register_socket st k cookie gen app f sk s d w = Done (d', w') →
  ∃ slot, TO_WRK_GEN (dis_max_apps (dis st)) app gen = Some slot ∧ 0 <= slot < MAX_GENS ∧
  ((w' = tick w ∧ ∀ i, 0 <= i < MAX_SOCKETS_IN_GEN → slot_live w (cookie_at st slot i) = true) ∨
   ∃ free st', slot_live w (cookie_at st slot free) = false ∧
     group_at w' k = Some st' ∧ cookie_at st' slot free = cookie ∧
     (∀ g i, 0 <= g → 0 <= i → g ≠ slot ∨ i ≠ free → cookie_at st' g i = cookie_at st g i) ∧
     (∀ g, 0 <= g → g ≠ slot → nthZ (max_idx st') g = nthZ (max_idx st) g) ∧
     free < nthZ (max_idx st') slot <= MAX_SOCKETS_IN_GEN ∧
     (∀ i, 0 <= i < MAX_SOCKETS_IN_GEN → slot_live w (cookie_at st slot i) = true →
        i < nthZ (max_idx st') slot) ∧
     bpf_map_lookup_elem (w_socks w') sk
       = Some (mk_sock (sock_gen s) free (sock_app s) (so_cookie s) (so_netns_cookie s)) ∧
     is_Some (bpf_map_lookup_elem (w_sockhash w') cookie) ∧
     (∀ k', k' ≠ k → group_at w' k' = group_at w k')).
Proof.
  intros Hk Hst Hsh Hc Hm Ha Hg E.
  destruct (TO_WRK_GEN_spec' (dis_max_apps (dis st)) app gen Hm Ha Hg) as (slot & Hslot & Hr).
  exists slot. split; [done|]. split; [done|].
  destruct (register_socket_spec st k cookie gen app f sk s d w d' w' slot Hk Hst Hsh Hc Hslot Hr E)
    as [?|(free & len & [])]; [by left|right].
  destruct (set_cookie_slot_spec st slot free cookie len Hsh Hr) as (_ & Hat & Hlen & Hoth & Hmax); [done|].
  exists free, (set_cookie_slot slot free cookie len st). rewrite Hlen. split_and!; try done; lia.
Qed.

(** C7. End to end: after the daemon has registered a socket of a bytecode group, the
    16-bit cookie that the application reads with UDP_GRM_SOCKET_GEN is the one of the
    socket's slot: as long as the group's storage changes in its counters only, every
    packet from which the bytecode extracts that cookie is delivered to that socket. *)
Theorem registered_cookie_dispatch {K : Kernel} {L : KernelLaws} {H : Host}
  {B : BespokeDissector} {BL : BespokeLaws} st k f sk s d w d' w' ctx :
  skey_ok k → group_at w k = Some st → shape st → 0 <= so_cookie s < 2 ^ 64 →
  DISSECTOR_TYPE (dis_type (dis st)) = DISSECTOR_CBPF → dis_bespoke_digest (dis st) = 0 →
  dis_filter_len (dis st) <= MAX_INSTR → 0 <= dis_max_apps (dis st) <= MAX_APPS →
  0 <= sock_app s < Z.max 1 (dis_max_apps (dis st)) → 0 <= sock_gen s →
  (∀ slot, TO_WRK_GEN (dis_max_apps (dis st)) (sock_app s) (sock_gen s) = Some slot →
     ∃ i, 0 <= i < MAX_SOCKETS_IN_GEN ∧ slot_live w (cookie_at st slot i) = false) →
  register_socket st k (so_cookie s) (sock_gen s) (sock_app s) f sk s d w = Done (d', w') →
  _skey_from_bpf_sock (so_sk ctx) = k → bs_id (so_sk ctx) = sk →
  so_level ctx = IPPROTO_UDP → so_optname ctx = UDP_GRM_SOCKET_GEN → so_get_retval ctx = - ENOPROTOOPT →
  length (so_optval ctx) = 12%nat → percpu_page_ok (w_tick w') = true →
  ∃ st' ck, group_at w' k = Some st' ∧
    slice (sr_optval (fst (udpgrm_getsockopt ctx w'))) 8 2 = le_bytes 2 ck ∧ 0 <= ck < 2 ^ 16 ∧
    ∀ md w2 st2 w3, _skey_from_bpf_sock (md_sk md) = k → group_at w2 k = Some st2 → same_config st' st2 →
      interpret_cbpf md st2 0 w2 = (IERR_OK, ck, w3) →
      bpf_sk_select_reuseport (w_sockhash w2) (md_sk md) (so_cookie s) = 0 →
      rx_selected (fst (udpgrm_reuseport_prog md w2)) = Some (so_cookie s).
Proof.
  intros Hk Hst Hsh Hc Ht Hd Hf Hm Ha Hg Hfree E Hck Hid Hlv Hopt Hrv Hlen Hpg.
  assert (0 <= dis_max_apps (dis st) <= MAX_GENS) as Hm' by (unfold MAX_APPS, MAX_GENS in *; lia).
  destruct (TO_WRK_GEN_spec' (dis_max_apps (dis st)) (sock_app s) (sock_gen s) Hm' Ha Hg) as (slot & Hslot & Hr).
  destruct (register_socket_spec st k _ _ _ f sk s d w d' w' slot Hk Hst Hsh Hc Hslot Hr E)
    as [[_ Hall]|(free & len & [])].
  { destruct (Hfree slot Hslot) as (i & Hi & Hdead). rewrite (Hall i Hi) in Hdead. done. }
  set (st' := set_cookie_slot slot free (so_cookie s) len st) in *.
  destruct (set_cookie_slot_spec st slot free (so_cookie s) len Hsh Hr) as (_ & Hat & _); [done|].
  fold st' in Hat. exists st', (grm_cookie_of slot free).
  split; [done|]. split; [|split; [apply grm_cookie_of_range|]].
  - rewrite (getsockopt_cookie ctx w' st'
      (mk_sock (sock_gen s) free (sock_app s) (so_cookie s) (so_netns_cookie s)) slot Hlv Hopt Hrv Hpg Hlen); [|by rewrite Hck|by rewrite Hid|done].
    cbn [sock_idx]. apply cookie_bytes.
  - intros md w2 st2 w3 Hmd Hst2 [m ->] Hi Hsel. rewrite <- Hat in Hsel |- *.
    change (cookie_at st' slot free) with (cookie_at (set_metrics m st') slot free).
    apply (prog_cookie_hit md w2 (set_metrics m st') slot free w3); try done. by rewrite Hmd.
Qed.

(** Critical errors: a report adds [gauge] to the gauge and [counter] to the
    counter of the group, both modulo 2^64, and changes nothing else of any group. The
    gauge accumulates: a report with gauge 0 (after a success) leaves it as it is. *)
Theorem metric_incr_critical_spec {K : Kernel} {L : KernelLaws} {H : Host} k counter gauge w st w' :
  skey_ok k → group_at w k = Some st → 0 <= counter < 2 ^ 31 → 0 <= gauge < 2 ^ 31 →
  metric_incr_critical k counter gauge w = Done w' →
  ∃ st', group_at w' k = Some st' ∧ same_config st st' ∧
    metrics st' socket_critical_gauge = u64 (metrics st socket_critical_gauge + gauge) ∧
    metrics st' socket_critical =
      (if counter =? 0 then metrics st socket_critical else u64 (metrics st socket_critical + counter)) ∧
    (∀ m, m ∉ [socket_critical_gauge; socket_critical] → metrics st' m = metrics st m) ∧
    (∀ k', k' ≠ k → group_at w' k' = group_at w k').
Proof.
  intros Hk Hst Hc Hg. unfold metric_incr_critical.
  destruct (run_cb_update_map (value_msg GSM_SET_SOCKET_CRITICAL_GAUGE k gauge) w) as [w1|] eqn:E1; [|done].
  cbn [obind]. apply (run_value_msg _ socket_critical_gauge k gauge w st) in E1; [|constructor|done|done].
  assert (∀ x, 0 <= x < 2 ^ 31 → s32 x = x) as Hs32.
  { intros x Hx. unfold s32. rewrite u32_small by lia. destruct (Z.ltb_spec x (2 ^ 31)); lia. }
  rewrite Hs32 in E1 by done. set (st1 := fetch_and_add socket_critical_gauge gauge st) in *.
  assert (group_at w1 k = Some st1) as Hst1.
  { subst w1. apply (map_write_same (exact := true)). unfold group_at in Hst. rewrite Hst. by eexists. }
  assert (∀ k', k' ≠ k → group_at w1 k' = group_at w k') as Ho1.
  { intros k' Hne. subst w1. by apply (map_write_other (exact := true)). }
  destruct (Z.eqb_spec counter 0) as [->|Hc0]; cbn [negb].
  - intros [= <-]. exists st1. split_and!; try done; [by eexists|].
    intros m Hm. unfold st1, fetch_and_add. cbn.
    rewrite fn_lookup_insert_ne; [done|]. intros <-. apply Hm. constructor.
  - intros E2. apply (run_value_msg _ socket_critical k counter w1 st1) in E2; [|do 2 constructor|done|done].
    rewrite Hs32 in E2 by done. exists (fetch_and_add socket_critical counter st1). subst w'. split_and!.
    + apply (map_write_same (exact := true)). unfold group_at in Hst1. rewrite Hst1. by eexists.
    + by eexists.
    + done.
    + done.
    + intros m Hm. unfold st1, fetch_and_add. cbn.
      rewrite !fn_lookup_insert_ne; [done|intros <-; apply Hm; repeat constructor..].
    + intros k' Hne. rewrite <- Ho1 by done. by apply (map_write_other (exact := true)).
Qed.

(** The address of a key and the key of an address. *)
Lemma skey_from_ss_of_key sk :
  bs_family sk = AF_INET ∨ bs_family sk = AF_INET6 →
  skey_from_ss (sockaddr_from_msg_value (_skey_from_bpf_sock sk)) = _skey_from_bpf_sock sk.
Proof.
  assert (∀ x, u16 (bswap16 (bswap16 (u16 x))) = u16 x) as Hp.
  { intros x. rewrite bswap_bswap. change (2 ^ (8 * Z.of_nat 2)) with (2 ^ 16). unfold u16. by rewrite !Z.mod_mod. }
  intros [E|E]; unfold skey_from_ss, sockaddr_from_msg_value, _skey_from_bpf_sock; cbn [family src_port src_ip]; rewrite E.
  - change (u8 AF_INET =? AF_INET) with true. change (AF_INET =? AF_INET) with true. cbv iota.
    unfold net_get_port. cbn [ss_family ss_port ss_ip]. change (AF_INET =? AF_INET) with true. cbv iota. by rewrite Hp.
  - change (u8 AF_INET6 =? AF_INET) with false. change (u8 AF_INET6 =? AF_INET6) with true.
    change (AF_INET6 =? AF_INET) with false. change (AF_INET6 =? AF_INET6) with true. cbv iota.
    unfold net_get_port. cbn [ss_family ss_port ss_ip]. change (AF_INET6 =? AF_INET) with false.
    change (AF_INET6 =? AF_INET6) with true. cbv iota. by rewrite Hp.
Qed.

(** [udpgrm delete] with the address of a socket's group: the key built from the
    address is the one the programs use for the socket; the command fails exactly when
    there is no such group or the kernel refuses, and otherwise removes that group and
    nothing else. *)
Theorem cmd_delete_spec {K : Kernel} {L : KernelLaws} sk w :
  bs_family sk = AF_INET ∨ bs_family sk = AF_INET6 →
  let key := _skey_from_bpf_sock sk in
  match cmd_delete (sockaddr_from_msg_value key) w with
  | Done w' => is_Some (group_at w key) ∧ group_at w' key = None ∧
      (∀ k, k ≠ key → group_at w' k = group_at w k) ∧ w' = set_groups (w_groups w') w
  | Stop s => s = Exit_error ∧ (group_at w key = None ∨ snd (bpf_map_delete_elem (w_groups w) key) ≠ 0)
  end.
Proof.
  intros Hf key. unfold cmd_delete. assert (skey_from_ss (sockaddr_from_msg_value key) = key) as -> by by apply skey_from_ss_of_key.
  unfold group_at. destruct (bpf_map_lookup_elem (w_groups w) key) as [st|] eqn:Hst; [|auto].
  destruct (bpf_map_delete_elem (w_groups w) key) as [g r] eqn:Ed.
  destruct (Z.eqb_spec r 0) as [->|Hr]; cbn [negb snd]; [|by auto].
  split_and!; [by eexists| | |done].
  - by apply (map_delete_ok (exact := true) _ _ _ _ Ed).
  - intros k Hk. by apply (map_delete_other (exact := true) _ _ _ _ _ Ed).
Qed.

(** ** What goes wrong *)
Section Hazards.
Context {K : Kernel} {L : KernelLaws} {H : Host}.

(** [log_printf] does not assign [type] and [skey]: when the reserved memory holds
    another type and a key that is no group's, the daemon ends on the log message. *)
Lemma stale_log_stops_daemon tubular_path fmt args d w ty key :
  w_rb w = [] → bpf_ringbuf_reserve (w_tick w) MSG_SZ = Some (ty, key) →
  bpf_ringbuf_output (S (w_tick w)) = true → ty ≠ MSG_LOG → group_at w key = None →
  ring_buffer_consume tubular_path d (log_printf fmt args w) = Stop Exit_error.
Proof.
  intros Hrb Hres Hout Hty Hkey. unfold ring_buffer_consume, log_printf, ringbuf_reserve.
  rewrite Hres. cbn [w_tick tick]. rewrite Hout. cbn [w_rb rb_output set_rb tick]. rewrite Hrb.
  cbn [app handle_msgs]. unfold handle_msg. cbn [m_skey m_type w_groups set_rb tick].
  unfold group_at in Hkey.
  match goal with |- context [bpf_map_lookup_elem ?m key] => change m with (w_groups w) end.
  rewrite Hkey. apply Z.eqb_neq in Hty. by rewrite Hty.
Qed.

(** A bespoke dissector is accepted with any number of applications; with more than
    [MAX_GENS] of them the daemon divides by zero on the first registration. *)
Lemma bespoke_max_apps_divides_by_zero st k cookie gen app f sk s d w :
  MAX_GENS < dis_max_apps (dis st) → register_socket st k cookie gen app f sk s d w = Stop Div_by_zero.
Proof.
  intros Hm. unfold register_socket, TO_WRK_GEN. unfold MAX_GENS in *.
  destruct (Z.eqb_spec (dis_max_apps (dis st)) 0); [lia|]. by rewrite Z.div_small by lia.
Qed.
Lemma bespoke_never_invalid d :
  DISSECTOR_TYPE (dis_type d) = DISSECTOR_BESPOKE → dissector_invalid d = false.
Proof. intros E. unfold dissector_invalid. by rewrite E. Qed.

Lemma close_all_sent l d : d_sent (foldr close_held d l) = d_sent d.
Proof. induction l as [|f l IH]; [done|]. cbn. unfold close_held. by case_match. Qed.

(** The descriptors handed to Tubular are the first [max_idx] entries of the generation,
    whether they hold a descriptor or not: when the only socket kept is at index 1
    (index 0 belongs to a live socket that is no longer kept), descriptor 0 goes along. *)
Lemma tubular_gets_descriptor_0 st f now d :
  has_label st = true → reuseport_group_lookup (random_id st) d = None →
  let '(close_fd, d1) := tubular_maybe_preserve_fd st 0 2 1 f now d in
  close_fd = false ∧
  d_sent (snd (tubular_maybe_register st 0 true now d1))
    = d_sent d ++ [(label_payload (dis_label (dis st)), [0; f])].
Proof.
  intros Hl Hn. unfold tubular_maybe_preserve_fd, reuseport_group_lookup_or_add. rewrite Hl, Hn.
  set (ng := new_group (random_id st) (realtime_now now)).
  change (nth (Z.to_nat (0 mod MAX_GENS)) (rg_sockets ng) []) with (zeros 256).
  change (nthZ (zeros 256) 1) with 0. cbn [close_held Z.ltb Z.compare update_group d_groups set_d_groups].
  assert ((rg_random_id ng =? random_id st) = true) as Hr by apply Z.eqb_refl. rewrite Hr. split; [done|].
  unfold tubular_maybe_register, reuseport_group_lookup. rewrite Hl.
  cbn [find d_groups set_d_groups rg_random_id]. rewrite Hr. cbn [negb].
  unfold tubular_close_wg, reuseport_group_maybe_delete. cbn [snd d_sent set_d_groups set_d_sent].
  case_match; cbn [d_sent set_d_groups]; rewrite close_all_sent; reflexivity.
Qed.
End Hazards.

(** ** Evaluation *)
Definition is_done {A} (x : outcome A) : bool := match x with Done _ => true | Stop _ => false end.
Definition done_or {A} (x : outcome A) (a : A) : A := match x with Done a => a | Stop _ => a end.
Lemma is_done_spec {A} (x : outcome A) a : is_done x = true → x = Done (done_or x a).
Proof. by destruct x. Qed.

Section Witnesses.
#[local] Existing Instance good_kernel.
#[local] Existing Instance good_host.
#[local] Existing Instance no_bespoke.

Definition no_daemon : daemon := mk_daemon [] ∅ [].

(** A third socket of the group of [Reuseport]: cookie 44, generation 1. *)
Definition third_sk : bpf_sock := mk_bpf_sock 3 AF_INET 1 (0, 0, 0, 0) 4433.
Definition third_sock : socket_storage := mk_sock 1 (u32 (-1)) 0 44 0.
Definition third_world : world := set_socks (<[3 := third_sock]> (∅ : gmap Z socket_storage)) example_world.
Definition third_key : reuseport_storage_key := _skey_from_bpf_sock third_sk.
Definition third_result := register_socket example_group third_key 44 1 0 7 3 third_sock no_daemon third_world.
Definition third_after : daemon * world := done_or third_result (no_daemon, third_world).

Lemma third_done : third_result = Done (fst third_after, snd third_after).
Proof.
  rewrite <- surjective_pairing. apply is_done_spec. vm_compute. reflexivity.
Qed.
Lemma third_key_ok : skey_ok third_key.
Proof. split; vm_compute; repeat split; (discriminate || reflexivity). Qed.
Lemma example_shape : shape example_group.
Proof. split; [reflexivity|repeat constructor|reflexivity]. Qed.
Lemma third_group : group_at third_world third_key = Some example_group.
Proof. apply lookup_insert_eq. Qed.

Lemma register_socket_keeps_live_witness :
  ∃ free st', group_at (snd third_after) third_key = Some st' ∧ cookie_at st' 1 free = 44
    ∧ free < nthZ (max_idx st') 1 <= MAX_SOCKETS_IN_GEN.
Proof.
  destruct (register_socket_keeps_live example_group third_key 44 1 0 7 3 third_sock no_daemon third_world
    (fst third_after) (snd third_after) third_key_ok third_group example_shape)
    as (slot & Hs & _ & [[_ Hall]|(free & st' & _ & Hat & Hc & _ & _ & Hl & _)]).
  - lia.
  - vm_compute. split; discriminate.
  - vm_compute. split; [discriminate|reflexivity].
  - lia.
  - exact third_done.
  - vm_compute in Hs. injection Hs as <-. specialize (Hall 0 ltac:(unfold MAX_SOCKETS_IN_GEN; lia)).
    vm_compute in Hall. discriminate.
  - vm_compute in Hs. injection Hs as <-. exists free, st'. split; [exact Hat|]. split; [exact Hc|exact Hl].
Defined.

Definition third_ctx : bpf_sockopt :=
  mk_sockopt third_sk IPPROTO_UDP UDP_GRM_SOCKET_GEN 12 (zeros 12) (- ENOPROTOOPT) 99.
Lemma registered_cookie_dispatch_witness :
  ∃ st' ck, group_at (snd third_after) third_key = Some st' ∧
    slice (sr_optval (fst (udpgrm_getsockopt third_ctx (snd third_after)))) 8 2 = le_bytes 2 ck ∧
    ∀ md w2 st2 w3, _skey_from_bpf_sock (md_sk md) = third_key → group_at w2 third_key = Some st2 →
      same_config st' st2 → interpret_cbpf md st2 0 w2 = (IERR_OK, ck, w3) →
      bpf_sk_select_reuseport (w_sockhash w2) (md_sk md) 44 = 0 →
      rx_selected (fst (udpgrm_reuseport_prog md w2)) = Some 44.
Proof.
  destruct (registered_cookie_dispatch example_group third_key 7 3 third_sock no_daemon third_world
    (fst third_after) (snd third_after) third_ctx third_key_ok third_group example_shape)
    as (st' & ck & Hat & Hs & _ & Hd).
  - cbn. lia.
  - vm_compute. reflexivity.
  - vm_compute. reflexivity.
  - vm_compute. discriminate.
  - vm_compute. split; discriminate.
  - vm_compute. split; [discriminate|reflexivity].
  - cbn. lia.
  - intros slot Hslot. vm_compute in Hslot. injection Hslot as <-. exists 0.
    split; [unfold MAX_SOCKETS_IN_GEN; lia|]. vm_compute. reflexivity.
  - exact third_done.
  - reflexivity.
  - reflexivity.
  - reflexivity.
  - reflexivity.
  - reflexivity.
  - reflexivity.
  - reflexivity.
  - exists st', ck. split; [exact Hat|]. split; [exact Hs|exact Hd].
Defined.

Lemma cmd_delete_spec_witness :
  match cmd_delete (sockaddr_from_msg_value third_key) third_world with
  | Done w' => group_at w' third_key = None
  | Stop _ => False
  end.
Proof.
  pose proof (cmd_delete_spec third_sk third_world (or_introl eq_refl)) as Hd. cbv zeta in Hd.
  fold third_key in Hd.
  destruct (cmd_delete (sockaddr_from_msg_value third_key) third_world) as [w'|s] eqn:E.
  - exact (proj1 (proj2 Hd)).
  - assert (is_done (cmd_delete (sockaddr_from_msg_value third_key) third_world) = true) as Hdone
      by (vm_compute; reflexivity).
    rewrite E in Hdone. discriminate Hdone.
Defined.

Definition critical_result := metric_incr_critical third_key 1 1 third_world.
Definition critical_after : world := done_or critical_result third_world.
Lemma metric_incr_critical_spec_witness :
  ∃ st', group_at critical_after third_key = Some st' ∧
    metrics st' socket_critical_gauge = 1 ∧ metrics st' socket_critical = 1.
Proof.
  destruct (metric_incr_critical_spec third_key 1 1 third_world example_group critical_after
    third_key_ok third_group) as (st' & Hat & _ & Hg & Hc & _).
  - lia.
  - lia.
  - apply is_done_spec. vm_compute. reflexivity.
  - exists st'. split; [exact Hat|]. split; [rewrite Hg|rewrite Hc]; vm_compute; reflexivity.
Defined.
End Witnesses.
