(* ===== verification/Registry.v ===== *)
(** The registry of [src/tubular.c] on the heap.

    [Daemon] keeps the groups of descriptors of the daemon as a sequence. Here is the same
    code with the pointers it has: the groups are objects on the heap, linked through
    [list.h], allocated by [calloc] and freed when nothing is left in them. The theorems
    say that no pointer is used after its object is gone and that every function does what
    its counterpart of [Daemon] does. *)

From S2P Require Import Prelude Cookie SipHash Storage Host LinkedList Traversal Daemon.
#[local] Set Warnings "-clear-no-such-hyp".

(** The memory of the process: list nodes, the rest of each object, and the descriptors
    and requests of [daemon] (whose sequence of groups is not used here). *)
Record memory := mk_memory {
  mm_heap : heap;
  mm_objs : gmap ptr reuseport_group;
  mm_proc : daemon;
}.
Definition set_mm_heap v s := mk_memory v (mm_objs s) (mm_proc s).
Definition set_mm_objs v s := mk_memory (mm_heap s) v (mm_proc s).
Definition set_mm_proc v s := mk_memory (mm_heap s) (mm_objs s) v.

(** Offset of [in_list] in [struct reuseport_group]. *)
Definition in_list : ptr := 0.

Section Registry.
Context {H : Host}.
(** The static list head, and the allocator: an address for a new object, or null. *)
Context (list_of_tubular_sockets : ptr) (calloc : memory → option ptr).

Definition load_group (p : ptr) (s : memory) : option reuseport_group := mm_objs s !! p.
Definition store_group (p : ptr) (g : reuseport_group) (s : memory) : option memory :=
  match mm_objs s !! p with Some _ => Some (set_mm_objs (<[p := g]> (mm_objs s)) s) | None => None end.

Definition reuseport_groups_empty (s : memory) : option bool :=
  list_empty list_of_tubular_sockets (mm_heap s).

(** The pointer it returns is [None] for a null pointer. *)
Definition lookup_body (rid : Z) (s : memory) : traversal_body unit ptr := λ pos m a,
  let sk_group := container_of pos in_list in
  g ← load_group sk_group s;
  Some (if rg_random_id g =? rid then inr (m, sk_group) else inl (m, a)).
Definition group_lookup_ptr (fuel : nat) (rid : Z) (s : memory) : option (option ptr) :=
  r ← list_for_each list_of_tubular_sockets (lookup_body rid s) fuel (mm_heap s) tt;
  Some (match r with inr (_, p) => Some p | inl _ => None end).

Definition group_lookup_or_add_ptr (fuel : nat) (rid : Z) (now : nat) (s : memory) : option (ptr * memory) :=
  sk_group ← group_lookup_ptr fuel rid s;
  match sk_group with
  | Some p => Some (p, s)
  | None =>
      p ← calloc s;
      let s := mk_memory (heap_alloc (p + in_list) (mm_heap s))
                 (<[p := mk_rgroup 0 0 (zeros 32) (repeat (zeros 256) 32)]> (mm_objs s)) (mm_proc s) in
      g ← load_group p s;
      s ← store_group p (mk_rgroup rid (realtime_now now) (rg_max_idx g) (rg_sockets g)) s;
      m ← list_add (p + in_list) list_of_tubular_sockets (mm_heap s);
      Some (p, set_mm_heap m s)
  end.

(** The result tells whether the object was freed. *)
Definition group_maybe_delete_ptr (p : ptr) (s : memory) : option (bool * memory) :=
  g ← load_group p s;
  if forallb (λ m, m =? 0) (rg_max_idx g) then
    m ← list_del (p + in_list) (mm_heap s);
    Some (true, mk_memory (heap_free (p + in_list) m) (delete p (mm_objs s)) (mm_proc s))
  else Some (false, s).

(** [sockets[wg][i]] and a store to it, inside the array only. *)
Definition sockets_at (g : reuseport_group) (wg i : nat) : option Z :=
  row ← rg_sockets g !! wg; row !! i.
Definition set_sockets_at (wg i : nat) (f : Z) (g : reuseport_group) : reuseport_group :=
  mk_rgroup (rg_random_id g) (rg_last_modified g) (rg_max_idx g)
    (match rg_sockets g !! wg with
     | Some row => <[wg := <[i := f]> row]> (rg_sockets g)
     | None => rg_sockets g
     end).
Definition set_max_idx_at (wg : nat) (v : Z) (g : reuseport_group) : reuseport_group :=
  mk_rgroup (rg_random_id g) (rg_last_modified g) (<[wg := v]> (rg_max_idx g)) (rg_sockets g).

Fixpoint close_wg_loop (p : ptr) (wg i n : nat) (s : memory) : option memory :=
  match n with
  | O => Some s
  | S n =>
      g ← load_group p s;
      f ← sockets_at g wg i;
      let s := if 0 <? f then set_mm_proc (close f (mm_proc s)) s else s in
      s ← store_group p (set_sockets_at wg i (-1) g) s;
      close_wg_loop p wg (S i) n s
  end.
Definition close_wg_ptr (p : ptr) (wg : Z) (s : memory) : option memory :=
  let wg := Z.to_nat (wg mod MAX_GENS) in
  g ← load_group p s;
  max_idx ← rg_max_idx g !! wg;
  s ← close_wg_loop p wg 0 (Z.to_nat max_idx) s;
  g ← load_group p s;
  store_group p (set_max_idx_at wg 0 g) s.

Definition maybe_preserve_fd_ptr (fuel : nat) (st : reuseport_storage) (gen gen_len free_pos f : Z)
  (now : nat) (s : memory) : option (bool * memory) :=
  if has_label st then
    '(p, s) ← group_lookup_or_add_ptr fuel (random_id st) now s;
    let wg := Z.to_nat (gen mod MAX_GENS) in
    g ← load_group p s;
    s ← store_group p (set_max_idx_at wg gen_len g) s;
    g ← load_group p s;
    old ← sockets_at g wg (Z.to_nat free_pos);
    let s := if 0 <? old then set_mm_proc (close old (mm_proc s)) s else s in
    s ← store_group p (set_sockets_at wg (Z.to_nat free_pos) f g) s;
    g ← load_group p s;
    s ← store_group p (mk_rgroup (rg_random_id g) (realtime_now now) (rg_max_idx g) (rg_sockets g)) s;
    Some (false, s)
  else Some (true, s).

Definition maybe_register_ptr (fuel : nat) (st : reuseport_storage) (wg : Z) (tubular_path : bool)
  (now : nat) (s : memory) : option (Z * memory) :=
  if has_label st then
    sk_group ← group_lookup_ptr fuel (random_id st) s;
    '(err, s) ←
      (if negb tubular_path then Some (ENOENT, s)
       else
         match sk_group with
         | None => Some (EBADF, s)
         | Some p =>
             g ← load_group p s;
             max_idx ← rg_max_idx g !! Z.to_nat wg;
             row ← rg_sockets g !! Z.to_nat wg;
             (* [sendmsg] reads [max_idx] descriptors from the row *)
             if (Z.to_nat max_idx <=? List.length row)%nat then
               let fds := take (Z.to_nat max_idx) row in
               let label := dis_label (dis st) in
               Some (tubular_register now label fds,
                     set_mm_proc (set_d_sent (d_sent (mm_proc s) ++ [(label_payload label, fds)]) (mm_proc s)) s)
             else None
         end);
    match sk_group with
    | None => Some (err, s)
    | Some p =>
        s ← close_wg_ptr p wg s;
        '(_, s) ← group_maybe_delete_ptr p s;
        Some (err, s)
    end
  else Some (0, s).

(** The loop body of [reuseport_groups_maybe_cleanup_stale]. *)
Fixpoint close_all_wg_ptr (p : ptr) (wgs : list nat) (s : memory) : option memory :=
  match wgs with
  | [] => Some s
  | wg :: wgs => s ← close_wg_ptr p (Z.of_nat wg) s; close_all_wg_ptr p wgs s
  end.
Definition cleanup_body (now : Z) : traversal_body (gmap ptr reuseport_group * daemon) unit := λ pos m a,
  let s := mk_memory m (fst a) (snd a) in
  let sk_group := container_of pos in_list in
  g ← load_group sk_group s;
  if 10 * 1000000000 <? u64 (now - rg_last_modified g) then
    s ← close_all_wg_ptr sk_group (seq 0 (Z.to_nat MAX_GENS)) s;
    '(_, s) ← group_maybe_delete_ptr sk_group s;
    Some (inl (mm_heap s, (mm_objs s, mm_proc s)))
  else Some (inl (m, a)).
Definition cleanup_stale_ptr (fuel : nat) (now : nat) (s : memory) : option memory :=
  r ← list_for_each_safe list_of_tubular_sockets (cleanup_body (realtime_now now)) fuel (mm_heap s)
        (mm_objs s, mm_proc s);
  match r with
  | inl (m, a) => Some (mk_memory m (fst a) (snd a))
  | inr _ => None
  end.
End Registry.

(** ** What the memory means

    [holds s d]: the list at the head links exactly the objects that exist, one for each
    group of [d] in order; arrays have their sizes, and no two groups share an id. *)
Record group_ok (g : reuseport_group) : Prop := {
  go_idx : List.length (rg_max_idx g) = Z.to_nat MAX_GENS;
  go_bound : Forall (λ m, 0 <= m <= MAX_SOCKETS_IN_GEN) (rg_max_idx g);
  go_gens : List.length (rg_sockets g) = Z.to_nat MAX_GENS;
  go_rows : Forall (λ row, List.length row = Z.to_nat MAX_SOCKETS_IN_GEN) (rg_sockets g);
}.

Record holds_at (hd : ptr) (s : memory) (d : daemon) (l : list ptr) : Prop := {
  ho_heap : heap_has (mm_heap s) [hd :: l] [];
  ho_objs : Forall2 (λ p g, mm_objs s !! p = Some g) l (d_groups d);
  ho_noleak : ∀ p, is_Some (mm_objs s !! p) → p ∈ l;
  ho_ids : NoDup (map rg_random_id (d_groups d));
  ho_ok : Forall group_ok (d_groups d);
  ho_fds : d_fds (mm_proc s) = d_fds d;
  ho_sent : d_sent (mm_proc s) = d_sent d;
}.
Definition holds (hd : ptr) (s : memory) (d : daemon) : Prop := ∃ l, holds_at hd s d l.

(** ** Closing the descriptors of a generation *)

Definition same_proc (a b : daemon) : Prop := d_fds a = d_fds b ∧ d_sent a = d_sent b.

Lemma close_held_comm f g d : close_held f (close_held g d) = close_held g (close_held f d).
Proof.
  unfold close_held, close. destruct (0 <? f), (0 <? g); try done.
  unfold set_d_fds. cbn. by rewrite delete_delete.
Qed.
Lemma close_held_foldr f l d : foldr close_held (close_held f d) l = close_held f (foldr close_held d l).
Proof. induction l as [|g l IH]; cbn; [done|]. by rewrite IH, close_held_comm. Qed.
Lemma same_proc_close f a b : same_proc a b →
  same_proc (if 0 <? f then close f a else a) (close_held f b).
Proof. intros [Hf Hs]. unfold close_held. destruct (0 <? f); [|done]. split; cbn; [by rewrite Hf|done]. Qed.
Lemma same_proc_groups v a b : same_proc a b → same_proc a (set_d_groups v b).
Proof. done. Qed.

Lemma close_wg_loop_spec p wg n i s g a b d :
  mm_objs s !! p = Some g → rg_sockets g !! wg = Some (a ++ b) → List.length a = i →
  (n <= List.length b)%nat → same_proc (mm_proc s) d →
  ∃ pr, close_wg_loop p wg i n s =
      Some (mk_memory (mm_heap s)
        (<[p := mk_rgroup (rg_random_id g) (rg_last_modified g) (rg_max_idx g)
                 (<[wg := a ++ replicate n (-1) ++ drop n b]> (rg_sockets g))]> (mm_objs s)) pr)
    ∧ same_proc pr (foldr close_held d (take n b)).
Proof.
  revert i s g a b d. induction n as [|n IH]; intros i s g a b d Hp Hrow Hi Hn Hd.
  - exists (mm_proc s). cbn. split; [|done]. rewrite list_insert_id by done.
    destruct g; cbn. rewrite insert_id by done. by destruct s.
  - destruct b as [|f b]; cbn in Hn; [lia|]. cbn [close_wg_loop].
    assert (sockets_at g wg i = Some f) as Hf.
    { unfold sockets_at. rewrite Hrow. cbn. by apply list_lookup_middle. }
    unfold load_group. rewrite Hp. cbn [mbind option_bind]. rewrite Hf. cbn [mbind option_bind].
    unfold store_group.
    set (s1 := if 0 <? f then _ else _). assert (mm_objs s1 = mm_objs s ∧ mm_heap s1 = mm_heap s) as [Ho Hh]
      by (unfold s1; by destruct (0 <? f)).
    assert (same_proc (mm_proc s1) (close_held f d)) as Hs1.
    { unfold s1. pose proof (same_proc_close f _ _ Hd) as Hc. by destruct (0 <? f). }
    rewrite Ho, Hp. cbn [mbind option_bind].
    assert (set_sockets_at wg i (-1) g = mk_rgroup (rg_random_id g) (rg_last_modified g) (rg_max_idx g)
      (<[wg := (a ++ [-1]) ++ b]> (rg_sockets g))) as ->.
    { unfold set_sockets_at. rewrite Hrow. do 2 f_equal. subst i.
      rewrite <- app_assoc. cbn. by rewrite insert_app_r_alt, Nat.sub_diag by lia. }
    set (g1 := mk_rgroup _ _ _ _).
    destruct (IH (S i) (set_mm_objs (<[p:=g1]> (mm_objs s)) s1) g1 (a ++ [-1]) b (close_held f d)) as (pr & Hl & Hpr).
    + cbn. by rewrite lookup_insert_eq.
    + cbn. apply list_lookup_insert_eq. by eapply lookup_lt_Some.
    + rewrite length_app. cbn. lia.
    + lia.
    + exact Hs1.
    + exists pr. rewrite Hl. cbn. rewrite Hh, insert_insert_eq, list_insert_insert_eq. split.
      * by rewrite <- app_assoc.
      * by rewrite close_held_foldr in Hpr.
Qed.

Lemma nth_lookup_ok {A} (l : list A) i d x : l !! i = Some x → nth i l d = x.
Proof. intros E. by apply nth_lookup_Some. Qed.
Lemma wg_bound wg : (Z.to_nat (wg mod MAX_GENS) < Z.to_nat MAX_GENS)%nat.
Proof. pose proof (Z.mod_pos_bound wg MAX_GENS ltac:(done)). lia. Qed.

(** The row and the length of a generation, which are there. *)
Lemma group_row g wg : group_ok g → (wg < Z.to_nat MAX_GENS)%nat →
  ∃ row m, rg_sockets g !! wg = Some row ∧ rg_max_idx g !! wg = Some m ∧
    List.length row = Z.to_nat MAX_SOCKETS_IN_GEN ∧ 0 <= m <= MAX_SOCKETS_IN_GEN.
Proof.
  intros [Hi Hb Hg Hr] Hwg.
  destruct (lookup_lt_is_Some_2 (rg_sockets g) wg) as [row Hrow]; [lia|].
  destruct (lookup_lt_is_Some_2 (rg_max_idx g) wg) as [m Hm]; [lia|].
  pose proof (Forall_lookup_1 _ _ _ _ Hr Hrow). pose proof (Forall_lookup_1 _ _ _ _ Hb Hm). eauto 8.
Qed.

Lemma group_ok_store g wg lm m row : group_ok g → 0 <= m <= MAX_SOCKETS_IN_GEN →
  List.length row = Z.to_nat MAX_SOCKETS_IN_GEN →
  group_ok (mk_rgroup (rg_random_id g) lm (<[wg := m]> (rg_max_idx g)) (<[wg := row]> (rg_sockets g))).
Proof.
  intros [Hi Hb Hg Hr] Hm Hrow. split; cbn.
  - by rewrite length_insert.
  - by apply Forall_insert.
  - by rewrite length_insert.
  - by apply Forall_insert.
Qed.

Lemma close_wg_ptr_spec p wg s g d : mm_objs s !! p = Some g → group_ok g → same_proc (mm_proc s) d →
  ∃ pr, close_wg_ptr p wg s =
      Some (mk_memory (mm_heap s) (<[p := fst (tubular_close_wg wg g d)]> (mm_objs s)) pr)
    ∧ same_proc pr (snd (tubular_close_wg wg g d)) ∧ group_ok (fst (tubular_close_wg wg g d))
    ∧ d_groups (snd (tubular_close_wg wg g d)) = d_groups d
    ∧ rg_random_id (fst (tubular_close_wg wg g d)) = rg_random_id g.
Proof.
  intros Hp Hok Hd. unfold close_wg_ptr, tubular_close_wg. set (w := Z.to_nat (wg mod MAX_GENS)).
  destruct (group_row g w Hok (wg_bound wg)) as (row & m & Hrow & Hm & Hlen & Hmb).
  unfold load_group. rewrite Hp. cbn [mbind option_bind]. rewrite Hm. cbn [mbind option_bind].
  rewrite (nth_lookup_ok _ _ [] _ Hrow), (nth_lookup_ok _ _ 0 _ Hm).
  destruct (close_wg_loop_spec p w (Z.to_nat m) 0 s g [] row d Hp Hrow) as (pr & -> & Hpr);
    [done|lia|done|].
  cbn [mbind option_bind mm_objs]. unfold store_group. cbn [mm_objs]. rewrite lookup_insert_eq.
  cbn [mbind option_bind]. rewrite insert_insert_eq. exists pr. cbn [fst snd app].
  split_and!; [done|done| | |done].
  - apply group_ok_store; [done|split; done|].
    rewrite length_app, length_replicate, length_drop. lia.
  - clear. induction (take (Z.to_nat m) row) as [|f l IH]; [done|]. cbn. unfold close_held at 1. by destruct (0 <? f).
Qed.

Lemma close_all_wg_spec p wgs s g d : mm_objs s !! p = Some g → group_ok g → same_proc (mm_proc s) d →
  let r := fold_left (λ '(g, d) wg, tubular_close_wg (Z.of_nat wg) g d) wgs (g, d) in
  ∃ pr, close_all_wg_ptr p wgs s = Some (mk_memory (mm_heap s) (<[p := fst r]> (mm_objs s)) pr)
    ∧ same_proc pr (snd r) ∧ group_ok (fst r) ∧ d_groups (snd r) = d_groups d
    ∧ rg_random_id (fst r) = rg_random_id g.
Proof.
  revert s g d. induction wgs as [|wg wgs IH]; intros s g d Hp Hok Hd.
  - exists (mm_proc s). cbn. rewrite insert_id by done. by destruct s.
  - destruct (close_wg_ptr_spec p (Z.of_nat wg) s g d Hp Hok Hd) as (pr & Hc & Hpr & Hok' & Hg' & Hid').
    cbn [close_all_wg_ptr fold_left]. rewrite Hc. cbn [mbind option_bind].
    destruct (tubular_close_wg (Z.of_nat wg) g d) as [g1 d1]. cbn [fst snd] in *.
    destruct (IH (mk_memory (mm_heap s) (<[p:=g1]> (mm_objs s)) pr) g1 d1) as (pr' & Hc' & Hpr' & Hok1 & Hg1 & Hid1);
      [cbn; apply lookup_insert_eq|done|done|].
    exists pr'. rewrite Hc'. cbn. rewrite insert_insert_eq. split_and!; congruence || done.
Qed.

(** ** Positions in the list *)

Lemma find_split rid gs : 
  match find (λ g, rg_random_id g =? rid) gs with
  | Some g => ∃ gs1 gs2, gs = gs1 ++ g :: gs2 ∧ Forall (λ g, rg_random_id g ≠ rid) gs1 ∧ rg_random_id g = rid
  | None => Forall (λ g, rg_random_id g ≠ rid) gs
  end.
Proof.
  induction gs as [|g gs IH]; cbn; [done|]. destruct (Z.eqb_spec (rg_random_id g) rid) as [E|Hne].
  - by exists [], gs.
  - destruct (find _ gs) as [g'|].
    + destruct IH as (gs1 & gs2 & -> & Hf & E). exists (g :: gs1), gs2. by split_and!; [|constructor|].
    + by constructor.
Qed.
Lemma update_group_split rid g g' gs1 gs2 : Forall (λ g, rg_random_id g ≠ rid) gs1 → rg_random_id g = rid →
  update_group rid g' (gs1 ++ g :: gs2) = gs1 ++ g' :: gs2.
Proof.
  intros Hf E. induction Hf as [|x gs1 Hx _ IH]; cbn; [by rewrite (proj2 (Z.eqb_eq _ _) E)|].
  rewrite (proj2 (Z.eqb_neq _ _) Hx). by rewrite IH.
Qed.
Lemma delete_group_split rid g gs1 gs2 : Forall (λ g, rg_random_id g ≠ rid) gs1 → rg_random_id g = rid →
  delete_group rid (gs1 ++ g :: gs2) = gs1 ++ gs2.
Proof.
  intros Hf E. induction Hf as [|x gs1 Hx _ IH]; cbn; [by rewrite (proj2 (Z.eqb_eq _ _) E)|].
  rewrite (proj2 (Z.eqb_neq _ _) Hx). by rewrite IH.
Qed.
Lemma ids_before gs1 g gs2 : NoDup (map rg_random_id (gs1 ++ g :: gs2)) →
  Forall (λ x, rg_random_id x ≠ rg_random_id g) gs1.
Proof.
  rewrite map_app. intros (_ & Hd & _)%NoDup_app. apply Forall_forall. intros x Hx E.
  apply (Hd (rg_random_id x)); [by apply list_elem_of_fmap_2|]. rewrite E. cbn. left.
Qed.

Lemma Forall2_objs {G} (o o' : gmap ptr G) l gs : (∀ q, q ∈ l → o' !! q = o !! q) →
  Forall2 (λ p g, o !! p = Some g) l gs → Forall2 (λ p g, o' !! p = Some g) l gs.
Proof.
  intros Ho. induction 1 as [|p g l gs Hp _ IH]; constructor.
  - rewrite Ho; [done|left].
  - apply IH. intros q Hq. apply Ho. by right.
Qed.

(** The object of a group, and where it is. *)
Record placed (hd : ptr) (s : memory) (d : daemon) (l1 : list ptr) (p : ptr) (l2 : list ptr)
  (gs1 : list reuseport_group) (g : reuseport_group) (gs2 : list reuseport_group) : Prop := {
  pl_holds : holds_at hd s d (l1 ++ p :: l2);
  pl_groups : d_groups d = gs1 ++ g :: gs2;
  pl_len : List.length l1 = List.length gs1;
}.
Lemma placed_obj hd s d l1 p l2 gs1 g gs2 : placed hd s d l1 p l2 gs1 g gs2 →
  mm_objs s !! p = Some g ∧ group_ok g ∧ same_proc (mm_proc s) d ∧
  Forall (λ x, rg_random_id x ≠ rg_random_id g) gs1.
Proof.
  intros [[Hh Ho Hl Hi Hok Hf Hs] Hg Hlen]. rewrite Hg in *.
  apply Forall2_app_inv in Ho as [_ Ho]; [|done]. apply Forall2_cons in Ho as [Hp _].
  apply Forall_app in Hok as [_ Hok]. apply Forall_cons in Hok as [Hok _].
  split_and!; [done|done|done|by eapply ids_before].
Qed.

(** A store to the object is a change of the group at its place. *)
Lemma placed_store hd s d l1 p l2 gs1 g gs2 g' pr d' : placed hd s d l1 p l2 gs1 g gs2 →
  rg_random_id g' = rg_random_id g → group_ok g' → same_proc pr d' → d_groups d' = gs1 ++ g' :: gs2 →
  placed hd (mk_memory (mm_heap s) (<[p := g']> (mm_objs s)) pr) d' l1 p l2 gs1 g' gs2.
Proof.
  intros [[Hh Ho Hl Hi Hok Hf Hs] Hg Hlen] Hid Hok' [Hpf Hps] Hg'. rewrite Hg in *.
  split; [|done|done]. split; cbn; [done| | | | |done|done].
  - rewrite Hg'. apply Forall2_app_inv in Ho as [Ho1 Ho]; [|done]. apply Forall2_cons in Ho as [Hp Ho2].
    pose proof (hh_apart _ _ _ Hh) as Ha. cbn in Ha. rewrite !app_nil_r in Ha.
    apply NoDup_cons in Ha as [_ Ha]. apply NoDup_app in Ha as (_ & Ha1 & Ha). apply NoDup_cons in Ha as [Ha2 _].
    apply Forall2_app; [|apply Forall2_cons; split; [by rewrite lookup_insert_eq|]];
      (eapply Forall2_objs; [|eassumption]); intros q Hq; apply lookup_insert_ne; intros ->; set_solver.
  - intros q [x Hq]. destruct (decide (q = p)) as [->|Hne]; [set_solver|].
    rewrite lookup_insert_ne in Hq by done. apply Hl. by eexists.
  - rewrite Hg'. rewrite map_app in *. cbn in *. by rewrite Hid.
  - rewrite Hg'. apply Forall_app in Hok as [Hok1 Hok2]. apply Forall_cons in Hok2 as [_ Hok2].
    apply Forall_app. split; [done|]. by constructor.
Qed.

(** Taking the group off the list and freeing its object. *)
Lemma placed_delete hd s d l1 p l2 gs1 g gs2 m d' : placed hd s d l1 p l2 gs1 g gs2 →
  d_groups d' = gs1 ++ gs2 → same_proc (mm_proc s) d' →
  list_del (p + in_list) (mm_heap s) = Some m →
  holds_at hd (mk_memory (heap_free (p + in_list) m) (delete p (mm_objs s)) (mm_proc s)) d' (l1 ++ l2).
Proof.
  unfold in_list. rewrite Z.add_0_r.
  intros [[Hh Ho Hl Hi Hok Hf Hs] Hg Hlen] Hg' [Hpf Hps] Hm. rewrite Hg in *.
  destruct (del_heap (mm_heap s) [] [] p hd l1 l2 Hh) as (m' & Hm' & Hh').
  rewrite Hm in Hm'. injection Hm' as <-.
  pose proof (hh_apart _ _ _ Hh) as Ha. cbn in Ha. rewrite !app_nil_r in Ha.
  apply NoDup_cons in Ha as [_ Ha]. apply NoDup_app in Ha as (_ & Ha1 & Ha). apply NoDup_cons in Ha as [Ha2 _].
  split; cbn; [by apply heap_free_has| | | | |done|done].
  - rewrite Hg'. apply Forall2_app_inv in Ho as [Ho1 Ho]; [|done]. apply Forall2_cons in Ho as [_ Ho2].
    apply Forall2_app; (eapply Forall2_objs; [|eassumption]); intros q Hq; apply lookup_delete_ne;
      intros ->; set_solver.
  - intros q [x Hq]. apply lookup_delete_Some in Hq as [Hne Hq]. specialize (Hl q ltac:(by eexists)). set_solver.
  - rewrite Hg'. rewrite map_app in *. cbn in Hi.
    apply NoDup_app in Hi as (? & Hd & Hi). apply NoDup_cons in Hi as [_ Hi]. apply NoDup_app.
    split_and!; [done| |done]. intros x Hx Hx'. eapply Hd; [exact Hx|]. by right.
  - rewrite Hg'. apply Forall_app in Hok as [Hok1 Hok2]. apply Forall_cons in Hok2 as [_ Hok2].
    by apply Forall_app.
Qed.
Lemma placed_del_ok hd s d l1 p l2 gs1 g gs2 : placed hd s d l1 p l2 gs1 g gs2 →
  ∃ m, list_del (p + in_list) (mm_heap s) = Some m.
Proof.
  unfold in_list. rewrite Z.add_0_r. intros [[Hh _ _ _ _ _ _] _ _].
  destruct (del_heap (mm_heap s) [] [] p hd l1 l2 Hh) as (m' & Hm' & _). eauto.
Qed.

(** ** The functions *)

Lemma lookup_body_at rid s p g m a : mm_objs s !! p = Some g →
  lookup_body rid s p m a = Some (if rg_random_id g =? rid then inr (m, p) else inl (m, a)).
Proof. intros Hp. unfold lookup_body, load_group, container_of, in_list. by rewrite Z.sub_0_r, Hp. Qed.
Lemma visit_lookup rid s m l gs : Forall2 (λ p g, mm_objs s !! p = Some g) l gs →
  match find (λ g, rg_random_id g =? rid) gs with
  | Some g => ∃ l1 p l2 gs1 gs2, l = l1 ++ p :: l2 ∧ gs = gs1 ++ g :: gs2 ∧ List.length l1 = List.length gs1 ∧
      visit (lookup_body rid s) l m tt = Some (inr (m, p))
  | None => visit (lookup_body rid s) l m tt = Some (inl (m, tt))
  end.
Proof.
  induction 1 as [|p g l gs Hp _ IH]; cbn [find visit]; [done|].
  pose proof (lookup_body_at rid s p g m tt Hp) as Hb.
  destruct (Z.eqb_spec (rg_random_id g) rid) as [E|Hne].
  - rewrite Hb. by exists [], p, l, [], gs.
  - rewrite Hb. destruct (find _ gs) as [g'|]; [|exact IH].
    destruct IH as (l1 & q & l2 & gs1 & gs2 & -> & -> & Hlen & Hv).
    exists (p :: l1), q, l2, (g :: gs1), gs2. split_and!; try done. cbn. by rewrite Hlen.
Qed.

Section Spec.
Context {H : Host} (hd : ptr) (calloc : memory → option ptr).

Lemma group_lookup_spec fuel rid s d l : holds_at hd s d l → (List.length l < fuel)%nat →
  match reuseport_group_lookup rid d with
  | Some g => rg_random_id g = rid ∧ ∃ l1 p l2 gs1 gs2, l = l1 ++ p :: l2 ∧
      placed hd s d l1 p l2 gs1 g gs2 ∧ group_lookup_ptr hd fuel rid s = Some (Some p)
  | None => group_lookup_ptr hd fuel rid s = Some None
  end.
Proof.
  intros Hh Hf. pose proof (visit_lookup rid s (mm_heap s) l (d_groups d) (ho_objs _ _ _ _ Hh)) as Hv.
  assert (list_for_each hd (lookup_body rid s) fuel (mm_heap s) tt = visit (lookup_body rid s) l (mm_heap s) tt) as E.
  { apply (list_for_each_visits hd _ (λ m _, m = mm_heap s)); [|done|done].
    pose proof (ho_heap _ _ _ _ Hh) as Hm. pose proof (hh_apart _ _ _ Hm) as Ha. cbn in Ha. rewrite !app_nil_r in Ha.
    split; [done|]. split; [intros m _ ->; exact (Forall_inv (hh_cycles _ _ _ Hm))|].
    intros p m a m' a' -> _. unfold lookup_body. destruct (load_group _ s); [|done]. cbn.
    destruct (_ =? rid); [done|]. by intros [= <-]. }
  unfold group_lookup_ptr. rewrite E. unfold reuseport_group_lookup.
  pose proof (find_split rid (d_groups d)) as Hs. destruct (find _ (d_groups d)) as [g|]; [|by rewrite Hv].
  destruct Hs as (_ & _ & _ & _ & Hid). split; [done|].
  destruct Hv as (l1 & p & l2 & gs1 & gs2 & -> & Hg & Hlen & ->).
  exists l1, p, l2, gs1, gs2. split_and!; [done|by split|done].
Qed.

(** The allocator never returns an object that is in use. *)
Definition calloc_fresh : Prop := ∀ s p, calloc s = Some p →
  h_next (mm_heap s) !! p = None ∧ mm_objs s !! p = None.

Lemma new_group_ok rid t : group_ok (new_group rid t).
Proof.
  split; cbn [new_group rg_max_idx rg_sockets].
  - done.
  - apply Forall_forall. intros x Hx. apply list_elem_of_In, repeat_spec in Hx as ->. done.
  - done.
  - apply Forall_forall. intros x Hx. apply list_elem_of_In, repeat_spec in Hx as ->. done.
Qed.

Lemma group_lookup_or_add_spec fuel rid now s d l :
  calloc_fresh → is_Some (calloc s) → holds_at hd s d l → (List.length l < fuel)%nat →
  ∃ p s' l1 l2 gs1 gs2, group_lookup_or_add_ptr hd calloc fuel rid now s = Some (p, s') ∧
    let '(g, d') := reuseport_group_lookup_or_add rid now d in
    placed hd s' d' l1 p l2 gs1 g gs2 ∧ rg_random_id g = rid.
Proof.
  intros Hc [p Hp] Hh Hf. pose proof (group_lookup_spec fuel rid s d l Hh Hf) as Hl.
  unfold group_lookup_or_add_ptr, reuseport_group_lookup_or_add.
  destruct (reuseport_group_lookup rid d) as [g|] eqn:Efind.
  - destruct Hl as (Hid & l1 & q & l2 & gs1 & gs2 & -> & Hpl & ->). by exists q, s, l1, l2, gs1, gs2.
  - rewrite Hl. cbn [mbind option_bind]. rewrite Hp. cbn [mbind option_bind].
    unfold load_group, store_group. cbn [mm_objs]. rewrite lookup_insert_eq. cbn [mbind option_bind].
    unfold in_list. rewrite Z.add_0_r. cbn [set_mm_objs mm_heap].
    destruct (Hc s p Hp) as [Hnh Hno].
    destruct Hh as [Hh Ho Hnl Hi Hok Hfd Hst].
    pose proof (heap_alloc_has _ _ _ p Hh Hnh) as Hha.
    destruct (add_heap _ _ _ _ _ _ Hha) as (m & -> & Hm). cbn [mbind option_bind].
    eexists p, _, [], l, [], (d_groups d). split; [reflexivity|].
    split; [|done]. split; [|done|done]. unfold set_mm_heap. cbn. rewrite insert_insert_eq.
    change (mk_rgroup _ _ _ _) with (new_group rid (realtime_now now)).
    assert (p ∉ l) as Hpl.
    { intros Hin. apply list_elem_of_lookup in Hin as [i Hi']. destruct (Forall2_lookup_l _ _ _ _ _ Ho Hi') as (? & _ & ?).
      congruence. }
    split; cbn; [done| | | | |done|done].
    + constructor; [by rewrite lookup_insert_eq|]. eapply Forall2_objs; [|exact Ho].
      intros q Hq. apply lookup_insert_ne. intros ->. done.
    + intros q [x Hq]. destruct (decide (q = p)) as [->|]; [left|].
      rewrite lookup_insert_ne in Hq by done. right. apply Hnl. by eexists.
    + apply NoDup_cons. split; [|done]. intros (g & E & Hg)%list_elem_of_fmap.
      pose proof (find_split rid (d_groups d)) as Hs. unfold reuseport_group_lookup in Efind. rewrite Efind in Hs.
      by apply (proj1 (Forall_forall _ _) Hs g Hg).
    + constructor; [apply new_group_ok|done].
Qed.

Lemma group_maybe_delete_spec s d l1 p l2 gs1 g gs2 d' :
  placed hd s d l1 p l2 gs1 g gs2 → d_groups d' = d_groups d → same_proc (mm_proc s) d' →
  ∃ b s' l', group_maybe_delete_ptr p s = Some (b, s') ∧ l' = l1 ++ (if b then [] else [p]) ++ l2 ∧
    holds_at hd s' (reuseport_group_maybe_delete g d') l' ∧
    d_groups (reuseport_group_maybe_delete g d') = gs1 ++ (if b then [] else [g]) ++ gs2.
Proof.
  intros Hpl Hg Hd. destruct (placed_obj _ _ _ _ _ _ _ _ _ Hpl) as (Hp & _ & _ & Hids).
  unfold group_maybe_delete_ptr, reuseport_group_maybe_delete, load_group. rewrite Hp. cbn [mbind option_bind].
  pose proof (pl_groups _ _ _ _ _ _ _ _ _ Hpl) as Hg'.
  destruct (forallb _ (rg_max_idx g)).
  - destruct (placed_del_ok _ _ _ _ _ _ _ _ _ Hpl) as [m Hm]. rewrite Hm. cbn [mbind option_bind].
    assert (delete_group (rg_random_id g) (d_groups d') = gs1 ++ gs2) as Hdel
      by (rewrite Hg, Hg'; by apply delete_group_split).
    eexists true, _, _. split_and!; [done|done| |exact Hdel].
    eapply placed_delete; [exact Hpl|exact Hdel|done|done].
  - eexists false, s, _. split_and!; [done|done| |by rewrite Hg, Hg'].
    destruct Hpl as [[Hh Ho Hl Hi Hok _ _] _ _]. cbn. split; rewrite ?Hg; try done; apply Hd.
Qed.

Lemma close_all_wg_ptr_spec p s g d : mm_objs s !! p = Some g → group_ok g → same_proc (mm_proc s) d →
  ∃ pr, close_all_wg_ptr p (seq 0 (Z.to_nat MAX_GENS)) s
      = Some (mk_memory (mm_heap s) (<[p := fst (close_all_wg g d)]> (mm_objs s)) pr)
    ∧ same_proc pr (snd (close_all_wg g d)) ∧ group_ok (fst (close_all_wg g d))
    ∧ d_groups (snd (close_all_wg g d)) = d_groups d
    ∧ rg_random_id (fst (close_all_wg g d)) = rg_random_id g.
Proof. unfold close_all_wg. apply close_all_wg_spec. Qed.

(** The loop body of the cleanup at a group. *)
Lemma cleanup_step now s d lk p r gsk g gsr : placed hd s d lk p r gsk g gsr →
  ∃ s' lk' gsk', cleanup_body now p (mm_heap s) (mm_objs s, mm_proc s)
      = Some (inl (mm_heap s', (mm_objs s', mm_proc s'))) ∧
    holds_at hd s' (cleanup_group now d g) (lk' ++ r) ∧
    d_groups (cleanup_group now d g) = gsk' ++ gsr ∧ List.length lk' = List.length gsk'.
Proof.
  intros Hpl. destruct (placed_obj _ _ _ _ _ _ _ _ _ Hpl) as (Hp & Hok & Hd & Hids).
  unfold cleanup_body, cleanup_group, load_group, container_of, in_list. rewrite Z.sub_0_r. cbn [mm_objs fst snd].
  rewrite Hp. cbn [mbind option_bind].
  destruct (10 * 1000000000 <? u64 (now - rg_last_modified g)).
  2:{ exists s, (lk ++ [p]), (gsk ++ [g]). rewrite <- !app_assoc, !length_app. destruct Hpl as [Hh Hg Hlen].
      split_and!; [done|done|done|cbn; lia]. }
  replace (mk_memory (mm_heap s) (mm_objs s) (mm_proc s)) with s by by destruct s.
  destruct (close_all_wg_ptr_spec p s g d Hp Hok Hd) as (pr & -> & Hpr & Hok' & Hgr & Hid).
  cbn [mbind option_bind]. destruct (close_all_wg g d) as [g1 d1]. cbn [fst snd] in *.
  assert (update_group (rg_random_id g1) g1 (d_groups d1) = gsk ++ g1 :: gsr) as Hu.
  { rewrite Hgr, (pl_groups _ _ _ _ _ _ _ _ _ Hpl). apply update_group_split; [by rewrite Hid|done]. }
  rewrite Hu. pose proof (placed_store _ _ _ _ _ _ _ _ _ g1 pr (set_d_groups (gsk ++ g1 :: gsr) d1) Hpl Hid Hok' Hpr eq_refl) as Hpl1.
  destruct (group_maybe_delete_spec _ _ _ _ _ _ _ _ _ Hpl1 eq_refl Hpr) as (b & s' & l' & -> & -> & Hh & Hg').
  cbn [mbind option_bind].
  exists s', (lk ++ (if b then [] else [p])), (gsk ++ (if b then [] else [g1])).
  rewrite <- !app_assoc. split_and!; [done|exact Hh|exact Hg'|].
  rewrite !length_app, (pl_len _ _ _ _ _ _ _ _ _ Hpl). by destruct b.
Qed.

Definition cleaning (now : Z) (dn : daemon) (r : list ptr) (m : heap) (a : gmap ptr reuseport_group * daemon) : Prop :=
  ∃ d lk gsk gsr, holds_at hd (mk_memory m (fst a) (snd a)) d (lk ++ r) ∧ d_groups d = gsk ++ gsr ∧
    List.length lk = List.length gsk ∧ fold_left (cleanup_group now) gsr d = dn.

Lemma cleaning_step now dn p r m a : cleaning now dn (p :: r) m a →
  ∃ m' a', cleanup_body now p m a = Some (inl (m', a')) ∧ cleaning now dn r m' a'.
Proof.
  intros (d & lk & gsk & gsr & Hh & Hg & Hlen & Hfold).
  pose proof (Forall2_length _ _ _ (ho_objs _ _ _ _ Hh)) as Hl. rewrite Hg, !length_app in Hl. cbn in Hl.
  destruct gsr as [|g gsr]; cbn in Hl; [lia|].
  destruct (cleanup_step now (mk_memory m (fst a) (snd a)) d lk p r gsk g gsr) as (s' & lk' & gsk' & Hb & Hh' & Hg' & Hlen');
    [by split|].
  cbn in Hb. destruct a as [o pr]. exists (mm_heap s'), (mm_objs s', mm_proc s'). split; [exact Hb|].
  exists (cleanup_group now d g), lk', gsk', gsr. cbn. split_and!; try done. by destruct s'.
Qed.
Lemma cleaning_visit now dn r m a : cleaning now dn r m a →
  ∃ m' a', visit (cleanup_body now) r m a = Some (inl (m', a')) ∧ cleaning now dn [] m' a'.
Proof.
  revert m a. induction r as [|p r IH]; intros m a Hc; [by exists m, a|].
  destruct (cleaning_step _ _ _ _ _ _ Hc) as (m1 & a1 & Hb & Hc1). cbn [visit]. rewrite Hb. cbn.
  by apply IH.
Qed.

Lemma cleanup_stale_spec fuel now s d : holds hd s d → (List.length (d_groups d) < fuel)%nat →
  ∃ s', cleanup_stale_ptr hd fuel now s = Some s' ∧ holds hd s' (reuseport_groups_maybe_cleanup_stale now d).
Proof.
  intros [l Hh] Hf. rewrite <- (Forall2_length _ _ _ (ho_objs _ _ _ _ Hh)) in Hf.
  set (dn := reuseport_groups_maybe_cleanup_stale now d).
  assert (cleaning (realtime_now now) dn l (mm_heap s) (mm_objs s, mm_proc s)) as Hc.
  { exists d, [], [], (d_groups d). cbn. split_and!; try done. by destruct s. }
  pose proof (ho_heap _ _ _ _ Hh) as Hm. pose proof (hh_apart _ _ _ Hm) as Ha. cbn in Ha. rewrite !app_nil_r in Ha.
  destruct (cleaning_visit _ _ _ _ _ Hc) as (m' & a' & Hv & Hc').
  unfold cleanup_stale_ptr.
  rewrite (list_for_each_safe_nodes hd _ (cleaning (realtime_now now) dn) l fuel); [|by apply (Forall_inv (hh_cycles _ _ _ Hm))| |done|done].
  2:{ split; [done|]. split.
      - intros r m a (d' & lk & _ & _ & Hh' & _). exists lk.
        exact (Forall_inv (hh_cycles _ _ _ (ho_heap _ _ _ _ Hh'))).
      - intros p r m a m1 a1 Hcl Hb. destruct (cleaning_step _ _ _ _ _ _ Hcl) as (m2 & a2 & Hb' & Hcl').
        rewrite Hb in Hb'. by injection Hb' as -> ->. }
  rewrite Hv. cbn [mbind option_bind]. eexists. split; [reflexivity|].
  destruct Hc' as (d' & lk & gsk & gsr & Hh' & Hg & Hlen & Hfold).
  pose proof (Forall2_length _ _ _ (ho_objs _ _ _ _ Hh')) as Hl. rewrite Hg, !length_app in Hl. cbn in Hl.
  destruct gsr; cbn in Hl; [|lia]. cbn in Hfold. subst d'. eexists. exact Hh'.
Qed.

Lemma holds_of_placed s d l1 p l2 gs1 g gs2 : placed hd s d l1 p l2 gs1 g gs2 → holds hd s d.
Proof. intros [Hh _ _]. by eexists. Qed.

Lemma maybe_preserve_fd_spec fuel st gen gen_len free_pos f now s d l :
  calloc_fresh → is_Some (calloc s) → holds_at hd s d l → (List.length l < fuel)%nat →
  0 <= gen_len <= MAX_SOCKETS_IN_GEN → 0 <= free_pos < MAX_SOCKETS_IN_GEN →
  let r := tubular_maybe_preserve_fd st gen gen_len free_pos f now d in
  ∃ s', maybe_preserve_fd_ptr hd calloc fuel st gen gen_len free_pos f now s = Some (fst r, s') ∧
    holds hd s' (snd r).
Proof.
  intros Hc Ha Hh Hf Hgl Hfp. cbv zeta. unfold maybe_preserve_fd_ptr, tubular_maybe_preserve_fd.
  destruct (has_label st); [|exists s; split; [done|by exists l]].
  destruct (group_lookup_or_add_spec fuel (random_id st) now s d l Hc Ha Hh Hf)
    as (p & s1 & l1 & l2 & gs1 & gs2 & -> & Hpl). cbn [mbind option_bind].
  destruct (reuseport_group_lookup_or_add (random_id st) now d) as [g d1]. destruct Hpl as [Hpl Hid].
  destruct (placed_obj _ _ _ _ _ _ _ _ _ Hpl) as (Hp & Hok & Hd & Hids).
  set (wg := Z.to_nat (gen mod MAX_GENS)).
  destruct (group_row g wg Hok (wg_bound gen)) as (row & m & Hrow & Hm & Hlen & _).
  unfold load_group, store_group. rewrite Hp. cbn [mbind option_bind set_mm_objs mm_objs].
  rewrite lookup_insert_eq. cbn [mbind option_bind].
  destruct (lookup_lt_is_Some_2 row (Z.to_nat free_pos)) as [old Hold]; [lia|].
  assert (sockets_at (set_max_idx_at wg gen_len g) wg (Z.to_nat free_pos) = Some old) as ->.
  { unfold sockets_at. cbn. by rewrite Hrow. }
  rewrite (nth_lookup_ok _ _ [] _ Hrow). unfold nthZ. rewrite (nth_lookup_ok _ _ 0 _ Hold). cbn [mbind option_bind].
  set (s2 := if 0 <? old then _ else _).
  assert (mm_heap s2 = mm_heap s1 ∧ mm_objs s2 = <[p:=set_max_idx_at wg gen_len g]> (mm_objs s1) ∧
          same_proc (mm_proc s2) (close_held old d1)) as (Eh & Eo & Ep).
  { unfold s2. pose proof (same_proc_close old _ _ Hd) as Hcl. by destruct (0 <? old). }
  rewrite Eo, lookup_insert_eq. cbn [mbind option_bind set_mm_objs mm_objs]. rewrite lookup_insert_eq.
  cbn [mbind option_bind]. eexists. split; [reflexivity|]. cbn [snd].
  rewrite !insert_insert_eq. unfold set_mm_objs. cbn [mm_heap mm_proc]. rewrite Eh.
  unfold set_sockets_at, set_max_idx_at. cbn [rg_random_id rg_last_modified rg_max_idx rg_sockets]. rewrite Hrow.
  eapply holds_of_placed, (placed_store _ _ _ _ _ _ _ _ _ _ _ _ Hpl); [done| |exact Ep|].
  - apply group_ok_store; [done|done|by rewrite length_insert].
  - cbn. assert (d_groups (close_held old d1) = d_groups d1) as -> by (unfold close_held; by destruct (0 <? old)).
    rewrite (pl_groups _ _ _ _ _ _ _ _ _ Hpl). apply update_group_split; [by rewrite <- Hid|done].
Qed.

(** Closing a generation and dropping the group when nothing is left. *)
Lemma close_and_delete_spec wg s d l1 p l2 gs1 g gs2 :
  placed hd s d l1 p l2 gs1 g gs2 →
  let '(g1, d1) := tubular_close_wg wg g d in
  let d2 := set_d_groups (update_group (rg_random_id g1) g1 (d_groups d1)) d1 in
  ∃ s1 b s2, close_wg_ptr p wg s = Some s1 ∧ group_maybe_delete_ptr p s1 = Some (b, s2) ∧
    holds hd s2 (reuseport_group_maybe_delete g1 d2).
Proof.
  intros Hpl. destruct (placed_obj _ _ _ _ _ _ _ _ _ Hpl) as (Hp & Hok & Hd & Hids).
  destruct (close_wg_ptr_spec p wg s g d Hp Hok Hd) as (pr & Hc & Hpr & Hok' & Hgr & Hid).
  destruct (tubular_close_wg wg g d) as [g1 d1]. cbn [fst snd] in *. cbv zeta.
  assert (update_group (rg_random_id g1) g1 (d_groups d1) = gs1 ++ g1 :: gs2) as ->.
  { rewrite Hgr, (pl_groups _ _ _ _ _ _ _ _ _ Hpl). apply update_group_split; [by rewrite Hid|done]. }
  pose proof (placed_store _ _ _ _ _ _ _ _ _ g1 pr (set_d_groups (gs1 ++ g1 :: gs2) d1) Hpl Hid Hok' Hpr eq_refl) as Hpl1.
  destruct (group_maybe_delete_spec _ _ _ _ _ _ _ _ _ Hpl1 eq_refl Hpr) as (b & s' & l' & Hdel & -> & Hh & _).
  exists (mk_memory (mm_heap s) (<[p:=g1]> (mm_objs s)) pr), b, s'. split_and!; [done|done|by eexists].
Qed.

Lemma maybe_register_spec fuel st wg path now s d l :
  holds_at hd s d l → (List.length l < fuel)%nat → 0 <= wg < MAX_GENS →
  let r := tubular_maybe_register st wg path now d in
  ∃ s', maybe_register_ptr hd fuel st wg path now s = Some (fst r, s') ∧ holds hd s' (snd r).
Proof.
  intros Hh Hf Hwg. cbv zeta. unfold maybe_register_ptr, tubular_maybe_register.
  destruct (has_label st); [|exists s; split; [done|by exists l]].
  pose proof (group_lookup_spec fuel (random_id st) s d l Hh Hf) as Hl.
  destruct (reuseport_group_lookup (random_id st) d) as [g|].
  2:{ rewrite Hl. cbn [mbind option_bind]. destruct path; cbn; exists s; (split; [done|by exists l]). }
  destruct Hl as (Hid & l1 & p & l2 & gs1 & gs2 & -> & Hpl & ->). cbn [mbind option_bind].
  destruct path; cbn [negb].
  - destruct (placed_obj _ _ _ _ _ _ _ _ _ Hpl) as (Hp & Hok & Hd & Hids).
    destruct (group_row g (Z.to_nat wg) Hok) as (row & m & Hrow & Hm & Hlen & Hmb); [lia|].
    unfold load_group at 1. rewrite Hp. cbn [mbind option_bind]. rewrite Hm, Hrow. cbn [mbind option_bind].
    rewrite (proj2 (Nat.leb_le (Z.to_nat m) (length row))) by lia. cbn [mbind option_bind].
    rewrite (nth_lookup_ok _ _ 0 _ Hm), (nth_lookup_ok _ _ [] _ Hrow).
    set (sent := [(_, _)]). set (d1 := set_d_sent _ d).
    assert (placed hd (set_mm_proc (set_d_sent (d_sent (mm_proc s) ++ sent) (mm_proc s)) s) d1 l1 p l2 gs1 g gs2) as Hpl1.
    { destruct Hpl as [[? ? ? ? ? ? Hs] Hg ?]. split; [|done|done]. split; try done. cbn. by rewrite Hs. }
    pose proof (close_and_delete_spec wg _ _ _ _ _ _ _ _ Hpl1) as Hcd.
    destruct (tubular_close_wg wg g d1) as [g1 d2]. destruct Hcd as (s1 & b & s2 & -> & Hdel & Hh').
    cbn [mbind option_bind]. rewrite Hdel. exists s2. by split.
  - pose proof (close_and_delete_spec wg _ _ _ _ _ _ _ _ Hpl) as Hcd.
    destruct (tubular_close_wg wg g d) as [g1 d2]. destruct Hcd as (s1 & b & s2 & Hcl & Hdel & Hh').
    cbn [mbind option_bind]. rewrite Hcl. cbn [mbind option_bind]. rewrite Hdel. exists s2. by split.
Qed.
End Spec.

(** ** The registry implements the sequence of groups *)

(** C34. The registry of the daemon on the heap refines its description as a sequence of
    groups: when memory holds the groups of [d], each entry point ([tubular_maybe_preserve_fd],
    [tubular_maybe_register], [reuseport_groups_maybe_cleanup_stale], [reuseport_groups_empty])
    ends without an access to an object that was freed or outside an array, answers what its
    counterpart answers and leaves memory that holds the groups its counterpart leaves; no
    object is ever leaked. *)
Theorem tubular_registry_refines {H : Host} hd calloc fuel s d :
  calloc_fresh calloc → holds hd s d → (List.length (d_groups d) < fuel)%nat →
  (∀ st gen gen_len free_pos f now, is_Some (calloc s) →
     0 <= gen_len <= MAX_SOCKETS_IN_GEN → 0 <= free_pos < MAX_SOCKETS_IN_GEN →
     let r := tubular_maybe_preserve_fd st gen gen_len free_pos f now d in
     ∃ s', maybe_preserve_fd_ptr hd calloc fuel st gen gen_len free_pos f now s = Some (fst r, s')
       ∧ holds hd s' (snd r)) ∧
  (∀ st wg path now, 0 <= wg < MAX_GENS →
     let r := tubular_maybe_register st wg path now d in
     ∃ s', maybe_register_ptr hd fuel st wg path now s = Some (fst r, s') ∧ holds hd s' (snd r)) ∧
  (∀ now, ∃ s', cleanup_stale_ptr hd fuel now s = Some s'
     ∧ holds hd s' (reuseport_groups_maybe_cleanup_stale now d)) ∧
  reuseport_groups_empty hd s = Some (match d_groups d with [] => true | _ => false end).
Proof.
  intros Hc Hh Hf. split_and!.
  - intros st gen gen_len free_pos f now Ha Hgl Hfp. destruct Hh as [l Hh].
    apply (maybe_preserve_fd_spec hd calloc fuel _ _ _ _ _ _ _ _ l); try done.
    by rewrite (Forall2_length _ _ _ (ho_objs _ _ _ _ Hh)).
  - intros st wg path now Hwg. destruct Hh as [l Hh].
    apply (maybe_register_spec hd fuel _ _ _ _ _ _ l); try done.
    by rewrite (Forall2_length _ _ _ (ho_objs _ _ _ _ Hh)).
  - intros now. by apply cleanup_stale_spec.
  - destruct Hh as [l Hh]. unfold reuseport_groups_empty.
    rewrite (empty_heap _ _ _ _ _ (ho_heap _ _ _ _ Hh)).
    by destruct (ho_objs _ _ _ _ Hh).
Qed.

(** ** Evaluation *)
Section Witnesses.
#[local] Existing Instance good_host.

(** An empty registry, and an allocator that takes an address no object has. *)
Definition first_memory : memory := mk_memory (mk_heap {[100 := 100]} {[100 := 100]}) ∅ (mk_daemon [] ∅ []).
Definition first_fit (s : memory) : option ptr := Some (fresh (dom (h_next (mm_heap s)) ∪ dom (mm_objs s))).
Lemma first_fit_fresh : calloc_fresh first_fit.
Proof.
  intros s p [= <-]. split; apply not_elem_of_dom; intros Hin;
    apply (is_fresh (dom (h_next (mm_heap s)) ∪ dom (mm_objs s))); set_solver.
Qed.
Lemma first_memory_holds : holds 100 first_memory (mk_daemon [] ∅ []).
Proof.
  exists []. split; try done.
  - split; [cbn; by apply NoDup_singleton| |done]. repeat constructor.
  - intros p [g Hg]. cbn in Hg. by rewrite lookup_empty in Hg.
  - constructor.
Qed.

Lemma tubular_registry_refines_witness :
  ∃ s', cleanup_stale_ptr 100 1 12 first_memory = Some s' ∧ reuseport_groups_empty 100 first_memory = Some true
    ∧ ∀ st f, ∃ s', maybe_preserve_fd_ptr 100 first_fit 1 st 3 1 0 f 12 first_memory
        = Some (fst (tubular_maybe_preserve_fd st 3 1 0 f 12 (mk_daemon [] ∅ [])), s').
Proof.
  destruct (tubular_registry_refines 100 first_fit 1 first_memory (mk_daemon [] ∅ []) first_fit_fresh
    first_memory_holds ltac:(cbn; lia)) as (Hp & _ & Hc & He).
  destruct (Hc 12%nat) as (s' & Hs & _). exists s'. split; [exact Hs|]. split; [exact He|].
  intros st f. destruct (Hp st 3 1 0 f 12%nat) as (s2 & Hs2 & _).
  - eexists. reflexivity.
  - unfold MAX_SOCKETS_IN_GEN. lia.
  - unfold MAX_SOCKETS_IN_GEN. lia.
  - exists s2. exact Hs2.
Defined.
End Witnesses.
