(* ===== verification/Serve.v ===== *)
(** The loop of the daemon: [main] in [src/udpgrm.c] from [select] on.

    An iteration waits for messages or a signal, handles every message that is there, ends
    on a signal, and otherwise drops stale groups of descriptors at most every two seconds.
    [served_groups_young] says that this bounds how long descriptors wait for Tubular, by how
    far the wall clock, which the loop looks at, falls behind the monotonic clock, which
    the age of a group is measured with. *)

From S2P Require Import Prelude Cookie SipHash Storage Cbpf Dissector Reuseport Flow Hooks Host LinkedList Traversal Daemon Registry.
#[local] Set Warnings "-clear-no-such-hyp".

(** [time(NULL)], in seconds, of a clock that may be set while the daemon runs. *)
Class Clock {H : Host} := { unix_time : nat → Z }.
(** The clock of [Host] is monotonic; the wall clock reads some time after 1970. *)
Class ClockLaws {H : Host} {C : Clock} := {
  clock_runs : ∀ m n, (m <= n)%nat → realtime_now m <= realtime_now n;
  clock_range : ∀ n, 0 <= realtime_now n < 2 ^ 64;
  clock_set : ∀ n, 2 <= unix_time n;
}.

Section Serve.
Context {K : Kernel} {H : Host} {C : Clock}.

(** What [select] answers: an error, with [EINTR] or not, or the descriptors that are ready. *)
Inductive selected := Sel_failed (eintr : bool) | Sel_ready (msg_fd signalfd : bool).

(** The timeout that is passed, in seconds; a null pointer without registered groups. *)
Definition select_timeout (d : daemon) : option Z :=
  match d_groups d with [] => None | _ => Some 2 end.

(** One iteration after [select] returned; the result tells whether the loop goes on.
    [last_cleanup] is a static variable. *)
Definition loop_body (tubular_path : bool) (sel : selected) (d : daemon) (last_cleanup : Z) (w : world)
  : outcome (bool * daemon * Z * world) :=
  match sel with
  | Sel_failed eintr => if eintr then Done (true, d, last_cleanup, w) else Stop Exit_error
  | Sel_ready msg_fd signalfd =>
      do p <- (if msg_fd then ring_buffer_consume tubular_path d w else Done (d, w));
      let '(d, w) := p in
      if signalfd then Done (false, d, last_cleanup, w)
      else
        let t := unix_time (w_tick w) in
        let w := tick w in
        if 2 <=? t - last_cleanup then
          let last_cleanup := unix_time (w_tick w) in
          let w := tick w in
          let d := reuseport_groups_maybe_cleanup_stale (w_tick w) d in
          Done (true, d, last_cleanup, tick w)
        else Done (true, d, last_cleanup, w)
  end.

(** An iteration of the running daemon: while it waits the rest of the machine does what it
    likes, and time passes. *)
Inductive iteration (tubular_path : bool) : daemon * Z * world → daemon * Z * world → Prop :=
  | Iteration d last w w1 sel d' last' w' :
      (w_tick w <= w_tick w1)%nat →
      loop_body tubular_path sel d last w1 = Done (true, d', last', w') →
      iteration tubular_path (d, last, w) (d', last', w').
End Serve.

(** ** Time passes in the handlers *)
Section Ticks.
Context {K : Kernel} {H : Host}.

Lemma run_msg_ticks msg w w' : run_cb_update_map msg w = Done w' → (w_tick w <= w_tick w')%nat.
Proof.
  unfold run_cb_update_map, udpgrm_cb_update_map.
  repeat (case_match; cbn; try done); intros; simplify_eq; cbn; lia.
Qed.
Lemma metric_ticks k c g w w' : metric_incr_critical k c g w = Done w' → (w_tick w <= w_tick w')%nat.
Proof.
  unfold metric_incr_critical. destruct (run_cb_update_map _ w) as [w1|] eqn:E; cbn [obind]; [|done].
  apply run_msg_ticks in E. destruct (negb _); [|intros [= <-]; lia]. intros E'. apply run_msg_ticks in E'. lia.
Qed.
End Ticks.

(** ** The groups of descriptors and their age *)
Section Age.
Context {H : Host}.

Definition fit (c : Z) (g : reuseport_group) : Prop :=
  List.length (rg_max_idx g) = Z.to_nat MAX_GENS ∧ 0 <= rg_last_modified g ∧ c <= rg_last_modified g.
(** Every group was modified at [c] or later; no two groups share an id. *)
Definition young (c : Z) (d : daemon) : Prop := NoDup (map rg_random_id (d_groups d)) ∧ Forall (fit c) (d_groups d).

Lemma young_groups c d d' : d_groups d' = d_groups d → young c d → young c d'.
Proof. unfold young. by intros ->. Qed.
Lemma close_held_groups f d : d_groups (close_held f d) = d_groups d.
Proof. unfold close_held. by destruct (0 <? f). Qed.
Lemma close_wg_groups wg g d : d_groups (snd (tubular_close_wg wg g d)) = d_groups d.
Proof.
  unfold tubular_close_wg. cbn [snd]. set (l := take _ _). clearbody l.
  induction l as [|f l IH]; [done|]. cbn. by rewrite close_held_groups.
Qed.

Lemma update_ids rid g l : rg_random_id g = rid → map rg_random_id (update_group rid g l) = map rg_random_id l.
Proof.
  intros Hg. induction l as [|x l IH]; cbn; [done|]. destruct (Z.eqb_spec (rg_random_id x) rid); cbn; congruence.
Qed.
Lemma update_Forall (P : reuseport_group → Prop) rid g l : P g → Forall P l → Forall P (update_group rid g l).
Proof. intros Hg. induction 1 as [|x l Hx Hl IH]; cbn; [constructor|]. destruct (_ =? _); by constructor. Qed.
Lemma Forall_sublist {A} (P : A → Prop) l l' : Forall P l → l' `sublist_of` l → Forall P l'.
Proof. rewrite !Forall_forall. intros HP Hs x Hx. by apply HP, (elem_of_sublist l'). Qed.
Lemma delete_sublist rid l : delete_group rid l `sublist_of` l.
Proof. induction l as [|x l IH]; cbn; [done|]. destruct (_ =? _); [by apply sublist_cons|by apply sublist_skip]. Qed.

Lemma young_update c rid g d : rg_random_id g = rid → fit c g → young c d →
  young c (set_d_groups (update_group rid g (d_groups d)) d).
Proof. intros Hid Hf [Hn Hall]. split; cbn; [by rewrite update_ids|by apply update_Forall]. Qed.
Lemma young_delete c g d : young c d → young c (reuseport_group_maybe_delete g d).
Proof.
  intros [Hn Hall]. unfold reuseport_group_maybe_delete. destruct (forallb _ _); [|by split]. split; cbn.
  - eapply sublist_NoDup; [exact Hn|]. by apply (fmap_sublist rg_random_id), delete_sublist.
  - eapply Forall_sublist; [exact Hall|]. apply delete_sublist.
Qed.
Lemma close_wg_fit c wg g d : fit c g → fit c (fst (tubular_close_wg wg g d)).
Proof. intros (Hl & H0 & Hc). split_and!; cbn; [by rewrite length_insert|done|done]. Qed.

(** A hand-over of a new descriptor, at a moment [now] at [c] or later. *)
Lemma preserve_young c st gen len pos f now d :
  0 <= realtime_now now → c <= realtime_now now → young c d →
  young c (snd (tubular_maybe_preserve_fd st gen len pos f now d)).
Proof.
  intros H0 Hc Hy. unfold tubular_maybe_preserve_fd. destruct (has_label st); [|done].
  assert (∀ g d1, young c d1 → fit c g → rg_random_id g = random_id st →
    let g' := mk_rgroup (rg_random_id g) (realtime_now now) (<[Z.to_nat (gen mod MAX_GENS) := len]> (rg_max_idx g))
      (<[Z.to_nat (gen mod MAX_GENS) := <[Z.to_nat pos := f]> (nth (Z.to_nat (gen mod MAX_GENS)) (rg_sockets g) [])]> (rg_sockets g)) in
    young c (set_d_groups (update_group (random_id st) g' (d_groups d1)) d1)) as Hput.
  { intros g d1 Hy1 (Hl & _ & _) Hid. apply young_update; [done| |done]. split_and!; cbn; [by rewrite length_insert|done|done]. }
  unfold reuseport_group_lookup_or_add, reuseport_group_lookup. pose proof (find_split (random_id st) (d_groups d)) as Hf.
  destruct (find _ (d_groups d)) as [g|].
  - destruct Hf as (gs1 & gs2 & Hg & _ & Hid). cbn [snd]. apply Hput; [|  |done].
    + eapply young_groups; [|exact Hy]. apply close_held_groups.
    + destruct Hy as [_ Hall]. rewrite Hg in Hall. by apply Forall_app in Hall as [_ [? _]%Forall_cons].
  - cbn [snd].
    assert (fit c (new_group (random_id st) (realtime_now now))) as Hnew by (split_and!; done).
    apply Hput; [|done|done]. eapply young_groups; [apply close_held_groups|]. destruct Hy as [Hn Hall]. split; cbn.
    + constructor; [|done]. intros (x & E & Hx)%list_elem_of_fmap. rewrite Forall_forall in Hf. by apply (Hf x Hx).
    + by constructor.
Qed.

Lemma register_young c st wg path now d : young c d → young c (snd (tubular_maybe_register st wg path now d)).
Proof.
  intros Hy. unfold tubular_maybe_register. destruct (has_label st); [|done].
  unfold reuseport_group_lookup. pose proof (find_split (random_id st) (d_groups d)) as Hf.
  destruct (find _ (d_groups d)) as [g|]; [|by destruct (negb path)].
  destruct Hf as (gs1 & gs2 & Hg & _ & Hid).
  assert (fit c g) as Hfit. { destruct Hy as [_ Hall]. rewrite Hg in Hall. by apply Forall_app in Hall as [_ [? _]%Forall_cons]. }
  assert (∀ d1, d_groups d1 = d_groups d → let r := tubular_close_wg wg g d1 in
    young c (reuseport_group_maybe_delete (fst r) (set_d_groups (update_group (rg_random_id (fst r)) (fst r) (d_groups (snd r))) (snd r)))) as Hend.
  { intros d1 Hd1 r. apply young_delete, young_update; [done|by apply close_wg_fit|].
    eapply young_groups; [|exact Hy]. unfold r. by rewrite close_wg_groups. }
  destruct (negb path); match goal with |- context [tubular_close_wg wg g ?d1] =>
    specialize (Hend d1 eq_refl); cbv zeta in Hend; destruct (tubular_close_wg wg g d1); exact Hend end.
Qed.

(** A stale group loses every generation, and is dropped. *)
Lemma close_all_spec g d : List.length (rg_max_idx g) = Z.to_nat MAX_GENS →
  d_groups (snd (close_all_wg g d)) = d_groups d ∧ rg_random_id (fst (close_all_wg g d)) = rg_random_id g ∧
  forallb (λ m, m =? 0) (rg_max_idx (fst (close_all_wg g d))) = true.
Proof.
  intros Hl. unfold close_all_wg.
  assert (∀ n g d, List.length (rg_max_idx g) = Z.to_nat MAX_GENS → (n <= Z.to_nat MAX_GENS)%nat →
    let r := fold_left (λ '(g, d) wg, tubular_close_wg (Z.of_nat wg) g d) (seq 0 n) (g, d) in
    d_groups (snd r) = d_groups d ∧ rg_random_id (fst r) = rg_random_id g ∧
    List.length (rg_max_idx (fst r)) = Z.to_nat MAX_GENS ∧ ∀ i, (i < n)%nat → rg_max_idx (fst r) !! i = Some 0) as Hn.
  { clear. induction n as [|n IH]; intros g d Hl Hle; cbv zeta; [split_and!; try done; lia|].
    rewrite seq_S, fold_left_app. cbn [fold_left Nat.add]. destruct (IH g d Hl ltac:(lia)) as (H1 & H2 & H3 & H4).
    cbv zeta in *. destruct (fold_left _ (seq 0 n) (g, d)) as [g1 d1]. cbn [fst snd] in *.
    rewrite close_wg_groups. cbn [tubular_close_wg fst rg_random_id rg_max_idx]. rewrite length_insert. split_and!; try done.
    assert (Z.to_nat (Z.of_nat n mod MAX_GENS) = n) as -> by (rewrite Z.mod_small; unfold MAX_GENS in *; lia).
    intros i Hi. destruct (decide (i = n)) as [->|]; [apply list_lookup_insert_eq; lia|].
    rewrite list_lookup_insert_ne by done. apply H4. lia. }
  destruct (Hn (Z.to_nat MAX_GENS) g d Hl ltac:(lia)) as (H1 & H2 & H3 & H4). cbv zeta in *.
  split_and!; [done|done|]. apply forallb_forall. intros m Hm. apply list_elem_of_In, list_elem_of_lookup in Hm as [i Hi].
  rewrite H4 in Hi; [by injection Hi as <-|]. apply lookup_lt_Some in Hi. lia.
Qed.

Lemma cleanup_group_spec c now d gsk g gsr :
  young c d → 0 <= now < 2 ^ 64 → d_groups d = gsk ++ g :: gsr →
  ∃ gsk', d_groups (cleanup_group now d g) = gsk' ++ gsr ∧ (gsk' = gsk ∨ gsk' = gsk ++ [g] ∧ now - 10000000000 <= rg_last_modified g).
Proof.
  intros [Hn Hall] Hnow Hg. rewrite Hg in Hn, Hall. pose proof (ids_before _ _ _ Hn) as Hids.
  apply Forall_app in Hall as [_ [(Hl & H0 & _) _]%Forall_cons]. unfold cleanup_group.
  destruct (Z.ltb_spec (10 * 1000000000) (u64 (now - rg_last_modified g))) as [Hlt|Hle].
  - destruct (close_all_spec g d Hl) as (H1 & H2 & H3). destruct (close_all_wg g d) as [g' d']. cbn [fst snd] in *.
    unfold reuseport_group_maybe_delete. rewrite H3. exists gsk. split; [|by left]. cbn [d_groups set_d_groups].
    rewrite H1, Hg, H2, (update_group_split _ g) by done. by apply delete_group_split.
  - exists (gsk ++ [g]). rewrite Hg, <- app_assoc. split; [done|right]. split; [done|]. unfold u64 in Hle.
    destruct (Z.lt_ge_cases (now - rg_last_modified g) 0); [lia|]. rewrite Z.mod_small in Hle by lia. lia.
Qed.

Lemma cleanup_young c now d :
  (∀ n, 0 <= realtime_now n < 2 ^ 64) → young c d →
  young (realtime_now now - 10000000000) (reuseport_groups_maybe_cleanup_stale now d).
Proof.
  intros Hr Hy. unfold reuseport_groups_maybe_cleanup_stale. specialize (Hr now). set (t := realtime_now now) in *. clearbody t.
  assert (∀ gsr gsk d1, d_groups d1 = gsk ++ gsr → young c d1 → Forall (fit (t - 10000000000)) gsk →
    young (t - 10000000000) (fold_left (cleanup_group t) gsr d1)) as Hfold.
  { induction gsr as [|g gsr IH]; intros gsk d1 Hg Hy1 Hk; cbn [fold_left].
    - rewrite app_nil_r in Hg. split; [apply Hy1|by rewrite Hg].
    - destruct (cleanup_group_spec c t d1 gsk g gsr Hy1 Hr Hg) as (gsk' & Hg' & Hc). destruct Hy1 as [Hn Hall].
      rewrite Hg in Hn, Hall. apply (IH gsk'); [done| |].
      + split; rewrite Hg'; destruct Hc as [->|[-> _]].
        * eapply sublist_NoDup; [exact Hn|]. apply (fmap_sublist rg_random_id), sublist_app; [done|by apply sublist_cons].
        * by rewrite <- app_assoc.
        * eapply Forall_sublist; [exact Hall|]. apply sublist_app; [done|by apply sublist_cons].
        * by rewrite <- app_assoc.
      + destruct Hc as [->|[-> Ht]]; [done|]. apply Forall_app. split; [done|]. constructor; [|done].
        apply Forall_app in Hall as [_ [(? & ? & _) _]%Forall_cons]. by split_and!. }
  by apply (Hfold (d_groups d) [] d).
Qed.
End Age.

(** ** The loop *)
Section Loop.
Context {K : Kernel} {H : Host} {C : Clock} {CL : ClockLaws}.

(** A handler ran: time passed, and the groups are as young as they were. *)
Definition ages (c : Z) (d : daemon) (w : world) (x : outcome (daemon * world)) : Prop :=
  match x with
  | Done (d', w') => (w_tick w <= w_tick w')%nat ∧ (young c d → c <= realtime_now (w_tick w) → young c d')
  | Stop _ => True
  end.

Lemma register_socket_ages c st k cookie gen app f sk s d w :
  ages c d w (register_socket st k cookie gen app f sk s d w).
Proof.
  unfold register_socket. destruct (TO_WRK_GEN _ _ _) as [g|]; [|done]. destruct (cookies_find_empty _ _ _ _) as [[pp fp] gl].
  destruct (_ || _).
  { destruct (attach_reuseport_ok _ _); [|done]. split; [cbn; lia|]. intros Hy _. by eapply young_groups; [|exact Hy]. }
  destruct (bpf_map_update_elem (w_sockhash w) _ _ _) as [h r]. destruct (_ && _); [done|]. cbv zeta.
  pose proof (preserve_young c st g gl fp f (w_tick w) d (proj1 (clock_range (w_tick w)))) as Hp.
  cbn [w_tick set_sockhash]. destruct (tubular_maybe_preserve_fd _ _ _ _ _ _ _) as [cl d1]. cbn [snd] in Hp.
  destruct (run_cb_update_map _ _) as [w1|] eqn:E1; [|done]. cbn [obind]. apply run_msg_ticks in E1. cbn in E1.
  destruct (bpf_map_update_elem (w_socks w1) _ _ _) as [m r2]. destruct (negb _); [done|].
  destruct (attach_reuseport_ok _ _); [|done]. split; [cbn; lia|]. intros Hy Hc. specialize (Hp Hc Hy).
  destruct cl; [|done]. by eapply young_groups; [|exact Hp].
Qed.

Lemma handle_msg_ages c path e d w : ages c d w (handle_msg path e d w).
Proof.
  unfold handle_msg. destruct (bpf_map_lookup_elem _ _) as [st|]; [|by case_match].
  destruct (_ =? MSG_REGISTER_SOCKET).
  - destruct (m_body e); try done. unfold handle_register_socket.
    destruct (proc_files _ _) as [proc|]; [|split; [cbn; lia|done]].
    destruct (pidfd_find_socket _ _ _ _ _ _ _) as [f t]. cbv zeta. destruct (0 <=? f).
    + destruct (d_fds _ !! f) as [file|]; [|done]. destruct (bpf_map_lookup_elem _ _) as [s|]; [|done].
      match goal with |- ages c d w (register_socket ?a ?b ?x ?y ?z ?f ?sk ?s ?d1 ?w1) =>
        pose proof (register_socket_ages c a b x y z f sk s d1 w1) as Hr; destruct (register_socket a b x y z f sk s d1 w1) as [[d' w']|] end;
        [|done].
      destruct Hr as [Ht Hy]. cbn in Ht. split; [lia|]. intros Hd Hc. apply Hy; [by eapply young_groups; [|exact Hd]|].
      etrans; [exact Hc|]. apply clock_runs. cbn. lia.
    + destruct (metric_incr_critical _ _ _ _) as [w1|] eqn:E; [|done]. apply metric_ticks in E. cbn in E.
      split; [lia|]. intros Hd _. by eapply young_groups; [|exact Hd].
  - destruct (_ =? MSG_SET_WORKING_GEN); [|by split].
    destruct (m_body e); try done. unfold handle_working_gen.
    match goal with |- context [tubular_maybe_register st ?wg path ?now d] =>
      pose proof (register_young c st wg path now d) as Hr; destruct (tubular_maybe_register st wg path now d) as [err d1] end.
    cbn [snd] in Hr. destruct (negb (err =? 0));
      (destruct (metric_incr_critical _ _ _ _) as [w1|] eqn:E; [|done]; apply metric_ticks in E; cbn in E; split; [lia|auto]).
Qed.

Lemma handle_msgs_ages c path l d w : ages c d w (handle_msgs path l d w).
Proof.
  revert d w. induction l as [|e l IH]; intros d w; [by split|]. cbn [handle_msgs].
  pose proof (handle_msg_ages c path e d w) as He. destruct (handle_msg path e d w) as [[d1 w1]|]; [|done].
  cbn [obind fst snd]. specialize (IH d1 w1). destruct (handle_msgs path l d1 w1) as [[d2 w2]|]; [|done].
  destruct He as [T1 Y1], IH as [T2 Y2]. split; [lia|]. intros Hy Hc. apply Y2; [by apply Y1|].
  etrans; [exact Hc|]. by apply clock_runs.
Qed.

(** What the loop keeps: the groups are no older than ten seconds at the last clean-up, and
    there are none before the first. *)
Definition serving (d : daemon) (last : Z) (w : world) : Prop :=
  (last = 0 ∧ d_groups d = []) ∨
  ∃ n, (n <= w_tick w)%nat ∧ last = unix_time n ∧ young (realtime_now n - 10000000000) d.

(** Up to the moment [top] the wall clock falls behind by at most [slip] nanoseconds (seconds
    that have begun are not counted): it is not set back by more. *)
Definition keeps_up (slip : Z) (top : nat) : Prop := ∀ m n, (m <= n < top)%nat →
  realtime_now n - realtime_now m < (unix_time n - unix_time m + 1) * 1000000000 + slip.

(** The groups right after an iteration, seen at its last look at the clock. *)
Lemma loop_body_spec path sel d last w d' last' w' :
  serving d last w → loop_body path sel d last w = Done (true, d', last', w') →
  serving d' last' w' ∧ (w_tick w <= w_tick w')%nat ∧
  (∀ msg_fd slip, sel = Sel_ready msg_fd false → 0 <= slip → keeps_up slip (w_tick w') →
     ∃ n, (w_tick w <= n < w_tick w')%nat ∧
     ∀ g, g ∈ d_groups d' → realtime_now n - rg_last_modified g < 12000000000 + slip).
Proof.
  intros Hs. unfold loop_body. destruct sel as [eintr|msg_fd signalfd].
  { destruct eintr; [|done]. intros [= <- <- <-]. split_and!; [done|lia|done]. }
  set (step := if msg_fd then _ else _).
  assert (∀ c, ages c d w step) as Hages.
  { intros c. unfold step. destruct msg_fd; [|by split]. unfold ring_buffer_consume.
    pose proof (handle_msgs_ages c path (w_rb w) d (set_rb [] w)) as Ha. by destruct (handle_msgs _ _ _ _) as [[]|]. }
  destruct step as [[d1 w1]|]; [|done]. cbn [obind]. destruct signalfd; [done|]. cbv zeta. cbn [w_tick tick].
  assert (w_tick w <= w_tick w1)%nat as T1 by apply (Hages 0).
  assert (serving d1 last w1 ∨ 2 <= unix_time (w_tick w1) - last) as Hs1.
  { destruct Hs as [[-> Hg]|(n & Hn & -> & Hy)].
    - right. pose proof (clock_set (w_tick w1)). lia.
    - left. right. exists n. split_and!; [lia|done|]. apply (Hages (realtime_now n - 10000000000)); [done|].
      pose proof (clock_runs n (w_tick w) Hn). lia. }
  assert (∃ c, young c d1) as [c Hy1].
  { destruct Hs as [[-> Hg]|(n & Hn & -> & Hy)].
    - exists 0. apply (Hages 0); [|apply clock_range]. split; rewrite Hg; constructor.
    - exists (realtime_now n - 10000000000). apply (Hages (realtime_now n - 10000000000)); [done|].
      pose proof (clock_runs n (w_tick w) Hn). lia. }
  destruct (Z.leb_spec 2 (unix_time (w_tick w1) - last)) as [Hle|Hlt]; intros [= <- <- <-].
  - pose proof (cleanup_young c (S (S (w_tick w1))) d1 clock_range Hy1) as Hy2. cbn.
    set (d2 := reuseport_groups_maybe_cleanup_stale _ d1) in *. split_and!; [|lia|].
    + right. exists (S (w_tick w1)). split_and!; [cbn; lia|done|]. destruct Hy2 as [Hn Hall]. split; [done|].
      eapply Forall_impl; [exact Hall|]. intros g (? & ? & Hc). split_and!; try done.
      pose proof (clock_runs (S (w_tick w1)) (S (S (w_tick w1)))). lia.
    + intros _ slip _ H0 _. exists (S (S (w_tick w1))). split; [lia|]. intros g Hg. destruct Hy2 as [_ Hall].
      rewrite Forall_forall in Hall. destruct (Hall g Hg) as (_ & _ & Hc). lia.
  - cbn. destruct Hs1 as [Hs1|?]; [|lia]. split_and!; [|lia|].
    + destruct Hs1 as [?|(n & Hn & ? & ?)]; [by left|right]. exists n. split_and!; [cbn; lia|done|done].
    + intros _ slip _ H0 Hup. exists (w_tick w1). split; [lia|]. intros g Hg.
      destruct Hs1 as [[-> Hg0]|(n & Hn & -> & [_ Hall])]; [rewrite Hg0 in Hg; by apply elem_of_nil in Hg|].
      rewrite Forall_forall in Hall. destruct (Hall g Hg) as (_ & _ & Hc). pose proof (Hup n (w_tick w1) ltac:(cbn; lia)). lia.
Qed.

Lemma served s s' path : rtc (iteration path) s s' →
  let '(d, last, w) := s in serving d last w → let '(d', last', w') := s' in serving d' last' w'.
Proof.
  induction 1 as [[[d last] w]|[[d last] w] [[d1 last1] w1] [[d2 last2] w2] Hi _ IH]; [done|].
  intros Hs. apply IH. inversion Hi as [? ? ? w0 ? ? ? ? Ht Hb]. subst.
  eapply (loop_body_spec path sel d last w0); [|exact Hb].
  destruct Hs as [?|(n & Hn & ? & ?)]; [by left|right]. exists n. split_and!; [lia|done|done].
Qed.
End Loop.


(** ** Evaluation: a socket of a group with a label registers, and its descriptor is kept *)
Section Witnesses.
#[local] Existing Instance good_kernel.

(** The host of the other examples with a clock that stops. *)
Definition slow_host : Host := {|
  proc_files := @proc_files good_host;
  fresh_fd := @fresh_fd good_host;
  attach_reuseport_ok _ _ := true;
  realtime_now n := Z.of_nat (Nat.min n 100);
  test_run_ok _ := true;
  sock_cookie := @sock_cookie good_host;
  tubular_io := @tubular_io good_host;
|}.
#[local] Existing Instance slow_host.
#[local] Instance slow_clock : Clock :=
  {| unix_time n := (Z.of_nat (Nat.min n 100) + 2000000000) / 1000000000 |}.
#[local] Instance slow_clock_laws : ClockLaws.
Proof.
  split; cbn -[Nat.min]; intros.
  - lia.
  - lia.
  - apply Z.div_le_lower_bound; lia.
Qed.

Lemma slow_keeps_up top : keeps_up 0 top.
Proof.
  assert (∀ k, (Z.of_nat (Nat.min k 100) + 2000000000) / 1000000000 = 2) as E.
  { intros k. symmetry. apply (Z.div_unique _ _ 2 (Z.of_nat (Nat.min k 100))); lia. }
  intros m n Hmn. cbn -[Nat.min]. rewrite !E. lia.
Qed.

Definition labelled_group : reuseport_storage := set_dis (store (zeros DISSECTOR_SZ) 16 [0x41]) flow_group.
Definition labelled_world : world :=
  set_rb [mk_msg MSG_REGISTER_SOCKET (_skey_from_bpf_sock example_sk) (M_reg 99 42 0 0)]
    (set_groups (<[_skey_from_bpf_sock example_sk := labelled_group]>
      (∅ : gmap reuseport_storage_key reuseport_storage)) bound_world).
Definition first_iteration := loop_body true (Sel_ready true false) no_daemon 0 labelled_world.
Definition after_first : bool * daemon * Z * world := done_or first_iteration (false, no_daemon, 0, labelled_world).

End Witnesses.
