(* ===== verification/Net.v ===== *)
(** Addresses as text: [src/net.c], [key_to_str] of [src/do_list.c], [skey_sprint] and the
    address argument of [main] in [src/udpgrm.c].

    A C string is the list of its characters before the NUL. [Inet] is the interface to
    [inet_pton] and [inet_ntop]; [strtol], [strrchr] and [snprintf] are written out. *)

From S2P Require Import Prelude Cookie SipHash Storage Cbpf Dissector Reuseport Flow Hooks Host Daemon.

(** ** The C library *)
Definition chars (s : string) : list Z :=
  map (λ a, Z.of_N (Strings.Ascii.N_of_ascii a)) (list_ascii_of_string s).

Definition c_colon : Z := 58.
Definition c_open : Z := 91.
Definition c_close : Z := 93.

(** [%u] and [%lx]: the digits of a number, the last first in [acc]. *)
Definition digit (d : Z) : Z := if d <? 10 then 48 + d else 87 + d.
Fixpoint digits (fuel : nat) (base n : Z) (acc : list Z) : list Z :=
  match fuel with
  | O => acc
  | S fuel =>
      let acc := digit (n mod base) :: acc in
      if n / base =? 0 then acc else digits fuel base (n / base) acc
  end.
Definition dec (n : Z) : list Z := digits 20 10 n [].
Definition hex (n : Z) : list Z := digits 16 16 n [].
(** [%d] *)
Definition signed (n : Z) : list Z := if n <? 0 then 45 :: dec (- n) else dec n.

(** [snprintf] into [sz] bytes. *)
Definition snprintf (sz : nat) (s : list Z) : list Z := take (sz - 1) s.

(** [strchr]: the string from the first [c] on. *)
Fixpoint strchr (s : list Z) (c : Z) : option (list Z) :=
  match s with [] => None | x :: s' => if x =? c then Some s else strchr s' c end.

(** [strrchr]: the last position of [c]. *)
Fixpoint strrchr (s : list Z) (c : Z) : option nat :=
  match s with
  | [] => None
  | x :: s =>
      match strrchr s c with
      | Some i => Some (S i)
      | None => if x =? c then Some 0%nat else None
      end
  end.

(** [strtol(s, &endptr, 10)]: the value and the string at [endptr]. *)
Definition isspace (c : Z) : bool := (c =? 32) || ((9 <=? c) && (c <=? 13)).
Definition isdigit (c : Z) : bool := (48 <=? c) && (c <=? 57).
Fixpoint skip_spaces (s : list Z) : list Z :=
  match s with c :: r => if isspace c then skip_spaces r else s | [] => [] end.
Fixpoint strtol_digits (s : list Z) (acc : Z) : Z * list Z :=
  match s with
  | c :: r => if isdigit c then strtol_digits r (acc * 10 + (c - 48)) else (acc, s)
  | [] => (acc, [])
  end.
Definition strtol (s : list Z) : Z * list Z :=
  let '(neg, r) :=
    match skip_spaces s with
    | c :: r => if c =? 45 then (true, r) else if c =? 43 then (false, r) else (false, c :: r)
    | [] => (false, [])
    end in
  match r with
  | c :: _ =>
      if isdigit c then
        let '(v, e) := strtol_digits r 0 in
        (Z.max (- 2 ^ 63) (Z.min (2 ^ 63 - 1) (if neg then - v else v)), e)
      else (0, s)
  | [] => (0, s)
  end.

(** [inet_pton] on a string, [None] when it does not return 1; [inet_ntop] on the bytes. *)
Class Inet := {
  inet_pton : Z → list Z → option (list Z);
  inet_ntop : Z → list Z → list Z;
}.
Definition addr_len (af : Z) : nat := if af =? AF_INET then 4 else 16.
Definition text_len (af : Z) : nat := if af =? AF_INET then 16 else 46.
Definition addr_char (af c : Z) : bool :=
  isdigit c || (c =? 46) || ((af =? AF_INET6) && ((c =? c_colon) || ((97 <=? c) && (c <=? 102)) || ((65 <=? c) && (c <=? 70)))).
Definition colons (s : list Z) : nat := length (filter (λ c, c = c_colon) s).
(** Documented behaviour: the text of an address is read back; an IPv4 text has digits and
    dots, an IPv6 text hexadecimal digits, dots and at least two colons; the text fits
    [INET_ADDRSTRLEN] or [INET6_ADDRSTRLEN]. *)
Class InetLaws {I : Inet} := {
  inet_roundtrip : ∀ af a, af = AF_INET ∨ af = AF_INET6 → length a = addr_len af → bytes_ok a →
    inet_pton af (inet_ntop af a) = Some a;
  inet_chars : ∀ af s a, inet_pton af s = Some a → Forall (λ c, addr_char af c = true) s;
  inet_colons : ∀ s a, inet_pton AF_INET6 s = Some a → (2 <= colons s)%nat;
  inet_length : ∀ af a, length a = addr_len af → bytes_ok a → (length (inet_ntop af a) < text_len af)%nat;
}.

(** ** [src/net.c] *)
Section Net.
Context {I : Inet}.

Definition ip4_of (a : list Z) : ip6 := (load 4 a 0, 0, 0, 0).
Definition ip6_of (a : list Z) : ip6 := (load 4 a 0, load 4 a 4, load 4 a 8, load 4 a 12).
Definition zero_ss : sockaddr := mk_ss 0 0 (0, 0, 0, 0).

(** The result and [*ss]. *)
Definition net_gethostbyname (host : list Z) (port force_family : Z) : Z * sockaddr :=
  let try6 :=
    if (force_family =? 0) || (force_family =? AF_INET6) then
      match inet_pton AF_INET6 host with
      | Some a => (AF_INET6, mk_ss AF_INET6 (bswap16 (u16 port)) (ip6_of a))
      | None => (-1, zero_ss)
      end
    else (-1, zero_ss) in
  if (force_family =? 0) || (force_family =? AF_INET) then
    match inet_pton AF_INET host with
    | Some a => (AF_INET, mk_ss AF_INET (bswap16 (u16 port)) (ip4_of a))
    | None => try6
    end
  else try6.

(** The port behind the last colon, and where to cut. *)
Definition parse_port (addr : list Z) (default_port : Z) : Z * option nat :=
  match strrchr addr c_colon with
  | None => (default_port, None)
  | Some colon =>
      match drop (S colon) addr with
      | [] => (default_port, None)
      | s =>
          let '(port, endptr) := strtol s in
          if (port <? 0) || (65535 <? port) || negb (bool_decide (endptr = [])) then (default_port, None)
          else (port, Some colon)
      end
  end.

Definition HOST_SZ : nat := 256.
(** [[host]] without its brackets. *)
Definition strip_brackets (host : list Z) : option (list Z) :=
  match host with
  | c :: _ =>
      if (c =? c_open) && bool_decide (last host = Some c_close)
      then Some (drop 1 (take (length host - 1) host)) else None
  | [] => None
  end.

Definition net_parse_sockaddr (addr : list Z) (default_port : Z) : Z * sockaddr :=
  let host := take (HOST_SZ - 1) addr in
  let '(r, ss) := net_gethostbyname host default_port AF_INET6 in
  if 0 <=? r then (ss_family ss, ss)
  else
    let '(port, colon) := parse_port addr default_port in
    let host :=
      match colon with
      | Some c => take (if (HOST_SZ <=? c)%nat then HOST_SZ - 1 else c) host
      | None => host
      end in
    match strip_brackets host with
    | Some host => net_gethostbyname host port AF_INET6
    | None => net_gethostbyname host port 0
    end.

(** ** Names of groups *)
Definition ip4_bytes (a : ip6) : list Z := let '(a0, _, _, _) := a in le_bytes 4 a0.

(** [key_to_str] *)
Definition key_to_str (key : reuseport_storage_key) : list Z :=
  let a := inet_ntop AF_INET (ip4_bytes (src_ip key)) in
  let b := inet_ntop AF_INET6 (ip_bytes (src_ip key)) in
  if family key =? AF_INET then snprintf 64 (a ++ [c_colon] ++ dec (src_port key))
  else if family key =? AF_INET6 then snprintf 64 ([c_open] ++ b ++ [c_close; c_colon] ++ dec (src_port key))
  else snprintf 64 (chars "fam=" ++ dec (family key) ++ chars " type=dgram proto=udp " ++ a ++ chars "/[" ++ b
         ++ chars "]:" ++ dec (src_port key)).

(** The address argument of a command in [main]. *)
Definition reuseport_address (reuseport_name : option (list Z)) : outcome sockaddr :=
  match reuseport_name with
  | None => Done zero_ss
  | Some name =>
      let '(r, reuseport_ss) := net_parse_sockaddr name 0 in
      if r <? 0 then Stop Exit_error
      else if net_get_port reuseport_ss =? 0 then Stop Exit_error
      else Done reuseport_ss
  end.
End Net.

(** ** Numbers *)

Lemma digit_isdigit d : 0 <= d < 10 → isdigit (digit d) = true.
Proof. intros Hd. unfold digit, isdigit. destruct (Z.ltb_spec d 10); [|lia]. apply andb_true_intro. split; apply Z.leb_le; lia. Qed.
Lemma digit_value d : 0 <= d < 10 → digit d - 48 = d.
Proof. intros Hd. unfold digit. destruct (Z.ltb_spec d 10); lia. Qed.

(** What [digits] puts before [acc] is read back by [strtol_digits]. *)
Lemma digits_spec fuel n acc :
  0 <= n < 10 ^ Z.of_nat fuel → (0 < fuel)%nat →
  ∃ d, digits fuel 10 n acc = d ++ acc ∧ (0 < length d <= fuel)%nat ∧ Forall (λ c, isdigit c = true) d ∧
    ∀ v r, strtol_digits (d ++ r) v = strtol_digits r (v * 10 ^ Z.of_nat (length d) + n).
Proof.
  revert n acc. induction fuel as [|fuel IH]; intros n acc Hn Hf; [lia|]. cbn [digits].
  pose proof (Z.mod_pos_bound n 10 ltac:(lia)) as Hm. pose proof (Z.div_mod n 10 ltac:(lia)) as Hd.
  destruct (Z.eqb_spec (n / 10) 0) as [E|E].
  - exists [digit (n mod 10)]. split_and!; [done|cbn; lia|cbn; lia|by repeat constructor; apply digit_isdigit|].
    intros v r. cbn [app strtol_digits length]. rewrite digit_isdigit, digit_value by lia. f_equal. lia.
  - rewrite Nat2Z.inj_succ, Z.pow_succ_r in Hn by lia.
    destruct fuel as [|fuel]; [cbn in Hn; assert (n / 10 = 0) by (apply Z.div_small; lia); lia|].
    destruct (IH (n / 10) (digit (n mod 10) :: acc)) as (d & -> & Hl & Hd1 & Hp).
    { split; [apply Z.div_pos; lia|]. apply Z.div_lt_upper_bound; lia. }
    { lia. }
    exists (d ++ [digit (n mod 10)]). rewrite length_app. cbn [length]. split_and!; [by rewrite <- app_assoc|lia|lia| |].
    + apply Forall_app. split; [done|]. repeat constructor. by apply digit_isdigit.
    + intros v r. rewrite <- app_assoc, Hp. cbn [app strtol_digits]. rewrite digit_isdigit, digit_value by lia.
      f_equal. rewrite Nat2Z.inj_add, Z.pow_add_r by lia. change (10 ^ Z.of_nat 1) with 10. lia.
Qed.

Lemma length_digits fuel base n acc k :
  1 < base → 0 <= n < base ^ Z.of_nat k → (0 < k)%nat → (length (digits fuel base n acc) <= k + length acc)%nat.
Proof.
  intros Hbase. revert n acc k. induction fuel as [|fuel IH]; intros n acc k Hn Hk; [cbn; lia|]. cbn [digits].
  destruct (Z.eqb_spec (n / base) 0) as [E|E]; [cbn; lia|].
  destruct k as [|k]; [lia|]. rewrite Nat2Z.inj_succ, Z.pow_succ_r in Hn by lia.
  assert (n / base < base ^ Z.of_nat k) by (apply Z.div_lt_upper_bound; lia).
  assert (0 <= n / base) by (apply Z.div_pos; lia).
  destruct k as [|k]; [cbn in *; lia|]. etrans; [apply (IH _ _ (S k)); lia|]. cbn [length]. lia.
Qed.

Lemma dec_spec n :
  0 <= n < 2 ^ 63 →
  Forall (λ c, isdigit c = true) (dec n) ∧ (0 < length (dec n) <= 20)%nat ∧ strtol (dec n) = (n, []).
Proof.
  intros Hn. destruct (digits_spec 20 n [] ltac:(change (10 ^ Z.of_nat 20) with 100000000000000000000; lia) ltac:(lia))
    as (d & E & Hl & Hd & Hp). unfold dec. rewrite E, app_nil_r. split_and!; [done|lia|lia|].
  specialize (Hp 0 []). rewrite app_nil_r in Hp. cbn [strtol_digits] in Hp.
  destruct Hd as [|c d Hc _]; [cbn in Hl; lia|]. unfold strtol.
  assert (48 <= c <= 57) as Hr by (unfold isdigit in Hc; lia).
  cbn [skip_spaces]. assert (isspace c = false) as -> by (unfold isspace; lia).
  destruct (Z.eqb_spec c 45); [lia|]. destruct (Z.eqb_spec c 43); [lia|]. rewrite Hc, Hp.
  f_equal. lia.
Qed.

(** ** Text with a port *)

Lemma strrchr_none s c : c ∉ s → strrchr s c = None.
Proof.
  induction s as [|x s IH]; intros H; [done|]. cbn [strrchr]. rewrite IH by set_solver.
  destruct (Z.eqb_spec x c); [set_solver|done].
Qed.
Lemma strrchr_last a b c : c ∉ b → strrchr (a ++ c :: b) c = Some (length a).
Proof.
  intros H. induction a as [|x a IH]; cbn [app strrchr length].
  - rewrite (strrchr_none b c H). by rewrite Z.eqb_refl.
  - by rewrite IH.
Qed.
Lemma not_in_digits s c : Forall (λ c, isdigit c = true) s → isdigit c = false → c ∉ s.
Proof. rewrite Forall_forall. intros H Hc Hin. by rewrite (H c Hin) in Hc. Qed.

(** The port of [host:port]. *)
Lemma parse_port_dec a n d : 0 <= n < 2 ^ 16 → parse_port (a ++ c_colon :: dec n) d = (n, Some (length a)).
Proof.
  intros Hn. destruct (dec_spec n ltac:(lia)) as (Hd & Hl & Hs). unfold parse_port.
  rewrite strrchr_last by (by apply (not_in_digits _ _ Hd)).
  rewrite drop_app_ge by lia. replace (S (length a) - length a)%nat with 1%nat by lia. cbn [drop].
  destruct (dec n) as [|x l]; [cbn in Hl; lia|]. cbn [drop]. rewrite Hs, bool_decide_eq_true_2 by done.
  destruct (Z.ltb_spec n 0); [lia|]. destruct (Z.ltb_spec 65535 n); [lia|done].
Qed.

Section NetFacts.
Context {I : Inet} {L : InetLaws}.

Lemma pton_colons6 s : (colons s < 2)%nat → inet_pton AF_INET6 s = None.
Proof. intros H. destruct (inet_pton AF_INET6 s) as [a|] eqn:E; [|done]. apply inet_colons in E. lia. Qed.
Lemma pton_not_char af s c : c ∈ s → addr_char af c = false → inet_pton af s = None.
Proof.
  intros Hin Hc. destruct (inet_pton af s) as [a|] eqn:E; [|done].
  apply inet_chars in E. rewrite Forall_forall in E. by rewrite (E c Hin) in Hc.
Qed.
Lemma colons_app a b : colons (a ++ b) = (colons a + colons b)%nat.
Proof. unfold colons. by rewrite filter_app, length_app. Qed.
Lemma colons_none s : c_colon ∉ s → colons s = 0%nat.
Proof.
  intros H. unfold colons. induction s as [|x s IH]; [done|]. rewrite filter_cons.
  destruct (decide (x = c_colon)); [set_solver|]. apply IH. set_solver.
Qed.
Lemma ntop_chars af a : af = AF_INET ∨ af = AF_INET6 → length a = addr_len af → bytes_ok a →
  Forall (λ c, addr_char af c = true) (inet_ntop af a).
Proof. intros Haf Hl Hb. by apply (inet_chars af _ a), inet_roundtrip. Qed.
Lemma not_addr_char af s c : Forall (λ c, addr_char af c = true) s → addr_char af c = false → c ∉ s.
Proof. rewrite Forall_forall. intros H Hc Hin. by rewrite (H c Hin) in Hc. Qed.

Lemma ip4_of_bytes a b c d : 0 <= a < 2 ^ 32 → ip4_of (ip4_bytes (a, b, c, d)) = (a, 0, 0, 0).
Proof. intros Ha. unfold ip4_of, ip4_bytes. cbv beta iota. rewrite load_app_end. by rewrite Z.mod_small. Qed.
Lemma ip6_of_bytes a b c d :
  0 <= a < 2 ^ 32 → 0 <= b < 2 ^ 32 → 0 <= c < 2 ^ 32 → 0 <= d < 2 ^ 32 →
  ip6_of (ip_bytes (a, b, c, d)) = (a, b, c, d).
Proof.
  intros Ha Hb Hc Hd. unfold ip6_of, ip_bytes. cbv beta iota.
  repeat first [rewrite load_app_here | rewrite load_app_end
    | rewrite load_app_skip by (rewrite ?length_le_bytes; lia); rewrite length_le_bytes; cbn [Nat.sub]].
  by rewrite !Z.mod_small by lia.
Qed.

(** [a.b.c.d:port] *)
Lemma parse_ip4 a n :
  length a = 4%nat → bytes_ok a → 0 <= n < 2 ^ 16 →
  net_parse_sockaddr (inet_ntop AF_INET a ++ c_colon :: dec n) 0
  = (AF_INET, mk_ss AF_INET (bswap16 n) (ip4_of a)).
Proof.
  intros Hl Hb Hn. pose proof (ntop_chars AF_INET a (or_introl eq_refl) Hl Hb) as Hc.
  pose proof (inet_length AF_INET a Hl Hb) as Hlen. set (t := inet_ntop AF_INET a) in *. change (text_len AF_INET) with 16%nat in Hlen.
  destruct (dec_spec n ltac:(lia)) as (Hd & Hdl & _).
  unfold net_parse_sockaddr. rewrite take_ge by (rewrite length_app; cbn [length]; unfold HOST_SZ; lia).
  unfold net_gethostbyname at 1. change (AF_INET6 =? 0) with false. change (AF_INET6 =? AF_INET) with false.
  rewrite Z.eqb_refl. cbn [orb]. rewrite pton_colons6.
  2: { rewrite colons_app. rewrite (colons_none t) by (by apply (not_addr_char AF_INET)).
       change (c_colon :: dec n) with ([c_colon] ++ dec n). rewrite colons_app, (colons_none (dec n)).
       - change (colons [c_colon]) with 1%nat. lia.
       - by apply (not_in_digits _ _ Hd). }
  cbn beta iota. change (0 <=? -1) with false. cbn iota. rewrite parse_port_dec by done.
  destruct (Nat.leb_spec HOST_SZ (length t)); [unfold HOST_SZ in *; lia|]. rewrite take_app_length.
  assert (strip_brackets t = None) as ->.
  { destruct t as [|x t']; [done|]. cbn [strip_brackets]. destruct (Z.eqb_spec x c_open) as [->|]; [|done].
    inversion Hc. done. }
  unfold net_gethostbyname. rewrite Z.eqb_refl. cbn [orb]. unfold t.
  rewrite inet_roundtrip by auto. cbv iota. unfold u16. by rewrite Z.mod_small by lia.
Qed.

(** [[x:x::x]:port] *)
Lemma parse_ip6 a n :
  length a = 16%nat → bytes_ok a → 0 <= n < 2 ^ 16 →
  net_parse_sockaddr ([c_open] ++ inet_ntop AF_INET6 a ++ [c_close; c_colon] ++ dec n) 0
  = (AF_INET6, mk_ss AF_INET6 (bswap16 n) (ip6_of a)).
Proof.
  intros Hl Hb Hn. pose proof (ntop_chars AF_INET6 a (or_intror eq_refl) Hl Hb) as Hc.
  pose proof (inet_length AF_INET6 a Hl Hb) as Hlen. set (t := inet_ntop AF_INET6 a) in *.
  change (text_len AF_INET6) with 46%nat in Hlen.
  destruct (dec_spec n ltac:(lia)) as (Hd & Hdl & _).
  unfold net_parse_sockaddr.
  rewrite take_ge by (rewrite !length_app; cbn [length]; unfold HOST_SZ; lia).
  unfold net_gethostbyname at 1. change (AF_INET6 =? 0) with false. change (AF_INET6 =? AF_INET) with false.
  rewrite Z.eqb_refl. cbn [orb]. rewrite (pton_not_char _ _ c_open) by (done || left).
  cbn beta iota. change (0 <=? -1) with false. cbn iota.
  replace ([c_open] ++ t ++ [c_close; c_colon] ++ dec n) with (([c_open] ++ t ++ [c_close]) ++ c_colon :: dec n)
    by (by rewrite <- !app_assoc).
  rewrite parse_port_dec by done.
  assert (length ([c_open] ++ t ++ [c_close]) < 256)%nat as Hlt by (rewrite !length_app; cbn [length]; lia).
  destruct (Nat.leb_spec HOST_SZ (length ([c_open] ++ t ++ [c_close]))); [unfold HOST_SZ in *; lia|].
  rewrite take_app_length.
  assert (strip_brackets ([c_open] ++ t ++ [c_close]) = Some t) as ->.
  { cbn [app strip_brackets]. rewrite Z.eqb_refl, app_comm_cons, last_snoc, bool_decide_eq_true_2 by done.
    cbn [andb]. f_equal. rewrite length_app. cbn [length].
    replace (S (length t) + 1 - 1)%nat with (length (c_open :: t)) by (cbn; lia).
    by rewrite take_app_length. }
  unfold net_gethostbyname. change (AF_INET6 =? 0) with false. change (AF_INET6 =? AF_INET) with false.
  rewrite Z.eqb_refl. cbn [orb]. unfold t. rewrite inet_roundtrip by auto.
  cbv iota. unfold u16. by rewrite Z.mod_small by lia.
Qed.
End NetFacts.

(** ** A printed name names its group *)

(** Keys as the programs build them: one of the two families, fields of their width. *)
Record name_ok (k : reuseport_storage_key) : Prop := {
  nk_family : family k = AF_INET ∨ family k = AF_INET6;
  nk_reserved : key_reserved k = 0;
  nk_port : 0 <= src_port k < 2 ^ 16;
  nk_ip : let '(a, b, c, d) := src_ip k in
    0 <= a < 2 ^ 32 ∧ 0 <= b < 2 ^ 32 ∧ 0 <= c < 2 ^ 32 ∧ 0 <= d < 2 ^ 32 ∧
    (family k = AF_INET → b = 0 ∧ c = 0 ∧ d = 0);
}.

Lemma sock_name_ok sk :
  bs_family sk = AF_INET ∨ bs_family sk = AF_INET6 → 0 <= bs_src_ip4 sk < 2 ^ 32 →
  (let '(a, b, c, d) := bs_src_ip6 sk in
   0 <= a < 2 ^ 32 ∧ 0 <= b < 2 ^ 32 ∧ 0 <= c < 2 ^ 32 ∧ 0 <= d < 2 ^ 32) → name_ok (_skey_from_bpf_sock sk).
Proof.
  intros Hf H4 H6. unfold _skey_from_bpf_sock.
  destruct Hf as [Hf|Hf]; rewrite Hf; split; cbn [family key_reserved src_port src_ip];
    try done; try (by left); try (by right); try (unfold u16; apply Z.mod_pos_bound; lia).
  change (AF_INET6 =? AF_INET) with false. change (AF_INET6 =? AF_INET6) with true. cbv iota.
  destruct (bs_src_ip6 sk) as [[[a b] c] d]. destruct H6 as (? & ? & ? & ?).
  do 4 (split; [done|]). done.
Qed.

Section Names.
Context {I : Inet} {L : InetLaws}.

Lemma length_ip4_bytes a : length (ip4_bytes a) = 4%nat.
Proof. by destruct a as [[[a0 a1] a2] a3]. Qed.
Lemma ip4_bytes_ok a : bytes_ok (ip4_bytes a).
Proof. destruct a as [[[a0 a1] a2] a3]. apply le_bytes_ok. Qed.
Lemma ip_bytes_ok a : bytes_ok (ip_bytes a).
Proof. destruct a as [[[a0 a1] a2] a3]. unfold ip_bytes. repeat (apply Forall_app; split); apply le_bytes_ok. Qed.

Lemma snprintf_fits sz s : (length s < sz)%nat → snprintf sz s = s.
Proof. intros H. unfold snprintf. apply take_ge. lia. Qed.

(** What [list] prints for a group is read back as the address of the group. *)
Lemma key_to_str_parses k :
  name_ok k → net_parse_sockaddr (key_to_str k) 0 = (family k, sockaddr_from_msg_value k).
Proof.
  intros [Hf _ Hp Hip]. destruct k as [fam res port [[[a b] c] d]].
  cbn [family src_port src_ip] in *. destruct Hip as (Ha & Hb & Hc & Hd & H4).
  pose proof (length_digits 20 10 port [] 5 ltac:(lia)
    ltac:(change (10 ^ Z.of_nat 5) with 100000; lia) ltac:(lia)) as Hl. fold (dec port) in Hl. cbn [length] in Hl.
  unfold key_to_str, sockaddr_from_msg_value. cbn [family src_port src_ip].
  destruct Hf as [->| ->].
  - change (AF_INET =? AF_INET) with true. cbv iota.
    pose proof (inet_length AF_INET (ip4_bytes (a, b, c, d)) (length_ip4_bytes _) (ip4_bytes_ok _)) as Ht.
    change (text_len AF_INET) with 16%nat in Ht.
    rewrite snprintf_fits by (rewrite !length_app; cbn [length]; lia).
    cbn [app]. rewrite parse_ip4 by (done || apply ip4_bytes_ok || apply length_ip4_bytes).
    by rewrite ip4_of_bytes.
  - change (AF_INET6 =? AF_INET) with false. change (AF_INET6 =? AF_INET6) with true. cbv iota.
    pose proof (inet_length AF_INET6 (ip_bytes (a, b, c, d)) (length_ip_bytes _) (ip_bytes_ok _)) as Ht.
    change (text_len AF_INET6) with 46%nat in Ht.
    rewrite snprintf_fits by (rewrite !length_app; cbn [length]; lia).
    rewrite parse_ip6 by (done || apply ip_bytes_ok || apply length_ip_bytes).
    by rewrite ip6_of_bytes.
Qed.

Lemma skey_from_ss_of_name k : name_ok k → skey_from_ss (sockaddr_from_msg_value k) = k.
Proof.
  intros [Hf Hr Hp Hip]. destruct k as [fam res port [[[a b] c] d]].
  cbn [family src_port src_ip key_reserved] in *. subst res. destruct Hip as (_ & _ & _ & _ & H4).
  unfold skey_from_ss, sockaddr_from_msg_value, net_get_port. cbn [family src_port src_ip].
  assert (u16 (bswap16 (bswap16 port)) = port) as Hport.
  { rewrite bswap_bswap. change (2 ^ (8 * Z.of_nat 2)) with (2 ^ 16). unfold u16. rewrite Z.mod_mod by lia. apply Z.mod_small. lia. }
  destruct Hf as [->| ->].
  - destruct (H4 eq_refl) as (-> & -> & ->). change (AF_INET =? AF_INET) with true. cbv iota.
    cbn [ss_family ss_port ss_ip]. change (AF_INET =? AF_INET) with true. cbv iota. by rewrite Hport.
  - change (AF_INET6 =? AF_INET) with false. change (AF_INET6 =? AF_INET6) with true. cbv iota.
    cbn [ss_family ss_port ss_ip]. change (AF_INET6 =? AF_INET) with false. change (AF_INET6 =? AF_INET6) with true.
    cbv iota. by rewrite Hport.
Qed.

Lemma reuseport_address_of_name k :
  name_ok k → src_port k ≠ 0 →
  reuseport_address (Some (key_to_str k)) = Done (sockaddr_from_msg_value k).
Proof.
  intros Hk Hp. unfold reuseport_address. rewrite key_to_str_parses by done.
  pose proof (skey_from_ss_of_name k Hk) as E. apply (f_equal src_port) in E.
  unfold skey_from_ss in E. cbn [src_port] in E.
  destruct (Z.ltb_spec (family k) 0) as [Hn|_].
  - destruct Hk as [[Hf|Hf] _ _ _]; rewrite Hf in Hn; unfold AF_INET, AF_INET6 in Hn; lia.
  - destruct (Z.eqb_spec (net_get_port (sockaddr_from_msg_value k)) 0) as [E0|]; [|done].
    rewrite E0 in E. by rewrite <- E in Hp.
Qed.
End Names.

(** ** A concrete [Inet], to evaluate

    IPv6 addresses in full, without abbreviation. *)
Definition test_ntop4 (a : list Z) : list Z :=
  match a with
  | [b; c; d; e] => dec b ++ 46 :: dec c ++ 46 :: dec d ++ 46 :: dec e
  | _ => []
  end.
Fixpoint test_pton4 (n : nat) (s : list Z) : list Z :=
  match n with
  | O => []
  | S n => let '(v, r) := strtol_digits s 0 in v :: test_pton4 n (drop 1 r)
  end.

Definition hex_byte (b : Z) : list Z := [digit (b / 16); digit (b mod 16)].
Definition unhex (c : Z) : Z := if c <? 58 then c - 48 else c - 87.
Definition hex_group (a : list Z) (i : nat) : list Z :=
  (if (i =? 0)%nat then [] else [c_colon]) ++
  hex_byte (nth (2 * i) a 0) ++ hex_byte (nth (2 * i + 1) a 0).
Definition test_ntop6 (a : list Z) : list Z := concat (map (hex_group a) [0; 1; 2; 3; 4; 5; 6; 7]%nat).
Definition unhex_at (s : list Z) (j : nat) : Z :=
  let p := (5 * (j / 2) + 2 * (j mod 2))%nat in 16 * unhex (nth p s 0) + unhex (nth (p + 1) s 0).
Definition test_pton6 (s : list Z) : list Z :=
  map (unhex_at s) [0; 1; 2; 3; 4; 5; 6; 7; 8; 9; 10; 11; 12; 13; 14; 15]%nat.

Definition test_ntop (af : Z) (a : list Z) : list Z :=
  if af =? AF_INET then test_ntop4 a else if af =? AF_INET6 then test_ntop6 a else [].
Definition checked_pton (af : Z) (s a : list Z) : option (list Z) :=
  if ((af =? AF_INET) || (af =? AF_INET6)) && bool_decide (s = test_ntop af a) && forallb (λ b, (0 <=? b) && (b <? 256)) a
  then Some a else None.
Definition test_inet : Inet := {|
  inet_pton af s := checked_pton af s (if af =? AF_INET then test_pton4 4 s else test_pton6 s);
  inet_ntop := test_ntop;
|}.

Lemma unhex_byte b : byte_ok b → 16 * unhex (digit (b / 16)) + unhex (digit (b mod 16)) = b.
Proof.
  intros Hb. assert (forall_below 256 (λ b, 16 * unhex (digit (b / 16)) + unhex (digit (b mod 16)) =? b) = true) as H
    by (vm_compute; reflexivity).
  apply Z.eqb_eq. exact (forall_below_spec _ _ H b Hb).
Qed.
Lemma hex_byte_chars b : byte_ok b → Forall (λ c, addr_char AF_INET6 c = true) (hex_byte b).
Proof.
  intros Hb. assert (forall_below 256 (λ b, addr_char AF_INET6 (digit (b / 16)) && addr_char AF_INET6 (digit (b mod 16))) = true) as H
    by (vm_compute; reflexivity).
  pose proof (forall_below_spec _ _ H b Hb) as E. apply andb_prop in E as [E1 E2]. by repeat constructor.
Qed.

Lemma bytes4 a : length a = 4%nat → bytes_ok a → ∃ b c d e, a = [b; c; d; e] ∧ byte_ok b ∧ byte_ok c ∧ byte_ok d ∧ byte_ok e.
Proof.
  destruct a as [|b [|c [|d [|e [|]]]]]; try done. intros _ H. exists b, c, d, e.
  by repeat (apply Forall_cons in H as [? H]).
Qed.

Lemma dec_byte b r v : byte_ok b → ∃ d, dec b = d ∧ (length d <= 3)%nat ∧ Forall (λ c, isdigit c = true) d ∧
  strtol_digits (d ++ r) v = strtol_digits r (v * 10 ^ Z.of_nat (length d) + b).
Proof.
  intros Hb. unfold byte_ok in Hb.
  destruct (digits_spec 20 b [] ltac:(change (10 ^ Z.of_nat 20) with 100000000000000000000; lia) ltac:(lia)) as (d & E & _ & Hd & Hp).
  rewrite app_nil_r in E. exists d. split_and!; [done| |done|apply Hp].
  rewrite <- E. pose proof (length_digits 20 10 b [] 3 ltac:(lia) ltac:(change (10 ^ Z.of_nat 3) with 1000; lia) ltac:(lia)). cbn [length] in *. lia.
Qed.

Lemma test_pton4_ntop4 a : length a = 4%nat → bytes_ok a → test_pton4 4 (test_ntop4 a) = a.
Proof.
  intros Hl Hb. destruct (bytes4 a Hl Hb) as (b & c & d & e & -> & H1 & H2 & H3 & H4).
  unfold test_ntop4.
  destruct (dec_byte e [] 0 H4) as (te & E4 & _ & _ & P4).
  destruct (dec_byte d (46 :: dec e) 0 H3) as (td & E3 & _ & _ & P3).
  destruct (dec_byte c (46 :: dec d ++ 46 :: dec e) 0 H2) as (tc & E2 & _ & _ & P2).
  destruct (dec_byte b (46 :: dec c ++ 46 :: dec d ++ 46 :: dec e) 0 H1) as (tb & E1 & _ & _ & P1).
  rewrite app_nil_r in P4. rewrite <- E1 in P1. rewrite <- E2 in P2. rewrite <- E3 in P3. rewrite <- E4 in P4.
  rewrite Z.mul_0_l in P1, P2, P3, P4. cbn [test_pton4].
  rewrite P1. cbn [strtol_digits]. change (isdigit 46) with false. cbv beta iota zeta. cbn [drop]. rewrite ?drop_0.
  rewrite P2. cbn [strtol_digits]. change (isdigit 46) with false. cbv beta iota zeta. cbn [drop]. rewrite ?drop_0.
  rewrite P3. cbn [strtol_digits]. change (isdigit 46) with false. cbv beta iota zeta. cbn [drop]. rewrite ?drop_0.
  rewrite P4. reflexivity.
Qed.

Lemma bytes16 a : length a = 16%nat → a = map (λ i, nth i a 0) [0; 1; 2; 3; 4; 5; 6; 7; 8; 9; 10; 11; 12; 13; 14; 15]%nat.
Proof. do 17 (destruct a as [|? a]; try done). Qed.

Lemma test_pton6_ntop6 a : length a = 16%nat → bytes_ok a → test_pton6 (test_ntop6 a) = a.
Proof.
  intros Hl Hb. transitivity (map (λ b, 16 * unhex (digit (b / 16)) + unhex (digit (b mod 16))) a).
  - do 17 (destruct a as [|? a]; try done).
  - rewrite <- (map_id a) at 2. apply map_ext_in. intros b Hin. apply unhex_byte.
    rewrite Forall_forall in Hb. apply Hb. by apply list_elem_of_In.
Qed.

Lemma test_ntop4_chars a : length a = 4%nat → bytes_ok a → Forall (λ c, addr_char AF_INET c = true) (test_ntop4 a) ∧
  (length (test_ntop4 a) < 16)%nat.
Proof.
  intros Hl Hb. destruct (bytes4 a Hl Hb) as (b & c & d & e & -> & H1 & H2 & H3 & H4).
  assert (∀ b, byte_ok b → Forall (λ c, addr_char AF_INET c = true) (dec b) ∧ (length (dec b) <= 3)%nat) as Hd.
  { intros x Hx. destruct (dec_byte x [] 0 Hx) as (t & -> & Hn & Ht & _). split; [|done].
    eapply Forall_impl; [exact Ht|]. intros y Hy. unfold addr_char. by rewrite Hy. }
  unfold test_ntop4.
  destruct (Hd b H1), (Hd c H2), (Hd d H3), (Hd e H4). split.
  - repeat (apply Forall_app; split; [done|]; constructor; [done|]). done.
  - repeat (rewrite length_app; cbn [length]). lia.
Qed.
Lemma test_ntop6_chars a : length a = 16%nat → bytes_ok a → Forall (λ c, addr_char AF_INET6 c = true) (test_ntop6 a).
Proof.
  intros Hl Hb. assert (∀ i, byte_ok (nth i a 0)) as Hn.
  { intros i. destruct (nth_in_or_default i a 0) as [Hin|E]; [|rewrite E; unfold byte_ok; lia].
    rewrite Forall_forall in Hb. apply Hb. by apply list_elem_of_In. }
  unfold test_ntop6. apply Forall_concat, Forall_map, Forall_forall. intros i _. unfold hex_group.
  repeat (apply Forall_app; split); try apply hex_byte_chars, Hn.
  destruct (i =? 0)%nat; repeat constructor.
Qed.

Lemma checked_pton_ok af s a b : checked_pton af s a = Some b →
  (af = AF_INET ∨ af = AF_INET6) ∧ a = b ∧ s = test_ntop af b ∧ bytes_ok b.
Proof.
  unfold checked_pton. destruct (_ && _) eqn:E; [|done]. intros [= <-].
  apply andb_prop in E as [[H1 H2]%andb_prop H3]. apply bool_decide_eq_true_1 in H2.
  split_and!; [|done|done|].
  - apply orb_prop in H1 as [H1|H1]; apply Z.eqb_eq in H1; auto.
  - apply Forall_forall. intros x Hx. rewrite forallb_forall in H3. apply list_elem_of_In in Hx.
    specialize (H3 x Hx). unfold byte_ok. lia.
Qed.
Lemma checked_pton_roundtrip af a : (af = AF_INET ∨ af = AF_INET6) → bytes_ok a → checked_pton af (test_ntop af a) a = Some a.
Proof.
  intros Haf Hb. unfold checked_pton. rewrite bool_decide_eq_true_2 by done.
  assert (forallb (λ b, (0 <=? b) && (b <? 256)) a = true) as ->.
  { apply forallb_forall. intros x Hx. rewrite Forall_forall in Hb. apply list_elem_of_In in Hx.
    specialize (Hb x Hx). unfold byte_ok in Hb. lia. }
  by destruct Haf as [->| ->].
Qed.

Lemma length_test_pton4 n s : length (test_pton4 n s) = n.
Proof. revert s. induction n as [|n IH]; intros s; [done|]. cbn [test_pton4]. destruct (strtol_digits s 0). cbn. by rewrite IH. Qed.

Lemma colons_test_ntop6 a : (2 <= colons (test_ntop6 a))%nat.
Proof.
  assert (∀ i, i ≠ 0%nat → (1 <= colons (hex_group a i))%nat) as Hg.
  { intros i Hi. unfold hex_group. destruct (Nat.eqb_spec i 0); [done|].
    rewrite colons_app. change (colons [c_colon]) with 1%nat. lia. }
  unfold test_ntop6. cbn [map concat]. rewrite !colons_app.
  pose proof (Hg 1%nat ltac:(done)). pose proof (Hg 2%nat ltac:(done)). lia.
Qed.

#[export] Instance test_inet_laws : @InetLaws test_inet.
Proof.
  split.
  - intros af a Haf Hl Hb. cbn [inet_pton inet_ntop test_inet].
    assert ((if af =? AF_INET then test_pton4 4 (test_ntop af a) else test_pton6 (test_ntop af a)) = a) as ->;
      [|by apply checked_pton_roundtrip].
    destruct Haf as [->| ->]; [by apply test_pton4_ntop4|by apply test_pton6_ntop6].
  - intros af s a H. apply checked_pton_ok in H as (Haf & Ha & Hs & Hb). rewrite Hs.
    destruct Haf as [->| ->].
    + apply test_ntop4_chars; [rewrite <- Ha; apply length_test_pton4|done].
    + apply test_ntop6_chars; [by rewrite <- Ha|done].
  - intros s a H. apply checked_pton_ok in H as (_ & _ & -> & _). apply colons_test_ntop6.
  - intros af a Hl Hb. revert Hl. cbn [inet_ntop test_inet]. unfold test_ntop, text_len, addr_len.
    destruct (af =? AF_INET); [by intros; apply test_ntop4_chars|]. intros _.
    destruct (af =? AF_INET6); cbn; lia.
Qed.
