(* ===== verification/Utils.v ===== *)
(** Command line options: [optstring_from_long_options] of [src/utils.c] and what [main] uses
    of [getopt_long].

    udpgrm lists its options once, in the table of long options, and derives the string of
    short options from it. [short_options_spec] says that the derived string means what the
    table says. *)

From Stdlib Require Import String.
From S2P Require Import Prelude Net.

Abbreviation text := (list Z).

(** [struct option]. [o_flag]: the field [flag] is set, [getopt_long] then stores [val] behind
    it and returns 0. *)
Inductive has_arg := no_argument | required_argument | optional_argument.
Record long_option := mk_option { o_name : text; o_arg : has_arg; o_flag : bool; o_val : Z }.

#[export] Instance has_arg_eq_dec : EqDecision has_arg.
Proof. solve_decision. Defined.
#[export] Instance long_option_eq_dec : EqDecision long_option.
Proof. solve_decision. Defined.

Definition lettered (o : long_option) : bool := negb (o_flag o) && (0 <? o_val o) && (o_val o <? 256).
Definition colons_of (a : has_arg) : text :=
  match a with optional_argument => [c_colon; c_colon] | required_argument => [c_colon] | no_argument => [] end.
Fixpoint option_letters (opt : list long_option) : text :=
  match opt with
  | [] => []
  | o :: opt => (if lettered o then o_val o :: colons_of (o_arg o) else []) ++ option_letters opt
  end.
(** [None]: [abort], or written beyond the 256 bytes of the buffer before. *)
Definition optstring_from_long_options (opt : list long_option) : option text :=
  let osp := option_letters opt in
  if (256 <=? length osp + 1)%nat then None else Some osp.

(** ** [getopt_long]

    GNU's, without [POSIXLY_CORRECT]: options may follow other arguments, a long name may be
    abbreviated, its value follows an equals sign or, where one is required, is the next
    argument. An event is a value that [getopt_long] returns with [optarg]; [?] is any
    complaint. *)
Definition event : Type := Z * option text.
Definition complaint : event := (63, None).

Definition short_arg (optstring : text) (c : Z) : option has_arg :=
  if (c =? c_colon) || (c =? 59) then None
  else
    match strchr optstring c with
    | None => None
    | Some s =>
        Some (if bool_decide (nth 1 s 0 = c_colon) then
                if bool_decide (nth 2 s 0 = c_colon) then optional_argument else required_argument
              else no_argument)
    end.

(** The letters after a dash: the events, and whether they took the next argument. *)
Fixpoint cluster (optstring cl : text) (next : option text) : list event * bool :=
  match cl with
  | [] => ([], false)
  | c :: cl =>
      match short_arg optstring c with
      | None => let '(es, u) := cluster optstring cl next in (complaint :: es, u)
      | Some no_argument => let '(es, u) := cluster optstring cl next in ((c, None) :: es, u)
      | Some required_argument =>
          match cl, next with
          | [], Some x => ([(c, Some x)], true)
          | [], None => ([complaint], false)
          | _, _ => ([(c, Some cl)], false)
          end
      | Some optional_argument => ([(c, match cl with [] => None | _ => Some cl end)], false)
      end
  end.

Definition same_option (o p : long_option) : bool :=
  bool_decide (o_arg o = o_arg p) && eqb (o_flag o) (o_flag p) && (o_val o =? o_val p).
Definition find_long (longopts : list long_option) (name : text) : option long_option :=
  match filter (λ o, o_name o = name) longopts with
  | o :: _ => Some o
  | [] =>
      match filter (λ o, name `prefix_of` o_name o) longopts with
      | o :: os => if forallb (same_option o) os then Some o else None
      | [] => None
      end
  end.

(** Up to the first equals sign, and what follows it. *)
Fixpoint name_value (s : text) : text * option text :=
  match s with
  | [] => ([], None)
  | c :: s => if c =? 61 then ([], Some s) else let '(n, v) := name_value s in (c :: n, v)
  end.
Definition option_event (o : long_option) (v : option text) : event := (if o_flag o then 0 else o_val o, v).
Definition long_event (longopts : list long_option) (s : text) (next : option text) : event * bool :=
  let '(name, v) := name_value s in
  match find_long longopts name with
  | None => (complaint, false)
  | Some o =>
      match v, o_arg o with
      | Some _, no_argument => (complaint, false)
      | Some v, _ => (option_event o (Some v), false)
      | None, required_argument =>
          match next with Some x => (option_event o (Some x), true) | None => (complaint, false) end
      | None, _ => (option_event o None, false)
      end
  end.

(** The events in order, and the arguments that [argv] has from [optind] on at the end. *)
Fixpoint getopt_long (optstring : text) (longopts : list long_option) (args : list text) : list event * list text :=
  match args with
  | [] => ([], [])
  | a :: args =>
      if bool_decide (a = [45; 45]) then ([], args)
      else
        match a with
        | 45 :: c :: cl =>
            let '(es, used) :=
              if c =? 45 then let '(e, u) := long_event longopts cl (head args) in ([e], u)
              else cluster optstring (c :: cl) (head args) in
            let '(es', rest) :=
              if used then match args with [] => ([], []) | _ :: args => getopt_long optstring longopts args end
              else getopt_long optstring longopts args in
            (es ++ es', rest)
        | _ => let '(es, rest) := getopt_long optstring longopts args in (es, a :: rest)
        end
  end.

(** ** The derived string *)

(** Every letter and every name is used once; no letter has a meaning of its own in the
    string; names can be written behind two dashes. *)
Record table_ok (opt : list long_option) : Prop := {
  to_letters : NoDup (map o_val (filter lettered opt));
  to_plain : Forall (λ o, o_val o ≠ c_colon ∧ o_val o ≠ 59 ∧ o_val o ≠ 45) (filter lettered opt);
  to_names : NoDup (map o_name opt);
  to_text : Forall (λ o, o_name o ≠ [] ∧ (61 ∉ o_name o)) opt;
}.
#[export] Instance table_ok_dec opt : Decision (table_ok opt).
Proof.
  refine (cast_if (decide (NoDup (map o_val (filter lettered opt)) ∧
    Forall (λ o, o_val o ≠ c_colon ∧ o_val o ≠ 59 ∧ o_val o ≠ 45) (filter lettered opt) ∧
    NoDup (map o_name opt) ∧ Forall (λ o, o_name o ≠ [] ∧ (61 ∉ o_name o)) opt))); [by split; tauto|].
  intros [? ? ? ?]. tauto.
Defined.

Lemma strchr_skip s t c : c ∉ s → strchr (s ++ t) c = strchr t c.
Proof.
  induction s as [|x s IH]; [done|]. intros [Hx Hs]%not_elem_of_cons. cbn.
  destruct (Z.eqb_spec x c); [congruence|by apply IH].
Qed.
Lemma colons_only a c : c ∈ colons_of a → c = c_colon.
Proof. destruct a; cbn; rewrite ?elem_of_cons, ?elem_of_nil; tauto. Qed.
Lemma letters_in opt c : c ∈ option_letters opt → c = c_colon ∨ c ∈ map o_val (filter lettered opt).
Proof.
  induction opt as [|o opt IH]; [by intros ?%elem_of_nil|]. rewrite filter_cons. cbn [option_letters]. destruct (lettered o) eqn:E.
  - rewrite decide_True by exact I. cbn. rewrite !elem_of_cons, elem_of_app.
    intros [->|[Hc%colons_only|Hc]]; [auto|auto|]. destruct (IH Hc); auto.
  - rewrite decide_False by exact id. exact IH.
Qed.
(** What follows the colons of an option is a letter or nothing. *)
Lemma letters_head opt : table_ok opt → nth 0 (option_letters opt) 0 ≠ c_colon.
Proof.
  intros [_ Hp _ _]. induction opt as [|o opt IH]; [done|]. rewrite filter_cons in Hp. cbn [option_letters]. destruct (lettered o) eqn:E.
  - rewrite decide_True in Hp by exact I. apply Forall_cons_1 in Hp as [Ho _]. cbn. tauto.
  - rewrite decide_False in Hp by exact id. by apply IH.
Qed.

Lemma table_ok_tail o opt : table_ok (o :: opt) → table_ok opt.
Proof.
  intros [Hl Hp Hn Ht]. rewrite filter_cons in Hl, Hp. apply NoDup_cons in Hn as [_ Hn]. apply Forall_cons_1 in Ht as [_ Ht].
  case_decide; [|by split]. apply Forall_cons_1 in Hp as [_ Hp]. apply NoDup_cons in Hl as [_ Hl]. by split.
Qed.

Lemma strchr_letter opt o : table_ok opt → o ∈ opt → lettered o →
  ∃ r, strchr (option_letters opt) (o_val o) = Some (o_val o :: colons_of (o_arg o) ++ r) ∧ nth 0 r 0 ≠ c_colon.
Proof.
  intros Hok Hin Hlet. induction opt as [|p opt IH]; [by apply elem_of_nil in Hin|].
  pose proof (table_ok_tail _ _ Hok) as Htail. destruct Hok as [Hl Hp _ _]. rewrite filter_cons in Hl, Hp.
  apply elem_of_cons in Hin as [->|Hin].
  - cbn. rewrite Is_true_true in Hlet. rewrite Hlet. cbn. rewrite Z.eqb_refl. exists (option_letters opt). split; [done|by apply letters_head].
  - specialize (IH Htail Hin). cbn. destruct (lettered p) eqn:E; [|done]. rewrite decide_True in Hl, Hp by exact I.
    assert (o ∈ filter lettered opt) as Ho by (by apply list_elem_of_filter).
    apply Forall_cons_1 in Hp as [_ Hp]. rewrite Forall_forall in Hp. destruct (Hp _ Ho) as (Hc & _).
    apply NoDup_cons in Hl as [Hl _]. rewrite strchr_skip; [done|]. cbn. apply not_elem_of_cons. split.
    + intros Hv. apply Hl. rewrite <- Hv. by apply list_elem_of_fmap_2.
    + by intros ?%colons_only.
Qed.
Lemma short_arg_letter opt o : table_ok opt → o ∈ opt → lettered o → short_arg (option_letters opt) (o_val o) = Some (o_arg o).
Proof.
  intros Hok Hin Hlet. destruct (strchr_letter opt o Hok Hin Hlet) as (r & E & Hr). unfold short_arg.
  assert (o ∈ filter lettered opt) as Ho by (by apply list_elem_of_filter).
  pose proof (to_plain _ Hok) as Hp. rewrite Forall_forall in Hp. destruct (Hp _ Ho) as (Hc & Hs & _).
  destruct (Z.eqb_spec (o_val o) c_colon); [done|]. destruct (Z.eqb_spec (o_val o) 59); [done|]. cbn [orb]. rewrite E.
  destruct (o_arg o); destruct r; cbn in *; unfold c_colon in *; repeat case_bool_decide; congruence.
Qed.

Lemma find_long_name opt o : table_ok opt → o ∈ opt → find_long opt (o_name o) = Some o.
Proof.
  intros [_ _ Hn _] Hin. unfold find_long. destruct (filter _ opt) as [|p l] eqn:E.
  - assert (o ∈ filter (λ p, o_name p = o_name o) opt) as Ho by (by apply list_elem_of_filter).
    rewrite E in Ho. by apply elem_of_nil in Ho.
  - assert (p ∈ filter (λ p, o_name p = o_name o) opt) as [Hp Hp']%list_elem_of_filter by (rewrite E; left).
    f_equal. apply list_elem_of_lookup in Hin as [i Hi]. apply list_elem_of_lookup in Hp' as [j Hj].
    assert (i = j) as ->; [|congruence].
    apply (NoDup_lookup (map o_name opt) i j (o_name o) Hn); rewrite list_lookup_fmap; [by rewrite Hi|by rewrite Hj; cbn; rewrite Hp].
Qed.
Lemma name_value_name n : 61 ∉ n → name_value n = (n, None).
Proof. induction n as [|c n IH]; [done|]. intros [Hc Hn]%not_elem_of_cons. cbn. destruct (Z.eqb_spec c 61); [congruence|]. by rewrite IH. Qed.
Lemma name_value_value n v : 61 ∉ n → name_value (n ++ 61 :: v) = (n, Some v).
Proof. induction n as [|c n IH]; [done|]. intros [Hc Hn]%not_elem_of_cons. cbn. destruct (Z.eqb_spec c 61); [congruence|]. by rewrite IH. Qed.

(** C0. The short options mean what the table of long options says: a dash and the letter of
    an option has on [getopt_long] the effect of two dashes and its name, with the next
    argument, with a value attached, and without any, wherever it stands on the command
    line. *)
Theorem short_options_spec opts optstring o args :
  optstring_from_long_options opts = Some optstring → table_ok opts → o ∈ opts → lettered o →
  getopt_long optstring opts ([45; o_val o] :: args) = getopt_long optstring opts ((45 :: 45 :: o_name o) :: args) ∧
  ∀ v, v ≠ [] → o_arg o ≠ no_argument →
    getopt_long optstring opts ((45 :: o_val o :: v) :: args) =
    getopt_long optstring opts ((45 :: 45 :: o_name o ++ 61 :: v) :: args).
Proof.
  intros Hs Hok Hin Hlet. unfold optstring_from_long_options in Hs. destruct (_ <=? _)%nat; [done|]. injection Hs as <-.
  pose proof (short_arg_letter opts o Hok Hin Hlet) as Ha. pose proof (find_long_name opts o Hok Hin) as Hf.
  assert (o ∈ filter lettered opts) as Ho by (by apply list_elem_of_filter).
  pose proof (to_plain _ Hok) as Hp. rewrite Forall_forall in Hp. destruct (Hp _ Ho) as (_ & _ & Hd).
  pose proof (to_text _ Hok) as Ht. rewrite Forall_forall in Ht. destruct (Ht _ Hin) as [Hne H61].
  assert (o_flag o = false) as Hflag by (unfold lettered in Hlet; destruct (o_flag o); [done|done]).
  split.
  - cbn [getopt_long]. rewrite !bool_decide_false by congruence. destruct (Z.eqb_spec (o_val o) 45); [done|].
    rewrite Z.eqb_refl. unfold long_event. rewrite name_value_name, Hf by done. cbn [cluster]. rewrite Ha. unfold option_event. rewrite Hflag.
    by destruct (o_arg o), args.
  - intros v Hv Hn. cbn [getopt_long]. rewrite !bool_decide_false by (destruct (o_name o); cbn; congruence). destruct (Z.eqb_spec (o_val o) 45); [done|].
    rewrite Z.eqb_refl. unfold long_event. rewrite name_value_value, Hf by done. cbn [cluster]. rewrite Ha. unfold option_event. rewrite Hflag.
    by destruct (o_arg o), v.
Qed.

(** ** The options of udpgrm *)
Definition long_options : list long_option :=
  [mk_option (chars "help") no_argument false 104;
   mk_option (chars "pin-dir") required_argument false 112;
   mk_option (chars "install") optional_argument false 105;
   mk_option (chars "tubular") required_argument false 116;
   mk_option (chars "daemon") no_argument false 100;
   mk_option (chars "verbose") no_argument false 118;
   mk_option (chars "self") no_argument false 115;
   mk_option (chars "force") no_argument false 102;
   mk_option (chars "without-sendmsg") no_argument true 1].
Definition optstring : text := chars "hp:i::t:dvsf".

Lemma optstring_of_table : optstring_from_long_options long_options = Some optstring.
Proof. vm_compute. reflexivity. Qed.
Lemma long_options_ok : table_ok long_options.
Proof. apply (bool_decide_unpack _). vm_compute. exact I. Qed.

Lemma short_options_spec_witness :
  getopt_long optstring long_options [chars "-i/sys/fs/cgroup"; chars "-d"; chars "list"] =
  getopt_long optstring long_options [chars "--install=/sys/fs/cgroup"; chars "-d"; chars "list"].
Proof.
  apply (short_options_spec long_options optstring (mk_option (chars "install") optional_argument false 105)
    [chars "-d"; chars "list"] optstring_of_table long_options_ok).
  - apply list_elem_of_In. right. right. left. reflexivity.
  - exact I.
  - discriminate.
  - discriminate.
Defined.

Example options_anywhere :
  getopt_long optstring long_options (map chars ["list"; "--without"; "-vp"; "/x"; "--"; "-d"]%string) =
    ([(0, None); (118, None); (112, Some (chars "/x"))], [chars "list"; chars "-d"]).
Proof. vm_compute. reflexivity. Qed.
(** A name may be cut to [in], a name that there is not is a complaint; an optional value must be
    attached. *)
Example optional_value_attached :
  getopt_long optstring long_options (map chars ["--in"; "/x"; "-i"; "/x"; "--x"]%string) =
    ([(105, None); (105, None); complaint], [chars "/x"; chars "/x"]).
Proof. vm_compute. reflexivity. Qed.
