(* ===== verification/Text.v ===== *)
(** Texts, sizes and layouts: the printing helpers of [src/utils.c] and [src/net.c], the
    address that opens a line of the daemon's log in [src/udpgrm.c], and the control message
    of [src/tubular.c].

    The address text of [net_ss_ntop] is read back by [net_parse_sockaddr]; the size of a
    UNIX address covers its path exactly; the receiver of the control message gets the
    descriptors that were put in; the hex dump shows each byte of the memory in its place. *)

From Stdlib Require Import String.
From S2P Require Import Prelude SipHash Storage Flow Host Daemon Net.

(** ** Addresses *)
Definition AF_UNIX : Z := 1.
Definition UNIX_PATH_MAX : nat := 108.
(** [struct sockaddr_storage] by its family; [sun_path] has [UNIX_PATH_MAX] bytes. *)
Inductive storage := Ss_in (ss : sockaddr) | Ss_un (sun_path : list Z).

Fixpoint strnlen (s : list Z) (n : nat) {struct n} : nat :=
  match n, s with
  | S n, c :: s => if c =? 0 then O else S (strnlen s n)
  | _, _ => O
  end.
(** The string that starts at a buffer. *)
Definition c_str (s : list Z) : list Z := take (strnlen s (length s)) s.

Definition net_ss_size (ss : storage) : Z :=
  match ss with
  | Ss_in ss => if ss_family ss =? AF_INET then 16 else if ss_family ss =? AF_INET6 then 28 else 128
  | Ss_un sun_path =>
      2 + (if negb (nth 0 sun_path 0 =? 0) then Z.of_nat (strnlen sun_path UNIX_PATH_MAX)
           else 1 + Z.of_nat (strnlen (drop 1 sun_path) (UNIX_PATH_MAX - 1)))
  end.

Section Addresses.
Context {I : Inet}.

(** [None]: the process ends. *)
Definition net_ss_ntop (ss : storage) (show_port : bool) : option (list Z) :=
  match ss with
  | Ss_in ss =>
      if ss_family ss =? AF_INET then
        let s := inet_ntop AF_INET (ip4_bytes (ss_ip ss)) in
        Some (snprintf 160 (if show_port then s ++ c_colon :: dec (u16 (bswap16 (ss_port ss))) else s))
      else if ss_family ss =? AF_INET6 then
        let s := inet_ntop AF_INET6 (ip_bytes (ss_ip ss)) in
        Some (snprintf 160 (if show_port then [c_open] ++ s ++ [c_close; c_colon] ++ dec (u16 (bswap16 (ss_port ss))) else s))
      else None
  | Ss_un sun_path =>
      let s := sun_path ++ [0] in
      let s := if nth 0 s 0 =? 0 then <[0%nat := 64]> s else s in
      Some (snprintf 160 (c_str s))
  end.

(** [%04x] *)
Definition hex4 (n : Z) : list Z := let h := hex n in repeat 48 (4 - length h) ++ h.
Definition skey_sprint (skey : reuseport_storage_key) : list Z :=
  if family skey =? AF_INET then
    let ip := ip4_bytes (src_ip skey) in
    snprintf 64 (chars "udp://" ++ dec (nth 0 ip 0) ++ chars "." ++ dec (nth 1 ip 0) ++ chars "."
      ++ dec (nth 2 ip 0) ++ chars "." ++ dec (nth 3 ip 0) ++ chars ":" ++ dec (src_port skey))
  else if family skey =? AF_INET6 then
    let ip i := 256 * nth (2 * i) (ip_bytes (src_ip skey)) 0 + nth (2 * i + 1) (ip_bytes (src_ip skey)) 0 in
    snprintf 64 (chars "udp://[" ++ hex4 (ip 0%nat) ++ chars ":" ++ hex4 (ip 1%nat) ++ chars ":" ++ hex4 (ip 2%nat)
      ++ chars ":" ++ hex4 (ip 3%nat) ++ chars ":" ++ hex4 (ip 4%nat) ++ chars ":" ++ hex4 (ip 5%nat) ++ chars ":"
      ++ hex4 (ip 6%nat) ++ chars ":" ++ hex4 (ip 7%nat) ++ chars "]:" ++ dec (src_port skey))
  else snprintf 64 (chars "unknown-" ++ dec (family skey) ++ chars "://").
End Addresses.

(** ** Buffers *)

(** What the buffer holds, and the length the text would have had. *)
Definition snprintfcat (buf : list Z) (size : nat) (text : list Z) : list Z * nat :=
  let len := strnlen buf size in
  (take len buf ++ snprintf (size - len) text, (length text + len)%nat).

(** ** The hex dump *)
Definition LINE : nat := 128.
Definition hex_prefix (i : Z) : list Z := chars "  0x" ++ hex4 i ++ chars ": ".
(** A string and its final 0 over the start of a buffer. *)
Definition put (s line : list Z) : list Z := s ++ 0 :: drop (S (length s)) line.
Definition printable (b : Z) : Z := if (b <? 32) || (126 <? b) then 46 else b.

Definition set_cell (j : nat) (h l c : Z) (line : list Z) : list Z :=
  <[(59 + j)%nat := c]> (<[(10 + j * 3 + 1)%nat := l]> (<[(10 + j * 3)%nat := h]> line)).
Definition hex_cell (j : nat) (b : Z) (line : list Z) : list Z :=
  set_cell j (digit (Z.land (Z.shiftr b 4) 15)) (digit (Z.land b 15)) (printable b) line.
(** [while ((i % 16) != 0)] *)
Fixpoint blank_cells (fuel : nat) (i : Z) (line : list Z) : list Z :=
  match fuel with
  | O => line
  | S fuel =>
      if i mod 16 =? 0 then line else blank_cells fuel (i + 1) (set_cell (Z.to_nat (i mod 16)) 32 32 32 line)
  end.
(** The lines that are printed from byte [i] on, whose bytes are [addr]. *)
Fixpoint hex_lines (i : Z) (addr line : list Z) : list (list Z) :=
  match addr with
  | [] => [c_str (blank_cells 16 i line)]
  | b :: addr =>
      let starts := i mod 16 =? 0 in
      let printed := if starts && negb (i =? 0) then [c_str line] else [] in
      let line := if starts then put (hex_prefix i) line else line in
      printed ++ hex_lines (i + 1) addr (hex_cell (Z.to_nat (i mod 16)) b line)
  end.
(** The text, and the number of lines after the description. *)
Definition fprintf_hex (desc : option (list Z)) (addr : list Z) : list Z * Z :=
  let lines := hex_lines 0 addr (repeat 32 LINE) in
  (match desc with Some d => d ++ [c_colon; 10] | None => [] end ++ concat (map (λ l, l ++ [10]) lines),
   Z.of_nat (length lines)).

(** ** The message that carries descriptors *)
Definition SOL_SOCKET : Z := 1.
Definition SCM_RIGHTS : Z := 1.
Definition CMSG_ALIGN (n : nat) : nat := ((n + 7) / 8 * 8)%nat.
Definition CMSG_LEN (n : nat) : nat := (16 + n)%nat.
Definition CMSG_SPACE (n : nat) : nat := (16 + CMSG_ALIGN n)%nat.
(** The [msg_controllen] bytes of [msg_control]; [struct cmsghdr] is a length of eight bytes, a
    level and a type. *)
Definition set_scm_rights_cmsg (single_ctrl_sz : nat) (fds : list Z) : list Z :=
  let c := zeros single_ctrl_sz in
  let c := store c 8 (le_bytes 4 SOL_SOCKET) in
  let c := store c 12 (le_bytes 4 SCM_RIGHTS) in
  let c := store c 0 (le_bytes 8 (Z.of_nat (CMSG_LEN (4 * length fds)))) in
  let c := store c 16 (concat (map (le_bytes 4) fds)) in
  take (CMSG_SPACE (4 * length fds)) c.
(** [ctrl_sz] of [tubular_register]. *)
Definition ctrl_sz (fds : list Z) : nat := (CMSG_SPACE (4 * length fds) + 1024)%nat.

(** ** The address text *)
Section AddressFacts.
Context {I : Inet} {L : InetLaws}.

(** Of the address of a group it is the name of the group. *)
Theorem net_ss_ntop_spec k :
  name_ok k → net_ss_ntop (Ss_in (sockaddr_from_msg_value k)) true = Some (key_to_str k) ∧
    net_parse_sockaddr (key_to_str k) 0 = (family k, sockaddr_from_msg_value k).
Proof.
  intros Hk. split; [|by apply key_to_str_parses]. destruct Hk as [Hf _ Hp Hip].
  destruct k as [fam res port [[[a b] c] d]]. cbn [family src_port src_ip] in *. destruct Hip as (Ha & Hb & Hc & Hd & H4).
  assert (u16 (bswap16 (bswap16 port)) = port) as Hport.
  { rewrite bswap_bswap. change (2 ^ (8 * Z.of_nat 2)) with (2 ^ 16). unfold u16. rewrite Z.mod_mod by lia. apply Z.mod_small. lia. }
  pose proof (length_digits 20 10 port [] 5 ltac:(lia)
    ltac:(change (10 ^ Z.of_nat 5) with 100000; lia) ltac:(lia)) as Hl. fold (dec port) in Hl. cbn [length] in Hl.
  unfold net_ss_ntop, key_to_str, sockaddr_from_msg_value. cbn [family src_port src_ip].
  destruct Hf as [->| ->].
  - change (AF_INET =? AF_INET) with true. cbn [ss_family ss_port ss_ip]. cbv iota. change (AF_INET =? AF_INET) with true. cbv iota.
    rewrite Hport. pose proof (inet_length AF_INET (ip4_bytes (a, b, c, d)) (length_ip4_bytes _) (ip4_bytes_ok _)) as Ht.
    change (text_len AF_INET) with 16%nat in Ht. destruct (H4 eq_refl) as (-> & -> & ->).
    rewrite !snprintf_fits by (rewrite !length_app; cbn [length]; lia). done.
  - change (AF_INET6 =? AF_INET) with false. change (AF_INET6 =? AF_INET6) with true. cbv iota. cbn [ss_family ss_port ss_ip].
    change (AF_INET6 =? AF_INET) with false. change (AF_INET6 =? AF_INET6) with true. cbv iota. rewrite Hport.
    pose proof (inet_length AF_INET6 (ip_bytes (a, b, c, d)) (length_ip_bytes _) (ip_bytes_ok _)) as Ht.
    change (text_len AF_INET6) with 46%nat in Ht.
    rewrite !snprintf_fits by (rewrite !length_app; cbn [length]; lia). done.
Qed.
End AddressFacts.

Lemma strnlen_spec p r n : 0 ∉ p → (length p <= n)%nat → (n = length p ∨ ∃ r', r = 0 :: r') → strnlen (p ++ r) n = length p.
Proof.
  revert n. induction p as [|c p IH]; intros n Hp Hn Hr; cbn.
  - destruct Hr as [->|[r' ->]]; [done|]. by destruct n.
  - apply not_elem_of_cons in Hp as [Hc Hp]. destruct n as [|n]; cbn in *; [lia|]. destruct (Z.eqb_spec c 0); [congruence|].
    f_equal. apply IH; [done|lia|]. destruct Hr as [?|?]; [left; lia|by right].
Qed.
(** The address of the Tubular socket is as long as its path, cut at the size of the field;
    the empty path is an abstract address. *)
Theorem net_ss_size_spec tubular_path :
  0 ∉ tubular_path →
  let path := take UNIX_PATH_MAX tubular_path in
  net_ss_size (Ss_un (path ++ zeros (UNIX_PATH_MAX - length path))) =
    match path with [] => 3 | _ => 2 + Z.of_nat (length path) end.
Proof.
  intros H0 path. assert (0 ∉ path) as Hp by (intros Hin; apply H0; by apply elem_of_take in Hin as (i & Hi%list_elem_of_lookup_2 & _)).
  assert (length path <= UNIX_PATH_MAX)%nat as Hl by (unfold path; rewrite length_take; lia).
  clearbody path. destruct path as [|c path]; [reflexivity|]. unfold net_ss_size.
  assert (c ≠ 0) by (apply not_elem_of_cons in Hp as [? _]; congruence). cbn [app nth].
  destruct (Z.eqb_spec c 0); [done|]. cbn [negb]. f_equal. f_equal. change (c :: path ++ ?r) with ((c :: path) ++ r).
  apply strnlen_spec; [done|done|]. destruct (decide (length (c :: path) = UNIX_PATH_MAX)) as [E|E]; [by left|right].
  destruct (UNIX_PATH_MAX - length (c :: path))%nat eqn:En; [lia|]. by eexists.
Qed.

(** ** Descriptors arrive *)

(** What the receiver reads: the descriptors of a well-formed first message. *)
Fixpoint ints (n : nat) (l : list Z) : list Z :=
  match n with O => [] | S n => s32 (load 4 l 0) :: ints n (drop 4 l) end.
Definition scm_rights (msg_control : list Z) : option (list Z) :=
  let len := load 8 msg_control 0 in
  if (16 <=? len) && (len <=? Z.of_nat (length msg_control)) && (load 4 msg_control 8 =? SOL_SOCKET)
     && (load 4 msg_control 12 =? SCM_RIGHTS)
  then Some (ints (Z.to_nat ((len - 16) / 4)) (drop 16 msg_control)) else None.

Lemma ints_of fds r : Forall (λ f, - 2 ^ 31 <= f < 2 ^ 31) fds → ints (length fds) (concat (map (le_bytes 4) fds) ++ r) = fds.
Proof.
  induction 1 as [|f fds Hf _ IH]; [done|]. cbn [length ints map concat]. rewrite <- app_assoc, load_app_here.
  rewrite (drop_app_length' (le_bytes 4 f)) by (by rewrite length_le_bytes). rewrite IH. f_equal.
  change (2 ^ (8 * Z.of_nat 4)) with (2 ^ 32). unfold s32, u32. rewrite Z.mod_mod by lia.
  destruct (Z.ltb_spec (f mod 2 ^ 32) (2 ^ 31)); Z.div_mod_to_equations; lia.
Qed.
Lemma length_ints fds : length (concat (map (le_bytes 4) fds)) = (4 * length fds)%nat.
Proof. induction fds as [|f fds IH]; [done|]. cbn [map concat]. rewrite length_app, length_le_bytes, IH. cbn. lia. Qed.
Lemma load_head n l off k : (off + n <= k)%nat → load n (take k l) off = load n l off.
Proof. intros H. unfold load, slice. by rewrite skipn_firstn_comm, take_take, Nat.min_l by lia. Qed.

(** The receiver of the message gets exactly the descriptors that were put in, whatever their
    number, and the buffer is large enough. *)
Theorem scm_rights_roundtrip fds :
  Forall (λ f, - 2 ^ 31 <= f < 2 ^ 31) fds → Z.of_nat (length fds) < 2 ^ 31 →
  scm_rights (set_scm_rights_cmsg (ctrl_sz fds) fds) = Some fds ∧
  (CMSG_LEN (4 * length fds) <= length (set_scm_rights_cmsg (ctrl_sz fds) fds) <= ctrl_sz fds)%nat.
Proof.
  intros Hf Hn. set (n := length fds) in *. set (m := set_scm_rights_cmsg (ctrl_sz fds) fds).
  set (h := store (store (store (zeros (ctrl_sz fds)) 8 (le_bytes 4 SOL_SOCKET)) 12 (le_bytes 4 SCM_RIGHTS)) 0
    (le_bytes 8 (Z.of_nat (CMSG_LEN (4 * n))))).
  assert (4 * n <= CMSG_ALIGN (4 * n))%nat as Ha.
  { unfold CMSG_ALIGN. pose proof (Nat.div_mod_eq (4 * n + 7) 8). pose proof (Nat.mod_upper_bound (4 * n + 7) 8 ltac:(lia)). lia. }
  assert (length (zeros (ctrl_sz fds)) = 16 + CMSG_ALIGN (4 * n) + 1024)%nat as Hz by (unfold zeros; by rewrite repeat_length).
  assert (length h = 16 + CMSG_ALIGN (4 * n) + 1024)%nat as Hh by (unfold h; store_lengths).
  assert (m = take (CMSG_SPACE (4 * n)) (take 16 h ++ concat (map (le_bytes 4) fds) ++ drop (16 + 4 * n) h)) as Em.
  { unfold m, set_scm_rights_cmsg. fold n h. by rewrite store_spec, length_ints by (rewrite length_ints; fold n; lia). }
  assert (length m = CMSG_SPACE (4 * n)) as Hm.
  { rewrite Em, length_take, !length_app, length_take, length_ints, length_drop. fold n. unfold CMSG_SPACE. lia. }
  assert (∀ k off, (off + k <= 16)%nat → load k m off = load k h off) as Hload.
  { intros k off Hk. rewrite Em, load_head by (unfold CMSG_SPACE; lia).
    rewrite <- (load_head k _ off 16), take_app_le, take_take, Nat.min_l by (rewrite ?length_take; lia). by apply load_head. }
  split; [|rewrite Hm; unfold CMSG_LEN, CMSG_SPACE, ctrl_sz; fold n; unfold CMSG_SPACE; lia].
  unfold scm_rights. rewrite !Hload, Hm by lia.
  assert (load 8 h 0 = Z.of_nat (CMSG_LEN (4 * n))) as ->.
  { unfold h. rewrite load_store_same by store_lengths. apply Z.mod_small. unfold CMSG_LEN. lia. }
  assert (load 4 h 8 = SOL_SOCKET) as ->.
  { unfold h, load. rewrite slice_store_after, slice_store_before by store_lengths.
    fold (load 4 (store (zeros (ctrl_sz fds)) 8 (le_bytes 4 SOL_SOCKET)) 8). rewrite load_store_same by lia. done. }
  assert (load 4 h 12 = SCM_RIGHTS) as ->.
  { unfold h, load. rewrite slice_store_after by store_lengths.
    match goal with |- le_combine (slice ?l 12 4) = _ => change (load 4 l 12 = SCM_RIGHTS) end.
    rewrite load_store_same by store_lengths. done. }
  rewrite !Z.eqb_refl. unfold CMSG_LEN, CMSG_SPACE. rewrite (proj2 (Z.leb_le 16 _)) by lia. rewrite (proj2 (Z.leb_le _ _)) by lia.
  cbn [andb]. f_equal. replace (Z.to_nat ((Z.of_nat (16 + 4 * n) - 16) / 4)) with n
    by (replace (Z.of_nat (16 + 4 * n) - 16) with (Z.of_nat n * 4) by lia; rewrite Z.div_mul by lia; lia).
  rewrite Em. unfold CMSG_SPACE. rewrite skipn_firstn_comm, drop_app_length' by (rewrite length_take; lia).
  rewrite take_app_ge by (rewrite length_ints; fold n; lia). by apply ints_of.
Qed.

(** ** The hex dump shows the memory *)

(** The characters of byte [j] of a line that shows [bs]. *)
Definition high (bs : list Z) (j : nat) : Z := match bs !! j with Some b => digit (Z.land (Z.shiftr b 4) 15) | None => 32 end.
Definition low (bs : list Z) (j : nat) : Z := match bs !! j with Some b => digit (Z.land b 15) | None => 32 end.
Definition char (bs : list Z) (j : nat) : Z := match bs !! j with Some b => printable b | None => 32 end.
(** The first [k] cells of a line show the bytes [bs] at [off]. *)
Record row (off : Z) (bs : list Z) (k : nat) (l : list Z) : Prop := {
  row_length : length l = LINE;
  row_address : take 10 l = take 10 (hex_prefix off);
  row_high : ∀ j, (j < k)%nat → l !! (10 + j * 3)%nat = Some (high bs j);
  row_low : ∀ j, (j < k)%nat → l !! (10 + j * 3 + 1)%nat = Some (low bs j);
  row_char : ∀ j, (j < k)%nat → l !! (59 + j)%nat = Some (char bs j);
}.
(** The lines of a dump: sixteen bytes each, fewer in the last. *)
Inductive dump : Z → list Z → list (list Z) → Prop :=
  | Dump_last off bs l : (0 < length bs <= 16)%nat → row off bs 16 l → dump off bs [l]
  | Dump_line off bs rest l ls :
      length bs = 16%nat → rest ≠ [] → row off bs 16 l → dump (off + 16) rest ls → dump off (bs ++ rest) (l :: ls).

Lemma digit_range d : 0 <= d < 16 → 48 <= digit d < 103.
Proof. unfold digit. destruct (Z.ltb_spec d 10); lia. Qed.
Lemma digits_range fuel n acc : 0 <= n → Forall (λ c, 48 <= c) acc → Forall (λ c, 48 <= c) (digits fuel 16 n acc).
Proof.
  revert n acc. induction fuel as [|fuel IH]; intros n acc Hn Hacc; [done|]. cbn.
  assert (Forall (λ c, 48 <= c) (digit (n mod 16) :: acc)).
  { constructor; [|done]. pose proof (Z.mod_pos_bound n 16 ltac:(lia)). pose proof (digit_range (n mod 16)). lia. }
  destruct (n / 16 =? 0); [done|]. apply IH; [|done]. by apply Z.div_pos.
Qed.

Lemma hex_prefix_spec off : 0 <= off < 16 ^ 5 → (length (hex_prefix off) = 10 ∨ length (hex_prefix off) = 11)%nat ∧ 0 ∉ hex_prefix off.
Proof.
  intros Ho. pose proof (length_digits 16 16 off [] 5 ltac:(lia) ltac:(change (16 ^ Z.of_nat 5) with (16 ^ 5); lia) ltac:(lia)) as Hl.
  pose proof (digits_range 16 off [] ltac:(lia) ltac:(constructor)) as Hd. unfold hex_prefix, hex4. fold (hex off) in *.
  change (length [] : nat) with 0%nat in Hl. split.
  - rewrite !length_app, repeat_length. change (length (chars "  0x")) with 4%nat. change (length (chars ": ")) with 2%nat. lia.
  - rewrite !elem_of_app. intros [H|[[H|H]|H]].
    + revert H. apply (bool_decide_unpack _). vm_compute. exact I.
    + apply list_elem_of_In, repeat_spec in H. done.
    + rewrite Forall_forall in Hd. apply Hd in H. lia.
    + revert H. apply (bool_decide_unpack _). vm_compute. exact I.
Qed.

Lemma set_cell_lookup j h l c line x : (j < 16)%nat → length line = LINE →
  set_cell j h l c line !! x =
    if decide (x = 59 + j)%nat then Some c else if decide (x = 10 + j * 3 + 1)%nat then Some l
    else if decide (x = 10 + j * 3)%nat then Some h else line !! x.
Proof.
  intros Hj Hl. unfold set_cell. unfold LINE in Hl. repeat case_decide; subst;
    repeat first [ rewrite list_lookup_insert_eq by (rewrite ?length_insert; lia) | rewrite list_lookup_insert_ne by lia ]; done.
Qed.
Lemma set_cell_row off bs j h l c line : (j < 16)%nat → row off bs j line →
  h = high bs j → l = low bs j → c = char bs j → row off bs (S j) (set_cell j h l c line).
Proof.
  intros Hj [Hl Ha H1 H2 H3] -> -> ->. split.
  - unfold set_cell. by rewrite !length_insert.
  - unfold set_cell. by rewrite !take_insert_ge by lia.
  - intros k Hk. rewrite set_cell_lookup by done. repeat case_decide; try lia; [|apply H1; lia]. f_equal. f_equal. lia.
  - intros k Hk. rewrite set_cell_lookup by done. repeat case_decide; try lia; [|apply H2; lia]. f_equal. f_equal. lia.
  - intros k Hk. rewrite set_cell_lookup by done. repeat case_decide; try lia; [|apply H3; lia]. f_equal. f_equal. lia.
Qed.
Lemma set_cell_text j h l c line : (j < 16)%nat → length line = LINE → h ≠ 0 → l ≠ 0 → c ≠ 0 → 0 ∉ line → 0 ∉ set_cell j h l c line.
Proof.
  intros Hj Hl Hh Hl0 Hc H0 [x Hx]%list_elem_of_lookup. rewrite set_cell_lookup in Hx by done.
  repeat case_decide; try congruence. apply H0, list_elem_of_lookup. eauto.
Qed.
Lemma cell_text b : 0 <= b → digit (Z.land (Z.shiftr b 4) 15) ≠ 0 ∧ digit (Z.land b 15) ≠ 0 ∧ printable b ≠ 0.
Proof.
  intros Hb. change 15 with (Z.ones 4). rewrite !Z.land_ones by lia.
  pose proof (Z.mod_pos_bound (Z.shiftr b 4) (2 ^ 4) ltac:(lia)). pose proof (Z.mod_pos_bound b (2 ^ 4) ltac:(lia)).
  pose proof (digit_range (Z.shiftr b 4 mod 2 ^ 4)). pose proof (digit_range (b mod 2 ^ 4)).
  unfold printable. destruct (Z.ltb_spec b 32), (Z.ltb_spec 126 b); cbn; lia.
Qed.

(** A line is begun: the final 0 of the address is overwritten with the first byte. *)
Lemma begin_row off b line :
  0 <= off < 16 ^ 5 → 0 <= b → length line = LINE → 0 ∉ line →
  row off [b] 1 (hex_cell 0 b (put (hex_prefix off) line)) ∧ 0 ∉ hex_cell 0 b (put (hex_prefix off) line).
Proof.
  intros Ho Hb Hl H0. destruct (hex_prefix_spec off Ho) as [Hp Hp0]. destruct (cell_text b Hb) as (N1 & N2 & N3).
  assert (length (put (hex_prefix off) line) = LINE) as Hlen.
  { unfold put. rewrite length_app. cbn [length]. rewrite length_drop. unfold LINE in *. lia. }
  split.
  - apply set_cell_row; [lia| |done..]. split; [done| |intros; lia..]. unfold put. rewrite take_app_le by lia. done.
  - intros [x Hx]%list_elem_of_lookup. unfold hex_cell in Hx. rewrite set_cell_lookup in Hx by (done || lia).
    repeat case_decide; try congruence. unfold put in Hx. apply lookup_app_Some in Hx as [Hx|[Hge Hx]].
    + apply Hp0, list_elem_of_lookup. eauto.
    + destruct (x - length (hex_prefix off))%nat as [|y] eqn:E; [lia|]. change (drop (S (length (hex_prefix off))) line !! y = Some 0) in Hx. rewrite lookup_drop in Hx.
      apply H0, list_elem_of_lookup. eauto.
Qed.

Lemma blank_row fuel off bs k line :
  off mod 16 = 0 → (length bs <= k <= 16)%nat → (0 < k)%nat → (16 - k <= fuel)%nat → row off bs k line → 0 ∉ line →
  row off bs 16 (blank_cells fuel (off + Z.of_nat k) line) ∧ 0 ∉ blank_cells fuel (off + Z.of_nat k) line.
Proof.
  intros Hm. revert k line. induction fuel as [|fuel IH]; intros k line Hk H0k Hf Hr H0; cbn [blank_cells].
  { by replace k with 16%nat in Hr by lia. }
  assert ((off + Z.of_nat k) mod 16 = Z.of_nat k mod 16) as -> by (rewrite Z.add_mod, Hm, Z.add_0_l, Z.mod_mod by lia; done).
  destruct (decide (k = 16)%nat) as [->|Hne]; [done|]. rewrite Z.mod_small by lia.
  destruct (Z.eqb_spec (Z.of_nat k) 0); [lia|]. rewrite Nat2Z.id. replace (off + Z.of_nat k + 1) with (off + Z.of_nat (S k)) by lia.
  apply IH; [lia|lia|lia| |].
  - apply set_cell_row; [lia|done|unfold high|unfold low|unfold char]; by rewrite lookup_ge_None_2 by lia.
  - apply set_cell_text; (done || lia || by destruct Hr).
Qed.

Lemma c_str_text l : 0 ∉ l → c_str l = l.
Proof.
  intros H0. unfold c_str. apply take_ge. pose proof (strnlen_spec l [] (length l) H0 ltac:(lia) ltac:(by left)) as E.
  rewrite app_nil_r in E. lia.
Qed.
Lemma row_prefix off bs b k line : length bs = k → row off bs k line → row off (bs ++ [b]) k line.
Proof.
  intros Hk [Hl Ha H1 H2 H3]. split; [done|done|intros j Hj..].
  - rewrite H1 by done. unfold high. by rewrite lookup_app_l by lia.
  - rewrite H2 by done. unfold low. by rewrite lookup_app_l by lia.
  - rewrite H3 by done. unfold char. by rewrite lookup_app_l by lia.
Qed.

(** From the middle of a line on. *)
Lemma hex_lines_dump off bs addr line :
  0 <= off → off mod 16 = 0 → off + Z.of_nat (length bs + length addr) <= 16 ^ 5 → (0 < length bs <= 16)%nat →
  Forall (λ b, 0 <= b) addr → row off bs (length bs) line → 0 ∉ line →
  dump off (bs ++ addr) (hex_lines (off + Z.of_nat (length bs)) addr line).
Proof.
  revert off bs line. induction addr as [|b addr IH]; intros off bs line Ho Hm Hmax Hbs Hpos Hr H0; cbn [hex_lines].
  - destruct (blank_row 16 off bs (length bs) line) as [Hr' H0']; [done|lia|lia|lia|done|done|].
    rewrite app_nil_r, c_str_text by done. by apply Dump_last.
  - apply Forall_cons_1 in Hpos as [Hb Hpos]. cbn [length] in Hmax.
    assert ((off + Z.of_nat (length bs)) mod 16 = Z.of_nat (length bs) mod 16) as ->
      by (rewrite Z.add_mod, Hm, Z.add_0_l, Z.mod_mod by lia; done).
    destruct (decide (length bs = 16)%nat) as [Hfull|Hless].
    + rewrite Hfull. change (Z.of_nat 16 mod 16) with 0. destruct (Z.eqb_spec (off + Z.of_nat 16) 0); [lia|].
      cbn [andb negb Z.eqb]. rewrite c_str_text by done. cbn [app]. rewrite Hfull in Hr.
      destruct (begin_row (off + Z.of_nat 16) b line) as [Hr1 H01]; [lia|done|by destruct Hr|done|].
      apply Dump_line; [done|done|done|]. change (Z.of_nat 16) with 16 in *.
      assert ((off + 16) mod 16 = 0) as Hm' by (by rewrite Z.add_mod, Hm by lia).
      specialize (IH (off + 16) [b] (hex_cell 0 b (put (hex_prefix (off + 16)) line)) ltac:(lia) Hm'
        ltac:(cbn [length]; lia) ltac:(cbn; lia) Hpos Hr1 H01).
      cbn [app length] in IH. exact IH.
    + rewrite Z.mod_small by lia. destruct (Z.eqb_spec (Z.of_nat (length bs)) 0); [lia|]. cbn [andb app]. rewrite Nat2Z.id.
      replace (bs ++ b :: addr) with ((bs ++ [b]) ++ addr) by (by rewrite <- app_assoc).
      replace (off + Z.of_nat (length bs) + 1) with (off + Z.of_nat (length (bs ++ [b]))) by (rewrite length_app; cbn; lia).
      destruct (cell_text b Hb) as (N1 & N2 & N3).
      apply IH; [done|done|rewrite length_app; cbn; lia|rewrite length_app; cbn; lia|done| |].
      * rewrite length_app. cbn [length]. rewrite Nat.add_1_r. apply set_cell_row; [lia|by apply row_prefix| | |];
          [unfold high|unfold low|unfold char]; by rewrite lookup_app_r, Nat.sub_diag by lia.
      * apply set_cell_text; (done || lia || by destruct Hr).
Qed.

(** The dump of up to a megabyte shows every byte, in hexadecimal and as a character, at its
    place behind the address of its line, and the result is the number of lines. *)
Theorem fprintf_hex_spec desc addr :
  addr ≠ [] → Forall (λ b, 0 <= b) addr → Z.of_nat (length addr) <= 16 ^ 5 →
  ∃ ls, dump 0 addr ls ∧
    fprintf_hex desc addr =
      (match desc with Some d => d ++ [c_colon; 10] | None => [] end ++ concat (map (λ l, l ++ [10]) ls), Z.of_nat (length ls)).
Proof.
  intros Hne Hpos Hmax. eexists. split; [|reflexivity]. destruct addr as [|b addr]; [done|]. apply Forall_cons_1 in Hpos as [Hb Hpos].
  cbn [hex_lines length] in *. change (0 mod 16 =? 0) with true. cbn [andb negb app Z.eqb].
  destruct (begin_row 0 b (repeat 32 LINE)) as [Hr H0]; [lia|done|done| |].
  { intros Hin. apply list_elem_of_In, repeat_spec in Hin. done. }
  by apply (hex_lines_dump 0 [b] addr _ ltac:(lia) eq_refl ltac:(cbn [length]; lia) ltac:(cbn; lia) Hpos).
Qed.

Example dump_of_three : fprintf_hex None [72; 105; 10] =
  (chars "  0x0000: 48 69 0a                                         Hi." ++ repeat 32 66 ++ [10], 1).
Proof. vm_compute. reflexivity. Qed.
(** Beyond a megabyte the address has six digits and its final 0 cuts the line. *)
Example dump_cut : c_str (hex_cell 0 72 (put (hex_prefix (16 ^ 5)) (repeat 32 LINE))) = chars "  0x10000048".
Proof. vm_compute. reflexivity. Qed.
Example log_address : skey_sprint (mk_skey AF_INET6 0 443 (8388640, 0, 0, 16777216)) =
  chars "udp://[2000:8000:0000:0000:0000:0000:0000:0001]:443".
Proof. vm_compute. reflexivity. Qed.
Example catenated : snprintfcat (chars "ab" ++ zeros 6) 8 (chars "cdefgh") = (chars "abcdefg", 8%nat).
Proof. vm_compute. reflexivity. Qed.
