(* ===== verification/Bpffs.v ===== *)
(** Pinned programs and cgroup hooks: the interface to the kernel that the set-up of udpgrm
    uses, and commands that may end the process.

    [os] is what the set-up sees of the machine: the descriptors of the process, the objects
    pinned in the BPF file system, the directories, and the programs attached to cgroups.
    [Bpffs] is the interface to the system calls, [BpffsLaws] what they are documented to do:
    a call fails and leaves everything as it was, or succeeds with the effect its name says.
    A link that nothing refers to any more may be detached by the kernel at any later time;
    [settles] leaves that open. *)

From S2P Require Import Prelude Net.

Abbreviation path := (list Z).

Inductive bpf_obj := O_prog (id : Z) | O_map (id : Z) | O_link (id : Z).
(** What the daemon waits for: signals, messages in the ring buffer of a map. *)
Inductive events := Signals (mask : gset Z) | Ring (map_id : Z).
Inductive descr := D_obj (o : bpf_obj) | D_dir (p : path) | D_event (e : events).
(** A program attached to a cgroup through a link; [at_cgroup] is the inode of the cgroup. *)
Record attachment := mk_att { at_cgroup : Z; at_type : Z; at_prog : Z }.
Record os := mk_os {
  os_fds : gmap Z descr;
  os_errno : Z;
  os_pins : gmap path bpf_obj;
  os_dirs : gmap path Z;             (* inode *)
  os_links : gmap Z attachment;
  os_values : gmap Z path;           (* the one value of a map, by the identity of the map *)
  os_blocked : gset Z;               (* the signals that the process blocks *)
}.
Definition set_fds v s := mk_os v (os_errno s) (os_pins s) (os_dirs s) (os_links s) (os_values s) (os_blocked s).
Definition set_pins v s := mk_os (os_fds s) (os_errno s) v (os_dirs s) (os_links s) (os_values s) (os_blocked s).
Definition set_dirs v s := mk_os (os_fds s) (os_errno s) (os_pins s) v (os_links s) (os_values s) (os_blocked s).
Definition set_links v s := mk_os (os_fds s) (os_errno s) (os_pins s) (os_dirs s) v (os_values s) (os_blocked s).
Definition set_errno v s := mk_os (os_fds s) v (os_pins s) (os_dirs s) (os_links s) (os_values s) (os_blocked s).
Definition set_values v s := mk_os (os_fds s) (os_errno s) (os_pins s) (os_dirs s) (os_links s) v (os_blocked s).
Definition set_blocked v s := mk_os (os_fds s) (os_errno s) (os_pins s) (os_dirs s) (os_links s) (os_values s) v.
Definition add_fd (fd : Z) (d : descr) (s : os) : os := set_fds (<[fd := d]> (os_fds s)) s.

#[export] Instance bpf_obj_eq_dec : EqDecision bpf_obj.
Proof. solve_decision. Defined.
#[export] Instance events_eq_dec : EqDecision events.
Proof. solve_decision. Defined.
#[export] Instance descr_eq_dec : EqDecision descr.
Proof. solve_decision. Defined.

(** ["%s/%s"] *)
Definition join (dir name : path) : path := dir ++ [47] ++ name.

(** A link is held by a descriptor or a pin. *)
Definition held (l : Z) (s : os) : Prop :=
  (∃ fd, os_fds s !! fd = Some (D_obj (O_link l))) ∨ (∃ p, os_pins s !! p = Some (O_link l)).

(** The same machine some time later: [errno] is any, links that are not held may be gone. *)
Record settles (s s' : os) : Prop := {
  se_fds : os_fds s' = os_fds s;
  se_pins : os_pins s' = os_pins s;
  se_dirs : os_dirs s' = os_dirs s;
  se_values : os_values s' = os_values s;
  se_links : ∀ l a, os_links s' !! l = Some a → os_links s !! l = Some a;
  se_held : ∀ l a, os_links s !! l = Some a → held l s → os_links s' !! l = Some a;
  se_blocked : os_blocked s' = os_blocked s;
}.

(** A call that returns a number: negative when it failed; otherwise its effect [eff], which
    the number is an argument of. *)
Definition does (r : Z * os) (s : os) (eff : Z → os → Prop) : Prop :=
  if 0 <=? fst r then ∃ s1, eff (fst r) s1 ∧ settles s1 (snd r) else settles s (snd r).

(** A name that a directory can have: no slash, at most [NAME_MAX] characters. *)
Definition name_ok (name : path) : bool := bool_decide (47 ∉ name) && (length name <=? 255)%nat.
Definition is_dot (name : path) : bool := match name with c :: _ => c =? 46 | [] => false end.

(** [struct bpf_prog_info], [struct bpf_map_info]: the fields that are read. *)
Record prog_info := mk_prog_info { pi_name : path; pi_map_ids : list Z }.
Record map_info := mk_map_info { mi_id : Z; mi_name : path }.

Class Bpffs := {
  sys_open : path → os → Z * os;                       (* O_DIRECTORY | O_RDONLY *)
  sys_close : Z → os → os;
  (* the descriptor of the stream and the names that [readdir] returns *)
  sys_opendir : path → os → option (Z * list path) * os;
  (* whether there is a directory *)
  sys_stat : path → os → option bool * os;
  sys_fstat : Z → os → option Z * os;
  sys_mkdir : path → os → Z * os;
  sys_rmdir : path → os → Z * os;
  sys_unlink : path → os → Z * os;
  sys_unlinkat : Z → path → os → Z * os;
  bpf_obj_get : path → os → Z * os;
  bpf_obj_pin : Z → path → os → Z * os;
  bpf_link_create : Z → Z → Z → os → Z * os;
  bpf_link_detach : Z → os → Z * os;
  bpf_prog_query : Z → Z → os → option (list Z) * os;
  bpf_prog_get_fd_by_id : Z → os → Z * os;
  bpf_map_get_fd_by_id : Z → os → Z * os;
  bpf_map_get_next_id : Z → os → option Z * os;
  prog_info_by_fd : Z → os → option prog_info * os;
  map_info_by_fd : Z → os → option map_info * os;
  (* [bpf_map_update_elem], [bpf_map_lookup_elem] on a map of one element *)
  value_update : Z → path → os → Z * os;
  value_lookup : Z → os → option path * os;
  (* what programs and maps are, by their identity *)
  prog_info_of : Z → prog_info;
  map_name_of : Z → path;
}.

Definition new_fd (fd : Z) (d : descr) (s s1 : os) : Prop := os_fds s !! fd = None ∧ s1 = add_fd fd d s.
Definition unpins (p : path) (s s1 : os) : Prop :=
  is_Some (os_pins s !! p) ∧ s1 = set_pins (delete p (os_pins s)) s.
(** An answer that changes nothing. *)
Definition tells {A} (r : option A * os) (s : os) (good : A → Prop) : Prop :=
  settles s (snd r) ∧ match fst r with Some a => good a | None => True end.

Class BpffsLaws {B : Bpffs} := {
  open_law : ∀ p s, does (sys_open p s) s (λ fd, new_fd fd (D_dir p) s);
  close_law : ∀ fd s, settles (set_fds (delete fd (os_fds s)) s) (sys_close fd s);
  opendir_law : ∀ p s,
    match sys_opendir p s with
    | (Some (fd, names), s') =>
        is_Some (os_dirs s !! p) ∧ 0 <= fd ∧ Forall name_ok names ∧ (∀ n, (name_ok n : Prop) → is_Some (os_pins s !! join p n) → n ∈ names) ∧
        ∃ s1, new_fd fd (D_dir p) s s1 ∧ settles s1 s'
    | (None, s') => settles s s'
    end;
  stat_law : ∀ p s, tells (sys_stat p s) s (λ d, d = true ↔ is_Some (os_dirs s !! p));
  fstat_law : ∀ fd s, tells (sys_fstat fd s) s
    (λ ino, ∃ p, os_fds s !! fd = Some (D_dir p) ∧ os_dirs s !! p = Some ino);
  mkdir_law : ∀ p s, does (sys_mkdir p s) s (λ _ s1, os_dirs s !! p = None ∧ ∃ ino, s1 = set_dirs (<[p := ino]> (os_dirs s)) s);
  rmdir_law : ∀ p s, does (sys_rmdir p s) s (λ _ s1, is_Some (os_dirs s !! p) ∧
    (∀ n, 47 ∉ n → os_pins s !! join p n = None) ∧ s1 = set_dirs (delete p (os_dirs s)) s);   (* ENOTEMPTY *)
  unlink_law : ∀ p s, does (sys_unlink p s) s (λ _, unpins p s);
  unlinkat_law : ∀ fd n s, does (sys_unlinkat fd n s) s
    (λ _ s1, ∃ d, os_fds s !! fd = Some (D_dir d) ∧ unpins (join d n) s s1);
  obj_get_law : ∀ p s, does (bpf_obj_get p s) s
    (λ fd s1, ∃ o, os_pins s !! p = Some o ∧ new_fd fd (D_obj o) s s1);
  obj_pin_law : ∀ fd p s, does (bpf_obj_pin fd p s) s
    (λ _ s1, ∃ o, os_fds s !! fd = Some (D_obj o) ∧ os_pins s !! p = None ∧ s1 = set_pins (<[p := o]> (os_pins s)) s);
  link_create_law : ∀ pfd cfd type s, does (bpf_link_create pfd cfd type s) s
    (λ fd s1, ∃ prog d ino l, os_fds s !! pfd = Some (D_obj (O_prog prog)) ∧ os_fds s !! cfd = Some (D_dir d) ∧
       os_dirs s !! d = Some ino ∧ os_links s !! l = None ∧ ¬ held l s ∧
       new_fd fd (D_obj (O_link l)) (set_links (<[l := mk_att ino type prog]> (os_links s)) s) s1);
  link_detach_law : ∀ fd s, does (bpf_link_detach fd s) s
    (λ _ s1, ∃ l, os_fds s !! fd = Some (D_obj (O_link l)) ∧ s1 = set_links (delete l (os_links s)) s);
  prog_query_law : ∀ cfd type s, tells (bpf_prog_query cfd type s) s (λ ids,
    ∀ d ino l prog, os_fds s !! cfd = Some (D_dir d) → os_dirs s !! d = Some ino →
      os_links s !! l = Some (mk_att ino type prog) → prog ∈ ids);
  prog_by_id_law : ∀ id s, does (bpf_prog_get_fd_by_id id s) s (λ fd, new_fd fd (D_obj (O_prog id)) s);
  map_by_id_law : ∀ id s, does (bpf_map_get_fd_by_id id s) s (λ fd, new_fd fd (D_obj (O_map id)) s);
  next_id_law : ∀ id s, tells (bpf_map_get_next_id id s) s (λ id', id < id');
  prog_info_law : ∀ fd s, tells (prog_info_by_fd fd s) s
    (λ i, ∃ id, os_fds s !! fd = Some (D_obj (O_prog id)) ∧ i = prog_info_of id);
  map_info_law : ∀ fd s, tells (map_info_by_fd fd s) s
    (λ i, ∃ id, os_fds s !! fd = Some (D_obj (O_map id)) ∧ i = mk_map_info id (map_name_of id));
  value_update_law : ∀ fd v s, does (value_update fd v s) s
    (λ _ s1, ∃ id, os_fds s !! fd = Some (D_obj (O_map id)) ∧ s1 = set_values (<[id := v]> (os_values s)) s);
  value_lookup_law : ∀ fd s, tells (value_lookup fd s) s
    (λ v, ∃ id, os_fds s !! fd = Some (D_obj (O_map id)) ∧ os_values s !! id = Some v);
}.

(** No shortage and no missing privilege: a call succeeds when what it works on is there. *)
Class BpffsHealthy {B : Bpffs} := {
  obj_get_ok : ∀ p s, is_Some (os_pins s !! p) → 0 <= fst (bpf_obj_get p s);
  link_detach_ok : ∀ fd l s, os_fds s !! fd = Some (D_obj (O_link l)) → 0 <= fst (bpf_link_detach fd s);
  opendir_ok : ∀ p s, is_Some (os_dirs s !! p) → is_Some (fst (sys_opendir p s));
  unlinkat_ok : ∀ fd d n s, os_fds s !! fd = Some (D_dir d) → is_Some (os_pins s !! join d n) →
    0 <= fst (sys_unlinkat fd n s);
  rmdir_ok : ∀ p s, is_Some (os_dirs s !! p) → (∀ n, 47 ∉ n → os_pins s !! join p n = None ∧ os_dirs s !! join p n = None) →
    0 <= fst (sys_rmdir p s);
}.

(** ** Commands

    A command returns or ends the process with a status; either way with the machine it
    leaves. *)
Inductive result (A : Type) := Ret (a : A) (s : os) | Exit (code : Z) (s : os).
Arguments Ret {A} a s.
Arguments Exit {A} code s.
Definition cmd (A : Type) : Type := os → result A.
Definition ret {A} (a : A) : cmd A := λ s, Ret a s.
Definition bind {A B} (c : cmd A) (f : A → cmd B) : cmd B :=
  λ s, match c s with Ret a s => f a s | Exit code s => Exit code s end.
(** [error(code, ..)] *)
Definition exit_with {A} (code : Z) : cmd A := λ s, Exit code s.
(** A system call. *)
Definition sys {A} (f : os → A * os) : cmd A := λ s, let '(a, s) := f s in Ret a s.
Definition sys_ (f : os → os) : cmd unit := λ s, Ret tt (f s).
Definition errno : cmd Z := λ s, Ret (os_errno s) s.

Declare Scope cmd_scope.
Delimit Scope cmd_scope with cmd.
Notation "x <- c ;; k" := (bind c (λ x, k)) (at level 100, c at next level, right associativity) : cmd_scope.
Notation "c ;;; k" := (bind c (λ _, k)) (at level 100, right associativity) : cmd_scope.

Fixpoint each {A} (f : A → cmd unit) (l : list A) : cmd unit :=
  match l with [] => ret tt | a :: l => bind (f a) (λ _, each f l) end.

(** What holds when a command returns ([Q]) and when it ends the process ([E]). *)
Definition wp {A} (c : cmd A) (Q : A → os → Prop) (E : Z → os → Prop) (s : os) : Prop :=
  match c s with Ret a s => Q a s | Exit code s => E code s end.
Lemma wp_each {A} (f : A → cmd unit) (I : list A → os → Prop) E l s :
  (∀ a r s, I (a :: r) s → wp (f a) (λ _, I r) E s) → I l s → wp (each f l) (λ _, I []) E s.
Proof.
  intros Hf. revert s. induction l as [|a l IH]; intros s Hi; [exact Hi|].
  specialize (Hf a l s Hi). unfold wp in *. cbn. unfold bind. destruct (f a s); [by apply IH|done].
Qed.
Lemma wp_bind {A B} (c : cmd A) (f : A → cmd B) Q E s : wp c (λ a, wp (f a) Q E) E s → wp (bind c f) Q E s.
Proof. unfold wp, bind. by destruct (c s). Qed.
Lemma wp_sys {A} (f : os → A * os) (Q : A → os → Prop) E s : Q (fst (f s)) (snd (f s)) → wp (sys f) Q E s.
Proof. unfold wp, sys. by destruct (f s). Qed.
Lemma wp_assoc {A B C} (c : cmd A) (f : A → cmd B) (g : B → cmd C) Q E s :
  wp (bind (bind c f) g) Q E s → wp (bind c (λ a, bind (f a) g)) Q E s.
Proof. unfold wp, bind. by destruct (c s). Qed.
Lemma wp_mono {A} (c : cmd A) (Q Q' : A → os → Prop) (E E' : Z → os → Prop) s :
  wp c Q E s → (∀ a s, Q a s → Q' a s) → (∀ e s, E e s → E' e s) → wp c Q' E' s.
Proof. unfold wp. destruct (c s); eauto. Qed.

Lemma settles_refl s : settles s s.
Proof. by constructor. Qed.
Lemma held_settles l s s' : settles s s' → held l s ↔ held l s'.
Proof. intros [Hf Hp _ _ _ _]. unfold held. by rewrite Hf, Hp. Qed.
#[export] Instance settles_preorder : PreOrder settles.
Proof.
  split; [exact settles_refl|]. intros s s1 s2 H H1. pose proof H as [F P D V L K M]. pose proof H1 as [F1 P1 D1 V1 L1 K1 M1].
  split; [congruence..| | |congruence]; [by eauto|]. intros l a Hl Hh. apply K1; [by apply K|]. by apply (held_settles l s s1).
Qed.

(** ** A machine to evaluate on

    It has every resource; [no_dirs] lists directories it refuses to open. *)
Definition strip (dir p : path) : option path :=
  if bool_decide (take (S (length dir)) p = dir ++ [47]) then Some (drop (S (length dir)) p) else None.
Definition entries (dir : path) (s : os) : list path :=
  omap (λ x, n ← strip dir (fst x); if bool_decide (47 ∉ n) then Some n else None) (map_to_list (os_pins s)).
Definition fresh_in {A} (m : gmap Z A) : Z := 1 + fold_right Z.max 0 (map fst (map_to_list m)).
Definition fresh_link (s : os) : Z :=
  1 + fold_right Z.max 0 (map fst (map_to_list (os_links s))
    ++ omap (λ d, match snd d with D_obj (O_link l) => Some l | _ => None end) (map_to_list (os_fds s))
    ++ omap (λ d, match snd d with O_link l => Some l | _ => None end) (map_to_list (os_pins s))).
Definition fails (e : Z) (s : os) : Z * os := (-1, set_errno e s).
Definition gives (d : descr) (s : os) : Z * os := let fd := fresh_in (os_fds s) in (fd, add_fd fd d s).

Section Machine.
Context (progs : Z → prog_info) (map_names : Z → path) (map_ids : list Z).

Definition machine : Bpffs := {|
  sys_open p s := match os_dirs s !! p with Some _ => gives (D_dir p) s | None => fails 2 s end;
  sys_close fd s := set_fds (delete fd (os_fds s)) s;
  sys_opendir p s :=
    match os_dirs s !! p with
    | Some _ => let '(fd, s1) := gives (D_dir p) s in
        (Some (fd, [46] :: [46; 46] :: List.filter name_ok (entries p s)), s1)
    | None => (None, set_errno 2 s)
    end;
  sys_stat p s :=
    match os_dirs s !! p with Some _ => (Some true, s) | None =>
      match os_pins s !! p with Some _ => (Some false, s) | None => (None, set_errno 2 s) end end;
  sys_fstat fd s :=
    match os_fds s !! fd with Some (D_dir p) => (os_dirs s !! p, s) | _ => (None, set_errno 9 s) end;
  sys_mkdir p s :=
    match os_dirs s !! p with
    | Some _ => fails 17 s
    | None => (0, set_dirs (<[p := 1 + Z.of_nat (size (os_dirs s))]> (os_dirs s)) s)
    end;
  sys_rmdir p s :=
    if bool_decide (is_Some (os_dirs s !! p)) &&
       bool_decide (entries p s = [])
    then (0, set_dirs (delete p (os_dirs s)) s) else fails 39 s;
  sys_unlink p s := match os_pins s !! p with Some _ => (0, set_pins (delete p (os_pins s)) s) | None => fails 2 s end;
  sys_unlinkat fd n s :=
    match os_fds s !! fd with
    | Some (D_dir d) => match os_pins s !! join d n with
        | Some _ => (0, set_pins (delete (join d n) (os_pins s)) s) | None => fails 2 s end
    | _ => fails 9 s
    end;
  bpf_obj_get p s := match os_pins s !! p with Some o => gives (D_obj o) s | None => fails 2 s end;
  bpf_obj_pin fd p s :=
    match os_fds s !! fd, os_pins s !! p with
    | Some (D_obj o), None => (0, set_pins (<[p := o]> (os_pins s)) s)
    | Some _, Some _ => fails 17 s
    | _, _ => fails 9 s
    end;
  bpf_link_create pfd cfd type s :=
    match os_fds s !! pfd, os_fds s !! cfd with
    | Some (D_obj (O_prog prog)), Some (D_dir d) =>
        match os_dirs s !! d with
        | Some ino => let l := fresh_link s in
            gives (D_obj (O_link l)) (set_links (<[l := mk_att ino type prog]> (os_links s)) s)
        | None => fails 9 s
        end
    | _, _ => fails 9 s
    end;
  bpf_link_detach fd s :=
    match os_fds s !! fd with
    | Some (D_obj (O_link l)) => (0, set_links (delete l (os_links s)) s)
    | _ => fails 22 s
    end;
  bpf_prog_query cfd type s :=
    match os_fds s !! cfd with
    | Some (D_dir d) =>
        (Some (omap (λ x, if bool_decide (Some (at_cgroup (snd x)) = os_dirs s !! d) && (at_type (snd x) =? type)
                          then Some (at_prog (snd x)) else None) (map_to_list (os_links s))), s)
    | _ => (None, set_errno 9 s)
    end;
  bpf_prog_get_fd_by_id id s := gives (D_obj (O_prog id)) s;
  bpf_map_get_fd_by_id id s := gives (D_obj (O_map id)) s;
  bpf_map_get_next_id id s := (head (filter (λ x, id < x) map_ids), s);
  prog_info_by_fd fd s :=
    match os_fds s !! fd with Some (D_obj (O_prog id)) => (Some (progs id), s) | _ => (None, set_errno 9 s) end;
  map_info_by_fd fd s :=
    match os_fds s !! fd with
    | Some (D_obj (O_map id)) => (Some (mk_map_info id (map_names id)), s) | _ => (None, set_errno 9 s) end;
  value_update fd v s :=
    match os_fds s !! fd with
    | Some (D_obj (O_map id)) => (0, set_values (<[id := v]> (os_values s)) s) | _ => fails 9 s end;
  value_lookup fd s :=
    match os_fds s !! fd with Some (D_obj (O_map id)) => (os_values s !! id, s) | _ => (None, set_errno 9 s) end;
  prog_info_of := progs;
  map_name_of := map_names;
|}.
End Machine.

Lemma strip_join dir p n : strip dir p = Some n ↔ p = join dir n.
Proof.
  unfold strip, join. split.
  - case_bool_decide as Hd; [|done]. intros [= <-].
    rewrite <- (take_drop (S (length dir)) p) at 1. by rewrite Hd, <- app_assoc.
  - intros ->. assert (S (length dir) = length (dir ++ [47])) as -> by (rewrite length_app; cbn; lia).
    rewrite app_assoc. rewrite bool_decide_true by by rewrite take_app_length. by rewrite drop_app_length.
Qed.

Lemma entries_spec dir s n : n ∈ entries dir s ↔ (47 ∉ n) ∧ is_Some (os_pins s !! join dir n).
Proof.
  unfold entries. rewrite list_elem_of_omap. split.
  - intros ([p o] & Hin & E). apply elem_of_map_to_list in Hin. cbn in E.
    destruct (strip dir p) as [m|] eqn:Es; [|done]. cbn in E. case_bool_decide; [|done]. injection E as ->.
    apply strip_join in Es as ->. eauto.
  - intros [Hn [o Ho]]. exists (join dir n, o). split; [by apply elem_of_map_to_list|]. cbn.
    rewrite (proj2 (strip_join dir _ n) eq_refl). cbn. by rewrite bool_decide_true.
Qed.

Lemma fold_max l x : x ∈ l → x <= fold_right Z.max 0 l.
Proof. induction l; intros [->|]%elem_of_cons || (intros ?; set_solver); cbn; [lia|]. specialize (IHl H). lia. Qed.
Lemma fresh_in_spec {A} (m : gmap Z A) : m !! fresh_in m = None ∧ 0 <= fresh_in m.
Proof.
  unfold fresh_in. assert (0 <= fold_right Z.max 0 (map fst (map_to_list m))) by (induction (map fst _); cbn; lia).
  split; [|lia]. destruct (m !! _) as [a|] eqn:E; [|done]. apply elem_of_map_to_list in E.
  assert (fresh_in m ∈ map fst (map_to_list m)) as Hin by (apply list_elem_of_fmap; eexists; by split; [|exact E]).
  apply fold_max in Hin. unfold fresh_in in Hin. lia.
Qed.
Lemma fresh_link_spec s : os_links s !! fresh_link s = None ∧ ¬ held (fresh_link s) s.
Proof.
  set (ls := map fst (map_to_list (os_links s))
    ++ omap (λ d, match snd d with D_obj (O_link l) => Some l | _ => None end) (map_to_list (os_fds s))
    ++ omap (λ d, match snd d with O_link l => Some l | _ => None end) (map_to_list (os_pins s))).
  assert (fresh_link s ∉ ls) as Hn.
  { intros Hin. apply fold_max in Hin. unfold fresh_link in Hin. fold ls in Hin. lia. }
  unfold ls in Hn. rewrite !elem_of_app in Hn. split.
  - destruct (os_links s !! _) as [a|] eqn:E; [|done]. apply elem_of_map_to_list in E. exfalso. apply Hn. left.
    apply list_elem_of_fmap. eexists. by split; [|exact E].
  - intros [[fd E]|[p E]]; apply Hn; right; apply elem_of_map_to_list in E; [left|right];
      apply list_elem_of_omap; eexists; (split; [exact E|]); done.
Qed.

Section MachineLaws.
Context (progs : Z → prog_info) (map_names : Z → path) (map_ids : list Z).
#[local] Instance here : Bpffs := machine progs map_names map_ids.

Lemma does_fails e s eff : does (fails e s) s eff.
Proof. by constructor. Qed.
Lemma does_gives d s (eff : Z → os → Prop) :
  (∀ fd, new_fd fd d s (add_fd fd d s) → eff fd (add_fd fd d s)) → does (gives d s) s eff.
Proof.
  intros H. unfold does, gives. cbn [fst snd]. destruct (fresh_in_spec (os_fds s)) as [Hf Hp].
  rewrite (proj2 (Z.leb_le _ _)) by done. eexists. split; [apply H; by split|reflexivity].
Qed.
Lemma does_now s s1 (eff : Z → os → Prop) : eff 0 s1 → does (0, s1) s eff.
Proof. intros H. exists s1. split; [done|reflexivity]. Qed.
Lemma tells_now {A} (a : A) s (good : A → Prop) : good a → tells (Some a, s) s good.
Proof. intros H. split; [reflexivity|done]. Qed.
Lemma tells_none {A} e s (good : A → Prop) : tells (None, set_errno e s) s good.
Proof. by split; [constructor|]. Qed.

#[local] Ltac cases :=
  repeat match goal with
  | |- context [match ?x with _ => _ end] => destruct x eqn:?
  end.

Lemma machine_next_id id s : tells (bpf_map_get_next_id id s) s (λ id', id < id').
Proof.
  cbn. split; [reflexivity|]. cbn. destruct (filter _ map_ids) as [|x l] eqn:E; [done|].
  assert (x ∈ filter (λ y, id < y) map_ids) as Hx by (rewrite E; by left).
  by apply list_elem_of_filter in Hx as [? _].
Qed.
Lemma machine_link_create pfd cfd type s : does (bpf_link_create pfd cfd type s) s
    (λ fd s1, ∃ prog d ino l, os_fds s !! pfd = Some (D_obj (O_prog prog)) ∧ os_fds s !! cfd = Some (D_dir d) ∧
       os_dirs s !! d = Some ino ∧ os_links s !! l = None ∧ ¬ held l s ∧
       new_fd fd (D_obj (O_link l)) (set_links (<[l := mk_att ino type prog]> (os_links s)) s) s1).
Proof.
  cbn -[fresh_link]. destruct (os_fds s !! pfd) as [[[prog| |]| |]|] eqn:Ep; try apply does_fails.
  destruct (os_fds s !! cfd) as [[|d|]|] eqn:Ec; try apply does_fails.
  destruct (os_dirs s !! d) as [ino|] eqn:Ed; try apply does_fails.
  destruct (fresh_link_spec s) as [Hl Hh].
  unfold does, gives. cbn -[fresh_link]. destruct (fresh_in_spec (os_fds s)) as [Hf Hp].
  rewrite (proj2 (Z.leb_le _ _)) by done. eexists. split; [|reflexivity].
  exists prog, d, ino, (fresh_link s). split_and!; done.
Qed.
Lemma machine_prog_query cfd type s : tells (bpf_prog_query cfd type s) s (λ ids,
    ∀ d ino l prog, os_fds s !! cfd = Some (D_dir d) → os_dirs s !! d = Some ino →
      os_links s !! l = Some (mk_att ino type prog) → prog ∈ ids).
Proof.
  cbn. destruct (os_fds s !! cfd) as [[|d|]|]; try apply tells_none. apply tells_now.
  intros d' ino l prog [= <-] Hd Hl. apply list_elem_of_omap. exists (l, mk_att ino type prog).
  split; [by apply elem_of_map_to_list|]. cbn. rewrite Hd, bool_decide_true, Z.eqb_refl by done. done.
Qed.

#[export] Instance machine_laws : @BpffsLaws (machine progs map_names map_ids).
Proof.
  split.
  - intros p s. cbn. destruct (os_dirs s !! p) eqn:E; [apply does_gives; eauto|apply does_fails].
  - intros fd s. cbn. reflexivity.
  - intros p s. cbn -[fails entries name_ok]. destruct (os_dirs s !! p) eqn:E; [|by constructor].
    cbn -[entries name_ok]. destruct (fresh_in_spec (os_fds s)) as [Hf Hp]. split_and!; [eauto|done| | |].
    + repeat constructor. apply Forall_forall. intros n Hn. apply list_elem_of_In, filter_In in Hn. by rewrite (proj2 Hn).
    + intros n Hn Ho. do 2 right. apply list_elem_of_In, filter_In. split; [|by apply Is_true_eq_true].
      apply list_elem_of_In, entries_spec. unfold name_ok in Hn. apply andb_prop_elim in Hn as [Hn _].
      by apply bool_decide_unpack in Hn.
    + eexists. split; [by split|reflexivity].
  - intros p s. cbn. destruct (os_dirs s !! p) eqn:E; [by apply tells_now|].
    destruct (os_pins s !! p); [|apply tells_none]. apply tells_now. by rewrite is_Some_alt.
  - intros fd s. cbn. destruct (os_fds s !! fd) as [[|p|]|] eqn:E; try apply tells_none.
    destruct (os_dirs s !! p) as [ino|] eqn:E'; [by apply tells_now; eauto|split; [reflexivity|done]].
  - intros p s. cbn. destruct (os_dirs s !! p) eqn:E; [apply does_fails|]. apply does_now. eauto.
  - intros p s. cbn. destruct (bool_decide (is_Some _)) eqn:E; [|apply does_fails].
    destruct (bool_decide (entries _ _ = _)) eqn:E'; [|apply does_fails]. apply bool_decide_eq_true in E, E'. apply does_now.
    split_and!; [done| |done]. intros n Hn. apply eq_None_not_Some. intros Hp.
    destruct (not_elem_of_nil n). rewrite <- E'. by apply entries_spec.
  - intros p s. cbn. destruct (os_pins s !! p) eqn:E; [apply does_now|apply does_fails]. split; [eauto|done].
  - intros fd n s. cbn. destruct (os_fds s !! fd) as [[|d|]|] eqn:E; try apply does_fails.
    destruct (os_pins s !! join d n) eqn:E'; [|apply does_fails]. apply does_now. exists d. split; [done|]. by split; [eauto|].
  - intros p s. cbn. destruct (os_pins s !! p) as [o|] eqn:E; [|apply does_fails]. apply does_gives. eauto.
  - intros fd p s. cbn. destruct (os_fds s !! fd) as [[o| |]|] eqn:E, (os_pins s !! p) eqn:E'; try apply does_fails.
    apply does_now. eauto.
  - apply machine_link_create.
  - intros fd s. cbn. destruct (os_fds s !! fd) as [[[| |l]| |]|] eqn:E; try apply does_fails. apply does_now. eauto.
  - apply machine_prog_query.
  - intros id s. cbn. by apply does_gives.
  - intros id s. cbn. by apply does_gives.
  - apply machine_next_id.
  - intros fd s. cbn. destruct (os_fds s !! fd) as [[[| |l]| |]|] eqn:E; try apply tells_none. apply tells_now. eauto.
  - intros fd s. cbn. destruct (os_fds s !! fd) as [[[| |l]| |]|] eqn:E; try apply tells_none. apply tells_now. eauto.
  - intros fd v s. cbn. destruct (os_fds s !! fd) as [[[| |l]| |]|] eqn:E; try apply does_fails. apply does_now. eauto.
  - intros fd s. cbn. destruct (os_fds s !! fd) as [[[|id|]| |]|] eqn:E; try apply tells_none.
    destruct (os_values s !! id) eqn:E'; [by apply tells_now; eauto|by split].
Qed.

#[export] Instance machine_healthy : @BpffsHealthy (machine progs map_names map_ids).
Proof.
  split.
  - intros p s [o E]. cbn. rewrite E. cbn. by destruct (fresh_in_spec (os_fds s)).
  - intros fd l s E. cbn. by rewrite E.
  - intros p s [i E]. cbn. rewrite E. by eexists.
  - intros fd d n s E [o E']. cbn. by rewrite E, E'.
  - intros p s [i E] Hs. cbn -[entries]. rewrite bool_decide_true by by rewrite E.
    rewrite bool_decide_true; [done|]. apply elem_of_nil_inv. intros n [Hn [o Ho]]%entries_spec.
    by rewrite (proj1 (Hs n Hn)) in Ho.
Qed.
End MachineLaws.
