(* ===== verification/Pins.v ===== *)
(** Loading, pinning and installing: [src/cgroup.c], the map discovery of [src/uspace.c], the
    version metric of [src/metrics.c], and the parts of [main] in [src/udpgrm.c] that load the
    programs, pin them to the BPF file system and hook them to a cgroup.

    The theorems say what an installation leaves behind ([install_hooks_spec]) and that the
    clean-up at the end of the daemon takes all of it away ([daemon_life]). *)

From Stdlib Require Import String.
From S2P Require Import Prelude Net Bpffs.
#[local] Open Scope cmd_scope.

Definition PATH_MAX : nat := 4096.
Definition BPF_OBJ_NAME_LEN : nat := 16.
Definition BPF_EEXIST : Z := 17.
Definition BPF_ENOENT : Z := 2.

(** [snprintf(b, sizeof(b), "%s/%s", ..)] and [strncmp(a, b, n) == 0]. *)
Definition in_dir (dir name : path) : path := snprintf PATH_MAX (join dir name).
Definition strneq (n : nat) (a b : path) : bool := bool_decide (take n a = take n b).

Section Pins.
Context {B : Bpffs}.

(** ** [src/uspace.c] *)
Fixpoint find_map (ids : list Z) (map_name : path) : cmd (Z * option map_info) :=
  match ids with
  | [] => ret (-1, None)
  | id :: ids =>
      map_fd <- sys (bpf_map_get_fd_by_id id) ;;
      if map_fd <? 0 then exit_with (-1)
      else
        info <- sys (map_info_by_fd map_fd) ;;
        match info with
        | None => ret (-1, None)
        | Some map_info =>
            if bool_decide (mi_name map_info = map_name) then ret (map_fd, Some map_info)
            else sys_ (sys_close map_fd) ;;; find_map ids map_name
        end
  end.
(** The descriptor, or -1, and what goes to [user_map_info]. *)
Definition map_from_prog (prog_fd : Z) (map_name : path) : cmd (Z * option map_info) :=
  info <- sys (prog_info_by_fd prog_fd) ;;
  match info with
  | None => ret (-1, None)
  | Some prog_info => find_map (pi_map_ids prog_info) map_name
  end.

(** The loop of [map_by_name] from [next_id] on with [cnt] descriptors found. [None]: out of
    fuel. *)
Fixpoint maps_from (fuel : nat) (map_name : path) (skip_id next_id : Z) (cnt : nat) : cmd (option (list Z)) :=
  match fuel with
  | O => ret None
  | S fuel =>
      next <- sys (bpf_map_get_next_id next_id) ;;
      match next with
      | None => ret (Some [])
      | Some next_id =>
          if skip_id =? next_id then maps_from fuel map_name skip_id next_id cnt
          else
            fd <- sys (bpf_map_get_fd_by_id next_id) ;;
            e <- errno ;;
            if (fd <? 0) && (e =? BPF_ENOENT) then maps_from fuel map_name skip_id next_id cnt
            else if fd <? 0 then exit_with (-1)
            else
              info <- sys (map_info_by_fd fd) ;;
              match info with
              | None => exit_with (-1)
              | Some map_info =>
                  if negb (strneq BPF_OBJ_NAME_LEN map_name (mi_name map_info)) then
                    sys_ (sys_close fd) ;;; maps_from fuel map_name skip_id next_id cnt
                  else if (127 <=? S cnt)%nat then ret (Some [fd])
                  else
                    l <- maps_from fuel map_name skip_id next_id (S cnt) ;;
                    ret (fds ← l; Some (fd :: fds))
              end
      end
  end.
(** The list up to its final -1. *)
Definition map_by_name (fuel : nat) (map_name : path) (skip_id : Z) : cmd (option (list Z)) :=
  if (BPF_OBJ_NAME_LEN <? List.length map_name)%nat then exit_with (-1)
  else maps_from fuel map_name skip_id 0 0.

Definition map_fd_to_id (map_fd : Z) : cmd Z :=
  info <- sys (map_info_by_fd map_fd) ;;
  match info with None => exit_with (-1) | Some map_info => ret (mi_id map_info) end.

(** ** [src/metrics.c]: the version in the metrics map *)
Definition METRICS_SZ : nat := 32.
Definition init_metrics (package_version : path) (prog_fd : Z) : cmd unit :=
  m <- map_from_prog prog_fd (chars "metrics_map") ;;
  if fst m <? 0 then exit_with (-1)
  else
    let value := take (METRICS_SZ - 1) package_version in
    r <- sys (value_update (fst m) (value ++ zeros (METRICS_SZ - List.length value))) ;;
    if r <? 0 then exit_with (-1) else ret tt.
Definition get_metrics (prog_fd : Z) : cmd path :=
  m <- map_from_prog prog_fd (chars "metrics_map") ;;
  if fst m <? 0 then exit_with (-1)
  else
    v <- sys (value_lookup (fst m)) ;;
    match v with None => exit_with (-1) | Some value => ret value end.

(** ** [src/cgroup.c] *)
Fixpoint find_prog (ids : list Z) (prog_info_name : path) : cmd (Z * option prog_info) :=
  match ids with
  | [] => ret (-1, None)
  | id :: ids =>
      prog_fd <- sys (bpf_prog_get_fd_by_id id) ;;
      if prog_fd <? 0 then exit_with (-1)
      else
        info <- sys (prog_info_by_fd prog_fd) ;;
        match info with
        | None => exit_with (-1)
        | Some info =>
            if strneq (BPF_OBJ_NAME_LEN - 1) (pi_name info) prog_info_name then ret (prog_fd, Some info)
            else sys_ (sys_close prog_fd) ;;; find_prog ids prog_info_name
        end
  end.
(** The descriptor, or -1, and what goes to [user_info]. *)
Definition prog_from_cgroup (cg_fd prog_type : Z) (prog_info_name : path) : cmd (Z * option prog_info) :=
  ids <- sys (bpf_prog_query cg_fd prog_type) ;;
  match ids with None => exit_with (-1) | Some prog_ids => find_prog prog_ids prog_info_name end.

(** [fgets]: up to a newline or [sz - 1] characters. *)
Fixpoint fgets (sz : nat) (file : list Z) : list Z * list Z :=
  match sz, file with
  | S (S sz), c :: file =>
      if c =? 10 then ([c], file) else let '(l, r) := fgets (S sz) file in (c :: l, r)
  | _, _ => ([], file)
  end.
(** Newlines at the end of a path of more than one character. *)
Fixpoint strip_newlines (n : nat) (p : path) : path :=
  match n with
  | O => p
  | S n =>
      if (1 <? List.length p)%nat && bool_decide (last p = Some 10)
      then strip_newlines n (removelast p) else p
  end.
Fixpoint first_cgroup (fuel : nat) (file : list Z) : option path :=
  match fuel with
  | O => None
  | S fuel =>
      match file with
      | [] => None
      | _ =>
          let '(line, file) := fgets (PATH_MAX * 2) file in
          match strchr line 47 with
          | Some p => Some (strip_newlines (List.length p) p)
          | None => first_cgroup fuel file
          end
      end
  end.
(** [proc_self]: the contents of /proc/self/cgroup, if it can be opened. *)
Definition get_first_proc_self_cgroup (proc_self : option (list Z)) : cmd (option path) :=
  match proc_self with
  | None => exit_with (-1)
  | Some file => ret (first_cgroup (S (List.length file)) file)
  end.

(** The first of the paths that can be opened. *)
Fixpoint open_first (cgroup_paths : list path) : cmd (option (Z * path)) :=
  match cgroup_paths with
  | [] => ret None
  | p :: ps =>
      cg_fd <- sys (sys_open p) ;;
      if 0 <=? cg_fd then ret (Some (cg_fd, p)) else open_first ps
  end.
(** The descriptor and the selected path; [None] for -1. *)
Definition cgroup_from_paths (proc_self : option (list Z)) (cgroup_paths : list path) (cgroup_self : bool)
  : cmd (option (Z * path)) :=
  main <- open_first cgroup_paths ;;
  match main with
  | None => ret None
  | Some (cg_fd, main_cgroup_path) =>
      if negb cgroup_self then ret (Some (cg_fd, main_cgroup_path))
      else
        sys_ (sys_close cg_fd) ;;;
        child <- get_first_proc_self_cgroup proc_self ;;
        match child with
        | None => exit_with (-1)
        | Some child_cgroup =>
            let p := snprintf PATH_MAX (main_cgroup_path ++ child_cgroup) in
            cg_fd <- sys (sys_open p) ;;
            if 0 <=? cg_fd then ret (Some (cg_fd, p)) else ret None
        end
  end.

(** One entry of the directory; the results of the calls are not looked at. *)
Definition detach_pin (p : path) : cmd unit :=
  fd <- sys (bpf_obj_get p) ;;
  if 0 <=? fd then r <- sys (bpf_link_detach fd) ;; sys_ (sys_close fd) else ret tt.
Definition cleanup_entry (bpf_pin_dir : path) (directory : Z) (name : path) : cmd unit :=
  if is_dot name then ret tt
  else
    detach_pin (in_dir bpf_pin_dir name) ;;;
    r <- sys (sys_unlinkat directory name) ;; ret tt.
Definition cleanup_bpf_pin_dir (bpf_pin_dir : path) : cmd unit :=
  directory <- sys (sys_opendir bpf_pin_dir) ;;
  match directory with
  | Some (fd, names) => each (cleanup_entry bpf_pin_dir fd) names ;;; sys_ (sys_close fd)
  | None => ret tt
  end ;;;
  r <- sys (sys_rmdir bpf_pin_dir) ;; ret tt.

(** ** Hooks: [main], install *)
Definition BPF_CGROUP_INET4_BIND : Z := 8.
Definition BPF_CGROUP_INET6_BIND : Z := 9.
Definition BPF_CGROUP_UDP4_SENDMSG : Z := 14.
Definition BPF_CGROUP_UDP6_SENDMSG : Z := 15.
Definition BPF_CGROUP_GETSOCKOPT : Z := 21.
Definition BPF_CGROUP_SETSOCKOPT : Z := 22.

Definition hooks (without_sendmsg : bool) : list (path * Z) :=
  [(chars "setsockopt", BPF_CGROUP_SETSOCKOPT); (chars "getsockopt", BPF_CGROUP_GETSOCKOPT)]
  ++ (if negb without_sendmsg then
        [(chars "udp4_sendmsg", BPF_CGROUP_UDP4_SENDMSG); (chars "udp6_sendmsg", BPF_CGROUP_UDP6_SENDMSG)]
      else [])
  ++ [(chars "inet4_bind", BPF_CGROUP_INET4_BIND); (chars "inet6_bind", BPF_CGROUP_INET6_BIND)].
(** ["%ld_%s"] *)
Definition link_name (cg_inode : Z) (suffix : path) : path := signed cg_inode ++ [95] ++ suffix.

Definition UNLOAD (directory : Z) (dir : path) (cg_inode : Z) (suffix : path) : cmd unit :=
  detach_pin (in_dir dir (link_name cg_inode suffix)) ;;;
  r <- sys (sys_unlinkat directory (snprintf PATH_MAX (link_name cg_inode suffix))) ;; ret tt.

(** The descriptor of the program is left open. *)
Definition LOAD_AND_PIN (dir : path) (cg_fd cg_inode : Z) (hook : path * Z) : cmd unit :=
  let '(suffix, type) := hook in
  prog_fd <- sys (bpf_obj_get (in_dir dir suffix)) ;;
  if prog_fd <? 0 then exit_with (-1)
  else
    link_fd <- sys (bpf_link_create prog_fd cg_fd type) ;;
    if link_fd <? 0 then exit_with 1
    else
      r <- sys (bpf_obj_pin link_fd (in_dir dir (link_name cg_inode suffix))) ;;
      if negb (r =? 0) then exit_with (-1) else sys_ (sys_close link_fd).

(** [do_install]: false when no cgroup could be opened ([goto cleanup]). *)
Definition install_hooks (proc_self : option (list Z)) (cgroup_paths : list path) (cgroup_self without_sendmsg : bool)
  (bpf_pin_dir : path) : cmd bool :=
  cg <- cgroup_from_paths proc_self cgroup_paths cgroup_self ;;
  match cg with
  | None => ret false
  | Some (cg_fd, cgroup_path) =>
      prog_fd <- prog_from_cgroup cg_fd BPF_CGROUP_SETSOCKOPT (chars "udpgrm_setsockopt") ;;
      sb <- sys (sys_fstat cg_fd) ;;
      match sb with
      | None => exit_with (-1)
      | Some cg_inode =>
          directory <- sys (sys_opendir bpf_pin_dir) ;;
          match directory with
          | Some (fd, _) =>
              each (λ h, UNLOAD fd bpf_pin_dir cg_inode (fst h)) (hooks false) ;;; sys_ (sys_close fd)
          | None => ret tt
          end ;;;
          each (LOAD_AND_PIN bpf_pin_dir cg_fd cg_inode) (hooks without_sendmsg) ;;;
          ret true
      end
  end.
End Pins.

(** ** Loading: [main], daemon *)

(** The generated skeleton: the descriptors of the programs by the name they are pinned
    under, and of the map [msg_rb] by its name. *)
Class Skeleton := {
  ebpf__open_and_load : os → option (path → Z) * os;
  setrlimit_ok : os → bool;
}.

Section Load.
Context {B : Bpffs} {K : Skeleton}.

(** [do_unlink] is 1 in every use. *)
Definition PIN (fd : Z) (dir suffix : path) : cmd unit :=
  let b := in_dir dir suffix in
  r <- sys (bpf_obj_pin fd b) ;;
  e <- errno ;;
  r <- (if e =? BPF_EEXIST then u <- sys (sys_unlink b) ;; sys (bpf_obj_pin fd b) else ret r) ;;
  if negb (r =? 0) then exit_with (-1) else ret tt.

Definition bump_memlock_rlimit : cmd unit := λ s, if setrlimit_ok s then Ret tt s else Exit 1 s.

(** libbpf is silent in the first attempt and not in the second. *)
Definition open_programs : cmd (path → Z) :=
  bump_memlock_rlimit ;;;
  skel <- sys ebpf__open_and_load ;;
  skel <- (match skel with Some k => ret (Some k) | None => sys ebpf__open_and_load end) ;;
  match skel with None => exit_with (-1) | Some skel => ret skel end.

Definition remove_old_dir (force : bool) (bpf_pin_dir : path) : cmd unit :=
  sb <- sys (sys_stat bpf_pin_dir) ;;
  match sb with
  | Some _ =>
      if negb force then exit_with (-1)
      else
        cleanup_bpf_pin_dir bpf_pin_dir ;;;
        sb <- sys (sys_stat bpf_pin_dir) ;;
        match sb with Some _ => exit_with (-1) | None => ret tt end
  | None => ret tt
  end.
Definition make_pin_dir (force : bool) (bpf_pin_dir : path) : cmd unit :=
  remove_old_dir force bpf_pin_dir ;;;
  r <- sys (sys_mkdir bpf_pin_dir) ;;
  if negb (r =? 0) then exit_with (-1)
  else
    sb <- sys (sys_stat bpf_pin_dir) ;;
    match sb with Some true => ret tt | _ => exit_with (-1) end.

Definition load_programs (package_version : path) (force : bool) (without_sendmsg : bool) (bpf_pin_dir : path)
  : cmd (path → Z) :=
  skel <- open_programs ;;
  make_pin_dir force bpf_pin_dir ;;;
  init_metrics package_version (skel (chars "setsockopt")) ;;;
  each (λ h, PIN (skel (fst h)) bpf_pin_dir (fst h)) (hooks without_sendmsg) ;;;
  ret skel.
End Load.

(** ** What the pieces do to the machine *)

(** No link is pinned twice. *)
Definition one_pin (s : os) : Prop :=
  ∀ l p q, os_pins s !! p = Some (O_link l) → os_pins s !! q = Some (O_link l) → p = q.
(** [s'] keeps what [s] has outside the pins at [P]: the other pins, the hooks whose links
    are pinned there, and the directories whose pins are not all in [P]; and no link gets a
    second pin. *)
Record keeps_outside (P : path → Prop) (s s' : os) : Prop := {
  ko_pins : ∀ p, ¬ P p → os_pins s' !! p = os_pins s !! p;
  ko_links : ∀ l a p, os_links s !! l = Some a → os_pins s !! p = Some (O_link l) → ¬ P p → os_links s' !! l = Some a;
  ko_one : one_pin s → one_pin s';
  ko_dirs : ∀ d, os_dirs s' !! d = os_dirs s !! d ∨ ∀ n, 47 ∉ n → P (join d n);
}.

#[export] Instance keeps_outside_preorder P : PreOrder (keeps_outside P).
Proof.
  split; [by constructor; [..|left]|]. intros s s1 s2 [P1 L1 O1 D1] [P2 L2 O2 D2]. split; [| |auto|].
  - intros p Hp. by rewrite P2, P1.
  - intros l a p Hl Hq Hp. apply (L2 l a p); [by apply (L1 l a p)| |done]. by rewrite P1.
  - intros d. destruct (D1 d) as [<-|?]; [apply D2|by right].
Qed.
Lemma one_pin_sub s s' :
  (∀ p l, os_pins s' !! p = Some (O_link l) → os_pins s !! p = Some (O_link l)) → one_pin s → one_pin s'.
Proof. intros Hsub O l p q Hp Hq. apply (O l); auto. Qed.
(** Nothing but links and descriptors has changed. *)
Lemma keeps_same P s s' : os_pins s' = os_pins s → os_dirs s' = os_dirs s →
  (∀ l a p, os_links s !! l = Some a → os_pins s !! p = Some (O_link l) → ¬ P p → os_links s' !! l = Some a) →
  keeps_outside P s s'.
Proof. intros Hp Hd Hl. split; [by rewrite Hp|done|by unfold one_pin; rewrite Hp|left; by rewrite Hd]. Qed.
(** One pin that is in [P] has changed, and is that of a link only if it was before. *)
Lemma keeps_pin P s s' b : P b → (∀ p, p ≠ b → os_pins s' !! p = os_pins s !! p) → os_dirs s' = os_dirs s →
  (∀ l, os_pins s' !! b = Some (O_link l) → os_pins s !! b = Some (O_link l)) →
  (∀ l a p, os_links s !! l = Some a → os_pins s !! p = Some (O_link l) → p ≠ b → os_links s' !! l = Some a) →
  keeps_outside P s s'.
Proof.
  intros Hb Hp Hd Ho Hl. split.
  - intros p Hn. apply Hp. by intros ->.
  - intros l a p H1 H2 Hn. apply (Hl l a p); [done..|]. by intros ->.
  - apply one_pin_sub. intros p l Hpl. destruct (decide (p = b)) as [->|Hne]; [by apply Ho|]. by rewrite <- Hp.
  - intros d. left. by rewrite Hd.
Qed.
Lemma settles_keeps P s s' : settles s s' → keeps_outside P s s'.
Proof. intros [F Hp D V L K]. apply keeps_same; [done..|]. intros l a p Hl Hq _. apply K; [done|]. right. eauto. Qed.

Lemma in_dir_short dir n : (List.length dir + List.length n < 4095)%nat → in_dir dir n = join dir n.
Proof.
  intros H. unfold in_dir, snprintf, join. apply take_ge. rewrite !length_app. change (PATH_MAX - 1)%nat with 4095%nat. cbn. lia.
Qed.
Lemma join_inj dir n m : join dir n = join dir m → n = m.
Proof. unfold join. intros H. by apply app_inv_head, app_inv_head in H. Qed.

Section Facts.
Context {B : Bpffs} {L : BpffsLaws}.

(** What [detach_pin] changes: the attachment of the link at [p], if it is one. *)
Record detaches (p : path) (s s' : os) : Prop := {
  de_fds : os_fds s' = os_fds s;
  de_pins : os_pins s' = os_pins s;
  de_dirs : os_dirs s' = os_dirs s;
  de_values : os_values s' = os_values s;
  de_links : ∀ l a, os_links s' !! l = Some a → os_links s !! l = Some a;
  de_held : ∀ l a, os_links s !! l = Some a → held l s → os_pins s !! p ≠ Some (O_link l) → os_links s' !! l = Some a;
}.
Lemma detaches_settled p s s' : settles s s' → detaches p s s'.
Proof. intros [F P D V K1 K2]. split; try done. intros l a Hl Hh _. by apply K2. Qed.

Lemma detach_pin_spec p s :
  wp (detach_pin p) (λ _ s', detaches p s s'
      ∧ (BpffsHealthy → ∀ l, os_pins s !! p = Some (O_link l) → os_links s' !! l = None)) (λ _ _, False) s.
Proof.
  unfold detach_pin. apply wp_bind, wp_sys. pose proof (obj_get_law p s) as Hg. unfold does in Hg.
  destruct (bpf_obj_get p s) as [fd s2] eqn:Eg. cbn [fst snd] in *. destruct (0 <=? fd) eqn:Efd.
  - destruct Hg as (s1 & (o & Ho & Hnew & ->) & Hs2). pose proof Hs2 as [F2 P2 D2 V2 K2 K2']. cbn in *.
    apply wp_bind, wp_sys. pose proof (link_detach_law fd s2) as Hd. unfold does in Hd.
    destruct (bpf_link_detach fd s2) as [r s4] eqn:Er. cbn [fst snd] in *.
    assert (∀ l a, os_links s !! l = Some a → held l s → os_links s2 !! l = Some a ∧ held l s2) as Hkeep.
    { intros l a Hl Hh. assert (held l (add_fd fd (D_obj o) s)) as Hh'.
      { destruct Hh as [[f Hf]|Hq]; [left|by right]. exists f. cbn. rewrite lookup_insert_ne; [done|]. congruence. }
      split; [by apply K2'|]. by apply (held_settles l _ _ Hs2). }
    (* the rest is the same whether the detachment succeeded or not *)
    assert (∃ s3, os_fds s3 = os_fds s2 ∧ os_pins s3 = os_pins s ∧ os_dirs s3 = os_dirs s ∧ os_values s3 = os_values s ∧
        (∀ l a, os_links s3 !! l = Some a → os_links s2 !! l = Some a) ∧
        (∀ l a, os_links s2 !! l = Some a → o ≠ O_link l → os_links s3 !! l = Some a) ∧
        (0 <= r → ∀ l, o = O_link l → os_links s3 !! l = None) ∧ settles s3 s4) as (s3 & F3 & P3 & D3 & V3 & K3 & K3' & N3 & Hs4).
    { destruct (0 <=? r) eqn:E0.
      - destruct Hd as (s3 & (l0 & Hl0 & ->) & Hs4). rewrite F2, lookup_insert_eq in Hl0. injection Hl0 as ->.
        eexists. split_and!; [..|exact Hs4]; cbn; try done.
        + intros l a. rewrite lookup_delete_Some. tauto.
        + intros l a Hl Hn. rewrite lookup_delete_Some. split; [congruence|done].
        + intros _ l [= ->]. apply lookup_delete_eq.
      - eexists. split_and!; [..|exact Hd]; try done. lia. }
    pose proof Hs4 as [F4 P4 D4 V4 K4 K4']. unfold wp, sys_. pose proof (close_law fd s4) as Hc.
    pose proof Hc as [F5 P5 D5 V5 K5 K5']. cbn in *. split.
    + split; try congruence.
      * rewrite F5, F4, F3, F2. by apply delete_insert_id.
      * intros l a Hl. apply K2, K3, K4, K5, Hl.
      * intros l a Hl Hh Hn. destruct (Hkeep l a Hl Hh) as [Hl2 Hh2]. apply K5'.
        -- apply K4'; [apply K3'; [done|congruence]|]. destruct Hh2 as [Hf|Hq]; [left|right].
           ++ by rewrite F3.
           ++ by rewrite P3, <- P2.
        -- destruct Hh as [[f Hf]|[q Hq]]; [left|right].
           ++ exists f. cbn. rewrite F4, F3, F2. rewrite lookup_delete_ne by congruence.
              rewrite lookup_insert_ne by congruence. done.
           ++ exists q. cbn. congruence.
    + intros BH l Hl. rewrite Ho in Hl. injection Hl as ->.
      assert (0 <= r) as Hr.
      { pose proof (link_detach_ok fd l s2) as Hok. rewrite Er in Hok. apply Hok. by rewrite F2, lookup_insert_eq. }
      apply eq_None_not_Some. intros [a Ha]. apply K5, K4 in Ha. by rewrite (N3 Hr l eq_refl) in Ha.
  - unfold wp, ret. split; [by apply detaches_settled|]. intros BH l Hl.
    pose proof (obj_get_ok p s (ex_intro _ _ Hl)) as Hok. rewrite Eg in Hok. cbn in Hok. lia.
Qed.
End Facts.

(** ** Taking pins away

    Shared by the clean-up of the directory and by the replacement of an installation: the
    pins [P] are detached and unlinked one after the other. *)
Section Taking.
Context {B : Bpffs} {L : BpffsLaws} (P : path → Prop).

(** Begun on [s0]; [r] are the pins still to come. *)
Record cleaning (s0 : os) (fds : gmap Z descr) (r : list path) (s : os) : Prop := {
  cl_fds : os_fds s = fds;
  cl_dirs : os_dirs s = os_dirs s0;
  cl_values : os_values s = os_values s0;
  cl_outside : ∀ p, ¬ P p → os_pins s !! p = os_pins s0 !! p;
  cl_inside : ∀ p, P p → os_pins s !! p = None ∨ (os_pins s !! p = os_pins s0 !! p ∧ (BpffsHealthy → p ∈ r));
  cl_links : ∀ l a, os_links s !! l = Some a → os_links s0 !! l = Some a;
  cl_gone : BpffsHealthy → ∀ p l, P p → os_pins s0 !! p = Some (O_link l) → os_pins s !! p = None →
    os_links s !! l = None;
  cl_others : ∀ l a p, os_links s0 !! l = Some a → os_pins s0 !! p = Some (O_link l) → ¬ P p →
    os_links s !! l = Some a;
}.

Lemma cleaning_begins s0 s r : settles s0 s → (∀ p, P p → is_Some (os_pins s0 !! p) → p ∈ r) →
  cleaning s0 (os_fds s0) r s.
Proof.
  intros [F Hp D V K H] Hr. split; try done.
  - intros p _. by rewrite Hp.
  - intros p HP. rewrite Hp. destruct (os_pins s0 !! p) eqn:E; [right|by left]. split; [done|]. intros _. apply Hr; eauto.
  - intros _ p l _ E1 E2. congruence.
  - intros l a p Hl Hq _. apply H; [done|]. right. eauto.
Qed.

Lemma cleaning_settles s0 fds r s s' : cleaning s0 fds r s → settles s s' → cleaning s0 fds r s'.
Proof.
  intros [F D V O I K G H] [F' P' D' V' K' H']. split; try congruence.
  - intros p Hp. rewrite P'. by apply O.
  - intros p. rewrite P'. apply I.
  - eauto.
  - intros Hh p l HP Hp Hq. rewrite P' in Hq. apply eq_None_not_Some. intros [a Ha].
    apply K' in Ha. by rewrite (G Hh p l HP Hp Hq) in Ha.
  - intros l a p Hl Hp Hn. apply H'; [by apply (H l a p)|]. right. exists p. by rewrite O.
Qed.

(** Without the pin [q]: it is gone, or it never was there, or the system may fail. *)
Lemma cleaning_skip s0 fds q r s :
  cleaning s0 fds (q :: r) s → (BpffsHealthy → os_pins s !! q = None) → cleaning s0 fds r s.
Proof.
  intros [F D V O I K G H] Hq. split; try done. intros p Hp. destruct (I p Hp) as [?|[Ep Hin]]; [by left|].
  destruct (decide (os_pins s !! p = None)) as [|Hne]; [by left|right]. split; [done|]. intros Hh.
  specialize (Hin Hh). apply elem_of_cons in Hin as [->|Hin]; [by rewrite Hq in Hne|done].
Qed.

Lemma cleaning_detached s0 fds q r s s' :
  P q → one_pin s0 → detaches q s s' → cleaning s0 fds r s → cleaning s0 fds r s'.
Proof.
  intros HPq Hone [F' P' D' V' K' H'] [F D V O I K G H]. split; try congruence.
  - intros p Hp. rewrite P'. by apply O.
  - intros p. rewrite P'. apply I.
  - eauto.
  - intros Hh p l Hm Hp Hq. rewrite P' in Hq. apply eq_None_not_Some. intros [a Ha].
    apply K' in Ha. by rewrite (G Hh p l Hm Hp Hq) in Ha.
  - intros l a p Hl Hp Hu. apply H'; [by apply (H l a p)| |].
    + right. exists p. by rewrite O.
    + intros Hq. destruct (I q HPq) as [E|[E _]]; rewrite E in Hq; [done|].
      apply Hu. by rewrite (Hone l p q).
Qed.

Lemma cleaning_unlinked s0 fds q r s :
  P q → cleaning s0 fds (q :: r) s →
  (BpffsHealthy → ∀ l, os_pins s !! q = Some (O_link l) → os_links s !! l = None) →
  cleaning s0 fds r (set_pins (delete q (os_pins s)) s).
Proof.
  intros HPq [F D V O I K G H] Hl. split; cbn; try done.
  - intros p Hp. rewrite lookup_delete_ne; [by apply O|]. by intros ->.
  - intros p Hp. destruct (decide (p = q)) as [->|Hpq]; [left; apply lookup_delete_eq|].
    rewrite lookup_delete_ne by done. destruct (I p Hp) as [?|[? Hin]]; [by left|right].
    split; [done|]. intros Hh. specialize (Hin Hh). by apply elem_of_cons in Hin as [->|Hin].
  - intros Hh p l HP Hp Hn. destruct (decide (p = q)) as [->|Hpq].
    + destruct (I q HP) as [E|[E _]]; [by apply (G Hh q)|]. apply (Hl Hh). by rewrite E.
    + rewrite lookup_delete_ne in Hn by done. by apply (G Hh p).
Qed.

Lemma cleaning_keeps s0 fds r s : cleaning s0 fds r s → keeps_outside P s0 s.
Proof.
  intros [F D V O I K G H]. split; [done|done| |left; by rewrite D]. apply one_pin_sub. intros p l Hp.
  destruct (decide (os_pins s !! p = os_pins s0 !! p)) as [E|E]; [congruence|]. exfalso. apply E, O. intros HP.
  destruct (I p HP) as [|[? _]]; congruence.
Qed.
Lemma cleaning_pins s0 fds r s : (∀ p, Decision (P p)) → cleaning s0 fds r s → os_pins s ⊆ os_pins s0.
Proof.
  intros Hdec [F D V O I K G H]. apply map_subseteq_spec. intros p o Hp. destruct (decide (P p)) as [HP|HP].
  - destruct (I p HP) as [E|[E _]]; congruence.
  - by rewrite <- O.
Qed.

(** Detach the pin [join dir n] and unlink [n] in the directory [fd]. *)
Lemma take_pin_spec dir fd n r s0 fds s :
  fds !! fd = Some (D_dir dir) → P (join dir n) → one_pin s0 → cleaning s0 fds (join dir n :: r) s →
  wp (bind (detach_pin (join dir n)) (λ _, bind (sys (sys_unlinkat fd n)) (λ _, ret tt)))
    (λ _, cleaning s0 fds r) (λ _ _, False) s.
Proof.
  intros Hfd HP Hone Hc. apply wp_bind. eapply wp_mono; [apply detach_pin_spec| |done].
  intros _ s1 [Hd Hgone]. pose proof (cleaning_detached _ _ _ _ _ _ HP Hone Hd Hc) as Hc1.
  apply wp_bind, wp_sys. unfold wp, ret. pose proof (unlinkat_law fd n s1) as Hu. unfold does in Hu.
  assert (os_fds s1 !! fd = Some (D_dir dir)) as Hfd1 by (by rewrite (cl_fds _ _ _ _ Hc1)).
  pose proof (λ BH, @unlinkat_ok B BH fd dir n s1 Hfd1) as Hok.
  destruct (sys_unlinkat fd n s1) as [u s3] eqn:Eu. cbn [fst snd] in *.
  destruct (0 <=? u) eqn:E0.
  - destruct Hu as (s2 & (d & Hd2 & Hp & ->) & Hs). rewrite Hfd1 in Hd2. injection Hd2 as <-.
    apply (cleaning_settles _ _ _ _ _ (cleaning_unlinked _ _ _ _ _ HP Hc1
      ltac:(intros Hh l; rewrite (de_pins _ _ _ Hd); by apply Hgone)) Hs).
  - apply (cleaning_settles _ _ _ s1); [|done]. apply (cleaning_skip _ _ (join dir n)); [done|].
    intros Hh. apply eq_None_not_Some. intros Hp. specialize (Hok Hh Hp). lia.
Qed.
End Taking.

(** ** Cleaning up *)
Section Cleanup.
Context {B : Bpffs} {L : BpffsLaws}.

Definition under (dir p : path) : Prop := ∃ n, (47 ∉ n) ∧ p = join dir n.
(** The directory as the BPF file system and udpgrm keep it: names without leading dot, no
    subdirectories. *)
Definition tidy (dir : path) (s : os) : Prop :=
  ∀ n, 47 ∉ n → os_dirs s !! join dir n = None ∧
    (is_Some (os_pins s !! join dir n) → is_dot n = false ∧ (List.length n <= 255)%nat).

#[export] Instance under_dec dir p : Decision (under dir p).
Proof.
  destruct (strip dir p) as [n|] eqn:E.
  - apply strip_join in E as ->. destruct (decide (47 ∈ n)); [right|left; by exists n].
    intros (m & Hm & E). by apply join_inj in E as ->.
  - right. intros (m & _ & ->). by rewrite (proj2 (strip_join dir _ m) eq_refl) in E.
Defined.

Lemma cleanup_entry_spec dir s0 fd fds n r s :
  (List.length dir <= 3800)%nat → tidy dir s0 → one_pin s0 → name_ok n → fds !! fd = Some (D_dir dir) →
  cleaning (under dir) s0 fds (map (join dir) (n :: r)) s →
  wp (cleanup_entry dir fd n) (λ _, cleaning (under dir) s0 fds (map (join dir) r)) (λ _ _, False) s.
Proof.
  intros Hdir Ht Hone Hn Hfd Hc. apply andb_prop_elim in Hn as [Hn Hlen].
  apply bool_decide_unpack in Hn. apply Is_true_true, Nat.leb_le in Hlen. unfold cleanup_entry.
  assert (under dir (join dir n)) as HP by (by exists n).
  destruct (is_dot n) eqn:Edot.
  { apply (cleaning_skip _ _ _ (join dir n)); [done|]. intros _.
    destruct (cl_inside _ _ _ _ _ Hc _ HP) as [|[E _]]; [done|].
    rewrite E. apply eq_None_not_Some. intros Hp. apply (Ht n Hn) in Hp as [Hp _]. congruence. }
  rewrite in_dir_short by lia. by apply (take_pin_spec (under dir) dir fd n _ s0 fds).
Qed.

(** The loop over the entries that [readdir] gave. *)
Lemma cleanup_loop dir s fd names s2 :
  (List.length dir <= 3800)%nat → tidy dir s → one_pin s → sys_opendir dir s = (Some (fd, names), s2) →
  ∃ s3, each (cleanup_entry dir fd) names s2 = Ret tt s3 ∧
    cleaning (under dir) (add_fd fd (D_dir dir) s) (os_fds (add_fd fd (D_dir dir) s)) [] s3 ∧ os_fds s !! fd = None.
Proof.
  intros Hdir Ht Hone E. pose proof (opendir_law dir s) as Ho. rewrite E in Ho.
  destruct Ho as (_ & _ & Hnames & Hall & s1 & [Hnew ->] & Hs). set (s1 := add_fd fd (D_dir dir) s) in *.
  assert (cleaning (under dir) s1 (os_fds s1) (map (join dir) names) s2) as Hc.
  { apply cleaning_begins; [done|]. intros p (n & Hn & ->) Hp. apply list_elem_of_fmap. exists n. split; [done|].
    apply Hall; [|done]. destruct (Ht n Hn) as [_ Hl]. destruct (Hl Hp) as [_ Hlen].
    unfold name_ok. rewrite bool_decide_true by done. cbn. by apply Is_true_true, Nat.leb_le. }
  assert (os_fds s1 !! fd = Some (D_dir dir)) as Hfd by apply lookup_insert_eq.
  pose proof (wp_each (cleanup_entry dir fd)
    (λ r s', Forall name_ok r ∧ cleaning (under dir) s1 (os_fds s1) (map (join dir) r) s') (λ _ _, False) names s2)
    as Hloop. unfold wp in Hloop at 2.
  assert (∀ n r s', Forall name_ok (n :: r) ∧ cleaning (under dir) s1 (os_fds s1) (map (join dir) (n :: r)) s' →
    wp (cleanup_entry dir fd n) (λ _ s'', Forall name_ok r ∧ cleaning (under dir) s1 (os_fds s1) (map (join dir) r) s'')
      (λ _ _, False) s') as Hentry.
  { intros n r s' [Hok Hc']. inversion Hok as [|? ? Ha Hr]. subst.
    eapply wp_mono; [by apply (cleanup_entry_spec dir s1 fd (os_fds s1))|by eauto|done]. }
  specialize (Hloop Hentry (conj Hnames Hc)). destruct (each _ names s2) as [[] s3|e s3]; [|done].
  exists s3. split_and!; [done|apply Hloop|done].
Qed.
Lemma keeps_under_settles dir s0 fds r s3 s' :
  cleaning (under dir) s0 fds r s3 → settles s3 s' → keeps_outside (under dir) s0 s'.
Proof. intros Hc Hs. etrans; [by eapply cleaning_keeps|by apply settles_keeps]. Qed.
Lemma keeps_fd P fd d s s' : keeps_outside P (add_fd fd d s) s' ↔ keeps_outside P s s'.
Proof. split; intros [Hp Hl Ho Hd]; by split. Qed.

(** Removing the directory at the end. *)
Lemma rmdir_spec dir s :
  let s' := snd (sys_rmdir dir s) in
  os_fds s' = os_fds s ∧ os_pins s' = os_pins s ∧ os_values s' = os_values s ∧ keeps_outside (under dir) s s' ∧
  (∀ l a, os_links s' !! l = Some a → os_links s !! l = Some a) ∧
  if 0 <=? fst (sys_rmdir dir s) then os_dirs s' = delete dir (os_dirs s) ∧ ∀ n, 47 ∉ n → os_pins s !! join dir n = None
  else os_dirs s' = os_dirs s.
Proof.
  intros s'. pose proof (rmdir_law dir s) as Hr. unfold does in Hr. fold s' in Hr. clearbody s'.
  destruct (0 <=? fst _).
  - destruct Hr as (s5 & (_ & Hempty & ->) & [F P D V K H _]). cbn in *. split_and!; try done. split.
    + intros p _. by rewrite P.
    + intros l a p Hl Hp _. apply H; [done|right; eauto].
    + unfold one_pin. by rewrite P.
    + intros d. rewrite D. destruct (decide (d = dir)) as [->|Hd]; [right|left; by apply lookup_delete_ne].
      intros n Hn. by exists n.
  - pose proof Hr as [F P D V K H _]. split_and!; try done. by apply settles_keeps.
Qed.

(** Whatever fails: nothing outside the directory changes, no pin comes, and the directory is
    gone only when it is empty. *)
Lemma cleanup_frame dir s :
  (List.length dir <= 3800)%nat → tidy dir s → one_pin s →
  ∃ s', cleanup_bpf_pin_dir dir s = Ret tt s' ∧ os_fds s' = os_fds s ∧ os_pins s' ⊆ os_pins s ∧
    keeps_outside (under dir) s s' ∧
    (os_dirs s' = os_dirs s ∨ os_dirs s' = delete dir (os_dirs s) ∧ ∀ n, 47 ∉ n → os_pins s' !! join dir n = None).
Proof.
  intros Hdir Ht Hone. unfold cleanup_bpf_pin_dir, bind, sys, ret.
  assert (∃ s4, match sys_opendir dir s with
      | (Some (fd, names), s2) => match each (cleanup_entry dir fd) names s2 with Ret _ s3 => Ret tt (sys_close fd s3) | Exit e s3 => Exit e s3 end
      | (None, s2) => Ret tt s2 end = Ret tt s4 ∧
    os_fds s4 = os_fds s ∧ os_pins s4 ⊆ os_pins s ∧ os_dirs s4 = os_dirs s ∧ keeps_outside (under dir) s s4) as (s4 & E4 & F4 & P4 & D4 & K4).
  { pose proof (opendir_law dir s) as Ho. destruct (sys_opendir dir s) as [[[fd names]|] s2] eqn:Eo.
    - destruct (cleanup_loop dir s fd names s2 Hdir Ht Hone Eo) as (s3 & -> & Hcl & Hnew).
      exists (sys_close fd s3). pose proof (close_law fd s3) as Hs4. pose proof Hs4 as [F P D V K H _]. cbn in *.
      split_and!; [done| | | |].
      + rewrite F, (cl_fds _ _ _ _ _ Hcl). by apply delete_insert_id.
      + rewrite P. by apply (cleaning_pins _ _ _ _ _ _ Hcl).
      + by rewrite D, (cl_dirs _ _ _ _ _ Hcl).
      + apply (keeps_fd _ fd (D_dir dir)). pose proof (cleaning_keeps _ _ _ _ _ Hcl) as [A1 A2 A3 A4].
        destruct (settles_keeps (under dir) _ _ Hs4) as [B1 B2 B3 B4]. transitivity s3; by split.
    - exists s2. pose proof Ho as [F P D V K H _]. split_and!; try done; [by rewrite P|by apply settles_keeps]. }
  exists (snd (sys_rmdir dir s4)). destruct (rmdir_spec dir s4) as (F & P & _ & Hk & _ & Hr).
  split_and!; [|congruence|by rewrite P|by etrans|].
  - destruct (sys_opendir dir s) as [[[fd names]|] s2]; unfold sys_; [destruct (each _ _ _); [|done]|];
      injection E4 as ->; by destruct (sys_rmdir dir s4).
  - destruct (0 <=? _); [right|left; congruence]. destruct Hr as [-> He]. rewrite D4. split; [done|]. by rewrite P.
Qed.

Lemma cleanup_spec {BH : BpffsHealthy} dir s :
  (List.length dir <= 3800)%nat → is_Some (os_dirs s !! dir) → tidy dir s → one_pin s →
  ∃ s', cleanup_bpf_pin_dir dir s = Ret tt s' ∧ os_fds s' = os_fds s ∧ os_dirs s' = delete dir (os_dirs s) ∧
    (∀ n, 47 ∉ n → os_pins s' !! join dir n = None) ∧
    (∀ n l, 47 ∉ n → os_pins s !! join dir n = Some (O_link l) → os_links s' !! l = None) ∧
    os_values s' = os_values s ∧ keeps_outside (under dir) s s'.
Proof.
  intros Hdir Hex Ht Hone. destruct (cleanup_frame dir s Hdir Ht Hone) as (s' & E & Ff & _ & Hk & _).
  exists s'. split; [done|]. split; [done|]. revert E. unfold cleanup_bpf_pin_dir, bind, sys, ret, sys_.
  pose proof (opendir_ok dir s Hex) as Hok. destruct (sys_opendir dir s) as [[[fd names]|] s2] eqn:Eo; [|by destruct Hok].
  destruct (cleanup_loop dir s fd names s2 Hdir Ht Hone Eo) as (s3 & -> & Hcl & Hnew).
  pose proof (close_law fd s3) as [F4 P4 D4 V4 K4 H4 _]. set (s4 := sys_close fd s3) in *. destruct Hcl as [F D V O I K G H]. cbn in *.
  assert (∀ n, 47 ∉ n → os_pins s4 !! join dir n = None) as Hnone.
  { intros n Hn. rewrite P4. destruct (I (join dir n)) as [?|[_ E]]; [by exists n|done|]. by apply E, elem_of_nil in BH. }
  destruct (rmdir_spec dir s4) as (_ & P6 & V6 & _ & K6 & Hr). pose proof (rmdir_ok dir s4) as Hrok.
  destruct (sys_rmdir dir s4) as [r s6]. cbn [fst snd] in *. intros [= <-].
  rewrite (proj2 (Z.leb_le 0 r)) in Hr.
  2:{ apply Hrok; [by rewrite D4, D|]. intros n Hn. split; [by apply Hnone|]. rewrite D4, D. by apply Ht. }
  split_and!; [by rewrite (proj1 Hr), D4, D|by intros n Hn; rewrite P6; apply Hnone| |by rewrite V6, V4, V|done].
  intros n l Hn Hp. apply eq_None_not_Some. intros [a Ha]. apply K6, K4 in Ha.
  rewrite (G BH (join dir n) l) in Ha; [done|by exists n|done|]. rewrite <- P4. by apply Hnone.
Qed.
End Cleanup.

(** ** Discovery: nothing changes but descriptors are opened *)
Record grows (s s' : os) : Prop := {
  gr_fds : os_fds s ⊆ os_fds s';
  gr_pins : os_pins s' = os_pins s;
  gr_dirs : os_dirs s' = os_dirs s;
  gr_values : os_values s' = os_values s;
  gr_links : ∀ l a, os_links s' !! l = Some a → os_links s !! l = Some a;
  gr_held : ∀ l a p, os_links s !! l = Some a → os_pins s !! p = Some (O_link l) → os_links s' !! l = Some a;
}.
#[export] Instance grows_preorder : PreOrder grows.
Proof.
  split; [by constructor|]. intros s s1 s2 [F P D V K H] [F1 P1 D1 V1 K1 H1].
  split; try congruence; [by etrans|eauto|]. intros l a p Hl Hp. apply (H1 l a p); [by apply (H l a p)|congruence].
Qed.
Lemma grows_settles s s' : settles s s' → grows s s'.
Proof. intros [F P D V K H]. split; try done; [by rewrite F|]. intros l a p Hl Hp. apply H; [done|]. right. eauto. Qed.
Lemma grows_keeps P s s' : grows s s' → keeps_outside P s s'.
Proof. intros [F Hp D V K H]. apply keeps_same; eauto. Qed.
Lemma grows_fd s s' fd d : grows s s' → os_fds s !! fd = Some d → os_fds s' !! fd = Some d.
Proof. intros [F _ _ _ _ _] Hd. by eapply lookup_weaken. Qed.

Section Discovery.
Context {B : Bpffs} {L : BpffsLaws}.

(** A descriptor that a call opened. *)
Lemma opens_grows (r : Z * os) s d :
  does r s (λ fd, new_fd fd d s) →
  grows s (snd r) ∧ (0 <= fst r → os_fds s !! fst r = None ∧ os_fds (snd r) !! fst r = Some d).
Proof.
  unfold does. destruct (0 <=? fst r) eqn:E; [|intros H; split; [by apply grows_settles|lia]].
  intros (s1 & [Hn ->] & Hs). split.
  - etrans; [|by apply grows_settles]. split; cbn; try done. by apply insert_subseteq.
  - intros _. split; [done|]. rewrite (se_fds _ _ Hs). apply lookup_insert_eq.
Qed.
Lemma close_grows s s' fd : grows s s' → os_fds s !! fd = None → grows s (sys_close fd s').
Proof.
  intros [F P D V K H] Hn. pose proof (close_law fd s') as [F1 P1 D1 V1 K1 H1]. cbn in *. split; try congruence.
  - rewrite F1. apply map_subseteq_spec. intros f d Hf. rewrite lookup_delete_ne by congruence. by eapply lookup_weaken.
  - eauto.
  - intros l a p Hl Hp. apply H1; [by eapply H|]. right. exists p. cbn. by rewrite P.
Qed.
Lemma tells_grows {A} (r : option A * os) s good : tells r s good → grows s (snd r).
Proof. intros [H _]. by apply grows_settles. Qed.

Lemma find_prog_spec ids name s :
  wp (find_prog ids name)
    (λ r s', grows s s' ∧ (fst r = -1 ∨ os_fds s !! fst r = None ∧ ∃ id, id ∈ ids ∧
       os_fds s' !! fst r = Some (D_obj (O_prog id)) ∧ strneq (BPF_OBJ_NAME_LEN - 1) (pi_name (prog_info_of id)) name))
    (λ _ s', grows s s') s.
Proof.
  revert s. induction ids as [|id ids IH]; intros s; cbn [find_prog].
  { unfold wp, ret. split; [done|by left]. }
  apply wp_bind, wp_sys. destruct (opens_grows _ _ _ (prog_by_id_law id s)) as [Hg Hnew].
  destruct (bpf_prog_get_fd_by_id id s) as [fd s1]. cbn [fst snd] in *.
  destruct (Z.ltb_spec fd 0) as [?|Hfd]; [done|]. destruct (Hnew Hfd) as [Hn Hfd1].
  apply wp_bind, wp_sys. pose proof (prog_info_law fd s1) as Hi. pose proof (tells_grows _ _ _ Hi) as Hg1. destruct Hi as [_ Hi].
  destruct (prog_info_by_fd fd s1) as [[info|] s2]; cbn [fst snd] in *.
  2:{ unfold wp, exit_with. by etrans. }
  destruct Hi as (id' & Hid' & ->). rewrite Hfd1 in Hid'. injection Hid' as <-.
  destruct (strneq _ _ _) eqn:Em.
  - unfold wp, ret. split; [by etrans|]. right. cbn. split; [done|]. exists id. split_and!; [by left| |by apply Is_true_true].
    by apply (grows_fd s1).
  - apply wp_bind. unfold wp at 1, sys_. assert (grows s (sys_close fd s2)) as Hc by (apply close_grows; [by etrans|done]).
    eapply wp_mono; [apply IH| |].
    + intros [f i] s3 [Hg3 Hr]. split; [by etrans|]. cbn in *. destruct Hr as [?|(Hf & id' & Hin & ? & ?)]; [by left|right].
      split; [|exists id'; split_and!; try done; by right].
      destruct (os_fds s !! f) eqn:Ef; [|done]. apply (grows_fd _ _ _ _ Hc) in Ef. congruence.
    + intros e s3 Hg3. by etrans.
Qed.
Lemma prog_from_cgroup_spec cg_fd type name s :
  wp (prog_from_cgroup cg_fd type name)
    (λ r s', grows s s' ∧ (fst r = -1 ∨ os_fds s !! fst r = None)) (λ _ s', grows s s') s.
Proof.
  apply wp_bind, wp_sys. pose proof (tells_grows _ _ _ (prog_query_law cg_fd type s)) as Hg.
  destruct (bpf_prog_query cg_fd type s) as [[ids|] s1]; cbn [fst snd] in *; [|done].
  eapply wp_mono; [apply find_prog_spec| |].
  - intros r s2 [Hg2 Hr]. split; [by etrans|]. destruct Hr as [?|[Hf _]]; [by left|right].
    destruct (os_fds s !! fst r) eqn:Ef; [|done]. apply (grows_fd _ _ _ _ Hg) in Ef. congruence.
  - intros e s2 Hg2. by etrans.
Qed.

Lemma open_first_spec ps s :
  wp (open_first ps)
    (λ r s', grows s s' ∧ match r with
       | Some (fd, p) => p ∈ ps ∧ os_fds s !! fd = None ∧ os_fds s' !! fd = Some (D_dir p)
       | None => True end) (λ _ _, False) s.
Proof.
  revert s. induction ps as [|p ps IH]; intros s; cbn [open_first]; [by unfold wp, ret|].
  apply wp_bind, wp_sys. destruct (opens_grows _ _ _ (open_law p s)) as [Hg Hnew].
  destruct (sys_open p s) as [fd s1]. cbn [fst snd] in *. destruct (Z.leb_spec 0 fd) as [Hfd|?].
  - unfold wp, ret. destruct (Hnew Hfd). split_and!; try done. by left.
  - eapply wp_mono; [apply IH| |done]. intros [[f q]|] s2 [Hg2 Hr]; (split; [by etrans|]); [|done].
    destruct Hr as (Hin & Hf & Hd). split_and!; [by right| |done].
    destruct (os_fds s !! f) eqn:Ef; [|done]. apply (grows_fd _ _ _ _ Hg) in Ef. congruence.
Qed.
Lemma cgroup_from_paths_spec proc_self ps self s :
  wp (cgroup_from_paths proc_self ps self)
    (λ r s', grows s s' ∧ match r with Some (fd, p) => os_fds s' !! fd = Some (D_dir p) | None => True end)
    (λ _ s', grows s s') s.
Proof.
  apply wp_bind. eapply wp_mono; [apply open_first_spec| |done].
  intros [[fd p]|] s1 [Hg H]; [|by unfold wp, ret]. destruct H as (_ & Hn & Hd).
  destruct (negb self); [by unfold wp, ret|]. apply wp_bind. unfold wp at 1, sys_.
  pose proof (close_grows _ _ _ Hg Hn) as Hc. apply wp_bind. unfold get_first_proc_self_cgroup.
  destruct proc_self as [file|]; unfold wp at 1, ret, exit_with; [|done].
  destruct (first_cgroup _ file) as [child|]; [|done].
  set (q := snprintf PATH_MAX (p ++ child)). clearbody q.
  apply wp_bind, wp_sys. destruct (opens_grows _ _ _ (open_law q (sys_close fd s1))) as [Hg2 Hnew].
  destruct (sys_open q _) as [fd2 s2]. cbn [fst snd] in *. destruct (Z.leb_spec 0 fd2) as [Hfd|?]; unfold wp, ret.
  - split; [by etrans|]. by apply Hnew.
  - split; [by etrans|done].
Qed.
End Discovery.

(** ** Installing *)
Lemma dec_from fuel n acc : Forall (λ c, 48 <= c < 58) acc →
  Forall (λ c, 48 <= c < 58) (digits fuel 10 n acc) ∧ (List.length (digits fuel 10 n acc) <= fuel + List.length acc)%nat
  ∧ (fuel ≠ 0%nat → digits fuel 10 n acc ≠ []).
Proof.
  revert n acc. induction fuel as [|fuel IH]; intros n acc Ha; cbn [digits]; [by split_and!; [|cbn; lia|]|].
  assert (Forall (λ c, 48 <= c < 58) (digit (n mod 10) :: acc)) as Ha'.
  { constructor; [|done]. unfold digit. pose proof (Z.mod_pos_bound n 10 ltac:(lia)). destruct (Z.ltb_spec (n mod 10) 10); lia. }
  destruct (n / 10 =? 0); [split_and!; [done|cbn; lia|done]|].
  destruct (IH (n / 10) _ Ha') as (H1 & H2 & H3). split_and!; [done|cbn in *; lia|]. intros _ Hn.
  destruct fuel; [done|]. by apply H3.
Qed.
Lemma signed_text ino : ∃ c r, signed ino = c :: r ∧ c < 58 ∧ (List.length r <= 20)%nat.
Proof.
  unfold signed, dec. destruct (ino <? 0).
  - eexists _, _. split_and!; [done|lia|]. destruct (dec_from 20 (- ino) [] ltac:(constructor)) as (_ & H & _). cbn in *. lia.
  - destruct (dec_from 20 ino [] ltac:(constructor)) as (H1 & H2 & H3). destruct (digits 20 10 ino []) as [|c r]; [by destruct H3|].
    inversion H1. subst. eexists _, _. split_and!; [done|lia|cbn in *; lia].
Qed.

(** The pins of the links of a cgroup. *)
Definition link_pin (dir : path) (ino : Z) (h : path * Z) : path := join dir (link_name ino (fst h)).
Definition names (dir : path) (ino : Z) (p : path) : Prop := ∃ h, h ∈ hooks false ∧ p = link_pin dir ino h.

Lemma hook_names h : h ∈ hooks false → ∃ c r, fst h = c :: r ∧ 97 <= c ∧ (List.length r <= 20)%nat.
Proof.
  intros H. assert (match fst h with c :: r => 97 <= c ∧ (List.length r <= 20)%nat | [] => False end) as Hc.
  { revert h H. apply Forall_forall. repeat constructor; cbn; lia. }
  destruct (fst h) as [|c r]; [done|]. by exists c, r.
Qed.
Lemma hook_no_slash h : h ∈ hooks false → 47 ∉ fst h.
Proof. revert h. apply Forall_forall. repeat constructor; cbn; by intros ?%(bool_decide_pack _)%Is_true_true. Qed.
Lemma hooks_sub ws h : h ∈ hooks ws → h ∈ hooks false.
Proof. destruct ws; [|done]. unfold hooks. rewrite !elem_of_app. intros [H|[H|H]]; [by left|by apply elem_of_nil in H|by right; right]. Qed.
Lemma link_name_length ino h : h ∈ hooks false → (List.length (link_name ino (fst h)) <= 50)%nat.
Proof.
  intros Hh. destruct (signed_text ino) as (c & r & E & _ & Hl). destruct (hook_names h Hh) as (c' & r' & E' & _ & Hl').
  unfold link_name. rewrite E, E', !length_app. cbn. lia.
Qed.
Lemma prog_pin_outside dir ino h : h ∈ hooks false → ¬ names dir ino (join dir (fst h)).
Proof.
  intros Hh (h' & _ & E). apply join_inj in E. destruct (hook_names h Hh) as (c & r & E' & Hc & _).
  destruct (signed_text ino) as (c' & r' & E'' & Hc' & _). unfold link_name in E. rewrite E', E'' in E. injection E. lia.
Qed.

Section Install.
Context {B : Bpffs} {L : BpffsLaws} (dir : path) (ino : Z).
Context (Hdir : (List.length dir <= 3800)%nat).

Lemma unload_spec fd fds h r s0 s :
  h ∈ hooks false → fds !! fd = Some (D_dir dir) → one_pin s0 →
  cleaning (names dir ino) s0 fds (map (link_pin dir ino) (h :: r)) s →
  wp (UNLOAD fd dir ino (fst h)) (λ _, cleaning (names dir ino) s0 fds (map (link_pin dir ino) r)) (λ _ _, False) s.
Proof.
  intros Hh Hfd Hone Hc. unfold UNLOAD. pose proof (link_name_length ino h Hh). rewrite in_dir_short by lia.
  assert (snprintf PATH_MAX (link_name ino (fst h)) = link_name ino (fst h)) as ->.
  { apply take_ge. change (PATH_MAX - 1)%nat with 4095%nat. lia. }
  apply (take_pin_spec (names dir ino) dir fd (link_name ino (fst h)) _ s0 fds); try done. by exists h.
Qed.

(** A hook as it is installed. *)
Definition hooked (h : path * Z) (s : os) : Prop :=
  ∃ prog l, os_pins s !! join dir (fst h) = Some (O_prog prog) ∧ os_pins s !! link_pin dir ino h = Some (O_link l) ∧
    os_links s !! l = Some (mk_att ino (snd h) prog).

(** The installation that began on [s0], with the hooks [r] of [hs] still to come. *)
Record loading (hs : list (path * Z)) (cg_fd : Z) (s0 : os) (r : list (path * Z)) (s : os) : Prop := {
  ld_cg : ∃ p, os_fds s !! cg_fd = Some (D_dir p) ∧ os_dirs s !! p = Some ino;
  ld_fds : os_fds s0 ⊆ os_fds s;
  ld_dirs : os_dirs s = os_dirs s0;
  ld_values : os_values s = os_values s0;
  ld_one : one_pin s;
  ld_pins : ∀ p, is_Some (os_pins s !! p) → is_Some (os_pins s0 !! p) ∨ names dir ino p;
  ld_keeps : keeps_outside (names dir ino) s0 s;
  ld_done : ∀ h, h ∈ hs → h ∉ r → hooked h s;
  ld_new : ∀ l a, os_links s !! l = Some a → os_links s0 !! l = Some a ∨ ∃ p, names dir ino p ∧ os_pins s !! p = Some (O_link l);
}.

Lemma obj_get_spec p s :
  grows s (snd (bpf_obj_get p s)) ∧ (0 <= fst (bpf_obj_get p s) → ∃ o, os_pins s !! p = Some o ∧
    os_fds s !! fst (bpf_obj_get p s) = None ∧ os_fds (snd (bpf_obj_get p s)) !! fst (bpf_obj_get p s) = Some (D_obj o)).
Proof.
  pose proof (obj_get_law p s) as H. destruct (bpf_obj_get p s) as [fd s2]. unfold does in H. cbn [fst snd] in *.
  destruct (Z.leb_spec 0 fd); [|split; [by apply grows_settles|lia]]. destruct H as (s1 & (o & Ho & Hn & ->) & Hs).
  destruct (opens_grows (fd, s2) s (D_obj o)) as [Hg Hfd].
  { unfold does. cbn. rewrite (proj2 (Z.leb_le 0 fd)) by done. eexists. by split. }
  split; [done|]. intros _. exists o. split; [done|]. by apply Hfd.
Qed.

Lemma keeps_all P s s' : keeps_outside (λ _, False) s s' → keeps_outside P s s'.
Proof.
  intros [Hp Hl Ho Hd]. split; [intros p _; apply Hp; tauto|intros l a p H1 H2 _; apply (Hl l a p); tauto|done|].
  intros d. left. destruct (Hd d) as [?|Hn]; [done|]. destruct (Hn []). apply not_elem_of_nil.
Qed.

(** The link after it was created and pinned, before its descriptor is closed. *)
Lemma link_pinned pfd cfd type p s q cg prog :
  os_fds s !! pfd = Some (D_obj (O_prog prog)) → os_fds s !! cfd = Some (D_dir cg) → os_dirs s !! cg = Some ino →
  p = q → 
  let lk := bpf_link_create pfd cfd type s in 
  0 <= fst lk →
  let pn := bpf_obj_pin (fst lk) q (snd lk) in
  keeps_outside (λ _, False) s (snd lk) ∧
  (0 <= fst pn → os_pins s !! p = None ∧ ∃ l, os_links s !! l = None ∧ (∀ q, os_pins s !! q ≠ Some (O_link l)) ∧
     let s' := sys_close (fst lk) (snd pn) in
     os_fds s ⊆ os_fds s' ∧ os_dirs s' = os_dirs s ∧ os_values s' = os_values s ∧
     os_pins s' = <[p := O_link l]> (os_pins s) ∧ os_links s' !! l = Some (mk_att ino type prog) ∧
     (∀ k a, os_links s' !! k = Some a → k = l ∨ os_links s !! k = Some a) ∧
     (∀ k a r, os_links s !! k = Some a → os_pins s !! r = Some (O_link k) → os_links s' !! k = Some a)).
Proof.
  intros Hp Hc Hd <- lk Hlk. pose proof (link_create_law pfd cfd type s) as H1. fold lk in H1. clearbody lk.
  destruct lk as [lfd s2]. cbn [fst snd] in *. unfold does in H1. cbn [fst snd] in H1. rewrite (proj2 (Z.leb_le 0 lfd)) in H1 by done.
  destruct H1 as (s1 & (prog' & d & ino' & l & Ep & Ec & Ed & Hl & Hh & Hn & ->) & Hs).
  rewrite Hp in Ep. injection Ep as <-. rewrite Hc in Ec. injection Ec as <-. rewrite Hd in Ed. injection Ed as <-.
  pose proof Hs as [F2 P2 D2 V2 K2 H2]. cbn in *.
  assert (∀ k a r, os_links s !! k = Some a → os_pins s !! r = Some (O_link k) → os_links s2 !! k = Some a) as Hold.
  { intros k a r Hk Hr. apply H2; [rewrite lookup_insert_ne; [done|congruence]|]. right. by exists r. }
  assert (os_links s2 !! l = Some (mk_att ino type prog)) as Hl2.
  { apply H2; [apply lookup_insert_eq|]. left. exists lfd. apply lookup_insert_eq. }
  assert (∀ k a, os_links s2 !! k = Some a → k = l ∨ os_links s !! k = Some a) as Hsub.
  { intros k a Hk. apply K2 in Hk. destruct (decide (k = l)) as [->|]; [by left|right]. by rewrite lookup_insert_ne in Hk by done. }
  split. { apply keeps_same; eauto. }
  intros Hpn. pose proof (obj_pin_law lfd p s2) as H3. destruct (bpf_obj_pin lfd p s2) as [r s4].
  unfold does in H3. cbn [fst snd] in *. rewrite (proj2 (Z.leb_le 0 r)) in H3 by done.
  destruct H3 as (s3 & (o & Ho & Hnone & ->) & Hs4). rewrite F2, lookup_insert_eq in Ho. injection Ho as <-.
  pose proof Hs4 as [F4 P4 D4 V4 K4 H4]. pose proof (close_law lfd s4) as [F5 P5 D5 V5 K5 H5]. cbn in *.
  rewrite P2 in Hnone. split; [done|]. exists l. split; [done|]. split; [intros q' Hq'; apply Hh; right; by exists q'|].
  assert (∀ k a, os_links s2 !! k = Some a → (∃ r, <[p := O_link l]> (os_pins s2) !! r = Some (O_link k)) →
    os_links (sys_close lfd s4) !! k = Some a) as Hkeep.
  { intros k a Hk [q Hq]. apply H5; [apply H4; [done|]|]; right; exists q; cbn; [done|]. by rewrite P4. }
  split_and!; try congruence.
  - rewrite F5, F4, F2. by rewrite delete_insert_id.
  - apply Hkeep; [done|]. exists p. apply lookup_insert_eq.
  - intros k a Hk. by apply Hsub, K4, K5.
  - intros k a q Hk Hq. apply Hkeep; [by apply (Hold k a q)|]. exists q. rewrite P2, lookup_insert_ne; [done|congruence].
Qed.

(** The link [l] with attachment [att] has been created and pinned at [p]. *)
Record adds (p : path) (l : Z) (att : attachment) (s s' : os) : Prop := {
  ad_new : ∀ q, os_pins s !! q ≠ Some (O_link l);
  ad_free : os_pins s !! p = None;
  ad_fds : os_fds s ⊆ os_fds s';
  ad_dirs : os_dirs s' = os_dirs s;
  ad_values : os_values s' = os_values s;
  ad_pins : os_pins s' = <[p := O_link l]> (os_pins s);
  ad_att : os_links s' !! l = Some att;
  ad_links : ∀ k a, os_links s' !! k = Some a → k = l ∨ os_links s !! k = Some a;
  ad_old : ∀ k a r, os_links s !! k = Some a → os_pins s !! r = Some (O_link k) → os_links s' !! k = Some a;
}.
Lemma one_pin_new s p l s' :
  (∀ q, os_pins s !! q ≠ Some (O_link l)) → os_pins s' = <[p := O_link l]> (os_pins s) → one_pin s → one_pin s'.
Proof.
  unfold one_pin. intros Hnew -> O k q r [[<- Ek]|[Hp Ek]]%lookup_insert_Some [[<- Eq]|[Hq Eq]]%lookup_insert_Some;
    try done; [| |by apply (O k)].
  - injection Ek as ->. by apply Hnew in Eq.
  - injection Eq as ->. by apply Hnew in Ek.
Qed.
Lemma adds_loading hs cg_fd s0 h r s s1 s5 l prog :
  h ∈ hooks false → loading hs cg_fd s0 (h :: r) s → grows s s1 → os_pins s !! join dir (fst h) = Some (O_prog prog) →
  adds (link_pin dir ino h) l (mk_att ino (snd h) prog) s1 s5 → loading hs cg_fd s0 r s5.
Proof.
  intros Hh [(cg & Hcg & Hino) F0 D V0 O1 Q1 K N W] Hg Ho [Hnew Hnone F Dd V P Hatt Hsub Hold].
  pose proof Hg as [Gf Gp Gd Gv Gl Gh]. rewrite Gp in *.
  assert (∀ p, p ≠ link_pin dir ino h → os_pins s5 !! p = os_pins s !! p) as Hpins.
  { intros p Hp. rewrite P. by apply lookup_insert_ne. }
  assert (one_pin s5) as Hone by by apply (one_pin_new s (link_pin dir ino h) l).
  split.
  - exists cg. split; [|congruence]. eapply lookup_weaken; [|exact F]. by eapply lookup_weaken.
  - etrans; [exact F0|]. by etrans.
  - congruence.
  - congruence.
  - exact Hone.
  - intros p. destruct (decide (p = link_pin dir ino h)) as [->|Hp]; [right; by exists h|].
    rewrite Hpins by done. apply Q1.
  - etrans; [exact K|]. split.
    + intros p Hp. apply Hpins. intros ->. apply Hp. by exists h.
    + intros k a p Hk' Hp _. by apply (Hold k a p); [apply (Gh k a p)|].
    + done.
    + intros d. left. congruence.
  - intros h' Hin Hr. destruct (decide (h' = h)) as [->|Hne].
    + exists prog, l. cbn. split_and!; [|rewrite P; apply lookup_insert_eq|done]. rewrite Hpins; [done|].
      intros E. apply (prog_pin_outside dir ino h Hh). cbn. rewrite E. by exists h.
    + destruct (N h' Hin ltac:(intros [?|?]%elem_of_cons; done)) as (prog' & l' & H1 & H2 & H3).
      exists prog', l'. split_and!; [rewrite Hpins; [done|congruence]..|].
      apply (Hold l' _ _ (Gh _ _ _ H3 H2) H2).
  - intros k a Hka. destruct (Hsub k a Hka) as [->|Hka'].
    + right. exists (link_pin dir ino h). split; [by exists h|]. rewrite P. apply lookup_insert_eq.
    + apply Gl in Hka'. destruct (W k a Hka') as [?|(p & Hp & Hpp)]; [by left|right]. exists p. split; [done|].
      rewrite Hpins; [done|congruence].
Qed.
Lemma load_spec hs cg_fd s0 h r s :
  h ∈ hooks false → loading hs cg_fd s0 (h :: r) s →
  wp (LOAD_AND_PIN dir cg_fd ino h) (λ _, loading hs cg_fd s0 r) (λ _ s', keeps_outside (names dir ino) s0 s') s.
Proof.
  intros Hh [(cg & Hcg & Hino) F0 D V0 O1 Q1 K N W]. unfold LOAD_AND_PIN. destruct h as [suffix type] eqn:Eh.
  destruct (hook_names (suffix, type)) as (c & rs & Es & _ & Hsl); [by rewrite <- Eh in *; subst|]. cbn in Es.
  pose proof (link_name_length ino _ Hh) as Hnl. cbn [fst] in Hnl.
  assert (List.length suffix <= 21)%nat by (rewrite Es; cbn; lia).
  rewrite (in_dir_short dir suffix), (in_dir_short dir (link_name ino suffix)) by lia. apply wp_bind, wp_sys.
  destruct (obj_get_spec (join dir suffix) s) as [Hg Hget].
  destruct (bpf_obj_get (join dir suffix) s) as [pfd s1]. cbn [fst snd] in *.
  destruct (Z.ltb_spec pfd 0) as [?|Hpfd]. { unfold wp, exit_with. etrans; [exact K|by apply grows_keeps]. }
  destruct (Hget Hpfd) as (o & Ho & _ & Hpfd1). apply wp_bind, wp_sys.
  destruct (Z.ltb_spec (fst (bpf_link_create pfd cg_fd type s1)) 0) as [Hlt|Hlk].
  { unfold wp, exit_with. etrans; [exact K|]. etrans; [by apply grows_keeps|].
    pose proof (link_create_law pfd cg_fd type s1) as H1. unfold does in H1. destruct (Z.leb_spec 0 (fst (bpf_link_create pfd cg_fd type s1))); [lia|].
    by apply settles_keeps. }
  assert (∃ prog, o = O_prog prog) as [prog ->].
  { pose proof (link_create_law pfd cg_fd type s1) as H1. unfold does in H1. rewrite (proj2 (Z.leb_le 0 _)) in H1 by done.
    destruct H1 as (? & (prog & ? & ? & ? & Hq & _) & _). rewrite Hpfd1 in Hq. injection Hq as ->. eauto. }
  destruct (link_pinned pfd cg_fd type (link_pin dir ino (suffix, type)) s1 (join dir (link_name ino suffix)) cg prog)
    as [Hk Hpin]; [done|by apply (grows_fd s)|by rewrite (gr_dirs _ _ Hg)|done|done|].
  destruct (bpf_link_create pfd cg_fd type s1) as [lfd s2]. cbn [fst snd] in *. apply wp_bind, wp_sys.
  destruct (bpf_obj_pin lfd _ s2) as [rp s4] eqn:Epin. cbn [fst snd] in *.
  destruct (Z.eqb_spec rp 0) as [->|Hne].
  2:{ unfold wp, exit_with. cbn. pose proof (obj_pin_law lfd (join dir (link_name ino suffix)) s2) as H3. rewrite Epin in H3.
      etrans; [exact K|]. etrans; [by apply grows_keeps|]. etrans; [by apply keeps_all|].
      unfold does in H3. cbn [fst snd] in H3. destruct (Z.leb_spec 0 rp); [|by apply settles_keeps].
      destruct H3 as (s3 & (o & Hof & Hnone & ->) & Hs). etrans; [|by apply settles_keeps]. split; cbn; try done; [| |by left].
      - intros p Hp. apply lookup_insert_ne. intros <-. apply Hp. by exists (suffix, type).
      - intros _. pose proof (se_pins _ _ Hs) as P4. pose proof (se_pins _ _ (close_law lfd s4)) as P5. cbn in P4, P5.
        unfold one_pin. rewrite <- P4, <- P5. destruct (Hpin ltac:(lia)) as (_ & l & _ & Hnew & _ & _ & _ & P & _).
        apply (one_pin_new s1 (link_pin dir ino (suffix, type)) l); [done|exact P|]. unfold one_pin. by rewrite (gr_pins _ _ Hg). }
  destruct (Hpin ltac:(lia)) as (Hnone & l & Hl & Hnew & F & Dd & V & P & Hatt & Hsub & Hold). unfold wp, sys_. cbn.
  apply (adds_loading hs cg_fd s0 (suffix, type) r s s1 _ l prog); [done|by split; eauto|done|done|by split].
Qed.
End Install.

Lemma names_list dir ino p : p ∈ map (link_pin dir ino) (hooks false) ↔ names dir ino p.
Proof. rewrite list_elem_of_fmap. split; intros (h & H1 & H2); exists h; by split. Qed.
#[export] Instance names_dec dir ino p : Decision (names dir ino p).
Proof.
  destruct (decide (p ∈ map (link_pin dir ino) (hooks false))) as [H|H]; rewrite names_list in H; [by left|by right].
Defined.

Section InstallSpec.
Context {B : Bpffs} {L : BpffsLaws}.

(** The old installation of the cgroup is taken away, as far as the system can. *)
Lemma unload_all_spec dir ino s :
  (List.length dir <= 3800)%nat → one_pin s →
  wp (bind (sys (sys_opendir dir)) (λ d, match d with
        | Some (fd, _) => bind (each (λ h, UNLOAD fd dir ino (fst h)) (hooks false)) (λ _, sys_ (sys_close fd))
        | None => ret tt end))
    (λ _ s', os_fds s' = os_fds s ∧ os_dirs s' = os_dirs s ∧ os_values s' = os_values s ∧
      os_pins s' ⊆ os_pins s ∧ keeps_outside (names dir ino) s s' ∧
      (BpffsHealthy → is_Some (os_dirs s !! dir) → ∀ p l, names dir ino p → os_pins s !! p = Some (O_link l) →
         os_links s' !! l = None)) (λ _ _, False) s.
Proof.
  intros Hdir Hone. apply wp_bind, wp_sys. pose proof (opendir_law dir s) as Ho.
  pose proof (λ BH, @opendir_ok B BH dir s) as Hok.
  destruct (sys_opendir dir s) as [[[fd es]|] s1]; cbn [fst snd] in *.
  2:{ unfold wp, ret. pose proof Ho as [F P D V K H]. split_and!; [done|done|done|by rewrite P|by apply settles_keeps|].
      intros Hh Hd. by destruct (Hok Hh Hd). }
  destruct Ho as (_ & _ & _ & _ & sA & [Hn ->] & Hs). set (sA := add_fd fd (D_dir dir) s) in *.
  assert (cleaning (names dir ino) sA (os_fds sA) (map (link_pin dir ino) (hooks false)) s1) as Hc.
  { apply cleaning_begins; [done|]. intros p (h & Hh & ->) _. apply list_elem_of_fmap. by exists h. }
  assert (∀ r s', incl r (hooks false) → cleaning (names dir ino) sA (os_fds sA) (map (link_pin dir ino) r) s' →
    wp (each (λ h, UNLOAD fd dir ino (fst h)) r) (λ _, cleaning (names dir ino) sA (os_fds sA) []) (λ _ _, False) s') as Hloop.
  { induction r as [|h r IH]; intros s' Hr Hc'; [done|]. cbn [each]. apply wp_bind. eapply wp_mono.
    - apply (unload_spec dir ino Hdir fd (os_fds sA) h r sA s'); try done; [|apply lookup_insert_eq].
      apply list_elem_of_In, Hr. by left.
    - intros [] s2 Hc2. apply IH; [|exact Hc2]. intros x Hx. apply Hr. by right.
    - done. }
  apply wp_bind. eapply wp_mono; [apply Hloop; [apply incl_refl|exact Hc]|clear Hloop|done].
  intros [] s2 Hc2. cbv beta in Hc2. unfold wp, sys_. pose proof (close_law fd s2) as Hs3. set (s3 := sys_close fd s2) in *. clearbody s3. clear Hs Hc.
  pose proof Hs3 as [F3 P3 D3 V3 K3 H3]. cbn in *. split_and!.
  - rewrite F3, (cl_fds _ _ _ _ _ Hc2). cbn. by apply delete_insert_id.
  - by rewrite D3, (cl_dirs _ _ _ _ _ Hc2).
  - by rewrite V3, (cl_values _ _ _ _ _ Hc2).
  - rewrite P3. by apply (cleaning_pins _ sA _ _ _ _ Hc2).
  - destruct (cleaning_keeps _ _ _ _ _ Hc2) as [A1 A2]. transitivity s2; [by split|].
    destruct (settles_keeps (names dir ino) _ _ Hs3) as [B1 B2]. by split.
  - intros Hh _ p l Hp Hl. apply eq_None_not_Some. intros [a Ha]. apply K3 in Ha.
    rewrite (cl_gone _ _ _ _ _ Hc2 Hh p l Hp Hl) in Ha; [done|].
    destruct (cl_inside _ _ _ _ _ Hc2 p Hp) as [?|[_ E]]; [done|]. pose proof (E Hh) as E'. by apply elem_of_nil in E'.
Qed.

(** What a finished installation into the cgroup with inode [ino] means. *)
Record installed (dir : path) (without_sendmsg : bool) (ino : Z) (s s' : os) : Prop := {
  in_cgroup : ∃ cg, os_dirs s !! cg = Some ino;
  in_hooked : ∀ h, h ∈ hooks without_sendmsg → hooked dir ino h s';
  in_keeps : keeps_outside (names dir ino) s s';
  in_fds : os_fds s ⊆ os_fds s';
  in_dirs : os_dirs s' = os_dirs s;
  in_values : os_values s' = os_values s;
  in_one : one_pin s';
  in_pins : ∀ p, is_Some (os_pins s' !! p) → is_Some (os_pins s !! p) ∨ names dir ino p;
  in_replaces : BpffsHealthy → is_Some (os_dirs s !! dir) → ∀ p l a, names dir ino p →
    os_pins s !! p = Some (O_link l) → os_links s' !! l = Some a → ∃ q, names dir ino q ∧ os_pins s' !! q = Some (O_link l);
}.

Lemma load_all_spec dir ino ws cg_fd s :
  (List.length dir <= 3800)%nat → one_pin s → (∃ p, os_fds s !! cg_fd = Some (D_dir p) ∧ os_dirs s !! p = Some ino) →
  wp (each (LOAD_AND_PIN dir cg_fd ino) (hooks ws)) (λ _, loading dir ino (hooks ws) cg_fd s [])
    (λ _ s', keeps_outside (names dir ino) s s') s.
Proof.
  intros Hdir Hone Hcg. eapply wp_mono.
  - apply (wp_each _ (λ r s', incl r (hooks ws) ∧ loading dir ino (hooks ws) cg_fd s r s')).
    + intros h r s' [Hr Hl]. eapply wp_mono; [apply load_spec; [done| |exact Hl]| |done].
      * eapply hooks_sub, list_elem_of_In, Hr. by left.
      * intros [] s2 Hl2. split; [|done]. intros x Hx. apply Hr. by right.
    + split; [apply incl_refl|]. split; try done; by left.
  - intros [] s' [_ Hl]. exact Hl.
  - done.
Qed.

Lemma install_hooks_ends proc_self cgroup_paths cgroup_self without_sendmsg dir s :
  (List.length dir <= 3800)%nat → one_pin s →
  match install_hooks proc_self cgroup_paths cgroup_self without_sendmsg dir s with
  | Ret true s' => ∃ ino, installed dir without_sendmsg ino s s'
  | Ret false s' => grows s s'
  | Exit _ s' => ∃ ino, keeps_outside (names dir ino) s s'
  end.
Proof.
  intros Hdir Hone.
  assert (wp (install_hooks proc_self cgroup_paths cgroup_self without_sendmsg dir)
    (λ b s', if b then ∃ ino, installed dir without_sendmsg ino s s' else grows s s')
    (λ _ s', ∃ ino, keeps_outside (names dir ino) s s') s) as H.
  2:{ unfold wp in H. destruct (install_hooks _ _ _ _ _ _) as [[] s'|e s']; done. }
  assert (∀ s', grows s s' → ∃ ino, keeps_outside (names dir ino) s s') as Hex by (intros s' Hg; exists 0; by apply grows_keeps).
  unfold install_hooks. apply wp_bind. eapply wp_mono; [apply cgroup_from_paths_spec| |by eauto].
  intros [[cg_fd cg]|] s1 [Hg Hcg]; [|done]. apply wp_bind. eapply wp_mono; [apply prog_from_cgroup_spec| |].
  2:{ intros e s2 Hg2. apply Hex. by etrans. }
  intros [pfd pi] s2 [Hg2 _]. assert (grows s s2) as Hs2 by (by etrans). apply (grows_fd s1 s2) in Hcg; [|done].
  apply wp_bind, wp_sys. pose proof (fstat_law cg_fd s2) as Hf. pose proof (tells_grows _ _ _ Hf) as Hg3. destruct Hf as [_ Hf].
  destruct (sys_fstat cg_fd s2) as [[ino|] s3]; cbn [fst snd] in *.
  2:{ unfold wp, exit_with. apply Hex. by etrans. }
  assert (grows s s3) as Hs3 by (by etrans). destruct Hf as (cg' & Hcg' & Hino). rewrite Hcg in Hcg'. injection Hcg' as <-.
  apply (grows_fd s2 s3) in Hcg; [|done].
  assert (os_dirs s3 = os_dirs s) as D3 by by destruct Hs3. assert (os_pins s3 = os_pins s) as P3 by by destruct Hs3.
  rewrite (gr_dirs _ _ (transitivity Hg Hg2)) in Hino.
  assert (one_pin s3) as Hone3 by (unfold one_pin; by rewrite P3).
  apply wp_assoc.
  apply wp_bind. eapply wp_mono; [by apply (unload_all_spec dir ino s3)| |done].
  intros [] s4 (F4 & D4 & V4 & Q4 & K4 & G4). apply wp_bind.
  assert (one_pin s4) as Hone4 by (intros l p q Hp Hq; apply (Hone3 l); by eapply lookup_weaken).
  eapply wp_mono; [apply (load_all_spec dir ino without_sendmsg cg_fd s4 Hdir Hone4)| |].
  - exists cg. by rewrite F4, D4, D3.
  - intros [] s5 [_ F5 D5 V5 O5 Q5 K5 N5 W5]. unfold wp, ret. exists ino.
    split; [by exists cg|intros h Hh; apply N5; [done|by intros ?%elem_of_nil]| | |congruence| |done| |].
    + etrans; [by apply grows_keeps|]. by etrans.
    + etrans; [by apply gr_fds|]. by rewrite <- F4.
    + rewrite V5, V4. by destruct Hs3.
    + intros p Hp. destruct (Q5 p Hp) as [[o Ho]|?]; [left|by right]. rewrite <- P3. exists o. by eapply lookup_weaken.
    + intros Hh Hd p l a Hp Hl Ha. destruct (W5 l a Ha) as [Ha4|?]; [|done].
      rewrite (G4 Hh ltac:(by rewrite D3) p l Hp ltac:(by rewrite P3)) in Ha4. done.
  - intros e s5 K5. exists ino. etrans; [by apply grows_keeps|]. by etrans.
Qed.
End InstallSpec.

(** ** Finding maps *)
Section Maps.
Context {B : Bpffs} {L : BpffsLaws}.

Lemma find_map_spec ids name s :
  wp (find_map ids name)
    (λ r s', grows s s' ∧ (fst r = -1 ∨ ∃ id, find (λ i, bool_decide (map_name_of i = name)) ids = Some id ∧
       os_fds s' !! fst r = Some (D_obj (O_map id)) ∧ os_fds s !! fst r = None ∧ snd r = Some (mk_map_info id name)))
    (λ _ s', grows s s') s.
Proof.
  revert s. induction ids as [|id ids IH]; intros s; cbn [find_map].
  { unfold wp, ret. split; [done|by left]. }
  apply wp_bind, wp_sys. destruct (opens_grows _ _ _ (map_by_id_law id s)) as [Hg Hnew].
  destruct (bpf_map_get_fd_by_id id s) as [fd s1]. cbn [fst snd] in *.
  destruct (Z.ltb_spec fd 0) as [?|Hfd]; [done|]. destruct (Hnew Hfd) as [Hn Hfd1].
  apply wp_bind, wp_sys. pose proof (map_info_law fd s1) as Hi. pose proof (tells_grows _ _ _ Hi) as Hg1. destruct Hi as [_ Hi].
  destruct (map_info_by_fd fd s1) as [[info|] s2]; cbn [fst snd] in *.
  2:{ unfold wp, ret. split; [by etrans|by left]. }
  destruct Hi as (id' & Hid' & ->). rewrite Hfd1 in Hid'. injection Hid' as <-. cbn [mi_name]. cbn [find].
  destruct (bool_decide (map_name_of id = name)) eqn:Em.
  - unfold wp, ret. split; [by etrans|]. right. cbn. exists id. apply bool_decide_eq_true in Em. rewrite Em. split_and!; try done.
    by apply (grows_fd s1).
  - apply wp_bind. unfold wp at 1, sys_. assert (grows s (sys_close fd s2)) as Hc by (apply close_grows; [by etrans|done]).
    eapply wp_mono; [apply IH| |].
    + intros [f i] s3 [Hg3 Hr]. split; [by etrans|]. cbn in *. destruct Hr as [?|(id' & Hin & Hf & Hnf & ?)]; [by left|right].
      exists id'. split_and!; try done. destruct (os_fds s !! f) eqn:Ef; [|done]. apply (grows_fd _ _ _ _ Hc) in Ef. congruence.
    + intros e s3 Hg3. by etrans.
Qed.
(** [map_from_prog] finds the first map of the program that has the name. *)
Lemma map_from_prog_spec prog_fd name s prog :
  os_fds s !! prog_fd = Some (D_obj (O_prog prog)) →
  wp (map_from_prog prog_fd name)
    (λ r s', grows s s' ∧ (fst r = -1 ∨ ∃ id,
       find (λ i, bool_decide (map_name_of i = name)) (pi_map_ids (prog_info_of prog)) = Some id ∧
       os_fds s' !! fst r = Some (D_obj (O_map id)) ∧ os_fds s !! fst r = None ∧ snd r = Some (mk_map_info id name)))
    (λ _ s', grows s s') s.
Proof.
  intros Hp. apply wp_bind, wp_sys. pose proof (prog_info_law prog_fd s) as Hi. pose proof (tells_grows _ _ _ Hi) as Hg.
  destruct Hi as [_ Hi]. destruct (prog_info_by_fd prog_fd s) as [[info|] s1]; cbn [fst snd] in *.
  2:{ unfold wp, ret. split; [done|by left]. }
  destruct Hi as (id & Hid & ->). rewrite Hp in Hid. injection Hid as <-. eapply wp_mono; [apply find_map_spec| |].
  - intros r s2 [Hg2 Hr]. split; [by etrans|]. destruct Hr as [?|(m & H1 & H2 & H3 & H4)]; [by left|right].
    exists m. split_and!; try done. destruct (os_fds s !! fst r) eqn:Ef; [|done]. apply (grows_fd _ _ _ _ Hg) in Ef. congruence.
  - intros e s2 Hg2. by etrans.
Qed.

(** The version is stored in the metrics map of the program, and read from there. *)
Definition version_value (v : path) : path :=
  let v := take (METRICS_SZ - 1) v in v ++ zeros (METRICS_SZ - List.length v).
Definition metrics_map (prog : Z) : option Z :=
  find (λ i, bool_decide (map_name_of i = chars "metrics_map")) (pi_map_ids (prog_info_of prog)).
Lemma init_metrics_spec v prog_fd s prog :
  os_fds s !! prog_fd = Some (D_obj (O_prog prog)) →
  wp (init_metrics v prog_fd)
    (λ _ s', ∃ m s1, metrics_map prog = Some m ∧ grows s s1 ∧
       settles (set_values (<[m := version_value v]> (os_values s1)) s1) s')
    (λ _ s', ∃ s1 vs, grows s s1 ∧ settles (set_values vs s1) s') s.
Proof.
  intros Hp. apply wp_bind. eapply wp_mono; [by apply map_from_prog_spec| |].
  2:{ intros e s1 Hg. exists s1, (os_values s1). split; [done|]. by destruct s1. }
  intros [fd i] s1 [Hg Hr]. cbn [fst snd] in *. assert (∃ s2 vs, grows s s2 ∧ settles (set_values vs s2) s1) as Hex.
  { exists s1, (os_values s1). split; [done|]. by destruct s1. }
  destruct (Z.ltb_spec fd 0) as [?|Hfd]; [done|]. destruct Hr as [->|(m & Hm & Hd & _)]; [lia|].
  apply wp_bind, wp_sys. fold (version_value v). pose proof (value_update_law fd (version_value v) s1) as Hu. unfold does in Hu.
  destruct (value_update fd (version_value v) s1) as [r s3]. cbn [fst snd] in *.
  destruct (Z.ltb_spec r 0) as [?|Hr]; unfold wp, ret, exit_with.
  - destruct (Z.leb_spec 0 r); [lia|]. exists s3, (os_values s3). split; [etrans; [done|by apply grows_settles]|]. by destruct s3.
  - destruct (Z.leb_spec 0 r); [|lia]. destruct Hu as (s2 & (id & Hid & ->) & Hs). rewrite Hd in Hid. injection Hid as <-.
    by exists m, s1.
Qed.
Lemma get_metrics_spec prog_fd s prog m v :
  os_fds s !! prog_fd = Some (D_obj (O_prog prog)) → metrics_map prog = Some m → os_values s !! m = Some v →
  wp (get_metrics prog_fd) (λ r s', r = v ∧ grows s s') (λ _ s', grows s s') s.
Proof.
  intros Hp Hm Hv. apply wp_bind. eapply wp_mono; [by apply map_from_prog_spec| |done].
  intros [fd i] s1 [Hg Hr]. cbn [fst snd] in *. destruct (Z.ltb_spec fd 0) as [?|Hfd]; [done|].
  destruct Hr as [->|(m' & Hm' & Hd & _)]; [lia|]. unfold metrics_map in Hm. rewrite Hm in Hm'. injection Hm' as <-.
  apply wp_bind, wp_sys. pose proof (value_lookup_law fd s1) as Hl. pose proof (tells_grows _ _ _ Hl) as Hg1. destruct Hl as [_ Hl].
  destruct (value_lookup fd s1) as [[r|] s2]; cbn [fst snd] in *; unfold wp, ret, exit_with; [|by etrans].
  destruct Hl as (id & Hid & Hr). rewrite Hd in Hid. injection Hid as <-. rewrite (gr_values _ _ Hg) in Hr.
  split; [congruence|by etrans].
Qed.
End Maps.

(** ** Loading, and the life of an installation *)
Class SkeletonLaws {B : Bpffs} {K : Skeleton} := {
  open_and_load_law : ∀ s,
    match ebpf__open_and_load s with
    | (Some skel, s') => grows s s' ∧ ∀ h, h ∈ hooks false → ∃ id, os_fds s' !! skel (fst h) = Some (D_obj (O_prog id))
    | (None, s') => grows s s'
    end;
}.

Section LoadSpec.
Context {B : Bpffs} {L : BpffsLaws} {K : Skeleton} {KL : @SkeletonLaws B K}.
Context (dir : path) (Hdir : (List.length dir <= 3800)%nat).

Lemma hook_in_dir h : h ∈ hooks false → in_dir dir (fst h) = join dir (fst h) ∧ under dir (join dir (fst h))
  ∧ is_dot (fst h) = false ∧ (List.length (fst h) <= 255)%nat.
Proof.
  intros Hh. destruct (hook_names h Hh) as (c & r & E & Hc & Hr). rewrite in_dir_short by (rewrite E; cbn; lia).
  split_and!; [done| | |rewrite E; cbn; lia].
  - exists (fst h). split; [by apply hook_no_slash|done].
  - rewrite E. cbn. lia.
Qed.

Lemma PIN_spec h fd id s :
  h ∈ hooks false → os_fds s !! fd = Some (D_obj (O_prog id)) →
  wp (PIN fd dir (fst h))
    (λ _ s', os_fds s' = os_fds s ∧ os_dirs s' = os_dirs s ∧ os_pins s' = <[join dir (fst h) := O_prog id]> (os_pins s)
       ∧ keeps_outside (under dir) s s') (λ _ s', keeps_outside (under dir) s s') s.
Proof.
  intros Hh Hfd. destruct (hook_in_dir h Hh) as (Ein & Hu & _). unfold PIN. rewrite Ein. set (b := join dir (fst h)) in *.
  (* a pinning, from any state where the descriptor is there *)
  assert (∀ s1, os_fds s1 !! fd = Some (D_obj (O_prog id)) → let r := bpf_obj_pin fd b s1 in
    os_fds (snd r) = os_fds s1 ∧ os_dirs (snd r) = os_dirs s1 ∧ keeps_outside (under dir) s1 (snd r) ∧
    (0 <= fst r → os_pins (snd r) = <[b := O_prog id]> (os_pins s1)) ∧ (fst r < 0 → os_pins (snd r) = os_pins s1)) as Hpin.
  { intros s1 Hf r. pose proof (obj_pin_law fd b s1) as H. fold r in H. clearbody r. destruct r as [r s3]. unfold does in H. cbn [fst snd] in *.
    destruct (Z.leb_spec 0 r).
    - destruct H as (s2 & (o & Ho & Hn & ->) & [F P D V K1 H2]). rewrite Hf in Ho. injection Ho as <-. cbn in *.
      split_and!; try done; [|lia]. apply (keeps_pin _ _ _ b); [done| |done| |].
      + intros p Hp. rewrite P. by apply lookup_insert_ne.
      + intros l. rewrite P, lookup_insert_eq. discriminate.
      + intros l a p Hl Hp Hne. apply H2; [done|]. right. exists p. cbn. by rewrite lookup_insert_ne.
    - pose proof H as [F P D V K1 H2]. split_and!; try done; [by apply settles_keeps|lia]. }
  destruct (Hpin s Hfd) as (F1 & D1 & K1 & P1 & N1). apply wp_bind, wp_sys. destruct (bpf_obj_pin fd b s) as [r s1]. cbn [fst snd] in *.
  apply wp_bind. unfold wp at 1, errno. destruct (os_errno s1 =? BPF_EEXIST).
  - apply wp_bind, wp_bind, wp_sys. pose proof (unlink_law b s1) as Hun. unfold does in Hun.
    destruct (sys_unlink b s1) as [u s3]. cbn [fst snd] in *.
    assert (os_fds s3 = os_fds s1 ∧ os_dirs s3 = os_dirs s1 ∧ keeps_outside (under dir) s1 s3 ∧
      (∀ x, <[b := x]> (os_pins s3) = <[b := x]> (os_pins s1))) as (F3 & D3 & K3 & P3).
    { destruct (Z.leb_spec 0 u).
      - destruct Hun as (s2 & [Hb ->] & [F P D V K4 H2]). cbn in *. split_and!; try done.
        + apply (keeps_pin _ _ _ b); [done| |done| |].
          * intros p Hp. rewrite P. by apply lookup_delete_ne.
          * intros l. rewrite P, lookup_delete_eq. discriminate.
          * intros l a p Hl Hp Hne. apply H2; [done|]. right. exists p. cbn. by rewrite lookup_delete_ne.
        + intros x. by rewrite P, insert_delete_eq.
      - pose proof Hun as [F P D V K4 H2]. split_and!; try done; [by apply settles_keeps|]. intros x. by rewrite P. }
    destruct (Hpin s3 ltac:(congruence)) as (F4 & D4 & K4 & P4 & _). apply wp_sys.
    destruct (bpf_obj_pin fd b s3) as [r2 s4]. cbn [fst snd] in *.
    assert (keeps_outside (under dir) s s4) as Hk by (etrans; [exact K1|]; by etrans).
    destruct (Z.eqb_spec r2 0) as [->|Hne]; unfold wp, ret, exit_with; cbn; [|done].
    split_and!; [congruence|congruence| |done]. rewrite P4, P3 by lia. destruct (Z.leb_spec 0 r).
    + by rewrite P1, insert_insert_eq by lia.
    + by rewrite N1 by lia.
  - apply wp_bind. unfold wp at 1, ret. destruct (Z.eqb_spec r 0) as [->|Hne]; unfold wp, ret, exit_with; cbn; [|done].
    split_and!; try done. apply P1. lia.
Qed.

(** The programs as they are pinned. *)
Definition pinned (skel : path → Z) (fds : gmap Z descr) (h : path * Z) (s : os) : Prop :=
  ∃ id, fds !! skel (fst h) = Some (D_obj (O_prog id)) ∧ os_pins s !! join dir (fst h) = Some (O_prog id).

Record pinning (skel : path → Z) (hs : list (path * Z)) (s0 : os) (r : list (path * Z)) (s : os) : Prop := {
  pn_fds : os_fds s = os_fds s0;
  pn_dirs : os_dirs s = os_dirs s0;
  pn_keeps : keeps_outside (under dir) s0 s;
  pn_pins : ∀ p o, os_pins s !! p = Some o → os_pins s0 !! p = Some o ∨ ∃ h id, h ∈ hs ∧ p = join dir (fst h) ∧ o = O_prog id;
  pn_done : ∀ h, h ∈ hs → h ∉ r → pinned skel (os_fds s0) h s;
}.

Lemma pin_all_spec skel ws s :
  (∀ h, h ∈ hooks false → ∃ id, os_fds s !! skel (fst h) = Some (D_obj (O_prog id))) →
  wp (each (λ h, PIN (skel (fst h)) dir (fst h)) (hooks ws)) (λ _, pinning skel (hooks ws) s [])
    (λ _ s', keeps_outside (under dir) s s') s.
Proof.
  intros Hsk. eapply wp_mono.
  - apply (wp_each _ (λ r s', incl r (hooks ws) ∧ pinning skel (hooks ws) s r s') (λ _ s', keeps_outside (under dir) s s')).
    + intros h r s' [Hr [F D Kp Q N]]. assert (h ∈ hooks ws) as Hin by (apply list_elem_of_In, Hr; by left).
      pose proof (hooks_sub _ _ Hin) as Hh. destruct (Hsk h Hh) as [id Hid].
      eapply wp_mono; [apply (PIN_spec h _ id s' Hh); by rewrite F| |].
      * intros [] s2 (F2 & D2 & P2 & K2). split; [intros x Hx; apply Hr; by right|]. split; [congruence|congruence|by etrans| |].
        -- intros p o. rewrite P2. intros [[<- <-]|[_ Ho]]%lookup_insert_Some; [right; by exists h, id|by apply Q].
        -- intros h' Hin' Hr'. unfold pinned. rewrite P2. destruct (decide (join dir (fst h') = join dir (fst h))) as [E|E].
           ++ exists id. rewrite E, lookup_insert_eq. split; [|done]. apply join_inj in E. by rewrite E.
           ++ rewrite lookup_insert_ne by done. apply N; [done|]. intros [->|?]%elem_of_cons; done.
      * intros e s2 K2. by etrans.
    + split; [apply incl_refl|]. split; try done; intros; by left.
  - intros [] s' [_ H]. exact H.
  - intros e s' H. exact H.
Qed.

(** The directory is as the file system keeps it, and has no pins when it is not there. *)
Record sound_dir (s : os) : Prop := {
  sd_tidy : tidy dir s;
  sd_one : one_pin s;
  sd_absent : os_dirs s !! dir = None → ∀ n, 47 ∉ n → os_pins s !! join dir n = None;
}.

Record loaded (ws : bool) (skel : path → Z) (s s' : os) : Prop := {
  lo_dir : is_Some (os_dirs s' !! dir);
  lo_tidy : tidy dir s';
  lo_one : one_pin s';
  lo_keeps : keeps_outside (under dir) s s';
  lo_pinned : ∀ h, h ∈ hooks ws → pinned skel (os_fds s') h s';
  lo_progs : ∀ n o, 47 ∉ n → os_pins s' !! join dir n = Some o → ∃ id, o = O_prog id;
}.

Lemma bump_memlock_spec s : wp bump_memlock_rlimit (λ _ s', s' = s) (λ _ s', s' = s) s.
Proof. unfold wp, bump_memlock_rlimit. by destruct (setrlimit_ok s). Qed.

Lemma open_and_load_spec s (Q : option (path → Z) → os → Prop) :
  (∀ s', grows s s' → Q None s') →
  (∀ skel s', grows s s' → (∀ h, h ∈ hooks false → ∃ id, os_fds s' !! skel (fst h) = Some (D_obj (O_prog id))) → Q (Some skel) s') →
  wp (sys ebpf__open_and_load) Q (λ _ _, False) s.
Proof.
  intros Hn Hs. apply wp_sys. pose proof (open_and_load_law s) as H.
  destruct (ebpf__open_and_load s) as [[skel|] s']; cbn; [destruct H; by apply Hs|by apply Hn].
Qed.

Lemma sound_grows s s' : grows s s' → sound_dir s → sound_dir s'.
Proof. intros [F P D V K1 H] [T O A]. split; unfold tidy, one_pin; rewrite P; try rewrite D; done. Qed.

(** What may change until the programs are pinned: descriptors and map values. *)
Lemma with_values s s1 vs s' : grows s s1 → settles (set_values vs s1) s' →
  os_fds s1 = os_fds s' ∧ os_pins s' = os_pins s ∧ os_dirs s' = os_dirs s ∧ keeps_outside (under dir) s s'.
Proof.
  intros Hg [F P D V K1 H]. cbn in *. pose proof Hg as [Gf Gp Gd _ _ Gh]. split_and!; try congruence.
  apply keeps_same; [congruence..|]. intros l a p Hl Hp _. apply H; [by apply (Gh l a p)|]. right. exists p. cbn. by rewrite Gp.
Qed.
(** Making the directory. *)
Lemma keeps_made s ino s' : settles (set_dirs (<[dir := ino]> (os_dirs s)) s) s' → keeps_outside (under dir) s s'.
Proof.
  intros [F P D V K1 H]. cbn in *. split.
  - by rewrite P.
  - intros l a p Hl Hp _. apply H; [done|right; eauto].
  - unfold one_pin. by rewrite P.
  - intros d. rewrite D. destruct (decide (d = dir)) as [->|]; [right; intros n Hn; by exists n|left; by apply lookup_insert_ne].
Qed.

Lemma sound_cleanup s :
  sound_dir s →
  wp (cleanup_bpf_pin_dir dir) (λ _ s', os_fds s ⊆ os_fds s' ∧ sound_dir s' ∧ keeps_outside (under dir) s s')
    (λ _ _, False) s.
Proof.
  intros [T O A]. destruct (cleanup_frame dir s Hdir T O) as (s' & E & F & P & Hk & HD). unfold wp. rewrite E.
  split_and!; [by rewrite F| |done].
  assert (∀ n, 47 ∉ n → os_pins s !! join dir n = None → os_pins s' !! join dir n = None) as Hnone.
  { intros n Hn. rewrite !eq_None_not_Some. intros H0 [o Ho]. apply H0. exists o. by apply (lookup_weaken _ _ _ _ Ho). }
  split; [|by apply Hk|].
  - intros n Hn. destruct (T n Hn) as [Td Tp]. split.
    + destruct HD as [->|[-> _]]; [done|]. rewrite lookup_delete_None. by right.
    + intros [o Ho]. apply Tp. exists o. by apply (lookup_weaken _ _ _ _ Ho).
  - intros Hd n Hn. destruct HD as [E'|[_ He]]; [|by apply He]. apply Hnone; [done|]. apply A; [by rewrite <- E'|done].
Qed.

Lemma remove_old_dir_spec force s :
  sound_dir s →
  wp (remove_old_dir force dir) (λ _ s', os_fds s ⊆ os_fds s' ∧ sound_dir s' ∧ keeps_outside (under dir) s s')
    (λ _ s', keeps_outside (under dir) s s') s.
Proof.
  intros Hs. apply wp_bind, wp_sys. pose proof (tells_grows _ _ _ (stat_law dir s)) as Hg.
  destruct (sys_stat dir s) as [sb s1]. cbn [fst snd] in *.
  assert (sound_dir s1) as Hs1 by (by apply (sound_grows s)).
  assert (keeps_outside (under dir) s s1) as K1 by (by apply grows_keeps).
  destruct sb as [d|]; [|by unfold wp, ret; destruct Hg]. destruct force; cbn [negb]; [|by unfold wp, exit_with]. apply wp_bind.
  eapply wp_mono; [by apply sound_cleanup| |done]. intros [] s3 (F3 & S3 & K3). apply wp_bind, wp_sys.
  pose proof (tells_grows _ _ _ (stat_law dir s3)) as Hg4.
  assert (keeps_outside (under dir) s (snd (sys_stat dir s3))) as K4 by (etrans; [exact K1|]; etrans; [exact K3|by apply grows_keeps]).
  destruct (sys_stat dir s3) as [[d'|] s4]; cbn [fst snd] in *; [done|]. unfold wp, ret.
  split_and!; [|by apply (sound_grows s3)|done]. etrans; [apply (gr_fds _ _ Hg)|]. etrans; [exact F3|apply (gr_fds _ _ Hg4)].
Qed.

(** An empty directory, just made. *)
Record made_dir (s s' : os) : Prop := {
  md_fds : os_fds s ⊆ os_fds s';
  md_dir : is_Some (os_dirs s' !! dir);
  md_empty : ∀ n, 47 ∉ n → os_pins s' !! join dir n = None ∧ os_dirs s' !! join dir n = None;
  md_one : one_pin s';
  md_keeps : keeps_outside (under dir) s s';
}.
Lemma made_grows s s1 s2 : made_dir s s1 → grows s1 s2 → made_dir s s2.
Proof.
  intros [F D E O Hk] Hg. pose proof Hg as [F1 P1 D1 _ _ _]. split.
  - by etrans.
  - by rewrite D1.
  - intros n Hn. rewrite P1, D1. by apply E.
  - unfold one_pin. by rewrite P1.
  - etrans; [exact Hk|by apply grows_keeps].
Qed.
Lemma make_pin_dir_spec force s :
  sound_dir s →
  wp (make_pin_dir force dir) (λ _ s', made_dir s s') (λ _ s', keeps_outside (under dir) s s') s.
Proof.
  intros Hs. apply wp_bind. eapply wp_mono; [by apply remove_old_dir_spec| |done]. intros [] s3 (F3 & S3 & K3).
  apply wp_bind, wp_sys. pose proof (mkdir_law dir s3) as Hm. unfold does in Hm.
  destruct (sys_mkdir dir s3) as [r s5]. cbn [fst snd] in *. destruct (Z.eqb_spec r 0) as [->|Hr]; cbn [negb].
  2:{ unfold wp, exit_with. etrans; [exact K3|]. destruct (0 <=? r); [|by apply settles_keeps].
      destruct Hm as (s4 & (_ & ino & ->) & Hs5). by eapply keeps_made. }
  destruct Hm as (s4 & (Hd3 & ino & ->) & Hs5). pose proof Hs5 as [F5 P5 D5 V5 K5 H5]. cbn in *.
  assert (made_dir s s5) as Hmade.
  { split.
    - by rewrite F5.
    - rewrite D5, lookup_insert_eq. eauto.
    - intros n Hn. split; [rewrite P5; by apply S3|]. rewrite D5, lookup_insert_ne; [by apply (sd_tidy _ S3)|].
      intros E. apply (f_equal List.length) in E. unfold join in E. rewrite !length_app in E. cbn in E. lia.
    - unfold one_pin. rewrite P5. apply S3.
    - etrans; [exact K3|]. by eapply keeps_made. }
  apply wp_bind, wp_sys. pose proof (tells_grows _ _ _ (stat_law dir s5)) as Hg6.
  apply (made_grows s) in Hg6; [|done].
  destruct (sys_stat dir s5) as [[[]|] s6]; cbn [fst snd] in *; [done|apply Hg6..].
Qed.

Lemma open_programs_spec s :
  wp open_programs (λ skel s', grows s s' ∧ ∀ h, h ∈ hooks false → ∃ id, os_fds s' !! skel (fst h) = Some (D_obj (O_prog id)))
    (λ _ s', grows s s') s.
Proof.
  apply wp_bind. eapply wp_mono; [apply bump_memlock_spec| |by intros e s' ->]. intros [] s' ->.
  apply wp_bind. eapply wp_mono; [apply (open_and_load_spec s (λ k s', grows s s' ∧
    ∀ skel, k = Some skel → ∀ h, h ∈ hooks false → ∃ id, os_fds s' !! skel (fst h) = Some (D_obj (O_prog id))))| |done].
  { done. } { intros skel s' Hg Hk. split; [done|]. by intros ? [= <-]. }
  intros k s1 [Hg1 Hk1]. apply wp_bind.
  eapply (wp_mono _ (λ k s', grows s s' ∧
    ∀ skel, k = Some skel → ∀ h, h ∈ hooks false → ∃ id, os_fds s' !! skel (fst h) = Some (D_obj (O_prog id))) _ (λ _ _, False)); [| |done].
  { destruct k as [skel|]; [by unfold wp, ret|]. apply open_and_load_spec; [intros; split; [by etrans|done]|].
    intros skel s' Hg Hk. split; [by etrans|]. by intros ? [= <-]. }
  clear k s1 Hg1 Hk1. intros [skel|] s1 [Hg1 Hk1]; unfold wp, exit_with, ret; [|done]. split; [done|by apply Hk1].
Qed.

Lemma load_programs_spec version force ws s :
  sound_dir s →
  wp (load_programs version force ws dir) (λ skel s', loaded ws skel s s') (λ _ s', keeps_outside (under dir) s s') s.
Proof.
  intros Hs. apply wp_bind. eapply wp_mono; [apply open_programs_spec| |intros e s'; by apply grows_keeps].
  intros skel s1 [Hg1 Hk1]. assert (keeps_outside (under dir) s s1) as K1 by (by apply grows_keeps).
  apply wp_bind. eapply wp_mono; [apply make_pin_dir_spec; by apply (sound_grows s)| |intros e s' K'; by etrans].
  intros [] s6 [F6 D6 E6 O6 K6].
  assert (∀ h, h ∈ hooks false → ∃ id, os_fds s6 !! skel (fst h) = Some (D_obj (O_prog id))) as Hk6.
  { intros h Hh. destruct (Hk1 h Hh) as [id Hid]. exists id. by eapply lookup_weaken. }
  destruct (Hk6 (chars "setsockopt", BPF_CGROUP_SETSOCKOPT) ltac:(by left)) as [sid Hsid]. cbn [fst] in Hsid.
  assert (keeps_outside (under dir) s s6) as Ks6 by (by etrans).
  apply wp_bind. eapply wp_mono; [by apply (init_metrics_spec version _ s6 sid)| |].
  2:{ intros e s7 (s8 & vs & Hg8 & Hs8). destruct (with_values _ _ _ _ Hg8 Hs8) as (_ & _ & _ & Kv). by etrans. }
  intros [] s7 (m & s8 & _ & Hg8 & Hs8). destruct (with_values _ _ _ _ Hg8 Hs8) as (F7 & P7 & D7 & Kv).
  apply wp_bind. eapply wp_mono; [apply (pin_all_spec skel ws s7)| |].
  { intros h Hh. destruct (Hk6 h Hh) as [id Hid]. exists id. rewrite <- F7. by apply (grows_fd s6). }
  2:{ intros e s9 K9. etrans; [exact Ks6|]. by etrans. }
  intros [] s9 [F9 D9 K9 Q9 N9]. unfold wp, ret.
  assert (∀ n, 47 ∉ n → os_pins s7 !! join dir n = None) as Hnone by (intros n Hn; rewrite P7; by apply E6).
  split.
  - by rewrite D9, D7.
  - intros n Hn. split; [rewrite D9, D7; by apply E6|]. intros [o Ho].
    destruct (Q9 _ _ Ho) as [Ho'|(h & id & Hh & E & _)]; [by rewrite Hnone in Ho'|]. apply join_inj in E as ->.
    destruct (hook_in_dir h) as (_ & _ & ? & ?); [by apply (hooks_sub ws)|done].
  - intros l p q Hp Hq. destruct (Q9 _ _ Hp) as [Hp'|(?&?&?&?&[=])]. destruct (Q9 _ _ Hq) as [Hq'|(?&?&?&?&[=])].
    rewrite P7 in *. by apply (O6 l).
  - etrans; [exact Ks6|]. by etrans.
  - intros h Hh. destruct (N9 h Hh) as (id & H1 & H2); [by intros ?%elem_of_nil|]. exists id. by rewrite F9.
  - intros n o Hn Ho. destruct (Q9 _ _ Ho) as [Ho'|(h & id & Hh & E & ->)]; [by rewrite Hnone in Ho'|eauto].
Qed.
End LoadSpec.

(** ** Properties *)

(** C39. Installing hooks into a cgroup. A finished installation has every hook attached to the
    cgroup that was opened, running the program that is pinned under its name, through a link
    that is pinned in the directory; an installation udpgrm made there before is replaced, not
    doubled. Whatever the outcome, also when a system call fails half-way and the process
    ends, no pin but the six of that cgroup changes and no hook pinned elsewhere, in
    particular none of another cgroup, is detached; when no cgroup can be opened nothing
    changes at all. *)
Theorem install_hooks_spec {B : Bpffs} {L : BpffsLaws} proc_self cgroup_paths cgroup_self without_sendmsg dir s :
  (List.length dir <= 3800)%nat → one_pin s →
  match install_hooks proc_self cgroup_paths cgroup_self without_sendmsg dir s with
  | Ret true s' => ∃ ino, installed dir without_sendmsg ino s s'
  | Ret false s' => grows s s'
  | Exit _ s' => ∃ ino, keeps_outside (names dir ino) s s'
  end.
Proof. apply install_hooks_ends. Qed.

Lemma link_name_text ino h : h ∈ hooks false → (47 ∉ link_name ino (fst h)) ∧ is_dot (link_name ino (fst h)) = false.
Proof.
  intros Hh. split.
  - unfold link_name. rewrite !elem_of_app. intros [Hs|[[Hc|Hc]%elem_of_cons|Hf]]; [|done|by apply elem_of_nil in Hc|].
    + unfold signed, dec in Hs. assert (∀ n, 47 ∉ digits 20 10 n []) as Hd.
      { intros n Hin. destruct (dec_from 20 n [] ltac:(constructor)) as (Hall & _). rewrite Forall_forall in Hall.
        specialize (Hall _ Hin). lia. }
      destruct (ino <? 0); [|by apply (Hd ino)]. apply elem_of_cons in Hs as [|Hs]; [done|by apply (Hd (- ino))].
    + by apply hook_no_slash in Hf.
  - destruct (signed_text ino) as (c & r & E & Hc & _). unfold link_name. rewrite E. cbn.
    destruct (Z.eqb_spec c 46) as [->|]; [|done]. unfold signed, dec in E. destruct (ino <? 0); [congruence|].
    destruct (dec_from 20 ino [] ltac:(constructor)) as (Hall & _). rewrite E in Hall. inversion Hall. lia.
Qed.
Lemma names_under dir ino p : names dir ino p → under dir p.
Proof. intros (h & Hh & ->). exists (link_name ino (fst h)). split; [by apply link_name_text|done]. Qed.
Lemma keeps_outside_mono (P Q : path → Prop) s s' : (∀ p, P p → Q p) → keeps_outside P s s' → keeps_outside Q s s'.
Proof.
  intros HPQ [Hp Hl Ho Hd]. split; [intros p Hn; apply Hp; auto|intros l a p H1 H2 Hn; apply (Hl l a p); auto|done|].
  intros d. destruct (Hd d); auto.
Qed.

(** The life of an installation. The daemon loads and pins the programs, an installation
    hooks them to a cgroup, and the clean-up at the end of the daemon takes everything away:
    while it lives, each hook of the cgroup runs the program that the daemon loaded; afterwards
    the directory and every pin in it are gone and every hook is detached, whereas pins and
    hooks outside the directory are as they were before the daemon came. *)
Theorem daemon_life {B : Bpffs} {L : BpffsLaws} {BH : BpffsHealthy} {K : Skeleton} {KL : SkeletonLaws}
  version force without_sendmsg dir proc_self cgroup_paths cgroup_self s skel s1 s2 :
  (List.length dir <= 3800)%nat → sound_dir dir s →
  load_programs version force without_sendmsg dir s = Ret skel s1 →
  install_hooks proc_self cgroup_paths cgroup_self without_sendmsg dir s1 = Ret true s2 →
  ∃ ino s3, cleanup_bpf_pin_dir dir s2 = Ret tt s3 ∧ os_dirs s3 !! dir = None ∧
    (∀ n, 47 ∉ n → os_pins s3 !! join dir n = None) ∧ keeps_outside (under dir) s s3 ∧
    ∀ h, h ∈ hooks without_sendmsg → ∃ id l, os_fds s1 !! skel (fst h) = Some (D_obj (O_prog id)) ∧
      os_pins s2 !! link_pin dir ino h = Some (O_link l) ∧ os_links s2 !! l = Some (mk_att ino (snd h) id) ∧
      os_links s3 !! l = None.
Proof.
  intros Hdir Hs E1 E2. pose proof (load_programs_spec dir Hdir version force without_sendmsg s Hs) as H1.
  unfold wp in H1. rewrite E1 in H1. destruct H1 as [Ld Lt Lo Lk Lp Lr].
  pose proof (install_hooks_ends proc_self cgroup_paths cgroup_self without_sendmsg dir s1 Hdir Lo) as H2.
  rewrite E2 in H2. destruct H2 as (ino & [_ Hh Hk _ Hd Hv Ho Hp _]).
  destruct (cleanup_spec dir s2 Hdir) as (s3 & E3 & _ & D3 & P3 & G3 & _ & K3); [by rewrite Hd| |done|].
  { intros n Hn. rewrite Hd. destruct (Lt n Hn) as [? Htn]. split; [done|]. intros Hpn.
    destruct (Hp _ Hpn) as [?|(h & Hin & E)]; [by apply Htn|]. apply join_inj in E as ->.
    split; [by apply link_name_text|]. pose proof (link_name_length ino h Hin). lia. }
  exists ino, s3. split_and!; try done.
  - rewrite D3. apply lookup_delete_eq.
  - etrans; [exact Lk|]. etrans; [|exact K3]. by apply (keeps_outside_mono (names dir ino)); [apply names_under|].
  - intros h Hin. destruct (Hh h Hin) as (prog & l & Q1 & Q2 & Q3). destruct (Lp h Hin) as (id & I1 & I2).
    pose proof (hooks_sub _ _ Hin) as Hin'. destruct Hk as [Hk _]. rewrite Hk in Q1 by by apply prog_pin_outside.
    rewrite I2 in Q1. injection Q1 as <-. exists id, l. split_and!; try done.
    apply (G3 (link_name ino (fst h))); [by apply link_name_text|done].
Qed.

(** ** Evaluation *)
Definition metrics_prog : prog_info := mk_prog_info (chars "udpgrm_setsockopt") [50; 51].
Definition test_machine : Bpffs :=
  machine (λ _, metrics_prog) (λ id, if id =? 51 then chars "metrics_map" else chars "sockhash") [50; 51].
(** Loading opens a descriptor for each program, in the order of the hooks, and one for the
    ring buffer. *)
Definition hook_index (name : path) : Z :=
  match list_find (λ h, fst h = name) (hooks false) with Some (i, _) => Z.of_nat i | None => 6 end.
Definition test_skeleton : Skeleton := {|
  ebpf__open_and_load s :=
    let base := fresh_in (os_fds s) in
    (Some (λ name, base + hook_index name),
     set_fds (os_fds s ∪ list_to_map ((base + 6, D_obj (O_map 52)) ::
       map (λ i, (base + i, D_obj (O_prog (1 + i)))) [0; 1; 2; 3; 4; 5])) s);
  setrlimit_ok _ := true;
|}.
Lemma fresh_above {A} (m : gmap Z A) i : 0 <= i → m !! (fresh_in m + i) = None.
Proof.
  intros Hi. destruct (m !! _) as [a|] eqn:E; [|done]. apply elem_of_map_to_list in E.
  assert (fresh_in m + i ∈ map fst (map_to_list m)) as Hin by (apply list_elem_of_fmap; eexists; by split; [|exact E]).
  apply fold_max in Hin. unfold fresh_in in Hin. lia.
Qed.
#[export] Instance test_skeleton_laws : @SkeletonLaws test_machine test_skeleton.
Proof.
  split. intros s. cbn [test_skeleton ebpf__open_and_load]. split.
  - split; try done. cbn. apply map_union_subseteq_l.
  - apply Forall_forall. repeat constructor; cbn -[fresh_in];
      match goal with |- ∃ id, (_ ∪ _) !! (?b + ?e) = _ => let i := eval vm_compute in e in change e with i;
        exists (1 + i); rewrite lookup_union_r by (apply fresh_above; lia) end;
      repeat first [ rewrite lookup_insert_eq; reflexivity | rewrite lookup_insert_ne by lia ].
Qed.

Definition test_dir : path := chars "/b".
Definition empty_os : os := mk_os ∅ 0 ∅ {[chars "/c" := 5]} ∅ ∅ ∅.
Lemma empty_sound : sound_dir test_dir empty_os.
Proof.
  split.
  - intros n _. split; [|by intros [? ?]]. apply lookup_singleton_ne. intros E. by apply (f_equal (λ l, nth 1 l 0)) in E.
  - by intros l p q Hp.
  - by intros _ n _.
Qed.

Definition ends_well {A} (r : result A) : bool := match r with Ret _ _ => true | Exit _ _ => false end.
Definition left_by {A} (r : result A) : os := match r with Ret _ s | Exit _ s => s end.
Definition test_loaded := load_programs (B := test_machine) (K := test_skeleton) (chars "1.0") false false test_dir empty_os.
Definition test_installed :=
  install_hooks (B := test_machine) None [chars "/x"; chars "/c"] false false test_dir (left_by test_loaded).
Lemma test_loaded_ok : ∃ skel,
  load_programs (B := test_machine) (K := test_skeleton) (chars "1.0") false false test_dir empty_os
  = Ret skel (left_by test_loaded).
Proof.
  fold test_loaded.
  assert (ends_well test_loaded = true) as H by (vm_compute; reflexivity).
  destruct test_loaded; [by eexists|discriminate H].
Qed.
Lemma test_installed_ok :
  install_hooks (B := test_machine) None [chars "/x"; chars "/c"] false false test_dir (left_by test_loaded)
  = Ret true (left_by test_installed).
Proof.
  fold test_installed.
  assert (match test_installed with Ret b _ => b | _ => false end = true) as H by (vm_compute; reflexivity).
  destruct test_installed as [[] ?|]; [done|discriminate H|discriminate H].
Qed.

Lemma install_hooks_spec_witness :
  ∃ ino, installed (B := test_machine) test_dir false ino (left_by test_loaded) (left_by test_installed).
Proof.
  destruct test_loaded_ok as [skel E].
  pose proof (load_programs_spec (B := test_machine) (K := test_skeleton) test_dir ltac:(cbn; lia) (chars "1.0") false false
    empty_os empty_sound) as H1.
  assert (one_pin (left_by test_loaded)) as Hone.
  { unfold wp in H1. rewrite E in H1. by destruct H1. }
  pose proof (install_hooks_spec (B := test_machine) None [chars "/x"; chars "/c"] false false test_dir (left_by test_loaded)
    ltac:(cbn; lia) Hone) as H2.
  rewrite test_installed_ok in H2. exact H2.
Defined.

Lemma daemon_life_witness :
  ∃ s3, cleanup_bpf_pin_dir (B := test_machine) test_dir (left_by test_installed) = Ret tt s3 ∧ os_dirs s3 !! test_dir = None
    ∧ keeps_outside (under test_dir) empty_os s3.
Proof.
  destruct test_loaded_ok as [skel E].
  destruct (daemon_life (B := test_machine) (K := test_skeleton) (chars "1.0") false false test_dir None [chars "/x"; chars "/c"]
    false empty_os skel (left_by test_loaded) (left_by test_installed)) as (ino & s3 & H1 & H2 & _ & H3 & _).
  - cbn. lia.
  - exact empty_sound.
  - exact E.
  - exact test_installed_ok.
  - exists s3. exact (conj H1 (conj H2 H3)).
Defined.
