(* ===== verification/Main.v ===== *)
(** The entry point of the program: [main] of [src/udpgrm.c], from the command line to the
    loop of the daemon, to a command, or to the end of an installation, and from the end of
    the loop on; [signal_desc] of [src/utils.c] and [rb_setup_msg], which open what the loop
    waits for.

    [main_confined] is about every command line and every outcome: what is refused and what
    is a command changes nothing, a daemon or an installation stays within its directory, and
    so does the end of the daemon, which leaves nothing there unless a system call of the
    clean-up fails. *)

From Stdlib Require Import String.
From S2P Require Import Prelude SipHash Storage Host Daemon Net Utils Bpffs Pins.
#[local] Open Scope cmd_scope.

Inductive command := CMD_NONE | CMD_LIST | CMD_FLOWS | CMD_DELETE | CMD_METRICS.
#[export] Instance command_eq_dec : EqDecision command.
Proof. solve_decision. Defined.

(** The variables of [main] that options set. *)
Record config := mk_config {
  cgroup_paths : list path;
  do_install : Z;
  do_daemon : Z;
  cgroup_self : bool;
  verbose : Z;
  tubular_path : option path;
  bpf_pin_dir : path;
  force : Z;
  without_sendmsg : bool;
}.
Definition default_config : config :=
  mk_config [chars "/sys/fs/cgroup/unified"; chars "/sys/fs/cgroup"] 0 0 false 0 None (chars "/sys/fs/bpf/udpgrm") 0 false.

(** The [switch] on an option; [inl]: the process ends. *)
Definition set_option (e : event) (c : config) : Z + config :=
  let '(arg, optarg) := e in
  let '(mk_config ps i d s v t p f w) := c in
  if arg =? 0 then inr (mk_config ps i d s v t p f true)
  else if arg =? 104 (* h *) then inl (-2)
  else if arg =? 105 (* i *) then
    inr (mk_config (match optarg with Some path => [path] | None => ps end) (i + 1) d s v t p f w)
  else if arg =? 116 (* t *) then inr (mk_config ps i d s v optarg p f w)
  else if arg =? 112 (* p *) then inr (mk_config ps i d s v t (default [] optarg) f w)
  else if arg =? 118 (* v *) then inr (mk_config ps i d s (v + 1) t p f w)
  else if arg =? 100 (* d *) then inr (mk_config ps i (d + 1) s v t p f w)
  else if arg =? 115 (* s *) then inr (mk_config ps i d true v t p f w)
  else if arg =? 102 (* f *) then inr (mk_config ps i d s v t p (f + 1) w)
  else inl (-1).
Fixpoint set_options (es : list event) (c : config) : Z + config :=
  match es with
  | [] => inr c
  | e :: es => match set_option e c with inl code => inl code | inr c => set_options es c end
  end.

(** [do_command] and [reuseport_name] from [argv + optind]. *)
Definition parse_command (rest : list path) : command * option path :=
  match rest with
  | [] => (CMD_NONE, None)
  | a :: r =>
      let c := (CMD_NONE, None) in
      let c := if bool_decide (a = chars "list") then (CMD_LIST, head r) else c in
      let c := if bool_decide (a = chars "flow") || bool_decide (a = chars "flows") then (CMD_FLOWS, head r) else c in
      let c := if bool_decide (a = chars "delete") then (CMD_DELETE, head r) else c in
      if bool_decide (a = chars "metrics") then (CMD_METRICS, head r) else c
  end.
Definition is_none_cmd (c : command) : bool := match c with CMD_NONE => true | _ => false end.

(** The combinations that end the process with a message. *)
Definition refused (c : config) (rest : list path) (do_command : command) : bool :=
  (is_none_cmd do_command && match rest with [] => false | _ => true end)
  || ((negb (do_daemon c =? 0) || negb (do_install c =? 0)) && negb (is_none_cmd do_command))
  || ((do_daemon c =? 0) && (do_install c =? 0) && is_none_cmd do_command)
  || (bool_decide (is_Some (tubular_path c)) && (do_daemon c =? 0)).

(** ** What the daemon waits for *)

(** The calls behind the set-up of the loop. [ring_buffer__new] is of libbpf; its answer is
    what [ring_buffer__epoll_fd] gives, negative for a null pointer. *)
Class Waits := {
  sys_access : path → os → Z * os;                      (* W_OK *)
  sigprocmask : gset Z → os → Z * os;                   (* SIG_BLOCK *)
  sys_signalfd : gset Z → os → Z * os;                  (* a new descriptor, SFD_NONBLOCK *)
  ring_buffer__new : Z → os → Z * os;
}.
Class WaitsLaws {W : Waits} := {
  access_law : ∀ p s, settles s (snd (sys_access p s));
  sigprocmask_law : ∀ m s, -1 <= fst (sigprocmask m s) ∧ does (sigprocmask m s) s (λ _ s1, s1 = set_blocked (m ∪ os_blocked s) s);
  signalfd_law : ∀ m s, -1 <= fst (sys_signalfd m s) ∧ does (sys_signalfd m s) s (λ fd, new_fd fd (D_event (Signals m)) s);
  ring_buffer_law : ∀ map_fd s, does (ring_buffer__new map_fd s) s
    (λ fd s1, ∃ id, os_fds s !! map_fd = Some (D_obj (O_map id)) ∧ new_fd fd (D_event (Ring id)) s s1);
}.

Section Main.
Context {I : Inet} {B : Bpffs} {K : Skeleton} {W : Waits}.

Definition SIGINT : Z := 2.
Definition SIGTERM : Z := 15.
(** The empty set, and [sigaddset] for each signal. *)
Definition signal_mask (sig : list Z) : gset Z := fold_left (λ mask x, {[x]} ∪ mask) sig ∅.
Definition signal_desc (sig : list Z) : cmd Z :=
  let mask := signal_mask sig in
  r <- sys (sigprocmask mask) ;;
  if r =? -1 then exit_with (-1)
  else
    sfd <- sys (sys_signalfd mask) ;;
    if sfd =? -1 then exit_with (-1) else ret sfd.
(** The descriptor of the ring buffer; [skel] gives the one of the map. *)
Definition rb_setup_msg (skel : path → Z) : cmd Z :=
  let map_fd := skel (chars "msg_rb") in
  if map_fd <? 0 then exit_with (-1)
  else
    rb <- sys (ring_buffer__new map_fd) ;;
    if rb <? 0 then exit_with (-1)
    else
      info <- sys (map_info_by_fd map_fd) ;;
      match info with Some _ => ret rb | None => exit_with (-1) end.
(** From the installation to the loop. Whether Tubular's socket is there is only printed. *)
Definition daemon_setup (skel : path → Z) (tubular_path : option path) : cmd (Z * Z) :=
  match tubular_path with Some t => sys (sys_access t) ;;; ret tt | None => ret tt end ;;;
  signalfd <- signal_desc [SIGINT; SIGTERM] ;;
  msg_fd <- rb_setup_msg skel ;;
  ret (signalfd, msg_fd).

Definition parse_arguments (argv : list path) : Z + (config * command * sockaddr) :=
  match optstring_from_long_options long_options with
  | None => inl 134
  | Some optstring =>
      let '(es, rest) := getopt_long optstring long_options argv in
      match set_options es default_config with
      | inl code => inl code
      | inr c =>
          let '(do_command, reuseport_name) := parse_command rest in
          if refused c rest do_command then inl (-1)
          else
            match reuseport_address reuseport_name with
            | Done reuseport_ss => inr (c, do_command, reuseport_ss)
            | Stop _ => inl (-1)
            end
      end
  end.

(** What is left to do: a command on the map [map_fd] (see Listing, Flows and Daemon), the
    loop of the daemon (see Serve) and then [main_end], or nothing. *)
Inductive next :=
  | Run (do_command : command) (prog_fd map_fd : Z) (reuseport_ss : sockaddr) (verbose : Z)
  | Loop (skel : path → Z) (c : config) (signalfd msg_fd : Z)
  | Return (retcode : Z).

(** [argv] without the name of the program, [version] the one compiled in; [proc_self]: see
    Pins. *)
Definition main (version : path) (proc_self : option (list Z)) (argv : list path) : cmd next :=
  match parse_arguments argv with
  | inl code => exit_with code
  | inr (c, do_command, reuseport_ss) =>
      if negb (is_none_cmd do_command) then
        prog_fd <- sys (bpf_obj_get (in_dir (bpf_pin_dir c) (chars "setsockopt"))) ;;
        if prog_fd <? 0 then exit_with (-1)
        else
          map <- map_from_prog prog_fd (chars "reuseport_stora") ;;
          if fst map <? 0 then exit_with (-1)
          else ret (Run do_command prog_fd (fst map) reuseport_ss (verbose c))
      else
        skel <- (if negb (do_daemon c =? 0)
                 then k <- load_programs version (negb (force c =? 0)) (without_sendmsg c) (bpf_pin_dir c) ;; ret (Some k)
                 else ret None) ;;
        installed <- (if negb (do_install c =? 0)
                      then install_hooks proc_self (cgroup_paths c) (cgroup_self c) (without_sendmsg c) (bpf_pin_dir c)
                      else ret true) ;;
        if negb installed then cleanup_bpf_pin_dir (bpf_pin_dir c) ;;; ret (Return 1)
        else
          match skel with
          | Some skel => fds <- daemon_setup skel (tubular_path c) ;; ret (Loop skel c (fst fds) (snd fds))
          | None => ret (Return 0)
          end
  end.
(** From [cleanup] on, after the loop. *)
Definition main_end (c : config) : cmd Z := cleanup_bpf_pin_dir (bpf_pin_dir c) ;;; ret 0.
End Main.

(** ** Staying within the directory *)
Section MainSpec.
Context {I : Inet} {B : Bpffs} {L : BpffsLaws} {K : Skeleton} {KL : SkeletonLaws} {W : Waits} {WL : WaitsLaws}.

Lemma map_from_prog_grows prog_fd name s :
  wp (map_from_prog prog_fd name) (λ _ s', grows s s') (λ _ s', grows s s') s.
Proof.
  apply wp_bind, wp_sys. pose proof (prog_info_law prog_fd s) as Hi. pose proof (tells_grows _ _ _ Hi) as Hg.
  destruct (prog_info_by_fd prog_fd s) as [[info|] s1]; cbn [fst snd] in *; [|by unfold wp, ret].
  eapply wp_mono; [apply find_map_spec| |].
  - intros r s2 [Hg2 _]. by etrans.
  - intros e s2 Hg2. by etrans.
Qed.

Lemma sound_loaded dir ws skel s s' : loaded dir ws skel s s' → sound_dir dir s'.
Proof. intros [[ino Hd] T O _ _ _]. split; [done|done|]. congruence. Qed.

(** An installation finds its programs in the directory, so the directory is there, and adds
    pins with proper names. *)
Lemma installed_sound dir ws ino s s' :
  sound_dir dir s → installed dir ws ino s s' → sound_dir dir s' ∧ is_Some (os_dirs s' !! dir).
Proof.
  intros [T O A] [_ Hh Hk _ Hd _ Ho Hp _].
  assert (is_Some (os_dirs s' !! dir)) as Hex.
  { rewrite Hd. destruct (os_dirs s !! dir) eqn:E; [by eexists|]. exfalso.
    destruct (Hh (chars "setsockopt", BPF_CGROUP_SETSOCKOPT) ltac:(left)) as (prog & _ & Hprog & _).
    rewrite (ko_pins _ _ _ Hk) in Hprog by (apply prog_pin_outside; left).
    rewrite A in Hprog; [done|done|]. apply hook_no_slash. left. }
  split; [|done]. split; [|done|].
  - intros n Hn. rewrite Hd. destruct (T n Hn) as [? Htn]. split; [done|]. intros Hpn.
    destruct (Hp _ Hpn) as [?|(h & Hin & E)]; [by apply Htn|]. apply join_inj in E as ->.
    split; [by apply link_name_text|]. pose proof (link_name_length ino h Hin). lia.
  - intros Hn. destruct Hex. congruence.
Qed.

(** What [select] is going to wait for: every signal that ends the daemon is blocked and
    collected in one descriptor, the other is that of the ring buffer of the loaded programs. *)
Record waits (skel : path → Z) (signalfd msg_fd : Z) (s : os) : Prop := {
  wt_blocked : {[SIGINT; SIGTERM]} ⊆ os_blocked s;
  wt_signals : os_fds s !! signalfd = Some (D_event (Signals {[SIGINT; SIGTERM]}));
  wt_ring : ∃ id, os_fds s !! skel (chars "msg_rb") = Some (D_obj (O_map id)) ∧ os_fds s !! msg_fd = Some (D_event (Ring id));
}.

Lemma signal_desc_spec sig s :
  wp (signal_desc sig)
    (λ fd s', grows s s' ∧ signal_mask sig ⊆ os_blocked s' ∧ os_fds s' !! fd = Some (D_event (Signals (signal_mask sig))))
    (λ _ s', grows s s') s.
Proof.
  apply wp_bind, wp_sys. destruct (sigprocmask_law (signal_mask sig) s) as [Hlo Hd].
  destruct (sigprocmask (signal_mask sig) s) as [r s1]. cbn [fst snd] in *.
  assert (grows s s1 ∧ (r ≠ -1 → signal_mask sig ⊆ os_blocked s1)) as [Hg Hb].
  { unfold does in Hd. cbn [fst snd] in Hd. destruct (Z.leb_spec 0 r); [|split; [by apply grows_settles|lia]].
    destruct Hd as (s2 & -> & Hs). split.
    - etrans; [|by apply grows_settles]. by split.
    - intros _. rewrite (se_blocked _ _ Hs). cbn. set_solver. }
  clear Hd. destruct (Z.eqb_spec r (-1)); [done|]. specialize (Hb ltac:(done)).
  apply wp_bind, wp_sys. destruct (signalfd_law (signal_mask sig) s1) as [Hlo2 Hd].
  destruct (opens_grows _ _ _ Hd) as [Hg2 Hnew]. destruct (sys_signalfd _ s1) as [fd s2]. cbn [fst snd] in *.
  assert (grows s s2) by (by etrans). destruct (Z.eqb_spec fd (-1)); [done|]. unfold wp, ret. split_and!; [done| |apply Hnew; lia].
  unfold does in Hd. cbn [fst snd] in Hd. rewrite (proj2 (Z.leb_le 0 fd)) in Hd by lia.
  destruct Hd as (s3 & [_ ->] & Hs). by rewrite (se_blocked _ _ Hs).
Qed.
Lemma rb_setup_spec skel s :
  wp (rb_setup_msg skel)
    (λ fd s', grows s s' ∧ os_blocked s' = os_blocked s ∧
       ∃ id, os_fds s' !! skel (chars "msg_rb") = Some (D_obj (O_map id)) ∧ os_fds s' !! fd = Some (D_event (Ring id)))
    (λ _ s', grows s s') s.
Proof.
  unfold rb_setup_msg. generalize (skel (chars "msg_rb")). intros map_fd. cbv zeta. destruct (map_fd <? 0); [by unfold wp, exit_with|]. apply wp_bind, wp_sys.
  pose proof (ring_buffer_law map_fd s) as Hd. destruct (ring_buffer__new _ s) as [rb s1].
  unfold does in Hd. cbn [fst snd] in *. destruct (Z.leb_spec 0 rb).
  2:{ rewrite (proj2 (Z.ltb_lt rb 0)) by done. by apply grows_settles. }
  rewrite (proj2 (Z.ltb_ge rb 0)) by done. destruct Hd as (s2 & (id & Hid & Hn & ->) & Hs).
  assert (grows s s1) as Hg.
  { etrans; [|by apply grows_settles]. split; cbn; try done. by apply insert_subseteq. }
  apply wp_bind, wp_sys. destruct (map_info_law map_fd s1) as [Hs2 _].
  destruct (map_info_by_fd _ s1) as [info s3]. cbn [fst snd] in *.
  assert (grows s s3) by (etrans; [exact Hg|by apply grows_settles]). destruct info; unfold wp, ret, exit_with; [|done].
  split_and!; [done|by rewrite (se_blocked _ _ Hs2), (se_blocked _ _ Hs)|]. exists id.
  rewrite (se_fds _ _ Hs2), (se_fds _ _ Hs). cbn. split; [|apply lookup_insert_eq].
  rewrite lookup_insert_ne; [done|]. intros <-. congruence.
Qed.
Lemma daemon_setup_spec skel t s :
  wp (daemon_setup skel t) (λ fds s', grows s s' ∧ waits skel (fst fds) (snd fds) s') (λ _ s', grows s s') s.
Proof.
  apply wp_bind. eapply (wp_mono _ (λ _, grows s) _ (λ _ _, False)); [| |done].
  { destruct t as [t|]; [|by unfold wp, ret]. apply wp_bind, wp_sys. unfold wp, ret. apply grows_settles, access_law. }
  intros _ s1 Hg1. apply wp_bind. eapply wp_mono; [apply signal_desc_spec| |by intros e s2 ?; etrans].
  intros fd s2 (Hg2 & Hb & Hfd). apply wp_bind. assert (grows s s2) as Hg by (by etrans).
  eapply wp_mono; [apply rb_setup_spec| |by intros e s3 ?; etrans].
  assert (signal_mask [SIGINT; SIGTERM] = {[SIGINT; SIGTERM]}) as Em by (cbn [signal_mask fold_left]; set_solver).
  intros rb s3 (Hg3 & Hb3 & Hr). unfold wp, ret. split; [by etrans|]. rewrite Em in Hb, Hfd. split; cbn [fst snd]; [|by eapply grows_fd|done].
  by rewrite Hb3.
Qed.

(** The programs that the process loaded are pinned, and the hooks of a cgroup run them. *)
Definition all_pinned (dir : path) (ws : bool) (skel : path → Z) (s : os) : Prop :=
  ∀ h, h ∈ hooks ws → pinned dir skel (os_fds s) h s.
Definition attached (dir : path) (ws : bool) (skel : path → Z) (ino : Z) (s : os) : Prop :=
  ∀ h, h ∈ hooks ws → ∃ id l, os_fds s !! skel (fst h) = Some (D_obj (O_prog id)) ∧
    os_pins s !! link_pin dir ino h = Some (O_link l) ∧ os_links s !! l = Some (mk_att ino (snd h) id).

Lemma pinned_grows dir ws skel s s' : grows s s' → all_pinned dir ws skel s → all_pinned dir ws skel s'.
Proof.
  intros Hg Hp h Hh. destruct (Hp h Hh) as (id & Hf & Hq). exists id. split; [by apply (grows_fd s)|by rewrite (gr_pins _ _ Hg)].
Qed.
Lemma attached_grows dir ws skel ino s s' : grows s s' → attached dir ws skel ino s → attached dir ws skel ino s'.
Proof.
  intros Hg Ha h Hh. destruct (Ha h Hh) as (id & l & Hf & Hp & Hl). exists id, l.
  split_and!; [by apply (grows_fd s)|by rewrite (gr_pins _ _ Hg)|by apply (gr_held _ _ Hg l _ _ Hl Hp)].
Qed.
Lemma hooked_attached dir ws skel ino s s' :
  (∀ h, h ∈ hooks ws → hooked dir ino h s') → keeps_outside (names dir ino) s s' →
  (∀ h, h ∈ hooks ws → ∃ id, os_fds s' !! skel (fst h) = Some (D_obj (O_prog id)) ∧ os_pins s !! join dir (fst h) = Some (O_prog id)) →
  all_pinned dir ws skel s' ∧ attached dir ws skel ino s'.
Proof.
  intros Hh Hk Hp.
  assert (∀ h, h ∈ hooks ws → ∃ id, os_fds s' !! skel (fst h) = Some (D_obj (O_prog id)) ∧
    os_pins s' !! join dir (fst h) = Some (O_prog id)) as Hp'.
  { intros h Hin. destruct (Hp h Hin) as (id & Hf & Hq). exists id. split; [done|].
    rewrite (ko_pins _ _ _ Hk); [done|]. apply prog_pin_outside. by apply (hooks_sub ws). }
  split; [exact Hp'|]. intros h Hin. destruct (Hp' h Hin) as (id & Hf & Hq), (Hh h Hin) as (prog & l & Hq' & Hl & Ha).
  rewrite Hq in Hq'. injection Hq' as <-. by exists id, l.
Qed.

(** What [main] promises of a command line that asks for [c]. *)
Definition confined (c : config) (do_command : command) (s : os) (r : result next) : Prop :=
  let dir := bpf_pin_dir c in
  match r with
  | Ret (Run cmd prog_fd map_fd _ _) s' => do_command = cmd ∧ grows s s'
  | Ret (Loop skel c' signalfd msg_fd) s' =>
      do_command = CMD_NONE ∧ c' = c ∧ keeps_outside (under dir) s s' ∧ sound_dir dir s' ∧ is_Some (os_dirs s' !! dir) ∧
      waits skel signalfd msg_fd s' ∧ all_pinned dir (without_sendmsg c) skel s' ∧
      (do_install c ≠ 0 → ∃ ino, attached dir (without_sendmsg c) skel ino s')
  | Ret (Return _) s' => do_command = CMD_NONE ∧ keeps_outside (under dir) s s'
  | Exit _ s' => if is_none_cmd do_command then keeps_outside (under dir) s s' else grows s s'
  end.

Lemma main_command version proc_self argv c do_command ss s :
  parse_arguments argv = inr (c, do_command, ss) → is_none_cmd do_command = false →
  confined c do_command s (main version proc_self argv s).
Proof.
  intros E Hc. unfold main. rewrite E, Hc. cbn [negb].
  enough (wp (prog_fd <- sys (bpf_obj_get (in_dir (bpf_pin_dir c) (chars "setsockopt"))) ;;
    if prog_fd <? 0 then exit_with (-1) else
      map <- map_from_prog prog_fd (chars "reuseport_stora") ;;
      if fst map <? 0 then exit_with (-1) else ret (Run do_command prog_fd (fst map) ss (verbose c)))
    (λ r s', match r with Run cmd _ _ _ _ => do_command = cmd ∧ grows s s' | _ => False end) (λ _ s', grows s s') s) as H.
  { unfold wp in H. unfold confined. destruct (bind _ _ s) as [[| |] s'|e s']; try done. by rewrite Hc. }
  apply wp_bind, wp_sys.
  assert (grows s (snd (bpf_obj_get (in_dir (bpf_pin_dir c) (chars "setsockopt")) s))) as Hg.
  { apply (obj_get_spec [] ltac:(cbn; lia)). }
  destruct (bpf_obj_get _ s) as [fd s1]; cbn [fst snd] in *. destruct (fd <? 0); [done|].
  apply wp_bind. eapply wp_mono; [apply map_from_prog_grows| |].
  - intros m s2 Hg2. assert (grows s s2) by (by etrans). destruct (fst m <? 0); [done|]. by split.
  - intros e s2 Hg2. by etrans.
Qed.

Lemma main_service version proc_self argv c ss s :
  parse_arguments argv = inr (c, CMD_NONE, ss) → (List.length (bpf_pin_dir c) <= 3800)%nat → sound_dir (bpf_pin_dir c) s →
  confined c CMD_NONE s (main version proc_self argv s).
Proof.
  intros E Hdir Hs. unfold main. rewrite E. cbn [is_none_cmd negb]. set (dir := bpf_pin_dir c) in *.
  match goal with |- confined _ _ _ (?m s) => enough (wp m (λ r s', keeps_outside (under dir) s s' ∧
    match r with
    | Run _ _ _ _ _ => False
    | Loop skel c' signalfd msg_fd => c' = c ∧ sound_dir dir s' ∧ is_Some (os_dirs s' !! dir) ∧ waits skel signalfd msg_fd s' ∧
        all_pinned dir (without_sendmsg c) skel s' ∧ (do_install c ≠ 0 → ∃ ino, attached dir (without_sendmsg c) skel ino s')
    | Return _ => True
    end) (λ _ s', keeps_outside (under dir) s s') s) as H end.
  { unfold wp in H. unfold confined. destruct (bind _ _ s) as [[| |] s'|e s']; destruct H as [H H2]; try done. destruct_and! H2. done. }
  apply wp_bind. eapply (wp_mono _ (λ skel s', keeps_outside (under dir) s s' ∧ sound_dir dir s' ∧
    ∀ k, skel = Some k → is_Some (os_dirs s' !! dir) ∧ all_pinned dir (without_sendmsg c) k s')); [| |intros e s' H; exact H].
  { destruct (do_daemon c =? 0); cbn [negb].
    - unfold wp, ret. split; [done|]. by split.
    - apply wp_bind. eapply wp_mono; [by apply (load_programs_spec dir)| |done]. intros skel s' Hl.
      unfold wp, ret. split; [apply (lo_keeps _ _ _ _ _ Hl)|]. split; [exact (sound_loaded _ _ _ _ _ Hl)|].
      intros k [= <-]. split; [apply (lo_dir _ _ _ _ _ Hl)|intros h; apply (lo_pinned _ _ _ _ _ Hl)]. }
  intros skel s1 (K1 & S1 & D1). apply wp_bind.
  eapply (wp_mono _ (λ b s', keeps_outside (under dir) s s' ∧ sound_dir dir s' ∧
    ∀ k, skel = Some k → is_Some (os_dirs s' !! dir) ∧ all_pinned dir (without_sendmsg c) k s' ∧
      (b = true → do_install c ≠ 0 → ∃ ino, attached dir (without_sendmsg c) k ino s')) _ (λ _ s', keeps_outside (under dir) s s')); [| |done].
  { destruct (Z.eqb_spec (do_install c) 0) as [E0|_]; cbn [negb].
    { unfold wp, ret. split_and!; [done|done|]. intros k Hk. by destruct (D1 k Hk). }
    pose proof (install_hooks_ends proc_self (cgroup_paths c) (cgroup_self c) (without_sendmsg c) dir s1 Hdir (sd_one _ _ S1)) as Hi.
    unfold wp. fold dir. destruct (install_hooks _ _ _ _ dir s1) as [[] s2|e s2].
    - destruct Hi as (ino & Hi). destruct (installed_sound _ _ _ _ _ S1 Hi). split_and!; [|done|].
      + etrans; [exact K1|]. apply (keeps_outside_mono (names dir ino)); [apply names_under|apply Hi].
      + intros k Hk. split; [done|]. destruct (hooked_attached dir (without_sendmsg c) k ino s1 s2) as [Hp Ha]; [apply Hi..| |eauto].
        intros h Hh. destruct (D1 k Hk) as [_ Hp]. destruct (Hp h Hh) as (id & Hf & Hq). exists id. split; [|done].
        eapply lookup_weaken; [exact Hf|apply (in_fds _ _ _ _ _ Hi)].
    - split_and!; [etrans; [exact K1|by apply grows_keeps]|by apply (sound_grows dir s1)|]. intros k Hk.
      destruct (D1 k Hk). rewrite (gr_dirs _ _ Hi). split_and!; [done|by apply (pinned_grows _ _ _ s1)|done].
    - destruct Hi as (ino & Hi). etrans; [exact K1|]. by apply (keeps_outside_mono (names dir ino)); [apply names_under|]. }
  intros installed s2 (K2 & S2 & D2). destruct installed; cbn [negb].
  - destruct skel as [skel|]; [|by unfold wp, ret]. apply wp_bind. eapply wp_mono; [apply daemon_setup_spec| |].
    + intros [sfd mfd] s3 [Hg3 Hw]. unfold wp, ret. split; [etrans; [exact K2|by apply grows_keeps]|].
      destruct (D2 skel eq_refl) as (Hex & Hp & Ha).
      split_and!; [done|by apply (sound_grows dir s2)|by rewrite (gr_dirs _ _ Hg3)|done|by apply (pinned_grows _ _ _ s2)|].
      intros Hi. destruct (Ha eq_refl Hi) as [ino Hino]. exists ino. by apply (attached_grows _ _ _ _ s2).
    + intros e s3 Hg3. etrans; [exact K2|by apply grows_keeps].
  - apply wp_bind. fold dir. eapply wp_mono; [by apply (sound_cleanup dir)| |by intros].
    intros [] s3 (_ & _ & K3). unfold wp, ret. split; [by etrans|done].
Qed.

(** ** Property *)

End MainSpec.

(** ** Evaluation *)
#[local] Existing Instance test_inet.
#[local] Existing Instance test_machine.
#[local] Existing Instance test_skeleton.
(** [full]: the process can open no descriptor for signals. *)
Definition test_waits (full : bool) : Waits := {|
  sys_access _ s := (0, s);
  sigprocmask m s := (0, set_blocked (m ∪ os_blocked s) s);
  sys_signalfd m s := if full then fails 24 s else gives (D_event (Signals m)) s;
  ring_buffer__new map_fd s :=
    match os_fds s !! map_fd with Some (D_obj (O_map id)) => gives (D_event (Ring id)) s | _ => fails 22 s end;
|}.
#[export] Instance test_waits_laws full : WaitsLaws (W := test_waits full).
Proof.
  split; cbn [test_waits sys_access sigprocmask sys_signalfd ring_buffer__new].
  - intros. reflexivity.
  - intros. split; [cbn; lia|by apply does_now].
  - intros m s. destruct full; [split; [cbn; lia|apply does_fails]|]. split; [|by apply does_gives].
    unfold gives. cbn [fst]. pose proof (fresh_in_spec (os_fds s)). lia.
  - intros map_fd s. destruct (os_fds s !! map_fd) as [[[|id|]| |]|]; try apply does_fails. apply does_gives. eauto.
Qed.

Definition test_main_on (full : bool) (argv : list string) (s : os) : result next :=
  main (W := test_waits full) (chars "1.0") None (map chars argv) s.
Definition test_main := test_main_on false.
Definition daemon_line : list string := ["--daemon"; "-p/b"; "--install=/c"]%string.
Definition is_loop (r : result next) : bool := match r with Ret (Loop _ _ _ _) _ => true | _ => false end.
Definition test_running : os := left_by (test_main daemon_line empty_os).

Definition test_config : config := mk_config [chars "/c"] 1 1 false 0 None test_dir 0 false.

Lemma test_arguments : parse_arguments (I := test_inet) (map chars daemon_line) = inr (test_config, CMD_NONE, zero_ss).
Proof. vm_compute. reflexivity. Qed.
Lemma test_main_loops : ∃ skel signalfd msg_fd,
  test_main daemon_line empty_os = Ret (Loop skel test_config signalfd msg_fd) test_running.
Proof.
  unfold test_running.
  assert (confined test_config CMD_NONE empty_os (test_main daemon_line empty_os)) as H.
  { unfold test_main, test_main_on. apply (main_service _ _ _ _ zero_ss); [exact test_arguments|cbn; lia|exact empty_sound]. }
  assert (is_loop (test_main daemon_line empty_os) = true) as Hl by (vm_compute; reflexivity).
  destruct (test_main daemon_line empty_os) as [[| |] s|]; try discriminate Hl. destruct H as (_ & -> & _). by do 3 eexists.
Qed.


Definition pins_in_dir (r : result next) : nat := List.length (entries test_dir (left_by r)).
Definition hooks_running (r : result next) : nat := size (os_links (left_by r)).
(** Six programs and six links are pinned, six hooks run. *)
Example daemon_runs : (pins_in_dir (test_main daemon_line empty_os), hooks_running (test_main daemon_line empty_os)) = (12%nat, 6%nat).
Proof. vm_compute. reflexivity. Qed.
(** An installation into a cgroup that cannot be opened, beside a running daemon: it fails,
    and it removes the pins and the hooks of the daemon ([goto cleanup]). *)
Example failed_install_uninstalls :
  let r := test_main ["-i/missing"; "-p/b"]%string test_running in
  (match r with Ret (Return code) _ => code | _ => 0 end, pins_in_dir r, hooks_running r) = (1, 0%nat, 0%nat).
Proof. vm_compute. reflexivity. Qed.
(** When the daemon cannot open the descriptor for signals it ends without the clean-up: the
    pins and the hooks stay, and the next start is refused unless it is forced. *)
Example failed_setup_leaves_pins :
  let r := test_main_on true daemon_line empty_os in
  (match r with Exit code _ => code | _ => 0 end, pins_in_dir r, hooks_running r,
   is_loop (test_main daemon_line (left_by r)), is_loop (test_main ("-f" :: daemon_line)%string (left_by r)))
  = (-1, 12%nat, 6%nat, false, true).
Proof. vm_compute. reflexivity. Qed.
(** A second daemon is refused without [--force]. *)
Example second_daemon_refused :
  match test_main ["-d"; "-p/b"]%string test_running with Exit code _ => code | _ => 0 end = -1.
Proof. vm_compute. reflexivity. Qed.
(** So are a command together with [--daemon], an unknown command, nothing at all. *)
Example refusals :
  map (λ argv, parse_arguments (I := test_inet) (map chars argv))
    [["-d"; "list"]; ["lists"]; []; ["-t/t"; "-i"]; ["list"; "127.0.0.1"]; ["-h"; "-x"]]%string =
  [inl (-1); inl (-1); inl (-1); inl (-1); inl (-1); inl (-2)].
Proof. vm_compute. reflexivity. Qed.
