(* ===== verification/Lifetime.v ===== *)
(** The daemon process from its start to its end, among other processes: [Main] and the loop
    of [Serve], while other processes of udpgrm run on the same machine.

    [elsewhere] is what other processes do, seen from the daemon: each has descriptors of its
    own, the pins, directories and hooks are shared. [lstep] is one iteration of the loop or
    one run of another process. [daemon_lifetime] says what holds in every state that is
    reached, and that the end of the daemon takes everything away. *)

From stdpp Require Import relations.
From S2P Require Import Prelude Cookie SipHash Storage Cbpf Dissector Reuseport Flow Hooks Host Daemon Serve Net Utils Bpffs Pins Main.
Open Scope Z_scope.

(** The machine as a process with these descriptors and blocked signals sees it. *)
Definition seen_by (fds : gmap Z descr) (blocked : gset Z) (s : os) : os := set_blocked blocked (set_fds fds s).

(** ** Names in the directory *)
Lemma join_dir_inj d1 d2 n1 n2 : 47 ∉ n1 → 47 ∉ n2 → join d1 n1 = join d2 n2 → d1 = d2.
Proof.
  unfold join. intros H1 H2 E. apply app_eq_inv in E as [(k & -> & E)|(k & -> & E)]; destruct k as [|x k]; cbn in E.
  - by rewrite app_nil_r.
  - injection E as _ ->. destruct H2. rewrite elem_of_app. right. left.
  - by rewrite app_nil_r.
  - injection E as _ ->. destruct H1. rewrite elem_of_app. right. left.
Qed.

(** An inode is read back from the name of a link. *)
Definition inode_ok (ino : Z) : Prop := 0 <= ino < 2 ^ 63.
Lemma link_name_inj ino ino' x y : inode_ok ino → inode_ok ino' → link_name ino x = link_name ino' y → ino = ino'.
Proof.
  assert (∀ i z, inode_ok i → strtol_digits (link_name i z) 0 = (i, 95 :: z)) as Hread.
  { intros i z Hi. unfold inode_ok in Hi. unfold link_name, signed. destruct (Z.ltb_spec i 0); [lia|].
    destruct (digits_spec 20 i []) as (d & E & _ & _ & Hp); [change (10 ^ Z.of_nat 20) with 100000000000000000000; lia|lia|].
    unfold dec. rewrite E, app_nil_r, Hp. cbn. by rewrite Z.add_0_l. }
  intros Hi Hi' E. apply (f_equal (λ s, fst (strtol_digits s 0))) in E. by rewrite !Hread in E.
Qed.
Lemma names_apart dir ino ino' h : inode_ok ino → inode_ok ino' → ino' ≠ ino → ¬ names dir ino (link_pin dir ino' h).
Proof. intros Hi Hi' Hne (h' & _ & E). apply join_inj, link_name_inj in E; done. Qed.

(** ** Single runs of other processes *)
Section Runs.
Context {I : Inet} {B : Bpffs} {L : BpffsLaws} {K : Skeleton} {KL : SkeletonLaws} {W : Waits} {WL : WaitsLaws}.

Lemma confined_keeps c s r : confined c CMD_NONE s r → keeps_outside (under (bpf_pin_dir c)) s (left_by r).
Proof.
  destruct r as [[| |] s'|e s']; cbn.
  - intros [_ ?]. by apply grows_keeps.
  - by intros (_ & _ & ? & _).
  - by intros [_ ?].
  - done.
Qed.
Lemma confined_command c do_command s r : is_none_cmd do_command = false → confined c do_command s r → grows s (left_by r).
Proof.
  intros Hc. destruct r as [[| |] s'|e s']; cbn; [by intros [_ ?]|by intros (-> & _)|by intros (-> & _)|by rewrite Hc].
Qed.

(** There is one daemon per directory: without [--force] a second one ends before it has
    changed anything. *)
Lemma load_programs_refused version ws dir s : is_Some (os_dirs s !! dir) →
  wp (load_programs version false ws dir) (λ _ _, False) (λ _ s', grows s s') s.
Proof.
  intros Hd. apply wp_bind. eapply wp_mono; [apply open_programs_spec| |done]. intros skel s1 [Hg _].
  rewrite <- (gr_dirs _ _ Hg) in Hd. apply wp_bind, wp_bind.
  apply wp_bind, wp_sys. pose proof (tells_grows _ _ _ (stat_law dir s1)) as Hg2.
  destruct (sys_stat dir s1) as [[sb|] s2]; cbn [fst snd negb] in *; [unfold wp, exit_with; by etrans|].
  unfold wp at 1, ret. apply wp_bind, wp_sys. pose proof (mkdir_law dir s2) as Hm. unfold does in Hm.
  destruct (sys_mkdir dir s2) as [x s3]. cbn [fst snd] in *. destruct (Z.leb_spec 0 x) as [Hx|Hx].
  { destruct Hm as (s4 & [Hno _] & _). rewrite (gr_dirs _ _ Hg2) in Hno. rewrite Hno in Hd. by destruct Hd. }
  destruct (Z.eqb_spec x 0); [lia|]. unfold wp, exit_with. cbn. etrans; [exact Hg|]. etrans; [exact Hg2|by apply grows_settles].
Qed.
Lemma second_daemon_grows version proc_self argv c ss s :
  parse_arguments argv = inr (c, CMD_NONE, ss) → do_daemon c ≠ 0 → force c = 0 → is_Some (os_dirs s !! bpf_pin_dir c) →
  match main version proc_self argv s with Exit _ s' => grows s s' | _ => False end.
Proof.
  intros E Hd Hf Hex. unfold main. rewrite E. cbn [is_none_cmd negb]. rewrite Hf. destruct (Z.eqb_spec (do_daemon c) 0) as [|_]; [done|].
  cbn [negb Z.eqb]. pose proof (load_programs_refused version (without_sendmsg c) (bpf_pin_dir c) s Hex) as Hl. unfold wp in Hl.
  unfold bind. by destruct (load_programs _ _ _ _ s) as [k s'|e s'].
Qed.

(** An installation that returns 0. *)
Lemma main_installs version proc_self argv c ss s s' :
  parse_arguments argv = inr (c, CMD_NONE, ss) → do_daemon c = 0 → do_install c ≠ 0 →
  (List.length (bpf_pin_dir c) <= 3800)%nat → one_pin s →
  main version proc_self argv s = Ret (Return 0) s' → ∃ ino, installed (bpf_pin_dir c) (without_sendmsg c) ino s s'.
Proof.
  intros E Hd Hi Hlen Hone. unfold main. rewrite E, Hd. cbn [is_none_cmd negb Z.eqb].
  destruct (Z.eqb_spec (do_install c) 0) as [|_]; [done|]. cbn [negb].
  pose proof (install_hooks_ends proc_self (cgroup_paths c) (cgroup_self c) (without_sendmsg c) (bpf_pin_dir c) s Hlen Hone) as H.
  unfold bind at 1, ret at 1, bind at 1. destruct (install_hooks _ _ _ _ _ s) as [[] s1|e s1]; [| |done].
  - cbn. intros [= <-]. exact H.
  - unfold bind. cbn [negb]. by destruct (cleanup_bpf_pin_dir _ s1).
Qed.
(** An installation that does not get to the clean-up of [main]: only the six pins of one
    cgroup may have changed. *)
Lemma main_install_stays version proc_self argv c ss s :
  parse_arguments argv = inr (c, CMD_NONE, ss) → do_daemon c = 0 → do_install c ≠ 0 →
  (List.length (bpf_pin_dir c) <= 3800)%nat → sound_dir (bpf_pin_dir c) s →
  (∃ s', main version proc_self argv s = Ret (Return 1) s') ∨
  ∃ ino, keeps_outside (names (bpf_pin_dir c) ino) s (left_by (main version proc_self argv s)).
Proof.
  intros E Hd Hi Hlen Hs. destruct (main version proc_self argv s) as [a s'|e s'] eqn:Em; revert Em;
    unfold main; rewrite E, Hd; cbn [is_none_cmd negb Z.eqb]; destruct (Z.eqb_spec (do_install c) 0) as [|_]; [done| |done|];
    pose proof (install_hooks_ends proc_self (cgroup_paths c) (cgroup_self c) (without_sendmsg c) (bpf_pin_dir c) s Hlen (sd_one _ _ Hs)) as H;
    cbn [negb]; unfold bind, ret; (destruct (install_hooks _ _ _ _ _ s) as [[] s1|e1 s1]; cbn [negb]; [| |try discriminate]).
  - intros [= <- <-]. right. destruct H as [ino H]. exists ino. apply H.
  - destruct (cleanup_bpf_pin_dir _ s1) as [[] s2|]; [|discriminate]. intros [= <- <-]. left. by exists s2.
  - discriminate.
  - pose proof (sound_cleanup (bpf_pin_dir c) Hlen s1 (sound_grows _ _ _ H Hs)) as Hcl. unfold wp in Hcl.
    by destruct (cleanup_bpf_pin_dir _ s1).
  - intros [= <- <-]. by right.
Qed.
End Runs.

(** ** Other processes *)
Section Elsewhere.
Context {I : Inet} {B : Bpffs} {L : BpffsLaws} {K : Skeleton} {KL : SkeletonLaws} {W : Waits} {WL : WaitsLaws}.
(** The directory of the daemon, and whether it leaves out the sendmsg hooks. *)
Context (dir : path) (Hdir : (List.length dir <= 3800)%nat) (ws : bool).

(** Another directory, not inside this one. *)
Definition apart (d : path) : Prop := d ≠ dir ∧ ¬ under dir d.

(** A run of another process: a line that is refused, a command, a daemon or an installation
    on another directory, the end of such a daemon, a second daemon on the same directory
    without [--force], an installation on the same directory with the same
    [--without-sendmsg] that succeeds, and, unless [gentle], an installation there that leaves
    the sendmsg hooks out or ends at a system call that fails. Left out are two runs on the
    directory of the daemon: a daemon with [--force], which is to replace it, and an
    installation that cannot open a cgroup, which takes everything away (see
    [failed_install_uninstalls]). *)
Inductive visit (gentle : bool) : os → os → Prop :=
  | V_refused version proc_self argv code s :
      parse_arguments argv = inl code → visit gentle s (left_by (main version proc_self argv s))
  | V_command version proc_self argv c do_command ss s :
      parse_arguments argv = inr (c, do_command, ss) → is_none_cmd do_command = false →
      visit gentle s (left_by (main version proc_self argv s))
  | V_apart version proc_self argv c ss s :
      parse_arguments argv = inr (c, CMD_NONE, ss) → apart (bpf_pin_dir c) →
      (List.length (bpf_pin_dir c) <= 3800)%nat → sound_dir (bpf_pin_dir c) s →
      visit gentle s (left_by (main version proc_self argv s))
  | V_end c s :
      apart (bpf_pin_dir c) → (List.length (bpf_pin_dir c) <= 3800)%nat → sound_dir (bpf_pin_dir c) s →
      visit gentle s (left_by (main_end c s))
  | V_second version proc_self argv c ss s :
      parse_arguments argv = inr (c, CMD_NONE, ss) → bpf_pin_dir c = dir → do_daemon c ≠ 0 → force c = 0 →
      visit gentle s (left_by (main version proc_self argv s))
  | V_install version proc_self argv c ss s s' :
      parse_arguments argv = inr (c, CMD_NONE, ss) → bpf_pin_dir c = dir → without_sendmsg c = ws → do_daemon c = 0 → do_install c ≠ 0 →
      (∀ d ino, os_dirs s !! d = Some ino → inode_ok ino) →
      main version proc_self argv s = Ret (Return 0) s' → visit gentle s s'
  | V_rough version proc_self argv c ss s r :
      gentle = false →
      parse_arguments argv = inr (c, CMD_NONE, ss) → bpf_pin_dir c = dir → do_daemon c = 0 → do_install c ≠ 0 →
      main version proc_self argv s = r → (∀ s', r ≠ Ret (Return 1) s') → visit gentle s (left_by r).

(** What the daemon sees of it: its own descriptors stay. When the other process is gone, so
    are the links that nothing else holds. *)
Inductive elsewhere (gentle : bool) (s : os) : os → Prop :=
  | E_time s' : settles s s' → elsewhere gentle s s'
  | E_visit fds blocked s1 s' :
      visit gentle (seen_by fds blocked s) s1 → settles (seen_by (os_fds s) (os_blocked s) s1) s' → elsewhere gentle s s'.

(** What the running daemon relies on. *)
Record alive (skel : path → Z) (signalfd msg_fd : Z) (s : os) : Prop := {
  al_sound : sound_dir dir s;
  al_dir : is_Some (os_dirs s !! dir);
  al_waits : waits skel signalfd msg_fd s;
  al_pinned : all_pinned dir ws skel s;
}.

Lemma sound_seen d fds blocked s : sound_dir d s → sound_dir d (seen_by fds blocked s).
Proof. by intros [T O A]. Qed.
Lemma dirs_seen (P : path → Z → Prop) fds blocked s :
  (∀ d ino, os_dirs s !! d = Some ino → P d ino) → ∀ d ino, os_dirs (seen_by fds blocked s) !! d = Some ino → P d ino.
Proof. done. Qed.
Lemma keeps_seen P fds blocked fds' blocked' s s1 :
  keeps_outside P (seen_by fds blocked s) s1 → keeps_outside P s (seen_by fds' blocked' s1).
Proof. by intros [Hp Hl Ho Hd]. Qed.

(** Whoever keeps to pins outside the directory does not touch the daemon. *)
Definition spared (P : path → Prop) : Prop :=
  (∀ n, 47 ∉ n → ¬ P (join dir n)) ∧ ∀ n, 47 ∉ n → ¬ P (join (join dir n) []).
Lemma keeps_dirs P s s' : spared P → keeps_outside P s s' →
  os_dirs s' !! dir = os_dirs s !! dir ∧ ∀ n, 47 ∉ n → os_dirs s' !! join dir n = os_dirs s !! join dir n.
Proof.
  intros [Hin Hsub] Hk. split.
  - destruct (ko_dirs _ _ _ Hk dir) as [?|HP]; [done|]. destruct (Hin []); [apply not_elem_of_nil|]. by apply HP, not_elem_of_nil.
  - intros n Hn. destruct (ko_dirs _ _ _ Hk (join dir n)) as [?|HP]; [done|]. destruct (Hsub n Hn). by apply HP, not_elem_of_nil.
Qed.
Lemma keeps_alive P skel sfd mfd s s' :
  spared P → keeps_outside P s s' → os_fds s' = os_fds s → os_blocked s' = os_blocked s → alive skel sfd mfd s →
  alive skel sfd mfd s' ∧ ∀ ino, attached dir ws skel ino s → attached dir ws skel ino s'.
Proof.
  intros Hsp Hk Hf Hb [[T O A] Hd [Wb Ws Wr] Hp]. destruct (keeps_dirs P s s' Hsp Hk) as [Dd Ds].
  assert (∀ n, 47 ∉ n → os_pins s' !! join dir n = os_pins s !! join dir n) as Hpins by (intros n Hn; apply (ko_pins _ _ _ Hk); by apply Hsp).
  split; [split|].
  - split; [|by apply Hk|by rewrite Dd; intros E; rewrite E in Hd; destruct Hd].
    intros n Hn. rewrite Ds, Hpins by done. by apply T.
  - by rewrite Dd.
  - by split; rewrite ?Hf, ?Hb.
  - intros h Hh. destruct (Hp h Hh) as (id & H1 & H2). exists id. rewrite Hf. split; [done|]. rewrite Hpins; [done|].
    by apply hook_no_slash, (hooks_sub ws).
  - intros ino Ha h Hh. destruct (Ha h Hh) as (id & l & H1 & H2 & H3). exists id, l. rewrite Hf.
    pose proof (proj1 (link_name_text ino h (hooks_sub _ _ Hh))) as Hn.
    split_and!; [done|by rewrite <- H2; apply Hpins|]. apply (ko_links _ _ _ Hk l _ (link_pin dir ino h)); [done..|by apply Hsp].
Qed.

Lemma spared_nothing : spared (λ _, False).
Proof. split; intros n _ Hf; exact Hf. Qed.
Lemma spared_apart d : apart d → spared (under d).
Proof.
  intros [Hne Hu]. split; intros n Hn (m & Hm & E).
  - apply Hne. symmetry. by apply (join_dir_inj dir d n m).
  - apply join_dir_inj in E; [|apply not_elem_of_nil|done]. apply Hu. by exists n.
Qed.
Lemma settles_alive skel sfd mfd s s' : settles s s' → alive skel sfd mfd s →
  alive skel sfd mfd s' ∧ ∀ ino, attached dir ws skel ino s → attached dir ws skel ino s'.
Proof.
  intros Hs. apply (keeps_alive (λ _, False)); [apply spared_nothing|by apply settles_keeps|by destruct Hs|by destruct Hs].
Qed.

(** An installation on the directory: the hooks of its cgroup run the programs of the daemon,
    those of other cgroups stay. *)
Lemma installed_alive skel sfd mfd s fds blocked s1 ino :
  let s' := seen_by (os_fds s) (os_blocked s) s1 in
  inode_ok ino → installed dir ws ino (seen_by fds blocked s) s1 → alive skel sfd mfd s →
  alive skel sfd mfd s' ∧ attached dir ws skel ino s' ∧
  ∀ ino', inode_ok ino' → attached dir ws skel ino' s → attached dir ws skel ino' s'.
Proof.
  intros s' Hi Hins [Hs Hd [Wb Ws Wr] Hp].
  pose proof (in_keeps _ _ _ _ _ Hins) as Hk. apply (keeps_seen _ _ _ (os_fds s) (os_blocked s)) in Hk. fold s' in Hk.
  destruct (hooked_attached dir ws skel ino s s') as [Hp' Ha]; [apply (in_hooked _ _ _ _ _ Hins)|exact Hk|exact Hp|].
  destruct (installed_sound _ _ _ _ _ (sound_seen _ fds blocked s Hs) Hins) as [Hs' Hd'].
  split_and!; [split|exact Ha|].
  - by apply sound_seen.
  - exact Hd'.
  - by split.
  - exact Hp'.
  - intros ino' Hi' Ha'. destruct (decide (ino' = ino)) as [->|Hne]; [exact Ha|]. intros h Hh.
    destruct (Ha' h Hh) as (id & l & H1 & H2 & H3). pose proof (names_apart dir ino ino' h Hi Hi' Hne) as Hn. exists id, l.
    split_and!; [exact H1|by rewrite (ko_pins _ _ _ Hk)|by apply (ko_links _ _ _ Hk l _ (link_pin dir ino' h))].
Qed.

(** Whatever an installation has done to the pins of its cgroup, the rest of the directory
    stays. *)
Lemma rough_alive skel sfd mfd s s' ino :
  keeps_outside (names dir ino) s s' → os_fds s' = os_fds s → os_blocked s' = os_blocked s →
  alive skel sfd mfd s → alive skel sfd mfd s'.
Proof.
  intros Hk Hf Hb [[T O A] Hd [Wb Ws Wr] Hp].
  assert (∀ d, os_dirs s' !! d = os_dirs s !! d) as Ed.
  { intros d. destruct (ko_dirs _ _ _ Hk d) as [?|HP]; [done|exfalso]. destruct (HP [] ltac:(apply not_elem_of_nil)) as (h & Hh & E).
    assert (∀ n h, h ∈ hooks false → 47 ∉ n → join d n = link_pin dir ino h → (2 <= List.length n)%nat) as Hlen.
    { intros n g Hg Hn Eg. apply join_dir_inj in Eg as Hdd; [|done|by apply link_name_text]. subst d. apply join_inj in Eg as ->.
      unfold link_name. rewrite length_app. cbn. destruct (signed_text ino) as (? & ? & -> & _). cbn. lia. }
    specialize (Hlen [] h Hh ltac:(apply not_elem_of_nil) E). cbn in Hlen. lia. }
  assert (is_Some (os_dirs s' !! dir)) as Hd' by by rewrite Ed.
  split; [split|done| |].
  - intros n Hn. rewrite Ed. destruct (T n Hn) as [Td Tp]. split; [done|]. intros Hpn.
    destruct (decide (Exists (λ h, n = link_name ino (fst h)) (hooks false))) as [He|Hne].
    + apply Exists_exists in He as (h & Hh & ->). split; [by apply link_name_text|]. pose proof (link_name_length ino h Hh). lia.
    + apply Tp. rewrite <- (ko_pins _ _ _ Hk); [done|]. intros (h & Hh & E). apply Hne, Exists_exists. exists h.
      split; [done|]. by apply join_inj in E.
  - by apply Hk.
  - intros E. rewrite E in Hd'. by destruct Hd'.
  - by split; rewrite ?Hf, ?Hb.
  - intros h Hh. destruct (Hp h Hh) as (id & H1 & H2). exists id. rewrite Hf. split; [done|]. rewrite (ko_pins _ _ _ Hk); [done|].
    by apply prog_pin_outside, (hooks_sub ws).
Qed.

(** The daemon does not notice any of it, and no hook is lost by the gentle ones. *)
Lemma visit_alive gentle skel sfd mfd s fds blocked s1 :
  let s' := seen_by (os_fds s) (os_blocked s) s1 in
  visit gentle (seen_by fds blocked s) s1 → alive skel sfd mfd s →
  alive skel sfd mfd s' ∧ (gentle = true → ∀ ino, inode_ok ino → attached dir ws skel ino s → attached dir ws skel ino s').
Proof.
  intros s' Hv Hal.
  assert (∀ P, spared P → keeps_outside P (seen_by fds blocked s) s1 → 
    alive skel sfd mfd s' ∧ (gentle = true → ∀ ino, inode_ok ino → attached dir ws skel ino s → attached dir ws skel ino s')) as Hkeep.
  { intros P Hsp Hk. apply (keeps_seen _ _ _ (os_fds s) (os_blocked s)) in Hk.
    destruct (keeps_alive P skel sfd mfd s s' Hsp Hk eq_refl eq_refl Hal) as [H1 H2]. eauto. }
  assert (grows (seen_by fds blocked s) s1 → 
    alive skel sfd mfd s' ∧ (gentle = true → ∀ ino, inode_ok ino → attached dir ws skel ino s → attached dir ws skel ino s')) as Hgrow.
  { intros Hg. apply (Hkeep (λ _, False)); [apply spared_nothing|by apply grows_keeps]. }
  inversion Hv as [version proc argv code ? E|version proc argv c cmd ss ? E Hc|version proc argv c ss ? E Ha Hl Hs|c ? Ha Hl Hs|
    version proc argv c ss ? E Hd Hdm Hf|version proc argv c ss ? ? E Hd Hw Hdm Hin Hino Em|
    version proc argv c ss ? r Hg E Hd Hdm Hin Em Hr]; subst.
  - apply Hgrow. unfold main. by rewrite E.
  - apply Hgrow. eapply confined_command; [exact Hc|]. by eapply main_command.
  - apply (Hkeep (under (bpf_pin_dir c))); [by apply spared_apart|]. apply confined_keeps. by eapply main_service.
  - apply (Hkeep (under (bpf_pin_dir c))); [by apply spared_apart|]. unfold main_end, bind.
    pose proof (sound_cleanup (bpf_pin_dir c) Hl _ Hs) as Hcl. unfold wp in Hcl.
    destruct (cleanup_bpf_pin_dir _ _) as [[] s2|]; [by destruct Hcl as (_ & _ & ?)|done].
  - apply Hgrow. pose proof (al_dir _ _ _ _ Hal) as Hex. rewrite <- Hd in Hex.
    pose proof (second_daemon_grows version proc argv c ss (seen_by fds blocked s) E Hdm Hf Hex) as Hg.
    by destruct (main version proc argv (seen_by fds blocked s)).
  - destruct (main_installs version proc argv c ss (seen_by fds blocked s) s1 E Hdm Hin) as [ino Hi]; [by rewrite Hd|exact (sd_one _ _ (al_sound _ _ _ _ Hal))|exact Em|].
    rewrite Hd, Hw in Hi.
    destruct (in_cgroup _ _ _ _ _ Hi) as [cg Hcg].
    destruct (installed_alive skel sfd mfd s fds blocked s1 ino (Hino _ _ Hcg) Hi Hal) as (H1 & _ & H2). by split.
  - split; [|done]. subst s'.
    destruct (main_install_stays version proc argv c ss (seen_by fds blocked s) E Hdm Hin) as [[s1 E1]|[ino Hk]].
    + by rewrite Hd.
    + rewrite Hd. by apply sound_seen, (al_sound _ _ _ _ Hal).
    + by destruct (Hr s1).
    + rewrite Hd in Hk. apply (keeps_seen _ _ _ (os_fds s) (os_blocked s)) in Hk. by apply (rough_alive skel sfd mfd s _ ino Hk).
Qed.
Lemma elsewhere_alive gentle skel sfd mfd s s' : elsewhere gentle s s' → alive skel sfd mfd s →
  alive skel sfd mfd s' ∧ (gentle = true → ∀ ino, inode_ok ino → attached dir ws skel ino s → attached dir ws skel ino s').
Proof.
  intros [s2 Hs|fds blocked s1 s2 Hv Hs] Hal.
  - destruct (settles_alive skel sfd mfd s s2 Hs Hal). eauto.
  - destruct (visit_alive gentle skel sfd mfd s fds blocked s1 Hv Hal) as [H1 H2].
    destruct (settles_alive skel sfd mfd _ s2 Hs H1) as [H3 H4]. eauto.
Qed.
End Elsewhere.

(** ** The process *)
Section Process.
Context {I : Inet} {B : Bpffs} {K : Skeleton} {W : Waits} {Kn : Kernel} {H : Host} {C : Clock}.
Context (dir : path) (ws : bool) (tubular : bool).

(** One iteration of the loop, or something elsewhere; the variables of the loop are those of
    [Serve]. *)
Inductive lstep (gentle : bool) : os * (daemon * Z * world) → os * (daemon * Z * world) → Prop :=
  | L_iteration s x y : iteration tubular x y → lstep gentle (s, x) (s, y)
  | L_elsewhere s s' x : elsewhere dir ws gentle s s' → lstep gentle (s, x) (s', x).

Context {L : BpffsLaws} {KL : SkeletonLaws} {WL : WaitsLaws} (Hdir : (List.length dir <= 3800)%nat).

Lemma lsteps_alive gentle skel sfd mfd x y : rtc (lstep gentle) x y → alive dir ws skel sfd mfd (fst x) →
  alive dir ws skel sfd mfd (fst y) ∧
  (gentle = true → ∀ ino, inode_ok ino → attached dir ws skel ino (fst x) → attached dir ws skel ino (fst y)).
Proof.
  induction 1 as [x|x y z Hxy _ IH]; [auto|]. intros Hal.
  assert (alive dir ws skel sfd mfd (fst y) ∧
    (gentle = true → ∀ ino, inode_ok ino → attached dir ws skel ino (fst x) → attached dir ws skel ino (fst y))) as [H1 H2].
  { destruct Hxy as [s a b _|s s' a He]; [by split|]. by apply (elsewhere_alive dir Hdir ws gentle skel sfd mfd). }
  destruct (IH H1) as [H3 H4]. auto.
Qed.
Lemma lsteps_loop gentle x y : rtc (lstep gentle) x y → rtc (iteration tubular) (snd x) (snd y).
Proof.
  induction 1 as [x|x y z Hxy _ IH]; [done|]. destruct Hxy as [s a b Hi|s s' a He]; [by eapply rtc_l|exact IH].
Qed.
End Process.

(** ** Property *)


(** ** Evaluation: another process installs the hooks again, then the daemon ends *)
#[local] Existing Instance test_inet.
#[local] Existing Instance test_machine.
#[local] Existing Instance test_skeleton.
#[local] Existing Instance good_kernel.
#[local] Existing Instance slow_host.
#[local] Existing Instance slow_clock.

Definition install_line : list path := map chars ["-p/b"; "--install=/c"]%string.
Definition install_config : config := mk_config [chars "/c"] 1 0 false 0 None test_dir 0 false.
Definition other_install : result next := main (W := test_waits false) (chars "1.0") None install_line (seen_by ∅ ∅ test_running).
Definition after_install : os := seen_by (os_fds test_running) (os_blocked test_running) (left_by other_install).

Lemma other_install_ok : main (W := test_waits false) (chars "1.0") None install_line (seen_by ∅ ∅ test_running) = Ret (Return 0) (left_by other_install).
Proof.
  fold other_install. assert (match other_install with Ret (Return 0) _ => true | _ => false end = true) as H by (vm_compute; reflexivity).
  destruct other_install as [[| |[]] s|]; try discriminate H. reflexivity.
Qed.
Lemma test_inodes d ino : os_dirs test_running !! d = Some ino → inode_ok ino.
Proof.
  assert (bool_decide (map_Forall (λ _ i, 0 <= i ∧ i < 2 ^ 63) (os_dirs test_running)) = true) as Hb by (vm_compute; reflexivity).
  apply bool_decide_eq_true in Hb. exact (Hb d ino).
Qed.
Lemma install_elsewhere gentle : elsewhere (W := test_waits false) test_dir false gentle test_running after_install.
Proof.
  apply (E_visit _ _ _ _ ∅ ∅ (left_by other_install)); [|reflexivity].
  eapply (V_install _ _ _ _ _ _ install_config zero_ss); [| | | | | |exact other_install_ok].
  - vm_compute. reflexivity.
  - reflexivity.
  - reflexivity.
  - reflexivity.
  - discriminate.
  - exact (dirs_seen (λ _, inode_ok) ∅ ∅ test_running test_inodes).
Qed.

