(* ===== verification/Decoy.v ===== *)
(** The decoy: [src/tools/mmdecoy.c], a process that stands in for a service while its child,
    the service itself, shuts down at leisure.

    [clone_child] corrects the environment of the child; the loop of [main] passes the
    signals it gets on to the child and ends when the child does or asks for it. A run is the
    list of its system calls, given what the kernel answers. *)

From Stdlib Require Import String.
From S2P Require Import Prelude Net.

(** ** The child *)
Definition PID_ENV : list Z := chars "LISTEN_PID".
Definition listen_pid_var (child_tid : Z) : list Z := snprintf 32 (PID_ENV ++ chars "=" ++ dec (u32 child_tid)).
(** The environment for [execve]; the strings of [envp] up to the null pointer. *)
Fixpoint fix_listen_pid (child_tid : Z) (envp : list (list Z)) : list (list Z) :=
  match envp with
  | [] => []
  | env :: envp =>
      if bool_decide (take (List.length PID_ENV) PID_ENV = take (List.length PID_ENV) env)
      then listen_pid_var child_tid :: envp
      else env :: fix_listen_pid child_tid envp
  end.

(** The command after the name of the program and an optional [--]; [None] is the complaint
    about the usage. *)
Definition child_argv (argv : list (list Z)) : option (list (list Z)) :=
  match drop 1 argv with
  | [] => None
  | a :: r => Some (if bool_decide (a = chars "--") then r else a :: r)
  end.

(** ** The loop *)
Definition SIGCHLD : Z := 17.
Definition SIGURG : Z := 23.
Record siginfo := mk_siginfo { ssi_signo : Z; ssi_pid : Z; ssi_status : Z }.

(** What a read of the signal descriptor makes the decoy do: [inl] with the exit code, [inr]
    with the signal sent to the child. [None]: not a whole record. *)
Definition on_signal (child_pid : Z) (fdsi : option siginfo) : Z + Z :=
  match fdsi with
  | None => inl (-1)
  | Some fdsi =>
      if (ssi_pid fdsi =? u32 child_pid) && (ssi_signo fdsi =? SIGCHLD) then inl (ssi_status fdsi)
      else if (ssi_pid fdsi =? u32 child_pid) && (ssi_signo fdsi =? SIGURG) then inl 0
      else inr (ssi_signo fdsi)
  end.
(** The signals sent to the child, and the exit code unless the decoy is still waiting. *)
Fixpoint decoy_loop (child_pid : Z) (reads : list (option siginfo)) : list Z * option Z :=
  match reads with
  | [] => ([], None)
  | r :: reads =>
      match on_signal child_pid r with
      | inl code => ([], Some code)
      | inr sig => let '(sent, code) := decoy_loop child_pid reads in (sig :: sent, code)
      end
  end.

(** ** [main] *)

(** What the decoy and its child ask of the kernel, in order. A set of signals is a
    predicate; [error(-1, ..)] is [Exited (-1)]. *)
Definition sigset := Z → bool.
Definition all_signals : sigset := λ _, true.
Inductive child_call :=
  | Set_mask (mask : sigset)
  | Execve (pathname : option (list Z)) (argv envp : list (list Z))
  | Child_exited (code : Z).
Inductive call :=
  | Signalfd (mask : sigset)
  | Block (mask : sigset)
  | Clone (child : list child_call)
  | Pidfd_send_signal (pidfd sig : Z)
  | Exited (code : Z).

(** What the kernel answers: the results of the calls (-1, or 0 for [clone]: a failure), the
    descriptor of the child, the mask the decoy was started with, and the reads of the
    signal descriptor. *)
Record answers := mk_answers {
  an_signalfd : Z;
  an_block : Z;
  an_mask : sigset;
  an_clone : Z;
  an_pidfd : Z;
  an_reads : list (option siginfo);
}.

(** The child: [execve] returns only if it fails. [child_tid] was stored by [clone] in the
    child's copy of the memory. *)
Definition clone_child (default_sigmask : sigset) (child_tid : Z) (argv envp : list (list Z)) : list child_call :=
  [Set_mask default_sigmask; Execve (head argv) argv (fix_listen_pid child_tid envp); Child_exited (-1)].

Fixpoint forward_signals (pidfd : Z) (child_pid : Z) (reads : list (option siginfo)) : list call :=
  match reads with
  | [] => []
  | r :: reads =>
      match on_signal child_pid r with
      | inl code => [Exited code]
      | inr sig => Pidfd_send_signal pidfd sig :: forward_signals pidfd child_pid reads
      end
  end.
(** [main] of [mmdecoy.c]; [main] of [Main] is that of [udpgrm.c]. *)
Definition mmdecoy_main (argv envp : list (list Z)) (a : answers) : list call :=
  Signalfd all_signals ::
  if an_signalfd a =? -1 then [Exited (-1)]
  else
    Block all_signals ::
    if an_block a =? -1 then [Exited (-1)]
    else
      match child_argv argv with
      | None => [Exited (-1)]
      | Some argv =>
          Clone (clone_child (an_mask a) (an_clone a) argv envp) ::
          if an_clone a <? 1 then [Exited (-1)]
          else forward_signals (an_pidfd a) (an_clone a) (an_reads a)
      end.

(** ** What it promises *)

(** The sends of the loop, in the process's calls. *)
Lemma forward_decoy pidfd child_pid reads :
  forward_signals pidfd child_pid reads =
    let '(sent, code) := decoy_loop child_pid reads in
    map (Pidfd_send_signal pidfd) sent ++ match code with Some c => [Exited c] | None => [] end.
Proof.
  induction reads as [|r reads IH]; [done|]. cbn. destruct (on_signal child_pid r) as [code|sig]; [done|].
  rewrite IH. by destruct (decoy_loop child_pid reads) as [sent code].
Qed.

(** A child is started only with every signal blocked and collected in the descriptor, so
    that none is lost or handled by default from then on; the child starts with the mask of
    the decoy before, its own process id in the environment, and the command; every other
    call is a send to the child in the order of the signals, and the last the end. *)
Theorem decoy_main_spec argv envp a :
  (∃ cargv, child_argv argv = Some cargv ∧ an_signalfd a ≠ -1 ∧ an_block a ≠ -1 ∧
     mmdecoy_main argv envp a = [Signalfd all_signals; Block all_signals; Clone (clone_child (an_mask a) (an_clone a) cargv envp)]
       ++ if an_clone a <? 1 then [Exited (-1)]
          else let '(sent, code) := decoy_loop (an_clone a) (an_reads a) in
               map (Pidfd_send_signal (an_pidfd a)) sent ++ match code with Some c => [Exited c] | None => [] end) ∨
  ((∀ c, Clone c ∉ mmdecoy_main argv envp a) ∧ last (mmdecoy_main argv envp a) = Some (Exited (-1))).
Proof.
  unfold mmdecoy_main. destruct (Z.eqb_spec (an_signalfd a) (-1)) as [_|Hs].
  { right. split; [|done]. intros c. rewrite !elem_of_cons. intros [?|[?|Hin]]; [done..|by apply not_elem_of_nil in Hin]. }
  destruct (Z.eqb_spec (an_block a) (-1)) as [_|Hb].
  { right. split; [|done]. intros c. rewrite !elem_of_cons. intros [?|[?|[?|Hin]]]; [done..|by apply not_elem_of_nil in Hin]. }
  destruct (child_argv argv) as [cargv|].
  2: { right. split; [|done]. intros c. rewrite !elem_of_cons. intros [?|[?|[?|Hin]]]; [done..|by apply not_elem_of_nil in Hin]. }
  left. exists cargv. split_and!; [done|done|done|]. cbn [app]. do 3 f_equal. by rewrite forward_decoy.
Qed.

(** The environment of the child. *)

(** [getenv]: the value of the first string that starts with the name and an equals sign. *)
Definition getenv (name : list Z) (envp : list (list Z)) : option (list Z) :=
  env ← head (filter (λ e, (name ++ [61]) `prefix_of` e) envp); Some (drop (S (List.length name)) env).
(** Some other variable starts with the name. *)
Definition extends (name env : list Z) : Prop := name `prefix_of` env ∧ ¬ (name ++ [61]) `prefix_of` env.

Lemma take_prefix {A} (p l : list A) : take (List.length p) l = p ↔ p `prefix_of` l.
Proof.
  split.
  - intros H. exists (drop (List.length p) l). rewrite <- H at 1. by rewrite take_drop.
  - intros [r ->]. by rewrite take_app_length.
Qed.

Lemma listen_pid_text tid : listen_pid_var tid = PID_ENV ++ [61] ++ dec (u32 tid).
Proof.
  unfold listen_pid_var, snprintf. apply take_ge. rewrite !length_app.
  unfold dec. destruct (digits_spec 20 (u32 tid) [] ltac:(pose proof (u32_range tid); lia) ltac:(lia)) as (d & E & Hl & _).
  rewrite E, app_nil_r. cbn. lia.
Qed.
(** A variable has one name. *)
Lemma one_name n m (env : list Z) : 61 ∉ n → 61 ∉ m → (n ++ [61]) `prefix_of` env → (m ++ [61]) `prefix_of` env → n = m.
Proof.
  revert m env. induction n as [|c n IH]; intros m env Hn Hm [r ->] [r' E].
  - destruct m as [|c m]; [done|]. injection E as <- _. by apply not_elem_of_cons in Hm as [].
  - apply not_elem_of_cons in Hn as [Hc Hn]. destruct m as [|c' m]; [by injection E as ->|]. injection E as <- E.
    apply not_elem_of_cons in Hm as [_ Hm]. f_equal. apply (IH m (n ++ [61] ++ r)); [done|done| |].
    + exists r. by rewrite <- app_assoc.
    + exists r'. by rewrite <- E, <- app_assoc.
Qed.

Lemma getenv_cons name env envp :
  getenv name (env :: envp) =
    if decide ((name ++ [61]) `prefix_of` env) then Some (drop (S (List.length name)) env) else getenv name envp.
Proof. unfold getenv. rewrite filter_cons. by case_decide. Qed.

(** The child sees its own process id in [LISTEN_PID], when the decoy was given the variable,
    and every other variable as the decoy did, unless another variable starts with that
    name. *)
Theorem fix_listen_pid_spec tid envp :
  Forall (λ env, ¬ extends PID_ENV env) envp →
  (getenv PID_ENV (fix_listen_pid tid envp) = _ ← getenv PID_ENV envp; Some (dec (u32 tid))) ∧
  ∀ name, name ≠ PID_ENV → 61 ∉ name → getenv name (fix_listen_pid tid envp) = getenv name envp.
Proof.
  assert (61 ∉ PID_ENV) as H61 by (apply (bool_decide_unpack _); vm_compute; exact I).
  induction 1 as [|env envp Hext _ [IH1 IH2]]; [done|]. cbn [fix_listen_pid].
  assert ((PID_ENV ++ [61]) `prefix_of` listen_pid_var tid) as Hnew.
  { rewrite listen_pid_text, app_assoc. apply prefix_app_r. done. }
  case_bool_decide as Hp; rewrite (take_ge PID_ENV) in Hp by lia.
  - assert ((PID_ENV ++ [61]) `prefix_of` env) as Henv.
    { destruct (decide ((PID_ENV ++ [61]) `prefix_of` env)); [done|]. destruct Hext. split; [|done]. by apply take_prefix. }
    split.
    + rewrite !getenv_cons, !decide_True by done. cbn [mbind option_bind]. f_equal.
      rewrite listen_pid_text, app_assoc, drop_app_length'; [done|]. rewrite length_app. cbn. lia.
    + intros name Hne Hn. rewrite !getenv_cons, !decide_False; [done| |];
        intros H; apply Hne; by apply (one_name name PID_ENV _ Hn H61 H).
  - assert (¬ (PID_ENV ++ [61]) `prefix_of` env) as Henv.
    { intros [r ->]. apply Hp. rewrite <- app_assoc, take_app_length. done. }
    split; [by rewrite !getenv_cons, !decide_False|]. intros name Hne Hn. rewrite !getenv_cons. case_decide; [done|by apply IH2].
Qed.

(** The decoy passes every signal on, in order, until its child dies, whose status it then
    exits with, or asks it to go. *)
Theorem decoy_loop_spec child_pid reads :
  match decoy_loop child_pid reads with
  | (sent, Some code) => ∃ n r, reads !! n = Some r ∧ on_signal child_pid r = inl code ∧
      map (on_signal child_pid) (take n reads) = map inr sent
  | (sent, None) => map (on_signal child_pid) reads = map inr sent
  end.
Proof.
  induction reads as [|r reads IH]; [done|]. cbn. destruct (on_signal child_pid r) as [code|sig] eqn:E.
  - exists 0%nat, r. by rewrite E.
  - destruct (decoy_loop child_pid reads) as [sent [code|]]; cbn; [|by rewrite IH].
    destruct IH as (n & r' & Hn & Hr & Hm). exists (S n), r'. cbn. by rewrite E, Hm.
Qed.

Example decoy_gone : decoy_loop 42 (map Some [mk_siginfo 1 1 0; mk_siginfo 17 7 3; mk_siginfo 23 42 0; mk_siginfo 15 1 0]) = ([1; 17], Some 0).
Proof. reflexivity. Qed.
(** The hypothesis is needed: the comparison is of ten characters only. *)
Example longer_name_lost :
  let envp := map chars ["LISTEN_PIDFDID=5"; "LISTEN_PID=1"]%string in
  getenv (chars "LISTEN_PIDFDID") envp = Some [53] ∧ getenv (chars "LISTEN_PIDFDID") (fix_listen_pid 42 envp) = None.
Proof. vm_compute. done. Qed.
