(* ===== verification/Listing.v ===== *)
(** The commands that read the maps: [src/do_list.c], [src/metrics.c], and the walk over
    the groups they share with [src/do_flows.c].

    A command prints: its result is the text, one entry for each group. [MapKeys] is the
    interface to [bpf_map_get_next_key]. The maps do not change while a command runs. *)

From S2P Require Import Prelude Cookie SipHash Storage Cbpf Dissector Reuseport Flow Hooks Host Daemon Net.

(** [bpf_map_get_next_key] on a map of groups; [None]: it fails. *)
Class MapKeys {K : Kernel} := {
  map_keys : group_map → list reuseport_storage_key;
  bpf_map_get_next_key : group_map → option reuseport_storage_key → option reuseport_storage_key;
}.
(** Documented behaviour: from NULL, or from a key that is not in the map, the first key,
    and from a key the key behind it, in an order that has each key of the map once. *)
Class MapKeysLaws {K : Kernel} {M : MapKeys} := {
  map_keys_spec : ∀ m k, k ∈ map_keys m ↔ is_Some (bpf_map_lookup_elem m k);
  map_keys_once : ∀ m, NoDup (map_keys m);
  next_key_first : ∀ m, bpf_map_get_next_key m None = head (map_keys m);
  next_key_absent : ∀ m k, k ∉ map_keys m → bpf_map_get_next_key m (Some k) = head (map_keys m);
  next_key_behind : ∀ m l1 k l2, map_keys m = l1 ++ k :: l2 → bpf_map_get_next_key m (Some k) = head l2;
}.

(** ** The walk over the groups *)
Section Walk.
Context {K : Kernel} {M : MapKeys}.

(** [while (!err)] from [key]: the groups found, in order. [None]: out of fuel. *)
Fixpoint walk (fuel : nat) (m : group_map) (key : reuseport_storage_key)
  : option (list (reuseport_storage_key * reuseport_storage)) :=
  match fuel with
  | O => None
  | S fuel =>
      let found := match bpf_map_lookup_elem m key with Some s => [(key, s)] | None => [] end in
      match bpf_map_get_next_key m (Some key) with
      | None => Some found
      | Some key => app found <$> walk fuel m key
      end
  end.

Definition AF_UNSPEC : Z := 0.
(** The result of the first [bpf_map_get_next_key] is not looked at. *)
Definition first_key (m : group_map) : reuseport_storage_key :=
  match bpf_map_get_next_key m None with Some key => key | None => zero_skey end.
Definition groups_of (fuel : nat) (m : group_map) (reuseport_ss : sockaddr)
  : option (list (reuseport_storage_key * reuseport_storage)) :=
  if negb (ss_family reuseport_ss =? AF_UNSPEC) then
    let key := skey_from_ss reuseport_ss in
    Some (match bpf_map_lookup_elem m key with Some s => [(key, s)] | None => [] end)
  else walk fuel m (first_key m).
End Walk.

(** ** Text *)
Definition nl : list Z := [10].
Definition tab : list Z := [9].
Definition quote : list Z := [34].

(** [strcat] into [dst_sz] bytes; [strnlen(dst, dst_sz)] bytes of [dst] are text. *)
Definition safe_strcat (dst src : list Z) (dst_sz : nat) : list Z :=
  let l := length (take dst_sz dst) in
  let '(dst, l) :=
    if (l <? dst_sz)%nat then
      let b := (dst_sz - l)%nat in
      let c := length src in
      let ll := if (c <? b)%nat then c else b in
      (take l dst ++ take ll src, (l + ll)%nat)
    else (take l dst, l) in
  let l := if (l =? dst_sz)%nat then (dst_sz - 1)%nat else l in
  take l dst.

(** [%2d] *)
Definition dec2 (n : Z) : list Z := let d := dec n in if (length d <? 2)%nat then 32 :: d else d.

(** The counters in the order of printing. *)
Definition printed_metrics : list (metric * string) :=
  [(socket_critical_gauge, "socket_critical_gauge"); (socket_critical, "socket_critical");
   (rx_processed_total, "rx_processed_total"); (rx_internal_state_error, "rx_internal_state_error");
   (rx_cbpf_prog_error, "rx_cbpf_prog_error"); (rx_packet_too_short_error, "rx_packet_too_short_error");
   (rx_dissected_ok_total, "rx_dissected_ok_total"); (rx_flow_ok, "rx_flow_ok");
   (rx_flow_rg_conflict, "rx_flow_rg_conflict"); (rx_flow_other_error, "rx_flow_other_error");
   (rx_flow_new_unseen, "rx_flow_new_unseen"); (rx_flow_new_had_expired, "rx_flow_new_had_expired");
   (rx_flow_new_bad_cookie, "rx_flow_new_bad_cookie"); (rx_new_flow_total, "rx_new_flow_total");
   (rx_new_flow_working_gen_dispatch_ok, "rx_new_flow_working_gen_dispatch_ok");
   (rx_new_flow_working_gen_dispatch_error, "rx_new_flow_working_gen_dispatch_error");
   (tx_total, "tx_total"); (tx_flow_create_ok, "tx_flow_create_ok");
   (tx_flow_create_from_expired_ok, "tx_flow_create_from_expired_ok");
   (tx_flow_create_error, "tx_flow_create_error"); (tx_flow_update_ok, "tx_flow_update_ok");
   (tx_flow_update_conflict, "tx_flow_update_conflict")]%string.

(** ** [udpgrm list] *)
Section List.
Context {K : Kernel} {M : MapKeys} {H : Host} {I : Inet}.

(** The application whose working generation is slot [gen], or -1. *)
Fixpoint gen_pointed_from (n : nat) (app_idx gen : Z) (s : reuseport_storage) : outcome Z :=
  match n with
  | O => Done (-1)
  | S n =>
      match TO_WRK_GEN (dis_max_apps (dis s)) app_idx (nthZ (working_gen s) app_idx) with
      | None => Stop Div_by_zero
      | Some slot => if gen =? slot then Done app_idx else gen_pointed_from n (app_idx + 1) gen s
      end
  end.
Definition gen_pointed_by_wrk_gen (gen : Z) (s : reuseport_storage) : outcome Z :=
  gen_pointed_from (Z.to_nat MAX_APPS) 0 gen s.

(** [dissector %s] and what follows it on the line. *)
Definition dissector_text (s : reuseport_storage) : list Z :=
  let t := DISSECTOR_TYPE (dis_type (dis s)) in
  let a :=
    if t =? DISSECTOR_FLOW then chars "flow"
    else if t =? DISSECTOR_CBPF then chars "cbpf"
    else if t =? DISSECTOR_BESPOKE then chars "bespoke"
    else if t =? DISSECTOR_NOOP then chars "noop"
    else signed (s32 t) in
  let more :=
    if t =? DISSECTOR_FLOW then chars "  flow_timeout_sec " ++ dec (dis_flow_entry_timeout_sec (dis s))
    else if t =? DISSECTOR_CBPF then
      chars "  apps " ++ signed (s32 (dis_max_apps (dis s))) ++ chars "  filter_len " ++ signed (s32 (dis_filter_len (dis s)))
    else if t =? DISSECTOR_BESPOKE then chars "  digest 0x" ++ hex (dis_bespoke_digest (dis s))
    else [] in
  snprintf 32 a ++ more.

Definition LINE_SZ : nat := 4096.
(** The sockets of one generation from slot [j] on; [row] is [s->cookies[i]]. *)
Fixpoint gen_line (n : nat) (j : Z) (row : list Z) (this_app verbose : Z) (w : world) (line : list Z) : list Z :=
  match n with
  | O => line
  | S n =>
      let c := nthZ row j in
      if c =? 0 then line
      else
        let line := if negb (verbose =? 0) then safe_strcat line (snprintf 32 (dec j ++ [c_colon])) LINE_SZ else line in
        if slot_live w c then
          gen_line n (j + 1) row this_app verbose w (safe_strcat line (snprintf 32 (chars "0x" ++ hex c ++ chars " ")) LINE_SZ)
        else if (this_app =? -1) && (verbose =? 0) then gen_line n (j + 1) row this_app verbose w line
        else gen_line n (j + 1) row this_app verbose w (safe_strcat line (snprintf 32 (chars "dead ")) LINE_SZ)
  end.

(** [" app %d  gen %d"] of every application whose working generation is slot [i]. *)
Fixpoint apps_text (n : nat) (a i : Z) (s : reuseport_storage) : outcome (list Z) :=
  match n with
  | O => Done []
  | S n =>
      match TO_WRK_GEN (dis_max_apps (dis s)) a (nthZ (working_gen s) a) with
      | None => Stop Div_by_zero
      | Some slot =>
          let here :=
            if i =? slot
            then chars " app " ++ dec a ++ chars "  gen " ++ signed (s32 (nthZ (working_gen s) a)) else [] in
          do rest <- apps_text n (a + 1) i s;
          Done (here ++ rest)
      end
  end.

(** The generations from [i] on. *)
Fixpoint gens_text (n : nat) (i : Z) (s : reuseport_storage) (verbose : Z) (w : world) : outcome (list Z) :=
  match n with
  | O => Done []
  | S n =>
      do this_app <- gen_pointed_by_wrk_gen i s;
      let line := gen_line (Z.to_nat (nthZ (max_idx s) i)) 0 (nth (Z.to_nat i) (cookies s) []) this_app verbose w [] in
      do here <-
        (if (0 <? Z.of_nat (length line)) || negb (this_app =? -1) then
           do apps <- (if negb (this_app =? -1) then
               do t <- apps_text (Z.to_nat MAX_APPS) 0 i s; Done (chars " <= " ++ t) else Done []);
           Done (tab ++ tab ++ chars "gen " ++ dec2 i ++ chars "  " ++ line ++ apps ++ nl)
         else Done []);
      do rest <- gens_text n (i + 1) s verbose w;
      Done (here ++ rest)
  end.

Definition metrics_text (s : reuseport_storage) (verbose : Z) : list Z :=
  let shown := filter (λ p, bool_decide (0 < metrics s (fst p)) || negb (verbose =? 0)) printed_metrics in
  (if decide (shown = []) then [] else tab ++ chars "metrics:" ++ nl) ++
  concat (map (λ p, tab ++ tab ++ chars (snd p) ++ chars " " ++ dec (metrics s (fst p)) ++ nl) shown).

(** [sockhash]: whether the sockhash of the map's program was found. *)
Definition _do_list (key : reuseport_storage_key) (s : reuseport_storage) (verbose_arg : Z) (sockhash : bool)
  (msg_note : list Z) (w : world) : outcome (list Z) :=
  do gens <- (if sockhash then
      do t <- gens_text (Z.to_nat MAX_GENS) 0 s verbose_arg w;
      Done (tab ++ chars "socket generations:" ++ nl ++ t) else Done []);
  Done (key_to_str key ++ (if decide (msg_note = []) then [] else chars " " ++ msg_note) ++ nl ++ tab ++
    chars "netns 0x" ++ hex (netns_cookie s) ++ chars "  dissector " ++ dissector_text s ++
    (let label := c_string (dis_label (dis s)) in if decide (label = []) then [] else chars "  label " ++ label) ++
    (if verbose s =? 0 then [] else chars "  verbose") ++ nl ++ gens ++ metrics_text s verbose_arg).

(** One text for each group; [None]: out of fuel. *)
Fixpoint texts {A} (f : A → outcome (list Z)) (l : list A) : outcome (list (list Z)) :=
  match l with
  | [] => Done []
  | x :: l => do t <- f x; do ts <- texts f l; Done (t :: ts)
  end.
(** [old]: the maps of earlier daemons that [map_by_name] finds. *)
Fixpoint list_old (fuel : nat) (old : list group_map) (reuseport_ss : sockaddr) (verbose : Z) (w : world)
  : option (outcome (list (list Z))) :=
  match old with
  | [] => Some (Done [])
  | m :: old =>
      gs ← groups_of fuel m reuseport_ss;
      rest ← list_old fuel old reuseport_ss verbose w;
      Some (do ts <- texts (λ p, _do_list (fst p) (snd p) verbose false (chars "(old)") w) gs;
            do ts' <- rest; Done (ts ++ ts'))
  end.
Definition do_list (fuel : nat) (sockhash : bool) (old : list group_map) (reuseport_ss : sockaddr) (verbose : Z) (w : world)
  : option (outcome (list (list Z))) :=
  gs ← groups_of fuel (w_groups w) reuseport_ss;
  rest ← list_old fuel old reuseport_ss verbose w;
  Some (do ts <- texts (λ p, _do_list (fst p) (snd p) verbose sockhash [] w) gs;
        do ts' <- rest; Done (ts ++ ts')).

(** ** [udpgrm metrics] *)

(** [working_gen{socket=..,app_idx=..}] of the applications from [app_idx] on; [None]: a
    read outside [s->working_gen]. *)
Fixpoint working_gens_text (n : nat) (app_idx : Z) (t : list Z) (s : reuseport_storage) : option (list Z) :=
  match n with
  | O => Some []
  | S n =>
      g ← working_gen s !! Z.to_nat app_idx;
      rest ← working_gens_text n (app_idx + 1) t s;
      Some (chars "working_gen{socket=" ++ quote ++ t ++ quote ++ chars ",app_idx=" ++ quote ++ signed (s32 app_idx) ++ quote ++
        chars "} " ++ signed (s32 g) ++ nl ++ rest)
  end.
Definition do_socket_metrics (key : reuseport_storage_key) (s : reuseport_storage) : option (list Z) :=
  let t := key_to_str key in
  let max_apps := dis_max_apps (dis s) in
  let max_apps := if max_apps =? 0 then 1 else max_apps in
  gens ← working_gens_text (Z.to_nat max_apps) 0 t s;
  let shown := filter (λ p, bool_decide (0 < metrics s (fst p))) printed_metrics in
  Some (gens ++ concat (map (λ p,
    chars (snd p) ++ chars "{socket=" ++ quote ++ t ++ quote ++ chars "} " ++ dec (metrics s (fst p)) ++ nl) shown)).
Definition do_metrics (fuel : nat) (version : list Z) (w : world) : option (option (list Z)) :=
  gs ← walk fuel (w_groups w) (first_key (w_groups w));
  Some (ts ← mapM (λ p, do_socket_metrics (fst p) (snd p)) gs;
        Some (chars "build_info{version=" ++ quote ++ version ++ quote ++ chars "} 1" ++ nl ++ concat ts)).
End List.

(** ** The walk *)
Section WalkFacts.
Context {K : Kernel} {L : KernelLaws} {M : MapKeys} {ML : MapKeysLaws}.

(** The groups of some keys. *)
Definition found_groups (m : group_map) (ks : list reuseport_storage_key) : list (reuseport_storage_key * reuseport_storage) :=
  concat (map (λ k, match bpf_map_lookup_elem m k with Some s => [(k, s)] | None => [] end) ks).

Lemma walk_from fuel m l1 k l2 :
  map_keys m = l1 ++ k :: l2 → (length l2 < fuel)%nat → walk fuel m k = Some (found_groups m (k :: l2)).
Proof.
  revert fuel l1 k. induction l2 as [|k' l2 IH]; intros [|fuel] l1 k E Hf; try (cbn in Hf; lia);
    cbn [walk]; rewrite (next_key_behind _ _ _ _ E); cbn [head].
  - unfold found_groups. cbn [map concat]. by rewrite app_nil_r.
  - rewrite (IH fuel (l1 ++ [k]) k'); [done| |cbn in Hf; lia]. by rewrite <- app_assoc.
Qed.

Lemma walk_all fuel m : (length (map_keys m) < fuel)%nat → walk fuel m (first_key m) = Some (found_groups m (map_keys m)).
Proof.
  intros Hf. unfold first_key. rewrite next_key_first. destruct (map_keys m) as [|k l] eqn:E; cbn [head].
  - destruct fuel as [|fuel]; [lia|]. cbn [walk].
    assert (zero_skey ∉ map_keys m) as Hn by (rewrite E; set_solver).
    rewrite (next_key_absent _ _ Hn), E. cbn [head].
    destruct (bpf_map_lookup_elem m zero_skey) eqn:El; [|done].
    exfalso. apply Hn, map_keys_spec. by eexists.
  - apply (walk_from fuel m [] k l E). cbn in Hf. lia.
Qed.

Lemma elem_of_found m ks k s :
  (k, s) ∈ found_groups m ks ↔ k ∈ ks ∧ bpf_map_lookup_elem m k = Some s.
Proof.
  induction ks as [|k' ks IH].
  - split; [by intros ?%elem_of_nil|by intros [?%elem_of_nil _]].
  - unfold found_groups in *. cbn [map concat]. rewrite elem_of_app, IH, elem_of_cons.
    destruct (bpf_map_lookup_elem m k') as [s'|] eqn:E.
    + rewrite list_elem_of_singleton. split; [intros [[= -> ->]|[? ?]]; auto|].
      intros [[->|Hk] Hs]; [left; congruence|by right].
    + split; [intros [?%elem_of_nil|[? ?]]; [done|auto]|]. intros [[->|Hk] Hs]; [congruence|by right].
Qed.
Lemma found_once m ks : NoDup ks → NoDup (found_groups m ks).*1.
Proof.
  induction 1 as [|k ks Hk _ IH]; [constructor|]. unfold found_groups in *. cbn [map concat].
  destruct (bpf_map_lookup_elem m k) as [s|]; [|done]. cbn. constructor; [|done].
  intros ([k' s'] & Ek & Hin)%list_elem_of_fmap. cbn in Ek. subst k'. by apply elem_of_found in Hin as [? _].
Qed.
End WalkFacts.

(** ** The text of a group *)
Section Text.
Context {K : Kernel} {H : Host} {I : Inet}.

Lemma TO_WRK_GEN_some m a g : 0 <= m <= MAX_GENS → ∃ slot, TO_WRK_GEN m a g = Some slot.
Proof.
  unfold TO_WRK_GEN, MAX_GENS. intros Hm. assert (1 <= 32 / (if m =? 0 then 1 else m)).
  { destruct (Z.eqb_spec m 0); [done|]. apply Z.div_le_lower_bound; lia. }
  destruct (Z.eqb_spec (32 / (if m =? 0 then 1 else m)) 0); [lia|]. by eexists.
Qed.

Lemma gen_pointed_done n a gen s : 0 <= dis_max_apps (dis s) <= MAX_GENS → ∃ r, gen_pointed_from n a gen s = Done r.
Proof.
  intros Hm. revert a. induction n as [|n IH]; intros a; [by eexists|]. cbn [gen_pointed_from].
  destruct (TO_WRK_GEN_some (dis_max_apps (dis s)) a (nthZ (working_gen s) a) Hm) as [slot ->].
  destruct (gen =? slot); [by eexists|apply IH].
Qed.
Lemma apps_text_done n a i s : 0 <= dis_max_apps (dis s) <= MAX_GENS → ∃ t, apps_text n a i s = Done t.
Proof.
  intros Hm. revert a. induction n as [|n IH]; intros a; [by eexists|]. cbn [apps_text].
  destruct (TO_WRK_GEN_some (dis_max_apps (dis s)) a (nthZ (working_gen s) a) Hm) as [slot ->].
  destruct (IH (a + 1)) as [t ->]. by eexists.
Qed.
Lemma gens_text_done n i s v w : 0 <= dis_max_apps (dis s) <= MAX_GENS → ∃ t, gens_text n i s v w = Done t.
Proof.
  intros Hm. revert i. induction n as [|n IH]; intros i; [by eexists|]. cbn [gens_text].
  unfold gen_pointed_by_wrk_gen. destruct (gen_pointed_done (Z.to_nat MAX_APPS) 0 i s Hm) as [app ->].
  cbn [obind]. destruct (IH (i + 1)) as [rest ->]. destruct (_ || _); cbn [obind]; [|by eexists].
  destruct (negb (app =? -1)); cbn [obind]; [|by eexists].
  destruct (apps_text_done (Z.to_nat MAX_APPS) 0 i s Hm) as [t ->]. by eexists.
Qed.

(** A group with more applications than generations, whose generations are printed. *)
Definition kills (sockhash : bool) (s : reuseport_storage) : bool :=
  sockhash && (MAX_GENS <? dis_max_apps (dis s)).
Lemma TO_WRK_GEN_none m a g : MAX_GENS < m → TO_WRK_GEN m a g = None.
Proof.
  unfold TO_WRK_GEN, MAX_GENS. intros Hm. destruct (Z.eqb_spec m 0); [lia|]. by rewrite Z.div_small by lia.
Qed.

(** The text starts with the name, or the text of the generations divides by zero. *)
Lemma _do_list_outcome key s v b note w :
  0 <= dis_max_apps (dis s) →
  if kills b s then _do_list key s v b note w = Stop Div_by_zero
  else ∃ rest, _do_list key s v b note w = Done (key_to_str key ++ rest).
Proof.
  intros Hm. unfold _do_list, kills. destruct b; cbn [obind andb]; [|by eexists].
  destruct (Z.ltb_spec MAX_GENS (dis_max_apps (dis s))) as [Hx|Hx].
  - change (Z.to_nat MAX_GENS) with (S 31). cbn [gens_text]. unfold gen_pointed_by_wrk_gen.
    change (Z.to_nat MAX_APPS) with (S 3). cbn [gen_pointed_from]. by rewrite TO_WRK_GEN_none.
  - destruct (gens_text_done (Z.to_nat MAX_GENS) 0 s v w) as [t ->]; [lia|]. by eexists.
Qed.

Definition titled (p : reuseport_storage_key * reuseport_storage) (t : list Z) : Prop :=
  ∃ rest, t = key_to_str (fst p) ++ rest.
Lemma texts_outcome v b note w gs :
  Forall (λ p : reuseport_storage_key * reuseport_storage, 0 <= dis_max_apps (dis (snd p))) gs →
  if existsb (λ p, kills b (snd p)) gs
  then texts (λ p, _do_list (fst p) (snd p) v b note w) gs = Stop Div_by_zero
  else ∃ ts, texts (λ p, _do_list (fst p) (snd p) v b note w) gs = Done ts ∧ Forall2 titled gs ts.
Proof.
  induction 1 as [|p gs Hp _ IH]; [by exists []|]. cbn [existsb texts].
  pose proof (_do_list_outcome (fst p) (snd p) v b note w Hp) as Hr.
  destruct (kills b (snd p)); cbn [orb]; [by rewrite Hr|]. destruct Hr as [rest ->]. cbn [obind].
  destruct (existsb _ gs); [by rewrite IH|]. destruct IH as (ts & -> & Ht). cbn [obind].
  exists ((key_to_str (fst p) ++ rest) :: ts). split; [done|]. constructor; [by exists rest|done].
Qed.

(** ** Bounds of the line *)

(** [safe_strcat] is concatenation cut to the buffer. *)
Lemma safe_strcat_spec dst src sz : (0 < sz)%nat → safe_strcat dst src sz = take (sz - 1) (dst ++ src).
Proof.
  intros Hs. unfold safe_strcat. rewrite length_take.
  destruct (Nat.ltb_spec (sz `min` length dst) sz).
  - replace (sz `min` length dst)%nat with (length dst) by lia. rewrite firstn_all.
    destruct (Nat.ltb_spec (length src) (sz - length dst)).
    + rewrite (take_ge src) by lia. destruct (Nat.eqb_spec (length dst + length src) sz); [lia|].
      rewrite !take_ge by (rewrite length_app; lia). done.
    + replace (length dst + (sz - length dst))%nat with sz by lia. rewrite Nat.eqb_refl.
      rewrite !take_app, take_take. f_equal. f_equal. lia.
  - replace (sz `min` length dst)%nat with sz by lia. rewrite Nat.eqb_refl, take_take.
    rewrite take_app_le by lia. f_equal. lia.
Qed.
Lemma gen_line_bound n j row a v w line : (length line < LINE_SZ)%nat → (length (gen_line n j row a v w line) < LINE_SZ)%nat.
Proof.
  assert (∀ l s, (length (safe_strcat l s LINE_SZ) < LINE_SZ)%nat) as Hb.
  { intros l s. rewrite safe_strcat_spec by (unfold LINE_SZ; lia). rewrite length_take. unfold LINE_SZ. lia. }
  revert j line. induction n as [|n IH]; intros j line Hl; [done|]. cbn [gen_line].
  destruct (nthZ row j =? 0); [done|]. destruct (v =? 0), (slot_live w (nthZ row j)), (a =? -1); cbn [negb andb]; apply IH; auto.
Qed.
End Text.


(** ** Evaluation *)
Section Witnesses.
Context {Key V : Type} `{Countable Key}.
Definition keys_of (m : gmap Key V) : list Key := (map_to_list m).*1.
Fixpoint behind (k : Key) (l : list Key) : option Key :=
  match l with [] => None | x :: l => if decide (x = k) then head l else behind k l end.
Definition next_of (m : gmap Key V) (k : option Key) : option Key :=
  match k with
  | None => head (keys_of m)
  | Some k => if decide (k ∈ keys_of m) then behind k (keys_of m) else head (keys_of m)
  end.
Lemma behind_split k l1 l2 : k ∉ l1 → behind k (l1 ++ k :: l2) = head l2.
Proof.
  intros Hk. induction l1 as [|x l1 IH]; cbn [app behind]; [by rewrite decide_True|].
  rewrite decide_False by set_solver. apply IH. set_solver.
Qed.
Lemma keys_of_spec (m : gmap Key V) k : k ∈ keys_of m ↔ is_Some (m !! k).
Proof.
  unfold keys_of. split.
  - intros ([k' x] & -> & Hin)%list_elem_of_fmap. apply elem_of_map_to_list in Hin. by eexists.
  - intros [x Hx]. apply list_elem_of_fmap. exists (k, x). split; [done|]. by apply elem_of_map_to_list.
Qed.
Lemma next_of_behind (m : gmap Key V) l1 k l2 : keys_of m = l1 ++ k :: l2 → next_of m (Some k) = head l2.
Proof.
  intros E. unfold next_of. rewrite decide_True by (rewrite E; set_solver). rewrite E.
  apply behind_split. pose proof (NoDup_fst_map_to_list m) as Hn. fold (keys_of m) in Hn. rewrite E in Hn.
  apply NoDup_app in Hn as (_ & Hn & _). intros Hk. apply (Hn k Hk). left.
Qed.
End Witnesses.

#[export] Instance test_keys clock reserve select : @MapKeys (test_kernel clock reserve select) :=
  @Build_MapKeys (test_kernel clock reserve select)
    (λ m : gmap reuseport_storage_key reuseport_storage, keys_of m)
    (λ (m : gmap reuseport_storage_key reuseport_storage) k, next_of m k).
#[export] Instance test_keys_laws clock reserve select : @MapKeysLaws _ (test_keys clock reserve select).
Proof.
  split.
  - intros m k. apply keys_of_spec.
  - intros m. apply NoDup_fst_map_to_list.
  - done.
  - intros m k Hk. cbn. unfold next_of. by rewrite decide_False.
  - intros m l1 k l2 E. by apply (next_of_behind m l1).
Qed.

Definition name4 : reuseport_storage_key := mk_skey AF_INET 0 443 (0x0100007f, 0, 0, 0).
Definition name6 : reuseport_storage_key := mk_skey AF_INET6 0 4433 (0, 0, 0, 0x01000000).
Definition list_groups : gmap reuseport_storage_key reuseport_storage := {[ name4 := empty_state; name6 := flow_group ]}.
Definition list_world (K := good_kernel) : world := set_groups list_groups empty_world.
Example name4_text : key_to_str (I := test_inet) name4 = chars "127.0.0.1:443".
Proof. reflexivity. Qed.
Example name6_text : key_to_str (I := test_inet) name6 = chars "[0000:0000:0000:0000:0000:0000:0000:0001]:4433".
Proof. reflexivity. Qed.

Lemma list_groups_ok k s : list_groups !! k = Some s → name_ok k ∧ src_port k ≠ 0 ∧ 0 <= dis_max_apps (dis s).
Proof.
  unfold list_groups. rewrite lookup_insert_Some, lookup_singleton_Some.
  intros [[<- <-]|[_ [<- <-]]]; (split; [|split; [done|vm_compute; discriminate]]); split; cbn; auto; try lia.
  do 4 (split; [lia|]). discriminate.
Qed.
Lemma list_groups_live k s : list_groups !! k = Some s → kills true s = false.
Proof. unfold list_groups. rewrite lookup_insert_Some, lookup_singleton_Some. by intros [[<- <-]|[_ [<- <-]]]. Qed.

