(* ===== verification/Flows.v ===== *)
(** The flows command: [src/do_flows.c].

    The command reads the flow table into a hash table of items on the heap, 256
    single-headed lists of [list.h] indexed by socket cookie, and prints for every group
    the flows of its live sockets. Ages are computed in [double]. The theorem gives what
    it prints as a filter on the entries of the flow table. *)

From S2P Require Import Prelude Cookie SipHash Storage Cbpf Dissector Reuseport Flow Hooks Host Daemon Net Listing LinkedList HashList.
From Stdlib Require Import SpecFloat.
#[local] Set Warnings "-clear-no-such-hyp".

(** [bpf_map_get_next_key] on the flow table, as [MapKeys] has it for the groups. *)
Class FlowKeys {K : Kernel} := {
  flow_keys : flow_map → list Z;
  flow_next_key : flow_map → option Z → option Z;
}.
Class FlowKeysLaws {K : Kernel} {M : FlowKeys} := {
  flow_keys_spec : ∀ m k, k ∈ flow_keys m ↔ is_Some (bpf_map_lookup_elem m k);
  flow_keys_once : ∀ m, NoDup (flow_keys m);
  flow_next_first : ∀ m, flow_next_key m None = head (flow_keys m);
  flow_next_behind : ∀ m l1 k l2, flow_keys m = l1 ++ k :: l2 → flow_next_key m (Some k) = head l2;
}.

(** ** [double]

    The conversions and the division are those of IEEE 754 binary64, rounding to nearest. *)
Definition double_of (n : Z) : spec_float := binary_normalize 53 1024 n 0 false.
Definition double_div (x y : spec_float) : spec_float := SFdiv 53 1024 x y.
Definition double_gt (x y : spec_float) : bool := SFltb y x.

(** [%.1f] of a number that is not negative: its tenths, rounded half to even. *)
Definition div_half_even (n d : Z) : Z :=
  let q := n / d in
  let r := n mod d in
  if 2 * r <? d then q else if d <? 2 * r then q + 1 else if Z.even q then q else q + 1.
Definition tenths (x : spec_float) : Z :=
  match x with
  | S754_finite _ m e => if 0 <=? e then 10 * Zpos m * 2 ^ e else div_half_even (10 * Zpos m) (2 ^ (- e))
  | _ => 0
  end.
Definition f1 (x : spec_float) : list Z := dec (tenths x / 10) ++ [46] ++ dec (tenths x mod 10).
(** [%08x] *)
Definition hex8 (n : Z) : list Z := let h := hex n in repeat 48 (8 - length h) ++ h.

(** ** The hash table *)

(** [struct item]; the node is its first member. *)
Record item := mk_item { it_hash : Z; it_value : lru_value }.
Definition item_node : ptr := 0.
Definition FLOWS_MAX : Z := 256.

Record table := mk_table { tb_heap : hheap; tb_items : gmap ptr item }.

(** [&flows[i]] of the array at [flows]. *)
Definition bucket (flows i : ptr) : ptr := flows + 8 * i.
Definition empty_table (flows : ptr) : table :=
  mk_table (mk_hheap (list_to_map (map (λ i, (bucket flows (Z.of_nat i), NULL)) (seq 0 (Z.to_nat FLOWS_MAX)))) ∅ ∅) ∅.
Definition alloc_item (p : ptr) (t : table) : table :=
  mk_table (hheap_alloc (p + item_node) (tb_heap t)) (<[p := mk_item 0 (mk_lru 0 0)]> (tb_items t)).

Section Flows.
Context {K : Kernel} {M : MapKeys} {FK : FlowKeys} {H : Host} {I : Inet}.
(** The array on the stack, and the allocator. *)
Context (flows : ptr) (calloc : table → option ptr).

(** The loop over the flow table from [key] on; [None]: out of fuel, or a null pointer is used. *)
Fixpoint read_flows (fuel : nat) (m : flow_map) (key : option Z) (t : table) : option table :=
  match fuel with
  | O => None
  | S fuel =>
      match key with
      | None => Some t
      | Some key =>
          t ← (match bpf_map_lookup_elem m key with
               | Some value =>
                   p ← calloc t;
                   let t := alloc_item p t in
                   let t := mk_table (tb_heap t) (<[p := mk_item key value]> (tb_items t)) in
                   h ← hlist_add_head (p + item_node) (bucket flows (lru_cookie value mod FLOWS_MAX)) (tb_heap t);
                   Some (mk_table h (tb_items t))
               | None => Some t
               end);
          read_flows fuel m (flow_next_key m (Some key)) t
      end
  end.

(** What is printed of a flow; [stale] of an age. *)
Definition age_s (now : Z) (e : lru_value) : spec_float :=
  double_div (double_of (u64 (now - last_tx_ns e))) (double_of 1000000000).
Definition is_stale (timeout now : Z) (e : lru_value) : bool := double_gt (age_s now e) (double_of timeout).
Definition cookie_text (c : Z) : list Z := tab ++ chars "so_cookie 0x" ++ hex c ++ nl.
Definition flow_text (timeout now hash : Z) (e : lru_value) : list Z :=
  tab ++ tab ++ hex8 hash ++ chars "  age " ++ f1 (age_s now e) ++ chars "s "
  ++ (if is_stale timeout now e then chars "(stale)" else []) ++ nl.

(** The body of the inner loop, on [first] and the text. *)
Definition item_body (items : gmap ptr item) (timeout now verbose c : Z) : hloop_body (bool * list Z) unit :=
  λ pos m a,
  let '(first, text) := a in
  it ← items !! hlist_entry pos item_node;
  if lru_cookie (it_value it) =? c then
    if negb (is_stale timeout now (it_value it)) || (0 <? verbose) then
      let text := text ++ (if negb first then cookie_text c else []) in
      Some (inl (m, (true, text ++ flow_text timeout now (it_hash it) (it_value it))))
    else Some (inl (m, a))
  else Some (inl (m, a)).

(** The slots of a generation from [j] on. *)
Fixpoint slots_text (fuel n : nat) (j : Z) (row : list Z) (timeout now verbose : Z) (w : world) (t : table)
  : option (list Z) :=
  match n with
  | O => Some []
  | S n =>
      c ← row !! Z.to_nat j;
      if c =? 0 then Some []
      else
        here ←
          (if slot_live w c then
             r ← hlist_for_each (bucket flows (c mod FLOWS_MAX)) (item_body (tb_items t) timeout now verbose c)
                   fuel (tb_heap t) (false, []);
             Some (match r with inl (_, (_, text)) => text | inr _ => [] end)
           else Some []);
        rest ← slots_text fuel n (j + 1) row timeout now verbose w t;
        Some (here ++ rest)
  end.
Fixpoint generations_text (fuel n : nat) (gen : nat) (s : reuseport_storage) (timeout now verbose : Z) (w : world)
  (t : table) : option (list Z) :=
  match n with
  | O => Some []
  | S n =>
      row ← cookies s !! gen;
      len ← max_idx s !! gen;
      here ← slots_text fuel (Z.to_nat len) 0 row timeout now verbose w t;
      rest ← generations_text fuel n (S gen) s timeout now verbose w t;
      Some (here ++ rest)
  end.
Definition flow_entry_timeout (s : reuseport_storage) : Z :=
  let t := dis_flow_entry_timeout_sec (dis s) in if t =? 0 then FLOW_DEFAULT_TIMEOUT_SEC else t.
Definition _do_flows (fuel : nat) (sockhash : bool) (key : reuseport_storage_key) (s : reuseport_storage)
  (verbose : Z) (w : world) (t : table) : option (outcome (list Z)) :=
  if sockhash then
    text ← generations_text fuel (Z.to_nat MAX_GENS) 0 s (flow_entry_timeout s) (realtime_now (w_tick w)) verbose w t;
    Some (Done (key_to_str key ++ nl ++ text))
  else Some (Stop Exit_error).

Fixpoint flows_texts (fuel : nat) (sockhash : bool) (gs : list (reuseport_storage_key * reuseport_storage))
  (verbose : Z) (w : world) (t : table) : option (outcome (list (list Z))) :=
  match gs with
  | [] => Some (Done [])
  | g :: gs =>
      x ← _do_flows fuel sockhash (fst g) (snd g) verbose w t;
      xs ← flows_texts fuel sockhash gs verbose w t;
      Some (do x <- x; do xs <- xs; Done (x :: xs))
  end.
(** [lru_map], [sockhash]: whether the maps of the program were found. *)
Definition do_flows (fuel : nat) (lru_map sockhash : bool) (reuseport_ss : sockaddr) (verbose : Z) (w : world)
  : option (outcome (list (list Z))) :=
  if lru_map then
    t ← read_flows fuel (w_flows w) (flow_next_key (w_flows w) None) (empty_table flows);
    gs ← groups_of fuel (w_groups w) reuseport_ss;
    flows_texts fuel sockhash gs verbose w t
  else Some (Stop Exit_error).
End Flows.

(** ** What the command promises

    The entries of the flow table in the order of its keys; those of a cookie that are
    printed, the last read first; the cookies of a generation up to the first empty slot
    whose sockets are live. *)
Section Reference.
Context {K : Kernel} {FK : FlowKeys} {H : Host} {I : Inet}.

Definition flow_entries (m : flow_map) (ks : list Z) : list item :=
  omap (λ k, mk_item k <$> bpf_map_lookup_elem m k) ks.
Definition printed (timeout now verbose c : Z) (it : item) : bool :=
  (lru_cookie (it_value it) =? c) && (negb (is_stale timeout now (it_value it)) || (0 <? verbose)).
Definition printed_flows (m : flow_map) (timeout now verbose c : Z) : list item :=
  List.filter (printed timeout now verbose c) (rev (flow_entries m (flow_keys m))).
Definition item_text (timeout now : Z) (it : item) : list Z := flow_text timeout now (it_hash it) (it_value it).
Definition socket_text (m : flow_map) (timeout now verbose c : Z) : list Z :=
  match printed_flows m timeout now verbose c with
  | [] => []
  | its => cookie_text c ++ concat (map (item_text timeout now) its)
  end.

Fixpoint until_empty (row : list Z) : list Z :=
  match row with [] => [] | c :: row => if c =? 0 then [] else c :: until_empty row end.
Definition live_cookies (w : world) (s : reuseport_storage) (gen : nat) : list Z :=
  List.filter (slot_live w) (until_empty (take (Z.to_nat (nth gen (max_idx s) 0)) (nth gen (cookies s) []))).
Definition group_text (w : world) (verbose : Z) (p : reuseport_storage_key * reuseport_storage) : list Z :=
  let '(key, s) := p in
  key_to_str key ++ nl ++
  concat (map (socket_text (w_flows w) (flow_entry_timeout s) (realtime_now (w_tick w)) verbose)
    (concat (map (live_cookies w s) (seq 0 (Z.to_nat MAX_GENS))))).
End Reference.

(** ** The inner loop *)
Section Loop.
Context {K : Kernel} {H : Host} {I : Inet}.

Lemma item_body_at items timeout now verbose c p it m first text : items !! p = Some it →
  item_body items timeout now verbose c p m (first, text)
  = Some (inl (m, if printed timeout now verbose c it
                  then (true, text ++ (if first then [] else cookie_text c) ++ item_text timeout now it)
                  else (first, text))).
Proof.
  intros Hp. unfold item_body, hlist_entry, container_of, item_node. rewrite Z.sub_0_r, Hp. cbn [mbind option_bind].
  unfold printed. destruct (lru_cookie (it_value it) =? c); cbn [andb]; [|done].
  destruct (_ || (0 <? verbose)); [|done]. rewrite <- app_assoc. by destruct first.
Qed.
Lemma hvisit_items items timeout now verbose c l its m first text :
  Forall2 (λ p it, items !! p = Some it) l its →
  let l' := List.filter (printed timeout now verbose c) its in
  hvisit (item_body items timeout now verbose c) l m (first, text)
  = Some (inl (m, (first || match l' with [] => false | _ => true end,
      text ++ (if first then [] else match l' with [] => [] | _ => cookie_text c end)
           ++ concat (map (item_text timeout now) l')))).
Proof.
  intros Hl. revert first text. induction Hl as [|p it l its Hp Hl IH]; intros first text; cbv zeta.
  - cbn. rewrite orb_false_r. destruct first; by rewrite !app_nil_r.
  - cbn [hvisit]. rewrite (item_body_at _ _ _ _ _ _ it) by done. cbn [mbind option_bind List.filter].
    destruct (printed timeout now verbose c it); rewrite IH; cbv zeta; [|done].
    cbn [map concat app]. rewrite <- !app_assoc. by destruct first.
Qed.
Lemma hvisit_items_text items timeout now verbose c l its m :
  Forall2 (λ p it, items !! p = Some it) l its →
  ∃ first, hvisit (item_body items timeout now verbose c) l m (false, [])
    = Some (inl (m, (first, match List.filter (printed timeout now verbose c) its with
                            | [] => []
                            | its => cookie_text c ++ concat (map (item_text timeout now) its)
                            end))).
Proof.
  intros Hl. eexists. rewrite (hvisit_items _ _ _ _ _ _ its) by done. cbv zeta. do 4 f_equal.
  by destruct (List.filter _ its).
Qed.
End Loop.

(** ** The hash table holds the entries *)
Definition bucket_of (it : item) : Z := lru_cookie (it_value it) mod FLOWS_MAX.
Definition indices : list Z := map Z.of_nat (seq 0 (Z.to_nat FLOWS_MAX)).
Record holds_items (flows : ptr) (t : table) (es : list item) (lists : Z → list ptr) : Prop := {
  hi_heap : hheap_has (tb_heap t) (map (λ i, (bucket flows i, lists i)) indices) [];
  hi_items : ∀ i, i ∈ indices →
    Forall2 (λ p it, tb_items t !! p = Some it) (lists i) (rev (List.filter (λ it, bucket_of it =? i) es));
}.

Lemma indices_range i : i ∈ indices ↔ 0 <= i < FLOWS_MAX.
Proof.
  unfold indices. rewrite list_elem_of_fmap. split.
  - intros (n & -> & Hn%elem_of_seq). lia.
  - intros Hi. exists (Z.to_nat i). rewrite elem_of_seq. lia.
Qed.
Lemma bucket_index it : bucket_of it ∈ indices.
Proof. apply indices_range, Z.mod_pos_bound. done. Qed.
Lemma indices_nodup : NoDup indices.
Proof. unfold indices. apply (NoDup_fmap_2_strong Z.of_nat); [|apply NoDup_seq]. intros x y _ _. lia. Qed.

Lemma heads_nodup flows :
  NoDup (map fst (map (λ i, (bucket flows (Z.of_nat i), NULL)) (seq 0 (Z.to_nat FLOWS_MAX)))).
Proof.
  rewrite map_map. cbn [fst].
  apply (NoDup_fmap_2_strong (λ i : nat, bucket flows (Z.of_nat i))); [|apply NoDup_seq].
  unfold bucket. intros x y _ _. lia.
Qed.
Lemma empty_table_holds flows : holds_items flows (empty_table flows) [] (λ _, []).
Proof.
  split; [|intros i _; constructor]. split; cbn.
  - pose proof (heads_nodup flows) as Hd. unfold indices. rewrite !map_map in *. exact Hd.
  - assert (∀ l : list Z, concat (map snd (map (λ i, (bucket flows i, @nil ptr)) l)) = []) as ->
      by (intros l; by induction l). constructor.
  - apply Forall_forall. intros [h l] (i & [= -> ->] & Hi)%list_elem_of_fmap. cbn. unfold get_slot, get_first. cbn.
    apply elem_of_list_to_map_1; [exact (heads_nodup flows)|].
    unfold indices in Hi. apply list_elem_of_fmap in Hi as (n & -> & Hn). apply list_elem_of_fmap. by exists n.
  - constructor.
Qed.

(** The allocator never returns null or an object that is in use. *)
Definition item_calloc_ok (calloc : table → option ptr) : Prop := ∀ t, ∃ p, calloc t = Some p ∧
  p ≠ NULL ∧ hh_next (tb_heap t) !! p = None ∧ tb_items t !! p = None.

Definition add_to_bucket (b p : ptr) (lists : Z → list ptr) : Z → list ptr :=
  λ i, if i =? b then p :: lists i else lists i.
Lemma buckets_at flows b lists : b ∈ indices →
  ∃ rest, map (λ i, (bucket flows i, lists i)) indices ≡ₚ (bucket flows b, lists b) :: rest ∧
    ∀ p, map (λ i, (bucket flows i, add_to_bucket b p lists i)) indices ≡ₚ (bucket flows b, p :: lists b) :: rest.
Proof.
  intros Hb. pose proof indices_nodup as Hd. apply list_elem_of_split in Hb as (l1 & l2 & E). rewrite E in *.
  assert (Hn : b ∉ l1 ++ l2).
  { apply NoDup_app in Hd as (_ & Hd1 & [Hd2 _]%NoDup_cons). intros [Hin|Hin]%elem_of_app; [|done].
    apply (Hd1 b Hin). left. }
  exists (map (λ i, (bucket flows i, lists i)) (l1 ++ l2)). split.
  - by rewrite <- Permutation_middle.
  - intros p. rewrite <- Permutation_middle. cbn [map]. unfold add_to_bucket at 1. rewrite Z.eqb_refl.
    apply Permutation_skip. apply reflexive_eq, map_ext_in. intros i Hi. unfold add_to_bucket.
    rewrite <- list_elem_of_In in Hi. destruct (Z.eqb_spec i b) as [->|]; [done|done].
Qed.

Lemma holds_add flows t es lists key value p :
  holds_items flows t es lists → p ≠ NULL → hh_next (tb_heap t) !! p = None → tb_items t !! p = None →
  let t1 := alloc_item p t in
  let it := mk_item key value in
  ∃ h, hlist_add_head (p + item_node) (bucket flows (bucket_of it)) (tb_heap t1) = Some h ∧
    holds_items flows (mk_table h (<[p := it]> (tb_items t1))) (es ++ [it]) (add_to_bucket (bucket_of it) p lists).
Proof.
  intros [Hh Hi] Hp Hn Hit. cbv zeta. unfold alloc_item, item_node. rewrite !Z.add_0_r. cbn [tb_heap tb_items].
  set (it := mk_item key value). set (b := bucket_of it).
  pose proof (hheap_alloc_has _ _ _ p Hh Hp Hn) as Ha.
  destruct (buckets_at flows b lists (bucket_index it)) as (rest & E1 & E2).
  apply (hheap_has_perm _ _ _ _ _ E1 (reflexivity _)) in Ha.
  destruct (hadd_head_heap _ _ _ _ _ _ Ha) as (h & Hadd & Hh'). exists h. split; [exact Hadd|]. split; cbn [tb_heap tb_items].
  - eapply hheap_has_perm; [symmetry; apply E2|done|exact Hh'].
  - intros i Hin. rewrite insert_insert_eq. rewrite List.filter_app, rev_app_distr. cbn [List.filter]. fold b.
    assert (Forall2 (λ q x, <[p:=it]> (tb_items t) !! q = Some x) (lists i)
      (rev (List.filter (λ it, bucket_of it =? i) es))) as Hold.
    { eapply Forall2_impl; [exact (Hi i Hin)|]. intros q x Hq. rewrite lookup_insert_ne; [done|]. intros ->. congruence. }
    unfold add_to_bucket. rewrite (Z.eqb_sym b i). destruct (Z.eqb_spec i b) as [->|]; [|exact Hold].
    cbn [rev app]. constructor; [apply lookup_insert_eq|exact Hold].
Qed.

(** ** The loops *)
Section Spec.
Context {K : Kernel} {L : KernelLaws} {M : MapKeys} {ML : MapKeysLaws} {FK : FlowKeys} {FL : FlowKeysLaws}
  {H : Host} {I : Inet}.
Context (flows : ptr) (calloc : table → option ptr).

Lemma read_flows_spec m ks2 : item_calloc_ok calloc → ∀ ks1 fuel t lists,
  flow_keys m = ks1 ++ ks2 → (length ks2 < fuel)%nat → holds_items flows t (flow_entries m ks1) lists →
  ∃ t' lists', read_flows flows calloc fuel m (head ks2) t = Some t' ∧
    holds_items flows t' (flow_entries m (flow_keys m)) lists'.
Proof.
  intros Hc. induction ks2 as [|k ks2 IH]; intros ks1 [|fuel] t lists E Hf Hh; try (cbn in Hf; lia).
  - rewrite app_nil_r in E. rewrite E. by exists t, lists.
  - cbn [read_flows head]. rewrite (flow_next_behind _ _ _ _ E).
    assert (flow_keys m = (ks1 ++ [k]) ++ ks2) as E' by by rewrite <- app_assoc.
    assert (flow_entries m (ks1 ++ [k]) = flow_entries m ks1 ++
      match bpf_map_lookup_elem m k with Some v => [mk_item k v] | None => [] end) as Ee.
    { unfold flow_entries. rewrite omap_app. cbn. by destruct (bpf_map_lookup_elem m k). }
    destruct (bpf_map_lookup_elem m k) as [v|].
    + destruct (Hc t) as (p & Hp & Hp0 & Hn & Hi). rewrite Hp. cbn [mbind option_bind].
      destruct (holds_add flows t _ lists k v p Hh Hp0 Hn Hi) as (h & Hadd & Hh').
      change (bucket_of (mk_item k v)) with (lru_cookie v mod FLOWS_MAX) in *. cbn [tb_heap tb_items].
      rewrite Hadd. cbn [mbind option_bind]. cbn [tb_items].
      eapply (IH (ks1 ++ [k]) fuel _ _ E'); [cbn in Hf; lia|]. rewrite Ee. exact Hh'.
    + cbn [mbind option_bind]. eapply (IH (ks1 ++ [k]) fuel _ _ E'); [cbn in Hf; lia|].
      rewrite Ee, app_nil_r. exact Hh.
Qed.

Lemma filter_filter_sub {A} (p q : A → bool) l : (∀ x, p x = true → q x = true) →
  List.filter p (List.filter q l) = List.filter p l.
Proof.
  intros Hpq. induction l as [|x l IH]; cbn; [done|]. destruct (q x) eqn:Eq; cbn; [by rewrite IH|].
  destruct (p x) eqn:Ep; [|done]. rewrite (Hpq x Ep) in Eq. done.
Qed.
Lemma entries_length m ks : (length (flow_entries m ks) <= length ks)%nat.
Proof. unfold flow_entries. induction ks as [|k ks IH]; cbn; [lia|]. case_match; cbn in *; lia. Qed.
Lemma filter_le {A} (p : A → bool) l : (length (List.filter p l) <= length l)%nat.
Proof. induction l as [|x l IH]; cbn; [lia|]. destruct (p x); cbn; lia. Qed.

Definition es_of (m : flow_map) : list item := flow_entries m (flow_keys m).

(** The bucket of a cookie has all of its flows. *)
Lemma bucket_text m t lists fuel timeout now verbose c :
  holds_items flows t (es_of m) lists → (length (flow_keys m) < fuel)%nat →
  ∃ first, hlist_for_each (bucket flows (c mod FLOWS_MAX)) (item_body (tb_items t) timeout now verbose c)
      fuel (tb_heap t) (false, []) = Some (inl (tb_heap t, (first, socket_text m timeout now verbose c))).
Proof.
  intros [Hh Hi] Hf. set (b := c mod FLOWS_MAX).
  assert (b ∈ indices) as Hb by (apply indices_range, Z.mod_pos_bound; done).
  pose proof (Hi b Hb) as Hl. set (its := rev (List.filter _ _)) in Hl.
  assert (hseg (tb_heap t) (First (bucket flows b)) (lists b)) as Hs.
  { pose proof (hl_segs _ _ _ Hh) as Hall. apply (proj1 (Forall_forall _ _) Hall (bucket flows b, lists b)).
    apply list_elem_of_fmap. by exists b. }
  assert (length (lists b) < fuel)%nat as Hlen.
  { rewrite (Forall2_length _ _ _ Hl). unfold its. rewrite length_rev.
    pose proof (filter_le (λ it, bucket_of it =? b) (es_of m)) as H1.
    pose proof (entries_length m (flow_keys m)) as H2. unfold es_of in *. lia. }
  rewrite (hlist_for_each_visits _ (λ m' _, m' = tb_heap t) _ (lists b)); [|split|done|done].
  - destruct (hvisit_items_text (tb_items t) timeout now verbose c (lists b) its (tb_heap t) Hl) as [first ->].
    exists first. unfold socket_text, printed_flows.
    replace (List.filter (printed timeout now verbose c) its)
      with (List.filter (printed timeout now verbose c) (rev (flow_entries m (flow_keys m)))); [done|].
    unfold its. rewrite !List.filter_rev. f_equal. symmetry. apply filter_filter_sub.
    intros it [Hit%Z.eqb_eq _]%andb_true_iff. apply Z.eqb_eq. unfold bucket_of. by rewrite Hit.
  - by intros m' a ->.
  - intros p m' [first text] m'' a' -> Hp. apply list_elem_of_lookup in Hp as [i Hp].
    destruct (Forall2_lookup_l _ _ _ _ _ Hl Hp) as (it & _ & Hit).
    rewrite (item_body_at _ _ _ _ _ _ it) by done. by intros [= <- _].
Qed.

Lemma slots_text_spec m t lists fuel timeout now verbose w row n j :
  holds_items flows t (es_of m) lists → (length (flow_keys m) < fuel)%nat →
  0 <= j → (Z.to_nat j + n <= length row)%nat →
  slots_text flows fuel n j row timeout now verbose w t
  = Some (concat (map (socket_text m timeout now verbose)
      (List.filter (slot_live w) (until_empty (take n (drop (Z.to_nat j) row)))))).
Proof.
  intros Hh Hf. revert j. induction n as [|n IH]; intros j Hj Hn; [done|]. cbn [slots_text].
  destruct (lookup_lt_is_Some_2 row (Z.to_nat j)) as [c Hc]; [lia|]. rewrite Hc. cbn [mbind option_bind].
  rewrite (drop_S row c (Z.to_nat j) Hc). cbn [take until_empty].
  destruct (c =? 0); [done|]. cbn [List.filter].
  specialize (IH (j + 1) ltac:(lia) ltac:(lia)). replace (Z.to_nat (j + 1)) with (S (Z.to_nat j)) in IH by lia.
  destruct (slot_live w c); cbn [mbind option_bind].
  - destruct (bucket_text m t lists fuel timeout now verbose c Hh Hf) as [first ->]. cbn [mbind option_bind].
    by rewrite IH.
  - by rewrite IH.
Qed.

(** A group whose arrays have their sizes. *)
Definition listable (s : reuseport_storage) : Prop :=
  shape s ∧ Forall (λ m, 0 <= m <= MAX_SOCKETS_IN_GEN) (max_idx s).

Lemma generations_text_spec m t lists fuel s timeout now verbose w n gen :
  holds_items flows t (es_of m) lists → (length (flow_keys m) < fuel)%nat → listable s → (gen + n <= 32)%nat →
  generations_text flows fuel n gen s timeout now verbose w t
  = Some (concat (map (socket_text m timeout now verbose) (concat (map (live_cookies w s) (seq gen n))))).
Proof.
  intros Hh Hf [[Hc Hr Hm] Hb]. revert gen. induction n as [|n IH]; intros gen Hn; [done|]. cbn [generations_text].
  destruct (lookup_lt_is_Some_2 (cookies s) gen) as [row Hrow]; [lia|].
  destruct (lookup_lt_is_Some_2 (max_idx s) gen) as [len Hlen]; [lia|].
  pose proof (Forall_lookup_1 _ _ _ _ Hr Hrow) as Hr'. pose proof (Forall_lookup_1 _ _ _ _ Hb Hlen) as Hb'.
  cbn in Hr', Hb'. unfold MAX_SOCKETS_IN_GEN in Hb'.
  rewrite Hrow, Hlen. cbn [mbind option_bind].
  rewrite (slots_text_spec m t lists) by (done || (cbn; lia)). cbn [mbind option_bind].
  rewrite IH by lia. cbn [seq map concat]. rewrite map_app, concat_app. unfold live_cookies at 2.
  by rewrite (nth_lookup_Some _ _ _ _ Hrow), (nth_lookup_Some _ _ _ _ Hlen).
Qed.

Lemma flows_texts_spec t lists fuel verbose w gs :
  holds_items flows t (es_of (w_flows w)) lists → (length (flow_keys (w_flows w)) < fuel)%nat →
  Forall (λ g, listable (snd g)) gs →
  flows_texts flows fuel true gs verbose w t = Some (Done (map (group_text w verbose) gs)).
Proof.
  intros Hh Hf. induction 1 as [|[key s] gs Hg _ IH]; [done|]. cbn [flows_texts fst snd].
  unfold _do_flows. cbn [snd] in Hg.
  rewrite (generations_text_spec (w_flows w) t lists) by (done || (unfold MAX_GENS; lia)).
  cbn [mbind option_bind]. rewrite IH. done.
Qed.
End Spec.

(** Each flow of a cookie is printed once: the entries of the table that name the cookie
    and, unless the output is verbose, have not expired. *)
Lemma elem_of_flow_entries {K : Kernel} m ks it :
  it ∈ flow_entries m ks ↔ it_hash it ∈ ks ∧ bpf_map_lookup_elem m (it_hash it) = Some (it_value it).
Proof.
  unfold flow_entries. rewrite list_elem_of_omap. split.
  - intros (k & Hk & (v & Hv & ->)%fmap_Some). done.
  - intros [Hk Hv]. exists (it_hash it). split; [done|]. rewrite Hv. by destruct it.
Qed.
Lemma flow_entries_nodup {K : Kernel} m ks : NoDup ks → NoDup (flow_entries m ks).
Proof.
  induction 1 as [|k ks Hk _ IH]; [constructor|]. unfold flow_entries in *. cbn.
  destruct (bpf_map_lookup_elem m k) as [v|]; cbn; [|done]. apply NoDup_cons. split; [|done].
  intros Hin. apply Hk. by apply (elem_of_flow_entries m ks) in Hin as [? _].
Qed.
Lemma printed_flows_spec {K : Kernel} {FK : FlowKeys} {FL : FlowKeysLaws} m timeout now verbose c :
  NoDup (printed_flows m timeout now verbose c) ∧
  ∀ it, it ∈ printed_flows m timeout now verbose c ↔
    bpf_map_lookup_elem m (it_hash it) = Some (it_value it) ∧ lru_cookie (it_value it) = c ∧
    (is_stale timeout now (it_value it) = false ∨ 0 < verbose).
Proof.
  unfold printed_flows. split.
  - apply NoDup_ListNoDup, List.NoDup_filter, NoDup_ListNoDup. rewrite <- Permutation_rev.
    apply flow_entries_nodup, flow_keys_once.
  - intros it. rewrite !list_elem_of_In, List.filter_In, <- in_rev, <- list_elem_of_In, elem_of_flow_entries, flow_keys_spec.
    unfold printed. rewrite andb_true_iff, orb_true_iff, negb_true_iff, Z.eqb_eq, Z.ltb_lt. naive_solver.
Qed.

(** C36. What [udpgrm flows] prints: it ends, and prints one text for each group, in which every
    live socket of the group (of each generation, up to the first empty slot) is followed
    by the entries of the flow table that name its cookie, each exactly once, without the
    stale ones unless the output is verbose. The hash table it builds to find them is
    exact: no flow is lost in a bucket or shown under another socket. *)
Theorem do_flows_spec {K : Kernel} {L : KernelLaws} {M : MapKeys} {ML : MapKeysLaws} {FK : FlowKeys}
  {FL : FlowKeysLaws} {H : Host} {I : Inet} flows calloc fuel verbose w :
  item_calloc_ok calloc → (length (flow_keys (w_flows w)) < fuel)%nat →
  (length (map_keys (w_groups w)) < fuel)%nat →
  (∀ k s, group_at w k = Some s → listable s) →
  ∃ gs, do_flows flows calloc fuel true true zero_ss verbose w = Some (Done (map (group_text w verbose) gs)) ∧
    NoDup gs.*1 ∧ (∀ k s, (k, s) ∈ gs ↔ group_at w k = Some s) ∧
    ∀ timeout now c,
      NoDup (printed_flows (w_flows w) timeout now verbose c) ∧
      ∀ it, it ∈ printed_flows (w_flows w) timeout now verbose c ↔
        bpf_map_lookup_elem (w_flows w) (it_hash it) = Some (it_value it) ∧ lru_cookie (it_value it) = c ∧
        (is_stale timeout now (it_value it) = false ∨ 0 < verbose).
Proof.
  intros Hc Hf Hg Hok. exists (found_groups (w_groups w) (map_keys (w_groups w))).
  assert (∀ k s, (k, s) ∈ found_groups (w_groups w) (map_keys (w_groups w)) ↔ group_at w k = Some s) as Hall.
  { intros k s. rewrite elem_of_found, map_keys_spec. unfold group_at. split; [by intros [_ ?]|].
    intros E. split; [by eexists|done]. }
  split_and!.
  - destruct (read_flows_spec flows calloc (w_flows w) (flow_keys (w_flows w)) Hc [] fuel (empty_table flows) (λ _, []))
      as (t & lists & Hr & Hh); [done|done|apply empty_table_holds|].
    unfold do_flows. rewrite flow_next_first, Hr. cbn [mbind option_bind].
    unfold groups_of. change (negb (ss_family zero_ss =? AF_UNSPEC)) with false. cbv iota.
    rewrite walk_all by done. cbn [mbind option_bind]. apply (flows_texts_spec flows t lists); [exact Hh|done|].
    apply Forall_forall. intros [k s] Hin. apply (Hok k), Hall, Hin.
  - apply found_once, map_keys_once.
  - exact Hall.
  - intros timeout now c. apply printed_flows_spec.
Qed.

(** ** Evaluation *)
Example age_text : f1 (double_div (double_of 1549999999) (double_of 1000000000)) = chars "1.5".
Proof. reflexivity. Qed.
(** 0.25 is a tie, 0.35 is below one in binary64. *)
Example age_text_tie : f1 (double_div (double_of 250000000) (double_of 1000000000)) = chars "0.2"
  ∧ f1 (double_div (double_of 350000000) (double_of 1000000000)) = chars "0.3".
Proof. split; reflexivity. Qed.
Example stale_at_the_limit : is_stale 125 125000000000 (mk_lru 0 1) = false ∧ is_stale 125 125000000001 (mk_lru 0 1) = true.
Proof. split; reflexivity. Qed.

#[export] Instance test_flow_keys clock reserve select : @FlowKeys (test_kernel clock reserve select) :=
  @Build_FlowKeys (test_kernel clock reserve select)
    (λ m : gmap Z lru_value, keys_of m) (λ (m : gmap Z lru_value) k, next_of m k).
#[export] Instance test_flow_keys_laws clock reserve select : @FlowKeysLaws _ (test_flow_keys clock reserve select).
Proof.
  split.
  - intros m k. apply keys_of_spec.
  - intros m. apply NoDup_fst_map_to_list.
  - done.
  - intros m l1 k l2 E. by apply (next_of_behind m l1).
Qed.

Definition fresh_item (t : table) : option ptr :=
  Some (fresh ({[NULL]} ∪ dom (hh_next (tb_heap t)) ∪ dom (tb_items t))).
Lemma fresh_item_ok : item_calloc_ok fresh_item.
Proof.
  intros t. eexists. split; [done|].
  pose proof (is_fresh ({[NULL]} ∪ dom (hh_next (tb_heap t)) ∪ dom (tb_items t))) as Hf.
  split_and!; [|apply not_elem_of_dom|apply not_elem_of_dom]; set_solver.
Qed.
Definition flows_world (K := good_kernel) : world :=
  set_flows (<[9 := mk_lru 4000000000 41]> (∅ : gmap Z lru_value)) list_world.

Lemma listable_groups k s : list_groups !! k = Some s → listable s.
Proof.
  unfold list_groups. rewrite lookup_insert_Some, lookup_singleton_Some.
  intros [[<- <-]|[_ [<- <-]]]; (split; [split; [reflexivity|repeat constructor|reflexivity]|]);
    apply Forall_forall; intros m Hm; unfold MAX_SOCKETS_IN_GEN; revert m Hm;
    apply (proj1 (Forall_forall (λ m, 0 <= m <= 256) _)); repeat constructor; discriminate.
Qed.

Lemma do_flows_spec_witness :
  ∃ (gs : list (reuseport_storage_key * reuseport_storage)) ts,
    do_flows (K := good_kernel) (M := test_keys _ _ _) (FK := test_flow_keys _ _ _)
      (H := test_host (λ _ _, None) (λ _ _ _, T_reply [])) (I := test_inet)
      4096 fresh_item 3 true true zero_ss 1 flows_world = Some (Done ts) ∧
    ∀ k s, (k, s) ∈ gs ↔ list_groups !! k = Some s.
Proof.
  destruct (do_flows_spec (K := good_kernel) (M := test_keys _ _ _) (FK := test_flow_keys _ _ _)
    (H := test_host (λ _ _, None) (λ _ _ _, T_reply [])) (I := test_inet)
    4096 fresh_item 3 1 flows_world fresh_item_ok) as (gs & E & _ & Hg & _).
  - vm_compute. lia.
  - vm_compute. lia.
  - exact listable_groups.
  - exists gs. eexists. split; [exact E|exact Hg].
Defined.
