(* ===== verification/System.v ===== *)
(** The whole system as a transition system: the hooks called by applications, the
    receive path, the daemon, the [delete] command, and what the kernel does on its
    own (time, sockets closed, entries evicted).

    A step is one run of one program: the programs' accesses to a storage are not
    interleaved with each other. *)

From S2P Require Import Prelude Cookie SipHash Storage Cbpf Dissector Reuseport Flow Hooks Host Daemon.
From stdpp Require Import relations.
Open Scope Z_scope.

Section System.
Context {K : Kernel} {H : Host} {B : BespokeDissector}.

Definition sys : Type := world * daemon.

(** The kernel: sockets, registrations and flow entries come and go, time passes. *)
Record env_step (w w' : world) : Prop := {
  env_groups : w_groups w' = w_groups w;
  env_rb : w_rb w' = w_rb w;
  env_tick : (w_tick w <= w_tick w')%nat;
}.

Inductive step : sys → sys → Prop :=
  | S_setsockopt ctx w d : bytes_ok (so_optval ctx) → skey_ok (_skey_from_bpf_sock (so_sk ctx)) →
      step (w, d) (snd (udpgrm_setsockopt ctx w), d)
  | S_getsockopt ctx w d : step (w, d) (snd (udpgrm_getsockopt ctx w), d)
  | S_bind ctx w d : step (w, d) (snd (_bpf_bind ctx w), d)
  | S_sendmsg ctx family w d : step (w, d) (snd (_udp_sendmsg ctx family w), d)
  | S_packet md w d : md_ok md → step (w, d) (snd (udpgrm_reuseport_prog md w), d)
  | S_daemon path w d w' d' : ring_buffer_consume path d w = Done (d', w') → step (w, d) (w', d')
  | S_cleanup w d : step (w, d) (w, reuseport_groups_maybe_cleanup_stale (w_tick w) d)
  | S_env w w' d : env_step w w' → step (w, d) (w', d).

(** [udpgrm delete]. *)
Inductive admin : sys → sys → Prop :=
  | A_delete ss w d w' : cmd_delete ss w = Done w' → admin (w, d) (w', d).

Definition initial (s : sys) : Prop := (∀ k, group_at (fst s) k = None) ∧ w_rb (fst s) = [].
Definition any_step (s s' : sys) : Prop := step s s' ∨ admin s s'.
Definition reachable (s : sys) : Prop := ∃ s0, initial s0 ∧ rtc any_step s0 s.

(** ** The invariant of a group's storage *)
Record group_wf (st : reuseport_storage) : Prop := {
  wf_dis : List.length (dis st) = DISSECTOR_SZ ∧ bytes_ok (dis st);
  wf_type : DISSECTOR_TYPE (dis_type (dis st)) = dis_type (dis st);
  wf_valid : dissector_invalid (dis st) = false;
  wf_shape : shape st;
  wf_working_gen : List.length (working_gen st) = 4%nat ∧ Forall (λ g, 0 <= g < 2 ^ 32) (working_gen st);
  wf_verbose : verbose st = 0 ∨ verbose st = 1;
}.

(** How one step may change a group that exists: its identity and dissector stay. *)
Definition same_identity (st st' : reuseport_storage) : Prop :=
  dis st' = dis st ∧ random_id st' = random_id st ∧ netns_cookie st' = netns_cookie st.
#[export] Instance same_identity_preorder : PreOrder same_identity.
Proof. split; [done|]. intros a b c (? & ? & ?) (? & ? & ?). repeat split; congruence. Qed.
Definition evolves (st st' : reuseport_storage) : Prop :=
  same_identity st st' ∧ (group_wf st → group_wf st').
#[export] Instance evolves_preorder : PreOrder evolves.
Proof. split; [by split|]. intros a b c [? ?] [? ?]. split; [by etrans|auto]. Qed.

(** A message the daemon can handle: a log message, or one of a group that exists
    with the body its type says. *)
Definition known_msg (m : msg_value) : Prop :=
  skey_ok (m_skey m) ∧
  ((m_type m = MSG_REGISTER_SOCKET ∧ ∃ pid c g a, m_body m = M_reg pid c g a) ∨
   (m_type m = MSG_SET_WORKING_GEN ∧ ∃ a g, m_body m = M_app a g) ∨
   m_type m = MSG_SET_DISSECTOR).
Definition queued (w : world) (m : msg_value) : Prop :=
  is_log m ∨ (is_Some (group_at w (m_skey m)) ∧ known_msg m).

(** What a program may do to the groups and to the messages; [create]: it may create groups. *)
Record prog_step (create : bool) (w w' : world) : Prop := {
  ps_old : ∀ k st, group_at w k = Some st → ∃ st', group_at w' k = Some st' ∧ evolves st st';
  ps_new : ∀ k st', group_at w k = None → group_at w' k = Some st' → create = true ∧ group_wf st';
  ps_rb : ∀ m, m ∈ w_rb w' → m ∈ w_rb w ∨ queued w' m;
}.

Section Create.
Context {create : bool}.
Lemma queued_mono w w' m : prog_step create w w' → queued w m → queued w' m.
Proof.
  intros [Ho _ _] [?|[[st Hst] ?]]; [by left|right]. split; [|done].
  destruct (Ho _ _ Hst) as (st' & ? & _). by eexists.
Qed.

#[export] Instance prog_step_preorder : PreOrder (prog_step create).
Proof.
  split.
  - intros w. split; [intros k st E; exists st; by split|intros; congruence|auto].
  - intros w1 w2 w3 [A1 A2 A3] H2. pose proof H2 as [B1 B2 B3]. split.
    + intros k st E. destruct (A1 k st E) as (st2 & E2 & I2). destruct (B1 k st2 E2) as (st3 & E3 & I3).
      exists st3. split; [done|by etrans].
    + intros k st3 E1 E3. destruct (group_at w2 k) as [st2|] eqn:E2; [|by eapply B2].
      destruct (B1 k st2 E2) as (st3' & E3' & _ & W3). rewrite E3 in E3'. injection E3' as <-.
      destruct (A2 k st2 E1 E2). auto.
    + intros m Hm. destruct (B3 m Hm) as [Hm'|?]; [|by right].
      destruct (A3 m Hm') as [?|?]; [by left|right]. by eapply queued_mono.
Qed.

(** Nothing about groups, and only log messages. *)
Lemma prog_step_same w w' :
  (∀ k, group_at w' k = group_at w k) → (∃ l, w_rb w' = w_rb w ++ l ∧ Forall is_log l) → prog_step create w w'.
Proof.
  intros E (l & Hrb & Hl). split.
  - intros k st Hk. exists st. rewrite E. by split.
  - intros k st' Hn Hs. rewrite E in Hs. congruence.
  - intros m. rewrite Hrb, elem_of_app. intros [?|Hm]; [by left|right; left].
    rewrite Forall_forall in Hl. by apply Hl.
Qed.
Lemma prog_step_logs w w' : logs_only w w' → prog_step create w w'.
Proof. intros Hl. apply prog_step_same; [intros k; by apply group_at_logs|apply Hl]. Qed.
Lemma prog_step_aux w w' : w_groups w' = w_groups w → w_rb w' = w_rb w → prog_step create w w'.
Proof.
  intros Hg Hr. apply prog_step_same; [intros k; unfold group_at; by rewrite Hg|].
  exists []. by rewrite Hr, app_nil_r.
Qed.

(** A store to a group that exists. *)
Lemma prog_step_write {L : KernelLaws} k w w' st st' :
  group_at w k = Some st → w_groups w' = map_value_write (w_groups w) k st' →
  w_rb w' = w_rb w → evolves st st' → prog_step create w w'.
Proof.
  intros Hst Hw Hrb Hev.
  assert (group_at w' k = Some st') as Hk.
  { unfold group_at. rewrite Hw. apply (map_write_same (exact := true)). unfold group_at in Hst. rewrite Hst. by eexists. }
  assert (∀ k', k' ≠ k → group_at w' k' = group_at w k') as Ho.
  { intros k' Hne. unfold group_at. rewrite Hw. by apply (map_write_other (exact := true)). }
  split.
  - intros k' s Hs. destruct (decide (k' = k)) as [->|Hne].
    + rewrite Hst in Hs. injection Hs as <-. by exists st'.
    + exists s. rewrite Ho by done. by split.
  - intros k' s Hn Hs. destruct (decide (k' = k)) as [->|Hne]; [congruence|].
    rewrite Ho in Hs by done. congruence.
  - intros m. rewrite Hrb. auto.
Qed.

Lemma evolves_config st st' : same_config st st' → evolves st st'.
Proof. intros [m ->]. split; [done|]. intros [? ? ? [] ? ?]. by split; try done. Qed.
End Create.

(** ** Well-formed storages *)
Lemma dissector_type_idem x : DISSECTOR_TYPE (DISSECTOR_TYPE x) = DISSECTOR_TYPE x.
Proof. unfold DISSECTOR_TYPE. by rewrite <- Z.land_assoc, Z.land_diag. Qed.
Lemma dissector_type_range x : 0 <= x < 2 ^ 32 → 0 <= DISSECTOR_TYPE x < 2 ^ 32.
Proof. intros Hx. apply land_range; [lia|done|]. by vm_compute. Qed.

(** The dissector stored by a first [UDP_GRM_DISSECTOR]: the flags are gone from its
    type, the other fields are kept. *)
Lemma stored_dissector d :
  List.length d = DISSECTOR_SZ → bytes_ok d →
  let d' := store d 0 (le_bytes 4 (DISSECTOR_TYPE (dis_type d))) in
  List.length d' = DISSECTOR_SZ ∧ bytes_ok d' ∧ dis_type d' = DISSECTOR_TYPE (dis_type d) ∧
  DISSECTOR_TYPE (dis_type d') = dis_type d' ∧ dissector_invalid d' = dissector_invalid d.
Proof.
  intros Hl Hb d'. unfold DISSECTOR_SZ in *.
  assert (0 <= dis_type d < 2 ^ 32) as Hr by (apply (load_range 4); done).
  apply dissector_type_range in Hr.
  assert (dis_type d' = DISSECTOR_TYPE (dis_type d)) as Ht.
  { unfold d', dis_type at 1. rewrite load_store_same by lia. by rewrite Z.mod_small. }
  assert (∀ o, (4 <= o)%nat → load 4 d' o = load 4 d o) as Hf.
  { intros o Ho. unfold d', load. rewrite slice_store_after by (rewrite ?length_le_bytes; lia). done. }
  split_and!.
  - unfold d'. store_lengths.
  - apply bytes_ok_store; [done|apply le_bytes_ok].
  - done.
  - by rewrite Ht, dissector_type_idem.
  - unfold dissector_invalid, dis_filter_len, dis_max_apps, dis_bespoke_digest.
    rewrite Ht, dissector_type_idem, !Hf by lia. done.
Qed.

Lemma group_wf_dissector d v st :
  List.length d = DISSECTOR_SZ → bytes_ok d → dissector_invalid d = false → v = 0 ∨ v = 1 →
  group_wf st → group_wf (set_dis_type (DISSECTOR_TYPE (dis_type d)) (set_verbose v (set_dis d st))).
Proof.
  intros Hl Hb Hv Hv01 [_ _ _ [] ? _]. destruct (stored_dissector d Hl Hb) as (? & ? & _ & ? & Hi).
  rewrite Hv in Hi. split; done.
Qed.

Lemma group_wf_init netns rnd : group_wf (init_state netns rnd empty_state).
Proof.
  assert (dis (init_state netns rnd empty_state) = zeros DISSECTOR_SZ) as E by by vm_compute.
  split; rewrite ?E.
  - split; [apply length_zeros|apply bytes_ok_zeros].
  - vm_compute. reflexivity.
  - vm_compute. reflexivity.
  - split; [done|repeat constructor|done].
  - split; [done|]. by repeat constructor.
  - by left.
Qed.

Lemma verbose_of_bool t : verbose_of t = 0 ∨ verbose_of t = 1.
Proof. unfold verbose_of. case_match; auto. Qed.

Lemma evolves_verbose t st : evolves st (set_verbose (verbose_of t) st).
Proof. split; [done|]. intros [? ? ? [] ? ?]. split; try done. apply verbose_of_bool. Qed.

Lemma evolves_working_gen i g st :
  0 <= g < 2 ^ 32 → evolves st (set_working_gen (<[i := g]> (working_gen st)) st).
Proof.
  intros Hg. split; [done|]. intros [? ? ? [] [? ?] ?]. split; try done. cbn [working_gen set_working_gen].
  rewrite length_insert. split; [done|]. by apply Forall_insert.
Qed.

Lemma evolves_cookie_slot g i c l st :
  0 <= g < 32 → 0 <= i < 256 → evolves st (set_cookie_slot g i c l st).
Proof.
  intros Hg Hi. split; [done|]. intros [? ? ? Hs ? ?]. split; try done. by apply set_cookie_slot_spec.
Qed.
End System.

(** ** setsockopt *)
Section SetsockoptStep.
Context {K : Kernel} {L : KernelLaws}.

(** What an accepted option does, on the world it was prepared in. *)
Record opt_step (key : reuseport_storage_key) (created : bool) (st : reuseport_storage) (w w' : world) : Prop := {
  os_other : ∀ k, k ≠ key → group_at w' k = group_at w k;
  os_own : ∃ st', group_at w' key = Some st' ∧ (group_wf st → group_wf st') ∧
    (created = false → same_identity st st');
  os_rb : ∀ m, m ∈ w_rb w' → m ∈ w_rb w ∨ is_log m ∨ (m_skey m = key ∧ known_msg m);
}.

Lemma opt_step_logs key created st w w' : group_at w key = Some st → logs_only w w' → opt_step key created st w w'.
Proof.
  intros Hst Hl. split.
  - intros k _. by apply group_at_logs.
  - exists st. by rewrite (group_at_logs w).
  - destruct (lo_rb _ _ Hl) as (l & -> & Hf). intros m. rewrite elem_of_app, Forall_forall in *.
    intros [?|Hm]; [by left|]. right; left. by apply Hf.
Qed.

(** A store to the group, then logs, then a message of the group. *)
Lemma opt_step_put sk created st st' w w1 :
  group_at w (_skey_from_bpf_sock sk) = Some st → logs_only w w1 →
  (group_wf st → group_wf st') → (created = false → same_identity st st') →
  opt_step (_skey_from_bpf_sock sk) created st w (put_state sk st' w1).
Proof.
  intros Hst Hl Hwf Hid. split.
  - intros k Hk. rewrite group_at_put_other by done. by apply group_at_logs.
  - exists st'. split; [|done]. apply group_at_put_same. rewrite (group_at_logs w) by done. by eexists.
  - apply (os_rb _ created _ _ _ (opt_step_logs _ _ _ _ _ Hst Hl)).
Qed.
Lemma opt_step_groups key created st w w1 w2 l :
  opt_step key created st w w1 → w_groups w2 = w_groups w1 → w_rb w2 = w_rb w1 ++ l → Forall is_log l →
  opt_step key created st w w2.
Proof.
  intros [Ho Hown Hrb] Hg Hr Hl. unfold group_at in *. split; unfold group_at; rewrite ?Hg; [done|done|].
  intros m. rewrite Hr, elem_of_app. rewrite Forall_forall in Hl. intros [?|Hm]; [auto|right; left; auto].
Qed.
Lemma opt_step_then_logs key created st w w1 w2 :
  opt_step key created st w w1 → logs_only w1 w2 → opt_step key created st w w2.
Proof. intros H []. destruct lo_rb as (l & ? & ?). by eapply opt_step_groups. Qed.
Lemma opt_step_submit key created st w w1 pos e :
  opt_step key created st w w1 → m_skey e = key → known_msg e → opt_step key created st w (rb_submit pos e w1).
Proof.
  intros [Ho Hown Hrb] Hk He. split; [done|done|]. intros m. cbn [w_rb rb_submit set_rb].
  assert (∀ m, m ∈ take pos (w_rb w1) ∨ m ∈ drop pos (w_rb w1) → m ∈ w_rb w1) as Hin.
  { intros x Hx. rewrite <- (take_drop pos (w_rb w1)). by apply elem_of_app. }
  rewrite elem_of_app, elem_of_cons. intros [?|[->|?]]; auto.
Qed.

Lemma data_u32_range data off : bytes_ok data → 0 <= data_u32 data off < 2 ^ 32.
Proof. apply (load_range 4). Qed.

Lemma opt_dissector_step ctx data created st w res w' :
  let key := _skey_from_bpf_sock (so_sk ctx) in
  skey_ok key → group_at w key = Some st → bytes_ok data → (DISSECTOR_SZ <= List.length data)%nat →
  set_dissector_opt ctx data created st w = (res, w') → sr_ret res ≠ 0 → opt_step key created st w w'.
Proof.
  intros key Hkey Hst Hb Hl E Hr. unfold set_dissector_opt, ringbuf_reserve in E.
  destruct created; cbn [negb] in E.
  - destruct (dissector_invalid (data_dis data)) eqn:Hi.
    { destruct (bpf_map_delete_elem _ _). by injection E as <- _. }
    destruct (bpf_ringbuf_reserve _ _); injection E as <- <-; [|done].
    apply opt_step_submit; [|done|split; [done|by right; right]].
    eapply opt_step_then_logs; [|apply logs_only_printfs].
    apply opt_step_put; [done|apply logs_only_tick| |done].
    apply group_wf_dissector; [by apply length_slice|by apply bytes_ok_slice|done|apply verbose_of_bool].
  - destruct (negb _); injection E as <- <-; [done|].
    apply opt_step_put; [done|done| |done]. apply evolves_verbose.
Qed.

Lemma setsockopt_opt_step ctx data s created st w res w' :
  let key := _skey_from_bpf_sock (so_sk ctx) in
  skey_ok key → group_at w key = Some st → bytes_ok data → (DISSECTOR_SZ <= List.length data)%nat →
  setsockopt_opt ctx data s created st w = (res, w') → sr_ret res ≠ 0 → opt_step key created st w w'.
Proof.
  intros key Hkey Hst Hb Hl E Hr. unfold setsockopt_opt in E.
  destruct (_ =? UDP_GRM_WORKING_GEN) in E; [|destruct (_ =? UDP_GRM_SOCKET_GEN) in E;
    [|destruct (_ =? UDP_GRM_DISSECTOR) in E; [|destruct (_ =? UDP_GRM_FLOW_ASSURE) in E;
      [|destruct (_ =? UDP_GRM_SOCKET_APP) in E]]]].
  - unfold set_working_gen_opt, ringbuf_reserve in E.
    destruct (bpf_ringbuf_reserve _ _); injection E as <- <-; [|done].
    apply opt_step_submit; [|done|split; [done|right; left; split; [done|by eexists _, _]]].
    eapply opt_step_then_logs; [|apply logs_only_printfs].
    destruct (evolves_working_gen (Z.to_nat (sock_app s mod MAX_APPS)) _ st (data_u32_range data 0 Hb)).
    by apply opt_step_put; [done|apply logs_only_tick| |].
  - unfold set_socket_gen_opt, ringbuf_reserve in E.
    destruct (_ || _); [|injection E as <- <-; by apply opt_step_logs].
    destruct (bpf_ringbuf_reserve _ _); injection E as <- <-; [|done].
    apply opt_step_submit; [|done|split; [done|left; split; [done|by eexists _, _, _, _]]].
    eapply opt_step_then_logs; [|apply logs_only_printf].
    eapply opt_step_then_logs; [|apply logs_only_printfs].
    apply (opt_step_groups _ _ _ _ (tick w) _ []);
      [apply opt_step_logs; [done|apply logs_only_tick]|done|by rewrite app_nil_r|done].
  - by eapply opt_dissector_step.
  - unfold flow_assure_opt in E. destruct (negb _); [by injection E as <- _|].
    destruct (if sin_family data =? AF_INET then _ else _) as [flow|]; [|by injection E as <- _].
    destruct (flow_assure st s _ w) as [[r st'] w1] eqn:Ef.
    apply flow_assure_spec in Ef as (t & -> & _ & _ & Hlog). destruct (_ =? 0); [by injection E as <- _|].
    injection E as <- <-. destruct (evolves_config st (bump t st) (bump_config t st)).
    apply (opt_step_groups _ _ _ _ (put_state (so_sk ctx) (bump t st) (set_flows (w_flows w) w1)) _ []);
      [by apply opt_step_put|done|by rewrite app_nil_r|done].
  - unfold set_socket_app_opt in E. destruct (negb _); [|injection E as <- <-; by apply opt_step_logs].
    destruct (_ || _); [by injection E as <- _|]. destruct (_ <=? _); [by injection E as <- _|].
    injection E as <- <-.
    apply (opt_step_groups _ _ _ _ w _ []); [by apply opt_step_logs|done|by rewrite app_nil_r|done].
  - by injection E as <- _.
Qed.

Lemma setsockopt_data_ok ctx n :
  bytes_ok (so_optval ctx) →
  bytes_ok (setsockopt_data ctx n) ∧ (DISSECTOR_SZ <= List.length (setsockopt_data ctx n))%nat.
Proof.
  intros Hb. unfold setsockopt_data. split.
  - apply bytes_ok_store; [apply bytes_ok_zeros|]. by apply Forall_take.
  - etrans; [|apply length_store_ge]. rewrite length_zeros. unfold DISSECTOR_SZ, PERCPU_ARRAY_SIZE. lia.
Qed.

(** An accepted option, on the world of the call. *)
Lemma prepared_step ctx data s created st w w1 w' :
  prepared ctx w data s created st w1 → opt_step (_skey_from_bpf_sock (so_sk ctx)) created st w1 w' →
  prog_step true w w'.
Proof.
  set (key := _skey_from_bpf_sock (so_sk ctx)).
  intros Hp [Ho (st' & Hst' & Hwf & Hid) Hrb]. pose proof (prepared_aside _ _ _ _ _ _ _ Hp) as [_ _ _ (l & Hl & Hf) _].
  assert (∀ m, m ∈ w_rb w' → m ∈ w_rb w ∨ queued w' m) as Hm.
  { intros m Hm. destruct (Hrb m Hm) as [Hm1|[?|[Hk ?]]].
    - rewrite Hl, elem_of_app in Hm1. destruct Hm1 as [?|Hm1]; [by left|]. right; left.
      rewrite Forall_forall in Hf. by apply Hf.
    - by right; left.
    - right; right. rewrite Hk, Hst'. split; [by eexists|done]. }
  inversion Hp as [? ? Hlog Hst|rnd ? _ Hnone Hoth Hst]; subst;
    [fold key in Hst|fold key in Hnone, Hst]; split; try done.
  - intros k s0 Hs0. destruct (decide (k = key)) as [->|Hne].
    + rewrite Hst in Hs0. injection Hs0 as <-. exists st'. split; [done|]. by split; [apply Hid|].
    + exists s0. rewrite Ho, (group_at_logs w) by done. by split.
  - intros k s0 Hn Hs0. destruct (decide (k = key)) as [->|Hne]; [congruence|].
    rewrite Ho, (group_at_logs w) in Hs0 by done. congruence.
  - intros k s0 Hs0. destruct (decide (k = key)) as [->|Hne]; [congruence|].
    exists s0. rewrite Ho, Hoth by done. by split.
  - intros k s0 Hn Hs0. destruct (decide (k = key)) as [->|Hne].
    + rewrite Hst' in Hs0. injection Hs0 as <-. split; [done|]. apply Hwf, group_wf_init.
    + rewrite Ho, Hoth in Hs0 by done. congruence.
Qed.

Lemma setsockopt_step ctx w :
  bytes_ok (so_optval ctx) → skey_ok (_skey_from_bpf_sock (so_sk ctx)) → prog_step true w (snd (udpgrm_setsockopt ctx w)).
Proof.
  intros Hb Hkey. destruct (udpgrm_setsockopt ctx w) as [res w'] eqn:E. cbn [snd].
  destruct (not_ours ctx) eqn:Ho.
  { unfold udpgrm_setsockopt in E. rewrite Ho in E. by injection E as <- <-. }
  destruct (Z.eq_dec (sr_ret res) 0) as [Hr|Hr].
  - destruct (setsockopt_rejected ctx w res w' Ho E Hr) as (_ & [_ _ (l & Hrb & Hl) _] & Hoth & Hown).
    set (key := _skey_from_bpf_sock (so_sk ctx)) in *. split.
    + intros k st Hst. destruct (decide (k = key)) as [->|Hne].
      * rewrite Hst in Hown. destruct Hown as (st' & ? & ?). exists st'. split; [done|]. by apply evolves_config.
      * exists st. rewrite Hoth by done. by split.
    + intros k st' Hn Hs. destruct (decide (k = key)) as [->|Hne]; [|rewrite Hoth in Hs by done; congruence].
      rewrite Hn in Hown. destruct Hown as [?|(netns & rnd & st2 & Hat & Hc)]; [congruence|].
      assert (st2 = st') as -> by congruence. split; [done|]. apply (evolves_config _ _ Hc), group_wf_init.
    + intros m. rewrite Hrb, elem_of_app. rewrite Forall_forall in Hl. intros [?|Hm]; [by left|right; left; auto].
  - pose proof (udpgrm_setsockopt_outcome ctx w Ho) as H. rewrite E in H. clear E.
    inversion H as [w1 E1 _ E2|e w1 ? _ E2|w1 _ _ E2|data s st w1 _ _ E2|n s created st w1 _ _ Hp _ E2]; subst;
      try done.
    destruct (setsockopt_data_ok ctx n Hb) as [Hd Hl].
    eapply prepared_step; [exact Hp|]. eapply setsockopt_opt_step; [done|by eapply prepared_at|done|done|done|done].
Qed.
End SetsockoptStep.

(** ** The other programs and the daemon *)
Section Programs.
Context {K : Kernel} {L : KernelLaws} {H : Host} {B : BespokeDissector} {BL : BespokeLaws} {create : bool}.

Lemma prog_step_tick w : prog_step create w (tick w).
Proof. apply prog_step_logs, logs_only_tick. Qed.

Lemma getsockopt_step ctx w : prog_step create w (snd (udpgrm_getsockopt ctx w)).
Proof.
  unfold udpgrm_getsockopt, empty_percpu_page. repeat case_match; simplify_eq; cbn [snd];
    first [reflexivity|apply prog_step_tick].
Qed.

Lemma bind_step ctx w : prog_step create w (snd (_bpf_bind ctx w)).
Proof.
  unfold _bpf_bind. do 2 (case_match; [reflexivity|]). case_match; [|reflexivity]. case_match; [reflexivity|].
  unfold sk_storage_get_create. destruct (bpf_map_lookup_elem (w_socks w) _) as [s|].
  { by apply prog_step_aux. }
  destruct (bpf_map_update_elem _ _ _ _) as [m r]. set (w1 := set_socks m w).
  assert (prog_step create w w1) as Hw1 by by apply prog_step_aux.
  case_match; (etrans; [exact Hw1|]); [by apply prog_step_aux|apply prog_step_logs, logs_only_printf].
Qed.

(** Storage found, counters changed. *)
Lemma put_counters_step sk st st' w w1 :
  group_at w (_skey_from_bpf_sock sk) = Some st → logs_only w (set_flows (w_flows w) w1) → same_config st st' →
  prog_step create w (put_state sk st' w1).
Proof.
  intros Hst Hl Hc. etrans; [by apply prog_step_logs|].
  apply (prog_step_write (_skey_from_bpf_sock sk) _ _ st st'); [|done|done|by apply evolves_config].
  by rewrite (group_at_logs w).
Qed.

Lemma sendmsg_step ctx family w : prog_step create w (snd (_udp_sendmsg ctx family w)).
Proof.
  unfold _udp_sendmsg, get_state. destruct (bpf_map_lookup_elem (w_groups w) _) as [st|] eqn:Hst; [|reflexivity].
  case_match; [reflexivity|]. case_match; [|reflexivity].
  destruct (flow_assure _ _ _ w) as [[r st'] w1] eqn:Ef.
  apply flow_assure_spec in Ef as (t & -> & _ & _ & Hlog). eapply put_counters_step; [done|done|apply bump_config].
Qed.

Lemma packet_step md w : prog_step create w (snd (udpgrm_reuseport_prog md w)).
Proof.
  unfold udpgrm_reuseport_prog, get_state.
  destruct (bpf_map_lookup_elem (w_groups w) _) as [st|] eqn:Hst; [|reflexivity].
  pose proof (rx_state_ok md st w) as Hok. destruct (rx_state md st w) as [[res st'] w1].
  destruct Hok as (t & -> & Hlog & _). eapply put_counters_step; [done| |apply bump_config].
  destruct Hlog. by split.
Qed.

Lemma cb_update_map_step msg w : prog_step create w (snd (udpgrm_cb_update_map msg w)).
Proof.
  unfold udpgrm_cb_update_map. case_match; [reflexivity|].
  destruct (bpf_map_lookup_elem (w_groups w) (msg_skey msg)) as [st|] eqn:Hst; [|reflexivity].
  assert (∀ st', evolves st st' →
    prog_step create w (set_groups (map_value_write (w_groups w) (msg_skey msg) st') w)) as Hput.
  { intros st' Hev. by apply (prog_step_write (msg_skey msg) _ _ st st'). }
  repeat case_match; cbn [snd]; try reflexivity; apply Hput; try (apply evolves_config; by eexists).
  apply evolves_cookie_slot; apply Z.mod_pos_bound; done.
Qed.

Lemma run_cb_update_map_step msg w w' : run_cb_update_map msg w = Done w' → prog_step create w w'.
Proof.
  unfold run_cb_update_map. pose proof (cb_update_map_step msg (tick w)) as Hs.
  destruct (udpgrm_cb_update_map msg (tick w)) as [r w1]. case_match; [done|]. intros [= <-].
  etrans; [apply prog_step_tick|done].
Qed.

Lemma metric_incr_critical_step k c g w w' : metric_incr_critical k c g w = Done w' → prog_step create w w'.
Proof.
  unfold metric_incr_critical. destruct (run_cb_update_map _ w) as [w1|] eqn:E1; [|done]. cbn [obind].
  apply run_cb_update_map_step in E1. case_match.
  - intros E2. etrans; [done|]. by eapply run_cb_update_map_step.
  - by intros [= <-].
Qed.

Lemma register_socket_step st k c g a f sk s d w d' w' :
  register_socket st k c g a f sk s d w = Done (d', w') → prog_step create w w'.
Proof.
  unfold register_socket. destruct (TO_WRK_GEN _ _ _) as [gen|]; [|done].
  destruct (cookies_find_empty _ _ _ _) as [[? free] len]. case_match.
  { case_match; [|done]. intros [= _ <-]. apply prog_step_tick. }
  destruct (bpf_map_update_elem (w_sockhash w) _ _ _) as [h r]. case_match; [done|].
  destruct (tubular_maybe_preserve_fd _ _ _ _ _ _ _) as [close_fd d1].
  destruct (run_cb_update_map _ _) as [w1|] eqn:E1; [|done]. cbn [obind].
  apply run_cb_update_map_step in E1.
  destruct (bpf_map_update_elem (w_socks w1) _ _ _) as [m r2]. case_match; [done|].
  case_match; [|done]. intros [= _ <-].
  etrans; [|etrans; [exact E1|]]; by apply prog_step_aux.
Qed.

Lemma handle_msg_step path e d w d' w' : handle_msg path e d w = Done (d', w') → prog_step create w w'.
Proof.
  unfold handle_msg. destruct (bpf_map_lookup_elem (w_groups w) _) as [st|]; [|case_match; [|done]; by intros [= _ <-]].
  case_match; [|case_match; [|by intros [= _ <-]]]; destruct (m_body e); try done.
  - unfold handle_register_socket. case_match; [|intros [= _ <-]; apply prog_step_tick].
    case_match. case_match.
    + case_match; [|done]. case_match; [|done]. intros E. etrans; [apply prog_step_tick|by eapply register_socket_step].
    + destruct (metric_incr_critical _ _ _ _) eqn:Em; [|done]. intros [= _ <-].
      etrans; [apply prog_step_tick|by eapply metric_incr_critical_step].
  - unfold handle_working_gen. case_match.
    case_match; (destruct (metric_incr_critical _ _ _ _) eqn:Em; [|done]); intros [= _ <-];
      (etrans; [apply prog_step_tick|by eapply metric_incr_critical_step]).
Qed.

Lemma handle_msgs_step path l d w d' w' : handle_msgs path l d w = Done (d', w') → prog_step create w w'.
Proof.
  revert d w. induction l as [|e l IH]; intros d w; cbn [handle_msgs]; [by intros [= _ <-]|].
  destruct (handle_msg path e d w) as [[d1 w1]|] eqn:E; [|done]. cbn [obind fst snd]. intros E'.
  etrans; [by eapply handle_msg_step|by eapply IH].
Qed.

Lemma drained_step w : prog_step create w (set_rb [] w).
Proof.
  split; [intros k st Hst; exists st; by split|intros k st Hn Hs; change (group_at w k = Some st) in Hs; congruence|].
  intros m Hm. by apply not_elem_of_nil in Hm.
Qed.
Lemma consume_step path d w d' w' : ring_buffer_consume path d w = Done (d', w') → prog_step create w w'.
Proof. intros E. etrans; [apply drained_step|by eapply handle_msgs_step]. Qed.

End Programs.

Section Invariants.
Context {K : Kernel} {L : KernelLaws} {H : Host} {B : BespokeDissector} {BL : BespokeLaws}.

Lemma step_prog s s' : step s s' → prog_step true (fst s) (fst s').
Proof.
  intros []; cbn [fst].
  - by apply setsockopt_step.
  - apply getsockopt_step.
  - apply bind_step.
  - apply sendmsg_step.
  - apply packet_step.
  - by eapply consume_step.
  - reflexivity.
  - match goal with He : env_step _ _ |- _ => destruct He end. by apply prog_step_aux.
Qed.

Lemma steps_prog s s' : rtc step s s' → prog_step true (fst s) (fst s').
Proof. induction 1; [reflexivity|]. etrans; [by apply step_prog|done]. Qed.

(** ** Invariants *)
Definition groups_wf (w : world) : Prop := ∀ k st, group_at w k = Some st → group_wf st.
Definition ring_ok (w : world) : Prop := ∀ m, m ∈ w_rb w → queued w m.

Lemma prog_step_groups_wf c w w' : prog_step c w w' → groups_wf w → groups_wf w'.
Proof.
  intros [Ho Hn _] Hw k st' Hst'. destruct (group_at w k) as [st|] eqn:Hst; [|by eapply Hn].
  destruct (Ho _ _ Hst) as (st2 & E2 & _ & Hwf). rewrite Hst' in E2. injection E2 as <-. eauto.
Qed.
Lemma prog_step_ring_ok c w w' : prog_step c w w' → ring_ok w → ring_ok w'.
Proof.
  intros Hs Hw m Hm. destruct (ps_rb _ _ _ Hs m Hm) as [?|?]; [|done]. eapply queued_mono; [done|auto].
Qed.
Lemma initial_ok s : initial s → groups_wf (fst s) ∧ ring_ok (fst s).
Proof.
  intros [Hg Hr]. split; [intros k st Hst; by rewrite Hg in Hst|].
  intros m. rewrite Hr. intros Hm. by apply not_elem_of_nil in Hm.
Qed.

Lemma reachable_wf s : reachable s → groups_wf (fst s).
Proof.
  intros (s0 & Hi & Hs). apply initial_ok in Hi as [Hi _].
  induction Hs as [|s0 s1 s Hst Hs IH]; [done|]. apply IH. destruct Hst as [Hst|Hd].
  - eapply prog_step_groups_wf; [by apply step_prog|done].
  - inversion Hd as [ss w d w' E]; subst. cbn [fst] in *. unfold cmd_delete in E.
    destruct (bpf_map_lookup_elem _ _); [|done].
    destruct (bpf_map_delete_elem (w_groups w) _) as [gm ret] eqn:Ed. case_match; [done|].
    injection E as <-. intros k' st Hst. apply (Hi k'). revert Hst. unfold group_at. cbn [w_groups set_groups].
    destruct (decide (k' = skey_from_ss ss)) as [->|Hne].
    + by rewrite (map_delete_ok (exact := true) _ _ _ _ Ed).
    + by rewrite (map_delete_other (exact := true) _ _ _ _ _ Ed Hne).
Qed.

(** ** The ends of the daemon *)

(** A log message that the daemon takes for something else: [log_printf] leaves the type
    and the key of the memory it reserved as they were, and the daemon ends on a message
    of another type whose key is no group's, and reads the wrong member of the union when
    the type is that of a registration or of a working generation. *)
Definition misread (w : world) (e : msg_value) : Prop :=
  is_log e ∧ m_type e ≠ MSG_LOG ∧
  (group_at w (m_skey e) = None ∨ m_type e = MSG_REGISTER_SOCKET ∨ m_type e = MSG_SET_WORKING_GEN).
(** A registration in a bespoke group that was given more applications than there are
    generations. *)
Definition overcommitted (w : world) (e : msg_value) : Prop :=
  (∃ pid c g a, m_body e = M_reg pid c g a) ∧
  ∃ st, group_at w (m_skey e) = Some st ∧
    DISSECTOR_TYPE (dis_type (dis st)) = DISSECTOR_BESPOKE ∧ MAX_GENS < dis_max_apps (dis st).

(** Why the daemon ends with [s] on the message [e]. *)
Inductive stops_at (w : world) (e : msg_value) : stop → Prop :=
  | Stops_no_group : misread w e → group_at w (m_skey e) = None → stops_at w e Exit_error
  | Stops_union : misread w e → is_Some (group_at w (m_skey e)) → stops_at w e Bad_union
  | Stops_division : overcommitted w e → stops_at w e Div_by_zero
  | Stops_call : ¬ is_log e → is_Some (group_at w (m_skey e)) → stops_at w e Exit_error.

Lemma valid_max_apps st :
  group_wf st → (0 <= dis_max_apps (dis st) <= MAX_GENS) ∨
    (DISSECTOR_TYPE (dis_type (dis st)) = DISSECTOR_BESPOKE ∧ MAX_GENS < dis_max_apps (dis st)).
Proof.
  intros [[_ Hb] _ Hv _ _ _]. assert (0 <= dis_max_apps (dis st)) as H0 by by apply (load_range 4).
  unfold dissector_invalid in Hv. revert Hv. unfold MAX_APPS, MAX_GENS in *.
  destruct (Z.eqb_spec (DISSECTOR_TYPE (dis_type (dis st))) DISSECTOR_FLOW); [lia|].
  destruct (Z.eqb_spec (DISSECTOR_TYPE (dis_type (dis st))) DISSECTOR_CBPF); [lia|].
  destruct (Z.eqb_spec (DISSECTOR_TYPE (dis_type (dis st))) DISSECTOR_BESPOKE) as [Eb|].
  { intros _. destruct (Z.leb_spec (dis_max_apps (dis st)) 32); [by left|by right]. }
  destruct (Z.eqb_spec (DISSECTOR_TYPE (dis_type (dis st))) DISSECTOR_NOOP); [lia|done].
Qed.

(** What the daemon does to the groups leaves the causes as they are. *)
Lemma stops_at_mono w w' e s : prog_step false w w' → stops_at w' e s → stops_at w e s.
Proof.
  intros [Ho Hn _].
  assert (∀ k, group_at w' k = None → group_at w k = None) as Hnone.
  { intros k E. destruct (group_at w k) as [st|] eqn:Hst; [|done]. destruct (Ho _ _ Hst) as (? & ? & _). congruence. }
  assert (∀ k st', group_at w' k = Some st' → ∃ st, group_at w k = Some st ∧ dis st' = dis st) as Hsome.
  { intros k st' E. destruct (group_at w k) as [st|] eqn:Hst; [|by destruct (Hn k st')].
    destruct (Ho _ _ Hst) as (st2 & E2 & [Hd _] & _). exists st. split; congruence. }
  assert (misread w' e → misread w e) as Hm.
  { intros (? & ? & [?|?]); split_and!; [done|done|left; auto|done|done|by right]. }
  intros [Hmis Hg|Hmis [st' Hg]|[Hb (st' & Hg & Ht & Hx)]|? [st' Hg]].
  - apply Stops_no_group; auto.
  - destruct (Hsome _ _ Hg) as (st & ? & _). apply Stops_union; [auto|by eexists].
  - destruct (Hsome _ _ Hg) as (st & ? & Ed). rewrite Ed in Ht, Hx. apply Stops_division. split; [done|].
    by exists st.
  - destruct (Hsome _ _ Hg) as (st & ? & _). apply Stops_call; [done|by eexists].
Qed.

Lemma TO_WRK_GEN_total m a g : 0 <= m <= MAX_GENS → is_Some (TO_WRK_GEN m a g).
Proof.
  intros Hm. unfold TO_WRK_GEN, MAX_GENS in *. set (x := if m =? 0 then 1 else m).
  assert (1 <= x <= 32) as Hx by (subst x; case_match; lia).
  assert (1 <= 32 / x) as Hd by (apply Z.div_le_lower_bound; lia).
  replace (32 / x =? 0) with false by lia. by eexists.
Qed.

Lemma run_cb_update_map_stop msg w s : run_cb_update_map msg w = Stop s → s = Exit_error.
Proof. unfold run_cb_update_map. case_match. case_match; [by intros [= <-]|done]. Qed.
Lemma metric_incr_critical_stop k c g w s : metric_incr_critical k c g w = Stop s → s = Exit_error.
Proof.
  unfold metric_incr_critical. destruct (run_cb_update_map _ w) as [w1|] eqn:E1; cbn [obind].
  - case_match; [apply run_cb_update_map_stop|done].
  - intros [= <-]. by eapply run_cb_update_map_stop.
Qed.

Lemma register_socket_stop st k c g a f sk s d w e :
  0 <= dis_max_apps (dis st) <= MAX_GENS → register_socket st k c g a f sk s d w = Stop e → e = Exit_error.
Proof.
  intros Hm. unfold register_socket. destruct (TO_WRK_GEN_total _ a g Hm) as [gen ->].
  destruct (cookies_find_empty _ _ _ _) as [[? free] len].
  case_match; [case_match; [done|by intros [= <-]]|].
  destruct (bpf_map_update_elem (w_sockhash w) _ _ _) as [h r]. case_match; [by intros [= <-]|].
  destruct (tubular_maybe_preserve_fd _ _ _ _ _ _ _) as [close_fd d1].
  destruct (run_cb_update_map _ _) as [w1|] eqn:E1; cbn [obind].
  2: { intros [= <-]. by eapply run_cb_update_map_stop. }
  destruct (bpf_map_update_elem (w_socks w1) _ _ _) as [m r2].
  case_match; [by intros [= <-]|]. case_match; [done|by intros [= <-]].
Qed.

Lemma known_not_log e : known_msg e → ¬ is_log e ∨ m_type e = MSG_SET_DISSECTOR.
Proof.
  intros [_ [[_ (? & ? & ? & ? & Hb)]|[[_ (? & ? & Hb)]|?]]]; [left|left|by right];
    intros (? & ? & ? & ? & ? & Hl & _); congruence.
Qed.

Lemma handle_known_stop path e d w s st :
  group_wf st → group_at w (m_skey e) = Some st → known_msg e → handle_msg path e d w = Stop s →
  stops_at w e s.
Proof.
  intros Hwf Hst Hk E. destruct (known_not_log e Hk) as [Hnl|Ht].
  2: { unfold handle_msg in E. unfold group_at in Hst. rewrite Hst, Ht in E. done. }
  assert (is_Some (group_at w (m_skey e))) as Hsome by by eexists.
  cut (s = Exit_error ∨ (s = Div_by_zero ∧ overcommitted w e)).
  { intros [->|[-> ?]]; [by apply Stops_call|by apply Stops_division]. }
  revert E. unfold handle_msg. fold (group_at w (m_skey e)). rewrite Hst.
  destruct Hk as [_ [[-> (pid & c & g & a & Hb)]|[[-> (a & g & ->)]|Ht]]].
  - change (MSG_REGISTER_SOCKET =? MSG_REGISTER_SOCKET) with true. cbv iota. rewrite Hb. unfold handle_register_socket.
    case_match; [|done]. case_match. case_match.
    + case_match; [|by intros [= <-]; left]. case_match; [|by intros [= <-]; left].
      destruct (valid_max_apps st Hwf) as [Hm|[Ht Hm]].
      * intros E. left. by eapply register_socket_stop.
      * rewrite bespoke_max_apps_divides_by_zero by done. intros [= <-]. right. split; [done|].
        split; [by eexists _, _, _, _|by exists st].
    + destruct (metric_incr_critical _ _ _ _) eqn:Em; [done|]. intros [= <-]. left. by eapply metric_incr_critical_stop.
  - change (MSG_SET_WORKING_GEN =? MSG_REGISTER_SOCKET) with false.
    change (MSG_SET_WORKING_GEN =? MSG_SET_WORKING_GEN) with true. cbv iota. unfold handle_working_gen.
    case_match. case_match; (destruct (metric_incr_critical _ _ _ _) eqn:Em; [done|]); intros [= <-];
      left; by eapply metric_incr_critical_stop.
  - by rewrite Ht.
Qed.

(** The daemon on a log message, whatever its type reads as. *)
Lemma handle_log path e d w :
  is_log e →
  handle_msg path e d w = Done (d, w) ∧ ¬ misread w e ∨
  ∃ s, handle_msg path e d w = Stop s ∧ misread w e ∧ stops_at w e s.
Proof.
  intros Hl. pose proof Hl as (fmt & args & n & sz & k & Hb & _).
  unfold handle_msg. fold (group_at w (m_skey e)). destruct (group_at w (m_skey e)) as [st|] eqn:Hst.
  - assert (is_Some (group_at w (m_skey e))) as Hsome by by eexists.
    destruct (Z.eqb_spec (m_type e) MSG_REGISTER_SOCKET) as [Er|Hr].
    { right. exists Bad_union. rewrite Hb. assert (misread w e) as Hm by (split_and!; [done|by rewrite Er|auto]).
      split_and!; [done|done|by apply Stops_union]. }
    destruct (Z.eqb_spec (m_type e) MSG_SET_WORKING_GEN) as [Ew|Hw].
    { right. exists Bad_union. rewrite Hb. assert (misread w e) as Hm by (split_and!; [done|by rewrite Ew|auto]).
      split_and!; [done|done|by apply Stops_union]. }
    left. split; [done|]. intros (_ & _ & [?|[?|?]]); congruence.
  - destruct (Z.eqb_spec (m_type e) MSG_LOG) as [El|Hne].
    { left. split; [done|]. by intros (_ & ? & _). }
    right. exists Exit_error. assert (misread w e) as Hm by (split_and!; auto).
    split_and!; [done|done|by apply Stops_no_group].
Qed.

Lemma handle_msg_stop path e d w s :
  groups_wf w → queued w e → handle_msg path e d w = Stop s → stops_at w e s.
Proof.
  intros Hwf [Hl|[[st Hst] Hk]] E.
  - destruct (handle_log path e d w Hl) as [[E' _]|(s' & E' & _ & ?)]; [congruence|].
    assert (s = s') as -> by congruence. done.
  - by eapply handle_known_stop; [eapply Hwf|..].
Qed.
End Invariants.

(** ** The daemon handles what is queued *)
Section Drain.
Context {K : Kernel} {L : KernelLaws} {H : Host} {HL : HostLaws} {B : BespokeDissector} {BL : BespokeLaws}.

(** System calls of the daemon that do not depend on its input succeed. *)
Record healthy_host : Prop := {
  hh_attach : ∀ n f, attach_reuseport_ok n f = true;
  hh_test_run : ∀ n, test_run_ok n = true;
  hh_sockhash : ∀ (m : sockhash_map) c sk, let r := snd (bpf_map_update_elem m c sk BPF_NOEXIST) in r = 0 ∨ r = - EEXIST;
  hh_socks : ∀ (m : sock_map) id s, is_Some (bpf_map_lookup_elem m id) → snd (bpf_map_update_elem m id s BPF_EXIST) = 0;
}.
(** A socket that a registration names, if its process still has it, has its storage. *)
Definition storages (l : list msg_value) (w : world) : Prop :=
  ∀ m pid c g a n proc i file, m ∈ l → m_body m = M_reg pid c g a → proc_files n pid = Some proc →
    proc i = Some file → fl_cookie file = Some c → is_Some (bpf_map_lookup_elem (w_socks w) (fl_sock file)).

Lemma run_msg_done msg w :
  healthy_host → List.length msg = 128%nat → is_Some (group_at w (msg_skey msg)) →
  msg_type msg ∈ [GSM_SET_COOKIES; GSM_SET_SOCKET_CRITICAL_GAUGE; GSM_INCR_SOCKET_CRITICAL] →
  ∃ w', run_cb_update_map msg w = Done w' ∧ w_socks w' = w_socks w.
Proof.
  intros Hh Hl [st Hst] Ht. unfold run_cb_update_map, udpgrm_cb_update_map. rewrite Hl, (hh_test_run Hh).
  change (Z.of_nat 128 <? MSG_SZ) with false. cbv iota zeta. unfold group_at in Hst. cbn [w_groups tick].
  rewrite Hst. repeat (apply elem_of_cons in Ht as [->|Ht]; [by eexists|]). by apply not_elem_of_nil in Ht.
Qed.

Lemma metric_incr_critical_done k c g w :
  healthy_host → skey_ok k → is_Some (group_at w k) →
  ∃ w', metric_incr_critical k c g w = Done w' ∧ w_socks w' = w_socks w.
Proof.
  intros Hh Hk Hst. unfold metric_incr_critical.
  destruct (value_msg_decode GSM_SET_SOCKET_CRITICAL_GAUGE k g Hk) as (Hl & Ht & Hsk & _); [by vm_compute|].
  destruct (run_msg_done (value_msg GSM_SET_SOCKET_CRITICAL_GAUGE k g) w) as (w1 & E1 & S1);
    [done|done|by rewrite Hsk|rewrite Ht; set_solver|].
  rewrite E1. cbn [obind]. case_match; [|by exists w1]. rewrite <- S1.
  destruct (value_msg_decode GSM_INCR_SOCKET_CRITICAL k c Hk) as (Hl' & Ht' & Hsk' & _); [by vm_compute|].
  apply run_msg_done; [done|done| |rewrite Ht'; set_solver]. rewrite Hsk'. destruct Hst as [st Hst].
  destruct (ps_old _ _ _ (run_cb_update_map_step (create := false) _ _ _ E1) _ _ Hst) as (st' & ? & _). by eexists.
Qed.

(** Storages stay. *)
Definition socks_kept (w w' : world) : Prop :=
  ∀ id, is_Some (bpf_map_lookup_elem (w_socks w) id) → is_Some (bpf_map_lookup_elem (w_socks w') id).
Lemma socks_kept_eq w w' : w_socks w' = w_socks w → socks_kept w w'.
Proof. intros E id. by rewrite E. Qed.

Lemma run_cb_update_map_socks msg w w' : run_cb_update_map msg w = Done w' → w_socks w' = w_socks w.
Proof.
  unfold run_cb_update_map, udpgrm_cb_update_map. repeat (case_match; simplify_eq; try done); by intros [= <-].
Qed.
Lemma metric_incr_critical_socks k c g w w' : metric_incr_critical k c g w = Done w' → w_socks w' = w_socks w.
Proof.
  unfold metric_incr_critical. destruct (run_cb_update_map _ w) as [w1|] eqn:E1; [|done]. cbn [obind].
  apply run_cb_update_map_socks in E1. case_match; [|congruence]. intros E2%run_cb_update_map_socks. congruence.
Qed.
Lemma register_socket_socks st k c g a f sk s d w d' w' :
  register_socket st k c g a f sk s d w = Done (d', w') → socks_kept w w'.
Proof.
  unfold register_socket. destruct (TO_WRK_GEN _ _ _) as [gen|]; [|done].
  destruct (cookies_find_empty _ _ _ _) as [[? free] len].
  case_match; [case_match; [|done]; intros [= _ <-]; by apply socks_kept_eq|].
  destruct (bpf_map_update_elem (w_sockhash w) _ _ _) as [h r]. case_match; [done|].
  destruct (tubular_maybe_preserve_fd _ _ _ _ _ _ _) as [close_fd d1].
  destruct (run_cb_update_map _ _) as [w1|] eqn:E1; [|done]. cbn [obind].
  apply run_cb_update_map_socks in E1. cbn [w_socks tick set_sockhash] in E1. rewrite E1.
  destruct (bpf_map_update_elem (w_socks w) _ _ _) as [m r2] eqn:Em.
  destruct (Z.eqb_spec r2 0) as [->|]; [|done]. cbn [negb]. case_match; [|done]. intros [= _ <-] id Hid. cbn.
  destruct (decide (id = sk)) as [->|Hne].
  - rewrite (map_update_ok (exact := true) _ _ _ _ _ Em). by eexists.
  - by destruct (map_update_other (exact := true) _ _ _ _ _ _ id Em Hne) as [->|[? _]].
Qed.
Lemma handle_msg_socks path e d w d' w' : handle_msg path e d w = Done (d', w') → socks_kept w w'.
Proof.
  unfold handle_msg. case_match; [|case_match; [|done]; intros [= _ <-]; by apply socks_kept_eq].
  case_match; [|case_match; [|intros [= _ <-]; by apply socks_kept_eq]]; destruct (m_body e); try done.
  - unfold handle_register_socket. case_match; [|intros [= _ <-]; by apply socks_kept_eq]. case_match. case_match.
    + case_match; [|done]. case_match; [|done]. intros Er. exact (register_socket_socks _ _ _ _ _ _ _ _ _ (tick w) _ _ Er).
    + destruct (metric_incr_critical _ _ _ _) eqn:Em; [|done]. intros [= _ <-].
      by apply socks_kept_eq, (metric_incr_critical_socks _ _ _ _ _ Em).
  - unfold handle_working_gen. case_match.
    case_match; (destruct (metric_incr_critical _ _ _ _) eqn:Em; [|done]); intros [= _ <-];
      by apply socks_kept_eq, (metric_incr_critical_socks _ _ _ _ _ Em).
Qed.

Lemma register_socket_done st k c g a f sk s d w :
  healthy_host → skey_ok k → is_Some (group_at w k) → 0 <= dis_max_apps (dis st) <= MAX_GENS →
  is_Some (bpf_map_lookup_elem (w_socks w) sk) → ∃ p, register_socket st k c g a f sk s d w = Done p.
Proof.
  intros Hh Hk Hst Hm Hs. unfold register_socket. destruct (TO_WRK_GEN_total _ a g Hm) as [gen ->].
  destruct (cookies_find_empty _ _ _ _) as [[? free] len].
  case_match; [rewrite (hh_attach Hh); by eexists|].
  pose proof (hh_sockhash Hh (w_sockhash w) c sk) as Hr.
  destruct (bpf_map_update_elem (w_sockhash w) _ _ _) as [h r]. cbn in Hr.
  replace (negb (r =? 0) && negb (r =? - EEXIST)) with false by (destruct Hr as [->| ->]; reflexivity).
  destruct (tubular_maybe_preserve_fd _ _ _ _ _ _ _) as [close_fd d1].
  destruct (cookies_msg_decode k gen free len c Hk) as (Hl & Ht & Hsk & _).
  destruct (run_msg_done (cookies_msg k gen free len c) (tick (set_sockhash h w))) as (w1 & E1 & S1);
    [done|done|by rewrite Hsk|rewrite Ht; constructor|].
  rewrite E1. cbn [obind]. cbn [w_socks tick set_sockhash] in S1. rewrite S1.
  pose proof (hh_socks Hh (w_socks w) sk (mk_sock (sock_gen s) free (sock_app s) (so_cookie s) (so_netns_cookie s)) Hs) as Hr2.
  destruct (bpf_map_update_elem (w_socks w) _ _ _) as [m r2] eqn:Em. cbn in Hr2. subst r2.
  cbn [Z.eqb negb]. rewrite (hh_attach Hh). by eexists.
Qed.

Lemma handle_register_done st k pid c g a d w :
  healthy_host → skey_ok k → is_Some (group_at w k) → 0 <= dis_max_apps (dis st) <= MAX_GENS →
  (∀ n proc i file, proc_files n pid = Some proc → proc i = Some file → fl_cookie file = Some c →
     is_Some (bpf_map_lookup_elem (w_socks w) (fl_sock file))) →
  ∃ p, handle_register_socket st k pid c g a d w = Done p.
Proof.
  intros Hh Hk Hst Hm Hs. unfold handle_register_socket.
  destruct (proc_files (w_tick w) pid) as [proc|] eqn:Ep; [|by eexists].
  destruct (pidfd_find_socket _ _ _ _ _ _ _) as [f t] eqn:Ef.
  apply pidfd_find_socket_found in Ef as [[-> ->]|(i & file & _ & Hi & Hmatch & _ & _ & Hf & ->)].
  - destruct (metric_incr_critical_done k 1 1 (tick w) Hh Hk Hst) as (w1 & E1 & _).
    cbn [Z.leb Z.compare]. rewrite E1. by eexists.
  - replace (0 <=? f) with true by lia. cbn [d_fds set_d_fds]. rewrite lookup_insert_eq.
    assert (fl_cookie file = Some c) as Hc.
    { unfold socket_match in Hmatch. repeat (case_match; [done|]). unfold answers in Hmatch.
      destruct (fl_cookie file) as [c'|]; [|done]. by apply Z.eqb_eq in Hmatch as ->. }
    destruct (Hs _ _ _ _ Ep Hi Hc) as [s Hsk]. cbn [w_socks tick]. rewrite Hsk.
    apply (register_socket_done _ _ _ _ _ _ _ _ _ (tick w)); done.
Qed.

(** On a healthy host only the two causes are left. *)
Lemma handle_msg_done path e d w :
  healthy_host → groups_wf w → queued w e → storages [e] w →
  (∃ p, handle_msg path e d w = Done p) ∨ misread w e ∨ overcommitted w e.
Proof.
  intros Hh Hwf [Hl|[[st Hst] [Hk Hb]]] Hs.
  { destruct (handle_log path e d w Hl) as [[-> _]|(s & _ & ? & _)]; [left; by eexists|by right; left]. }
  unfold handle_msg. fold (group_at w (m_skey e)).
  assert (is_Some (group_at w (m_skey e))) as Hsome by by eexists. rewrite Hst.
  destruct Hb as [[-> (pid & c & g & a & Hb)]|[[-> (a & g & Hb)]|Ht]].
  - change (MSG_REGISTER_SOCKET =? MSG_REGISTER_SOCKET) with true. cbv iota. rewrite Hb.
    destruct (valid_max_apps st) as [Hx|[Ht Hx]]; [by eapply Hwf| |].
    + left. apply handle_register_done; [done..|].
      intros n proc i file. by apply (Hs e pid c g a); [apply elem_of_cons; left|].
    + right; right. split; [by eexists _, _, _, _|by exists st].
  - change (MSG_SET_WORKING_GEN =? MSG_REGISTER_SOCKET) with false.
    change (MSG_SET_WORKING_GEN =? MSG_SET_WORKING_GEN) with true. cbv iota. rewrite Hb. unfold handle_working_gen.
    destruct (tubular_maybe_register _ _ _ _ _) as [err d1]. left.
    case_match; [destruct (metric_incr_critical_done (m_skey e) 1 1 (tick w) Hh Hk Hsome) as (w1 & -> & S1)
      |destruct (metric_incr_critical_done (m_skey e) 0 0 (tick w) Hh Hk Hsome) as (w1 & -> & S1)];
      by eexists.
  - left. rewrite Ht. by eexists.
Qed.

Lemma storages_kept l l' w w' : socks_kept w w' → (∀ m, m ∈ l' → m ∈ l) → storages l w → storages l' w'.
Proof. intros Hk Hl Hs m pid c g a n proc i file Hm Hb Hp Hi Hc. apply Hk. eapply (Hs m); eauto. Qed.

Lemma handle_msgs_outcome path l d w :
  groups_wf w → (∀ m, m ∈ l → queued w m) →
  (∃ d' w', handle_msgs path l d w = Done (d', w') ∧ ∀ e, e ∈ l → ¬ misread w e) ∨
  ∃ l1 e l2 s d1 w1, l = l1 ++ e :: l2 ∧ handle_msgs path l1 d w = Done (d1, w1) ∧
    handle_msg path e d1 w1 = Stop s ∧ handle_msgs path l d w = Stop s ∧ stops_at w e s ∧
    (∀ m, m ∈ l1 → ¬ misread w m) ∧
    (healthy_host → storages l w → misread w e ∨ overcommitted w e).
Proof.
  revert d w. induction l as [|e l IH]; intros d w Hwf Hq.
  { left. exists d, w. split; [done|]. by intros e ?%not_elem_of_nil. }
  cbn [handle_msgs]. assert (queued w e) as Hqe by (apply Hq, elem_of_cons; by left).
  destruct (handle_msg path e d w) as [[d1 w1]|s] eqn:E; cbn [obind fst snd].
  - pose proof (handle_msg_step (create := false) _ _ _ _ _ _ E) as Hst.
    assert (∀ m, m ∈ l → queued w1 m) as Hq1.
    { intros m Hm. eapply queued_mono; [done|]. apply Hq, elem_of_cons. by right. }
    assert (¬ misread w e) as Hne.
    { intros Hm. pose proof Hm as [Hl _]. destruct (handle_log path e d w Hl) as [[_ ?]|(s & ? & _)]; congruence. }
    assert (∀ m, misread w m → misread w1 m) as Hmono.
    { intros m (? & ? & [Hg|?]); split_and!; [done|done| |done|done|by right]. left.
      destruct (group_at w1 (m_skey m)) as [st|] eqn:Hst1; [|done]. by destruct (ps_new _ _ _ Hst _ _ Hg Hst1). }
    destruct (IH d1 w1) as [(d' & w' & E' & Hn)|(l1 & e2 & l2 & s & d2 & w2 & -> & E1 & E2 & Es & Hc & Hn & Hh)].
    { by eapply prog_step_groups_wf. } { done. }
    + left. exists d', w'. split; [done|]. intros m [->|Hm]%elem_of_cons; [done|]. intros Hmm. by eapply Hn, Hmono.
    + right. exists (e :: l1), e2, l2, s, d2, w2. cbn [handle_msgs app]. rewrite E. cbn [obind fst snd].
      split_and!; [done..|by eapply stops_at_mono| |].
      * intros m [->|Hm]%elem_of_cons; [done|]. intros Hmm. by eapply Hn, Hmono.
      * intros Hhost Hs. destruct (stops_at_mono w w1 e2 s Hst Hc) as [| | |Hnl Hsome]; [by left|by left|by right|].
        destruct Hh as [Hm|Hm]; [done| | |].
        -- eapply storages_kept; [by eapply handle_msg_socks| |done]. intros m Hm. apply elem_of_cons. by right.
        -- left. by destruct Hm.
        -- right. destruct Hm as [Hb (st' & Hg & Ht & Hx)]. split; [done|].
           destruct (group_at w (m_skey e2)) as [st|] eqn:Hg0; [|by destruct Hsome].
           destruct (ps_old _ _ _ Hst _ _ Hg0) as (st2 & Hg2 & [Hd _] & _). assert (st2 = st') as -> by congruence.
           exists st. by rewrite <- Hd.
  - right. exists [], e, l, s, d, w. assert (stops_at w e s) as Hc by by eapply handle_msg_stop.
    split_and!; [done..| |].
    + by intros m ?%not_elem_of_nil.
    + intros Hh Hs. destruct (handle_msg_done path e d w Hh Hwf Hqe) as [[p Hp]|?]; [|congruence|done].
      eapply (storages_kept (e :: l) [e] w); [by intros ?| |done].
      intros m [->|?%not_elem_of_nil]%elem_of_cons; [|done]. apply elem_of_cons. by left.
Qed.
End Drain.

(** ** No packet meets an unknown dissector *)
Section KnownType.
Context {K : Kernel} {L : KernelLaws} {H : Host} {B : BespokeDissector} {BL : BespokeLaws}.

Lemma valid_known_type d : dissector_invalid d = false → known_type (DISSECTOR_TYPE (dis_type d)) = true.
Proof.
  unfold dissector_invalid, known_type. cbv zeta. repeat (case_match; [done|]). done.
Qed.

Lemma bump_notin t st m : m ∉ t → metrics (bump t st) m = metrics st m.
Proof.
  induction t as [|x t IH]; [done|]. rewrite not_elem_of_cons. intros [Hne Hnot].
  cbn [bump foldr]. unfold METRIC_INC at 1, fetch_and_add. cbn [metrics set_metrics].
  rewrite fn_lookup_insert_ne by done. by apply IH.
Qed.

Lemma second_incs_errors t sel : second_incs t sel → rx_internal_state_error ∉ t.
Proof.
  assert (∀ l : list metric, bool_decide (rx_internal_state_error ∈ l) = false → rx_internal_state_error ∉ l) as Hdec.
  { intros l. by case_bool_decide. }
  intros [[-> _]|(t3 & t2 & -> & H3 & H2)]; apply Hdec; [done|].
  destruct H3 as [[-> _]|[-> _]]; repeat (apply elem_of_cons in H2 as [->|H2]; [done|]);
    by apply not_elem_of_nil in H2.
Qed.
Lemma first_incs_errors t sel : first_incs parse_errors t sel → rx_internal_state_error ∉ t ++ [rx_processed_total].
Proof.
  intros Hf. rewrite not_elem_of_app, not_elem_of_cons. split; [|split; [done|apply not_elem_of_nil]].
  destruct Hf as [(m & -> & Hm & _)|?]; [|by eapply second_incs_errors].
  rewrite not_elem_of_cons. split; [|apply not_elem_of_nil]. intros <-.
  repeat (apply elem_of_cons in Hm as [Hm|Hm]; [done|]). by apply not_elem_of_nil in Hm.
Qed.
End KnownType.


(** In every state reached by whole runs no packet takes the [default] case of the dissector
    switch: a run of the receive path leaves [rx_internal_state_error] as it was. *)
Theorem rx_internal_state_error_unreachable {K : Kernel} {L : KernelLaws} {H : Host}
  {B : BespokeDissector} {BL : BespokeLaws} md w d st :
  reachable (w, d) → group_at w (_skey_from_bpf_sock (md_sk md)) = Some st →
  ∃ st', group_at (snd (udpgrm_reuseport_prog md w)) (_skey_from_bpf_sock (md_sk md)) = Some st' ∧
    metrics st' rx_internal_state_error = metrics st rx_internal_state_error.
Proof.
  intros Hr Hst. rewrite (prog_unfold md w st Hst). pose proof (rx_state_errors md st w) as Hok.
  unfold rx_errors in Hok. rewrite valid_known_type in Hok by apply (reachable_wf _ Hr _ _ Hst).
  destruct (rx_state md st w) as [[res st'] w1]. destruct Hok as (t & -> & Hlog & Hf & _).
  exists (bump (t ++ [rx_processed_total]) st). split.
  - apply group_at_put_same. rewrite (group_at_logs w) by done. by eexists.
  - by eapply bump_notin, first_incs_errors.
Qed.



(** ** Evaluation: a socket is bound, gets a dissector, registers *)
Section Witnesses.
#[local] Existing Instance good_kernel.
#[local] Existing Instance good_host.
#[local] Existing Instance no_bespoke.

Definition bind_ctx : bpf_sock_addr :=
  mk_sock_addr example_sk AF_INET 1 (0, 0, 0, 0) 0x5111 IPPROTO_UDP 42 0 (Some 1).
Definition register_ctx : bpf_sockopt := set_ctx UDP_GRM_SOCKET_GEN (le_bytes 4 7).
Definition trace1 : world := snd (_bpf_bind bind_ctx empty_world).
Definition trace2 : world := snd (udpgrm_setsockopt fresh_ctx trace1).
Definition trace3 : world := snd (udpgrm_setsockopt register_ctx trace2).
Definition trace_key : reuseport_storage_key := _skey_from_bpf_sock example_sk.

Lemma bytes_ok_check l : forallb (λ b, (0 <=? b) && (b <? 256)) l = true → bytes_ok l.
Proof.
  intros Hl. rewrite forallb_forall in Hl. apply Forall_forall. intros x Hx.
  apply list_elem_of_In, Hl in Hx. unfold byte_ok. lia.
Qed.
Lemma trace_key_ok : skey_ok trace_key.
Proof. split; vm_compute; repeat split; (discriminate || reflexivity). Qed.
Lemma trace_initial : initial (empty_world, no_daemon).
Proof. split; [intros k; reflexivity|reflexivity]. Qed.
Lemma trace_steps : rtc step (empty_world, no_daemon) (trace3, no_daemon).
Proof.
  apply (rtc_l _ _ (trace1, no_daemon)); [apply S_bind|].
  apply (rtc_l _ _ (trace2, no_daemon)); [apply (S_setsockopt fresh_ctx)|].
  { apply bytes_ok_check. vm_compute. reflexivity. }
  { exact trace_key_ok. }
  apply (rtc_l _ _ (trace3, no_daemon)); [apply (S_setsockopt register_ctx)|reflexivity].
  { apply bytes_ok_check. vm_compute. reflexivity. }
  { exact trace_key_ok. }
Qed.
Lemma trace_reachable : reachable (trace3, no_daemon).
Proof.
  exists (empty_world, no_daemon). split; [exact trace_initial|].
  eapply rtc_subrel; [|exact trace_steps]. intros x y Hs. by left.
Qed.

(** The group of the trace and its storage. *)
Definition trace_group : reuseport_storage := from_option id empty_state (group_at trace3 trace_key).
Lemma trace_group_at : group_at trace3 trace_key = Some trace_group.
Proof.
  assert (bool_decide (is_Some (group_at trace3 trace_key)) = true) as Hs by (vm_compute; reflexivity).
  apply bool_decide_eq_true in Hs. unfold trace_group. by destruct Hs as [st ->].
Qed.
Definition group_keys (w : world) : gset reuseport_storage_key :=
  dom (w_groups w : gmap reuseport_storage_key reuseport_storage).
Lemma only_group (w : world) k0 k st : group_keys w = {[k0]} → group_at w k = Some st → k = k0.
Proof.
  intros Hd Hst. assert (k ∈ group_keys w) as Hk by (apply elem_of_dom; by exists st).
  rewrite Hd in Hk. by apply elem_of_singleton in Hk.
Qed.
Lemma trace_only_group k st : group_at trace3 k = Some st → k = trace_key ∧ st = trace_group.
Proof.
  intros Hst. assert (bool_decide (group_keys trace3 = {[trace_key]}) = true) as Hd by (vm_compute; reflexivity).
  apply bool_decide_eq_true in Hd. assert (k = trace_key) as -> by exact (only_group _ _ _ _ Hd Hst).
  split; [reflexivity|]. apply (inj Some). rewrite <- Hst. exact trace_group_at.
Qed.


Lemma rx_internal_state_error_unreachable_witness :
  ∃ st', group_at (snd (udpgrm_reuseport_prog example_md trace3)) trace_key = Some st' ∧
    metrics st' rx_internal_state_error = metrics trace_group rx_internal_state_error.
Proof.
  pose proof (rx_internal_state_error_unreachable example_md trace3 no_daemon trace_group trace_reachable
    trace_group_at) as Hw. exact Hw.
Defined.

Definition trace2_group : reuseport_storage := from_option id empty_state (group_at trace2 trace_key).
Lemma trace2_group_at : group_at trace2 trace_key = Some trace2_group.
Proof.
  assert (bool_decide (is_Some (group_at trace2 trace_key)) = true) as Hs by (vm_compute; reflexivity).
  apply bool_decide_eq_true in Hs. unfold trace2_group. by destruct Hs as [st ->].
Qed.
Lemma trace_tail : rtc step (trace2, no_daemon) (trace3, no_daemon).
Proof.
  apply (rtc_l _ _ (trace3, no_daemon)); [apply (S_setsockopt register_ctx)|reflexivity].
  { apply bytes_ok_check. vm_compute. reflexivity. }
  { exact trace_key_ok. }
Qed.

Lemma trace_log_type m : is_log m → m_type m = MSG_LOG.
Proof. intros (fmt & args & n & sz & k & _ & [= <- _]). reflexivity. Qed.
Lemma trace_not_misread m : ¬ misread trace3 m.
Proof. intros (Hl & Ht & _). by apply Ht, trace_log_type. Qed.
Lemma trace_not_overcommitted m : ¬ overcommitted trace3 m.
Proof.
  intros (_ & st & Hst & Ht & _). apply trace_only_group in Hst as [_ ->]. revert Ht. vm_compute. discriminate.
Qed.
Lemma trace_healthy : healthy_host.
Proof.
  split; [done|done| |].
  - intros m c sk. cbn. destruct ((m : gmap Z Z) !! c); cbn; [by right|]. destruct (Z.of_nat _ <? 0); by left.
  - intros m id s [x Hx]. cbn in *. by rewrite Hx.
Qed.
Lemma trace_storages l : storages l trace3.
Proof.
  intros m pid c g a n proc i file _ _ Hp Hi Hc. cbn in Hp. destruct (pid =? 99); [|done].
  injection Hp as <-. destruct (i =? 3); [|done]. injection Hi as <-.
  assert (bool_decide (is_Some (bpf_map_lookup_elem (w_socks trace3) 1)) = true) as Hs by (vm_compute; reflexivity).
  by apply bool_decide_eq_true in Hs.
Qed.

End Witnesses.
