(* ===== verification/Handover.v ===== *)
(** A service restart, end to end: the calls of the new instance on its sockets
    (the registration part of [tools/udpgrm_activate.py]: UDP_GRM_SOCKET_GEN on each,
    polling, UDP_GRM_WORKING_GEN), the daemon, and everything else that goes on
    meanwhile, composed from [Hooks], [Flow], [Reuseport] and [Daemon].

    [hstep] is one run of one program; the theorems say where packets go in every
    state of the hand-over. *)

From S2P Require Import Prelude Cookie SipHash Storage Cbpf Dissector Reuseport Flow Hooks Host Daemon System.
From stdpp Require Import relations.
Open Scope Z_scope.

(** A socket of the new instance: the socket, its process, its cookie. *)
Record newsock := mk_newsock { ns_sk : bpf_sock; ns_pid : Z; ns_cookie : Z }.
#[export] Instance bpf_sock_eq_dec : EqDecision bpf_sock.
Proof. solve_decision. Defined.
#[export] Instance newsock_eq_dec : EqDecision newsock.
Proof. solve_decision. Defined.
Definition ns_id (n : newsock) : Z := bs_id (ns_sk n).

(** [sd.setsockopt(IPPROTO_UDP, optname, value)] and
    [sd.getsockopt(IPPROTO_UDP, UDP_GRM_SOCKET_GEN, 8)], as the hooks see them. *)
Definition set_call (n : newsock) (optname value : Z) : bpf_sockopt :=
  mk_sockopt (ns_sk n) IPPROTO_UDP optname 4 (le_bytes 4 value) 0 (ns_pid n).
Definition poll_call (n : newsock) : bpf_sockopt :=
  mk_sockopt (ns_sk n) IPPROTO_UDP UDP_GRM_SOCKET_GEN 8 (zeros 8) (- ENOPROTOOPT) (ns_pid n).

(** Who has registered, whose registration was seen, whether the working generation
    was set, and the state of the system. *)
Record handover {K : Kernel} := mk_handover {
  ho_called : list newsock;
  ho_seen : list newsock;
  ho_switched : bool;
  ho_world : world;
  ho_daemon : daemon;
}.

#[local] Ltac cbn_ho := cbn [ho_called ho_seen ho_switched ho_world ho_daemon].
#[local] Tactic Notation "cbn_ho" "in" "*" := cbn [ho_called ho_seen ho_switched ho_world ho_daemon] in *.

Section Handover.
Context {K : Kernel} {L : KernelLaws} {H : Host} {HL : HostLaws} {B : BespokeDissector} {BL : BespokeLaws}.
(** The group and its storage before, the new sockets, their generation and
    application, and the slot of the generation. *)
Context (key : reuseport_storage_key) (st0 : reuseport_storage).
Context (news : list newsock) (gen app slot : Z).

(** A cookie that is neither a new socket's nor left over in the slot. *)
Definition foreign (c : Z) : Prop :=
  (∀ n, n ∈ news → ns_cookie n ≠ c) ∧ ∀ i, 0 <= i < MAX_SOCKETS_IN_GEN → cookie_at st0 slot i ≠ c.

(** Another slot than that of the new generation. *)
Definition beyond (a g : Z) : Prop :=
  ∃ sl, TO_WRK_GEN (dis_max_apps (dis st0)) a g = Some sl ∧ 0 <= sl < MAX_GENS ∧ sl ≠ slot.
(** A call on the group by a socket that has no part in the hand-over: it does not set the
    working generation of the same application, nor register for the slot that the new
    sockets register for. *)
Record independent (ctx : bpf_sockopt) (s : socket_storage) : Prop := {
  in_cookie : 0 <= so_cookie s < 2 ^ 64;
  in_working : so_optname ctx = UDP_GRM_WORKING_GEN → sock_app s mod MAX_APPS ≠ app;
  in_gen : so_optname ctx = UDP_GRM_SOCKET_GEN → ∀ n, first_fit setsockopt_sizes (so_optval ctx) = Some n →
    beyond (sock_app s) (data_u32 (setsockopt_data ctx n) 0);
}.

(** What the kernel does: time passes, sockets other than the new ones are closed and
    leave the sockhash, flow entries are evicted, storages of others come and go. *)
Record kernel_step (w w' : world) : Prop := {
  ks_groups : w_groups w' = w_groups w;
  ks_rb : w_rb w' = w_rb w;
  ks_tick : (w_tick w <= w_tick w')%nat;
  ks_socks : ∀ n, n ∈ news → bpf_map_lookup_elem (w_socks w') (ns_id n) = bpf_map_lookup_elem (w_socks w) (ns_id n);
  ks_sockhash : ∀ c, bpf_map_lookup_elem (w_sockhash w') c = bpf_map_lookup_elem (w_sockhash w) c ∨
    ((∀ n, n ∈ news → ns_cookie n ≠ c) ∧ bpf_map_lookup_elem (w_sockhash w') c = None);
}.

(** Everybody else: packets and sends of any group, reads, refused calls, and the other
    sockets, which bind and set any options of their groups, also of the group of the
    hand-over: they register for other slots, set the working generation of other
    applications, declare flows, change their application, set the dissector again. Left out
    are a second hand-over of the same application, a socket that is left over from an earlier
    use of the slot and registers once more, and the deletion of the group. *)
Inductive other_step (w : world) : world → Prop :=
  | O_packet md : other_step w (snd (udpgrm_reuseport_prog md w))
  | O_sendmsg ctx fam : other_step w (snd (_udp_sendmsg ctx fam w))
  | O_getsockopt ctx : other_step w (snd (udpgrm_getsockopt ctx w))
  | O_bind ctx : (∀ n, n ∈ news → ns_id n ≠ bs_id (sa_sk ctx)) → other_step w (snd (_bpf_bind ctx w))
  | O_refused ctx : sr_ret (fst (udpgrm_setsockopt ctx w)) = 0 → other_step w (snd (udpgrm_setsockopt ctx w))
  | O_setsockopt ctx : skey_ok (_skey_from_bpf_sock (so_sk ctx)) →
      (∀ n, n ∈ news → ns_id n ≠ bs_id (so_sk ctx)) →
      (∀ s, bpf_map_lookup_elem (w_socks w) (bs_id (so_sk ctx)) = Some s → foreign (so_cookie s) ∧
         (_skey_from_bpf_sock (so_sk ctx) = key → independent ctx s)) →
      other_step w (snd (udpgrm_setsockopt ctx w))
  | O_kernel w' : kernel_step w w' → other_step w w'.

Inductive hstep : handover → handover → Prop :=
  | H_other c s b w w' d : other_step w w' → hstep (mk_handover _ c s b w d) (mk_handover _ c s b w' d)
  | H_register n c s b w res w' d : n ∈ news → n ∉ c →
      udpgrm_setsockopt (set_call n UDP_GRM_SOCKET_GEN gen) w = (res, w') → sr_ret res = 1 →
      hstep (mk_handover _ c s b w d) (mk_handover _ (c ++ [n]) s b w' d)
  | H_daemon path c s b w w' d d' : ring_buffer_consume path d w = Done (d', w') →
      hstep (mk_handover _ c s b w d) (mk_handover _ c s b w' d')
  | H_cleanup c s b w d :
      hstep (mk_handover _ c s b w d) (mk_handover _ c s b w (reuseport_groups_maybe_cleanup_stale (w_tick w) d))
  | H_poll n c s b w res w' d : n ∈ news →
      udpgrm_getsockopt (poll_call n) w = (res, w') → sr_ret res = 1 →
      load 4 (sr_optval res) 4 ≠ 0xffffffff →
      hstep (mk_handover _ c s b w d) (mk_handover _ c (n :: s) b w' d)
  | H_switch n c s b w res w' d : n ∈ news → (∀ m, m ∈ news → m ∈ s) →
      udpgrm_setsockopt (set_call n UDP_GRM_WORKING_GEN gen) w = (res, w') → sr_ret res = 1 →
      hstep (mk_handover _ c s b w d) (mk_handover _ c s true w' d).

(** Where the hand-over starts: a group with an old generation; new sockets, bound and
    not registered, whose processes keep them open within reach of the daemon; a slot
    that names no live socket. *)
Record ready (w : world) : Prop := {
  rd_key : skey_ok key;
  rd_group : group_at w key = Some st0;
  rd_shape : shape st0;
  rd_working : List.length (working_gen st0) = 4%nat ∧ Forall (λ g, 0 <= g) (working_gen st0);
  rd_apps : 0 <= dis_max_apps (dis st0) <= MAX_APPS;
  rd_app : 0 <= app < Z.max 1 (dis_max_apps (dis st0));
  rd_gen : 0 <= gen < 2 ^ 32;
  rd_slot : TO_WRK_GEN (dis_max_apps (dis st0)) app gen = Some slot;
  rd_old : working_gen_slot st0 app ≠ slot;
  rd_queue : Forall is_log (w_rb w);
  rd_nodup : NoDup (ns_id <$> news);
  rd_size : (List.length news <= 256)%nat;
  rd_news : ∀ n, n ∈ news → _skey_from_bpf_sock (ns_sk n) = key ∧ 0 < ns_cookie n < 2 ^ 64 ∧
    bpf_map_lookup_elem (w_sockhash w) (ns_cookie n) = None ∧
    (∀ i, 0 <= i < MAX_SOCKETS_IN_GEN → cookie_at st0 slot i ≠ ns_cookie n) ∧
    ∃ s, bpf_map_lookup_elem (w_socks w) (ns_id n) = Some s ∧
      sock_idx s = u32 (-1) ∧ sock_app s = app ∧ so_cookie s = ns_cookie n;
  rd_dead : ∀ i, 0 <= i < MAX_SOCKETS_IN_GEN → slot_live w (cookie_at st0 slot i) = false;
  rd_cookie : ∀ n, n ∈ news → sock_cookie (ns_id n) = ns_cookie n ∧ ∀ x, sock_cookie x = ns_cookie n → x = ns_id n;
  rd_files : ∀ t pid proc i file c, proc_files t pid = Some proc → proc i = Some file →
    fl_cookie file = Some c → sock_cookie (fl_sock file) = c;
  rd_open : ∀ n t, n ∈ news → ∃ proc i file, proc_files t (ns_pid n) = Some proc ∧ 0 <= i < 16384 ∧
    proc i = Some file ∧
    socket_match SOCK_DGRAM IPPROTO_UDP (sockaddr_from_msg_value key) (ns_cookie n) file = true ∧
    reached proc 8 i;
}.

(** ** What the others leave alone *)

(** Of the group: its identity, the working generation of the application, and the slot. *)
Record retains (st st' : reuseport_storage) : Prop := {
  re_shape : shape st → shape st';
  re_id : same_identity st st';
  re_working : List.length (working_gen st') = List.length (working_gen st) ∧
    nthZ (working_gen st') app = nthZ (working_gen st) app;
  re_len : nthZ (max_idx st') slot = nthZ (max_idx st) slot;
  re_row : ∀ i, 0 <= i → cookie_at st' slot i = cookie_at st slot i;
}.
#[export] Instance retains_preorder : PreOrder retains.
Proof.
  split; [done|]. intros a b c [A1 A2 [A3 A3'] A4 A5] [B1 B2 [B3 B3'] B4 B5].
  split; [auto|by etrans|by rewrite B3, B3'|by rewrite B4|]. intros i Hi. by rewrite B5, A5.
Qed.
Lemma retains_config st st' : same_config st st' → retains st st'.
Proof. intros [m ->]. split; try done. by intros []. Qed.

(** A storage of the group. *)
Definition based (st : reuseport_storage) : Prop := shape st ∧ dis st = dis st0.
Lemma based_retains st st' : retains st st' → based st → based st'.
Proof. intros Hr [? ?]. split; [by apply (re_shape _ _ Hr)|]. rewrite (proj1 (re_id _ _ Hr)). done. Qed.

Record calm (w w' : world) : Prop := {
  cm_group : ∀ st, group_at w key = Some st → based st → ∃ st', group_at w' key = Some st' ∧ retains st st';
  cm_socks : ∀ n, n ∈ news → bpf_map_lookup_elem (w_socks w') (ns_id n) = bpf_map_lookup_elem (w_socks w) (ns_id n);
  cm_cookies : ∀ n, n ∈ news →
    bpf_map_lookup_elem (w_sockhash w') (ns_cookie n) = bpf_map_lookup_elem (w_sockhash w) (ns_cookie n);
  cm_row : ∀ i, 0 <= i < MAX_SOCKETS_IN_GEN →
    bpf_map_lookup_elem (w_sockhash w') (cookie_at st0 slot i) = bpf_map_lookup_elem (w_sockhash w) (cookie_at st0 slot i)
    ∨ bpf_map_lookup_elem (w_sockhash w') (cookie_at st0 slot i) = None;
}.
#[export] Instance calm_preorder : PreOrder calm.
Proof.
  split.
  - intros w. split; auto. intros st Hst _. by exists st.
  - intros w1 w2 w3 [A1 A2 A3 A4] [B1 B2 B3 B4]. split.
    + intros st Hst Hb. destruct (A1 st Hst Hb) as (st2 & E2 & R2). destruct (B1 _ E2) as (st3 & E3 & R3).
      { by eapply based_retains. }
      exists st3. split; [done|by etrans].
    + intros n Hn. by rewrite B2, A2.
    + intros n Hn. by rewrite B3, A3.
    + intros i Hi. destruct (B4 i Hi) as [-> | ->]; [by apply A4|by right].
Qed.

(** No place in the table changes. *)
Definition unmoved (w w' : world) : Prop :=
  ∀ st, group_at w key = Some st → ∃ st', group_at w' key = Some st' ∧ cookies st' = cookies st.
#[export] Instance unmoved_preorder : PreOrder unmoved.
Proof.
  split; [intros w st Hst; by exists st|]. intros w1 w2 w3 H1 H2 st Hst. destruct (H1 st Hst) as (st2 & E2 & C2).
  destruct (H2 _ E2) as (st3 & E3 & C3). exists st3. split; [done|congruence].
Qed.

(** A message that does not concern the new sockets. *)
Definition bystander (m : msg_value) : Prop :=
  is_log m ∨ (skey_ok (m_skey m) ∧ ∀ pid c g a, m_body m = M_reg pid c g a →
    foreign c ∧ (m_skey m = key → 0 <= c < 2 ^ 64 ∧ beyond a g)).
Definition adds_bystanders (w w' : world) : Prop := ∃ l, w_rb w' = w_rb w ++ l ∧ Forall bystander l.
Lemma adds_logs w w' l : w_rb w' = w_rb w ++ l → Forall is_log l → adds_bystanders w w'.
Proof. intros E Hl. exists l. split; [done|]. eapply Forall_impl; [exact Hl|]. by left. Qed.
#[export] Instance adds_bystanders_preorder : PreOrder adds_bystanders.
Proof.
  split; [intros w; exists []; by rewrite app_nil_r|]. intros w1 w2 w3 (l & E & Hl) (l' & E' & Hl').
  exists (l ++ l'). split; [by rewrite E', E, app_assoc|by apply Forall_app].
Qed.

(** What all of them do. *)
Definition aloof (w w' : world) : Prop := calm w w' ∧ adds_bystanders w w' ∧ unmoved w w'.
#[export] Instance aloof_preorder : PreOrder aloof.
Proof. split; [done|]. intros w1 w2 w3 (?&?&?) (?&?&?). split_and!; by etrans. Qed.

Lemma calm_groups w w' : 
  (∀ st, group_at w key = Some st → ∃ st', group_at w' key = Some st' ∧ same_config st st') →
  w_socks w' = w_socks w → w_sockhash w' = w_sockhash w → calm w w' ∧ unmoved w w'.
Proof.
  intros Hg Hs Hh. split.
  - split; intros; rewrite ?Hs, ?Hh; auto. destruct (Hg st) as (st' & ? & ?); [done|]. exists st'. split; [done|].
    by apply retains_config.
  - intros st Hst. destruct (Hg st Hst) as (st' & ? & [m ->]). by eexists.
Qed.
Lemma calm_same w w' : group_at w' key = group_at w key → w_socks w' = w_socks w → w_sockhash w' = w_sockhash w →
  calm w w' ∧ unmoved w w'.
Proof.
  intros Hg. apply calm_groups. intros st Hst. exists st. rewrite Hg. split; [done|apply same_config_refl].
Qed.
Lemma aloof_logs w w' l : calm w w' ∧ unmoved w w' → w_rb w' = w_rb w ++ l → Forall is_log l → aloof w w'.
Proof. intros [Hc Hu] E Hl. split_and!; [done|by eapply adds_logs|done]. Qed.
Lemma logs_calm w w' : logs_only w w' → aloof w w'.
Proof.
  intros Hl. destruct (lo_rb _ _ Hl) as (l & E & Hf). apply (aloof_logs _ _ l); [|done|done].
  apply calm_same; [by apply group_at_logs|apply Hl..].
Qed.

(** Counters of a group and flow entries change. *)
Lemma put_calm sk st st' w w1 :
  group_at w (_skey_from_bpf_sock sk) = Some st → logs_only w (set_flows (w_flows w) w1) → same_config st st' →
  aloof w (put_state sk st' w1).
Proof.
  intros Hst [Hg _ Hs Hh (l & Hrb & Hl) _] Hc. cbn in Hg, Hs, Hh, Hrb. apply (aloof_logs _ _ l); [|done|done].
  assert (∀ k, group_at w1 k = group_at w k) as Hw by (intros k; unfold group_at; by rewrite Hg).
  apply calm_groups; [|done|done]. intros st1 Hst1. destruct (decide (key = _skey_from_bpf_sock sk)) as [->|Hne].
  - exists st'. split; [|congruence]. apply group_at_put_same. rewrite Hw, Hst. by eexists.
  - exists st1. rewrite group_at_put_other, Hw by done. split; [done|apply same_config_refl].
Qed.

Lemma packet_calm md w : aloof w (snd (udpgrm_reuseport_prog md w)).
Proof.
  unfold udpgrm_reuseport_prog, get_state.
  destruct (bpf_map_lookup_elem (w_groups w) _) as [st|] eqn:Hst; [|by apply (logs_calm w w)].
  pose proof (rx_state_ok md st w) as Hok. destruct (rx_state md st w) as [[res st'] w1].
  destruct Hok as (t & -> & Hlog & _). eapply put_calm; [done| |apply bump_config]. destruct Hlog. by split.
Qed.

Lemma sendmsg_calm ctx fam w : aloof w (snd (_udp_sendmsg ctx fam w)).
Proof.
  unfold _udp_sendmsg, get_state.
  destruct (bpf_map_lookup_elem (w_groups w) _) as [st|] eqn:Hst; [|by apply (logs_calm w w)].
  case_match; [by apply (logs_calm w w)|]. case_match; [|by apply (logs_calm w w)].
  destruct (flow_assure _ _ _ w) as [[r st'] w1] eqn:Ef.
  apply flow_assure_spec in Ef as (t & -> & _ & _ & Hlog). eapply put_calm; [done|done|apply bump_config].
Qed.

Lemma getsockopt_logs ctx w : logs_only w (snd (udpgrm_getsockopt ctx w)).
Proof.
  unfold udpgrm_getsockopt, empty_percpu_page. repeat case_match; simplify_eq; cbn [snd];
    first [reflexivity|apply logs_only_tick].
Qed.

Lemma bind_calm ctx w : (∀ n, n ∈ news → ns_id n ≠ bs_id (sa_sk ctx)) → aloof w (snd (_bpf_bind ctx w)).
Proof.
  intros Hne. assert (aloof w w) as Href by done.
  unfold _bpf_bind. do 2 (case_match; [exact Href|]). case_match; [|exact Href]. case_match; [exact Href|].
  assert (∀ w1, w_groups w1 = w_groups w → w_sockhash w1 = w_sockhash w → w_rb w1 = w_rb w →
    (∀ id, id ≠ bs_id (sa_sk ctx) → bpf_map_lookup_elem (w_socks w1) id = bpf_map_lookup_elem (w_socks w) id) →
    aloof w w1) as Hsocks.
  { intros w1 Hg Hh Hr Hs. apply (aloof_logs _ _ []); [|by rewrite Hr, app_nil_r|constructor]. split.
    - split; [|intros n Hn; by apply Hs, Hne|intros; by rewrite Hh|intros; left; by rewrite Hh].
      intros st Hst _. exists st. unfold group_at. by rewrite Hg.
    - intros st Hst. exists st. unfold group_at. by rewrite Hg. }
  unfold sk_storage_get_create. destruct (bpf_map_lookup_elem (w_socks w) _) as [s|].
  { apply Hsocks; [done..|]. intros id Hid. by apply (map_write_other (exact := true)). }
  destruct (bpf_map_update_elem _ _ _ _) as [m r] eqn:Em.
  assert (∀ id, id ≠ bs_id (sa_sk ctx) → bpf_map_lookup_elem m id = bpf_map_lookup_elem (w_socks w) id) as Hm.
  { intros id Hid. by destruct (map_update_other (exact := true) _ _ _ _ _ _ _ Em Hid) as [?|[? _]]. }
  set (w1 := set_socks m w).
  case_match.
  - apply Hsocks; [done..|]. intros id Hid. cbn [w_socks put_sock set_socks snd].
    rewrite (map_write_other (exact := true)) by done. by apply Hm.
  - transitivity w1; [by apply Hsocks|]. apply logs_calm, logs_only_printf.
Qed.

Lemma refused_calm ctx w : sr_ret (fst (udpgrm_setsockopt ctx w)) = 0 → aloof w (snd (udpgrm_setsockopt ctx w)).
Proof.
  intros Hr. destruct (udpgrm_setsockopt ctx w) as [res w'] eqn:E. cbn [fst snd] in *.
  destruct (not_ours ctx) eqn:Ho.
  { unfold udpgrm_setsockopt in E. rewrite Ho in E. by injection E as _ <-. }
  destruct (setsockopt_rejected ctx w res w' Ho E Hr) as (_ & [Hs Hh (l & Hrb & Hl) _] & Hoth & Hown).
  apply (aloof_logs _ _ l); [|done|done]. apply calm_groups; [|done|done]. intros st Hst.
  destruct (decide (key = _skey_from_bpf_sock (so_sk ctx))) as [->|Hne]; [by rewrite Hst in Hown|].
  exists st. rewrite Hoth by done. split; [done|apply same_config_refl].
Qed.

(** A call on an option touches the caller's storage, the caller's group and the queue; [R]
    tells the application and the generation that it registers the caller for. *)
Definition own_msg (k : reuseport_storage_key) (s : socket_storage) (R : Z → Z → Prop) (m : msg_value) : Prop :=
  is_log m ∨ (m_skey m = k ∧ ∀ pid c g a, m_body m = M_reg pid c g a → c = so_cookie s ∧ R a g).
Record own (sk : bpf_sock) (s : socket_storage) (R : Z → Z → Prop) (w w' : world) : Prop := {
  ow_sockhash : w_sockhash w' = w_sockhash w;
  ow_socks : ∀ id, id ≠ bs_id sk → bpf_map_lookup_elem (w_socks w') id = bpf_map_lookup_elem (w_socks w) id;
  ow_groups : ∀ k, k ≠ _skey_from_bpf_sock sk → group_at w' k = group_at w k;
  ow_rb : ∃ l, w_rb w' = w_rb w ++ l ∧ Forall (own_msg (_skey_from_bpf_sock sk) s R) l;
}.
#[export] Instance own_preorder sk s R : PreOrder (own sk s R).
Proof.
  split.
  - intros w. split; try done. exists []. by rewrite app_nil_r.
  - intros w1 w2 w3 [A1 A2 A3 (l & E & Hl)] [B1 B2 B3 (l' & E' & Hl')].
    split; [congruence|intros; by rewrite B2, A2|intros; by rewrite B3, A3|].
    exists (l ++ l'). split; [by rewrite E', E, app_assoc|by apply Forall_app].
Qed.
Lemma own_aside sk s R w w' : aside w w' → (∀ k, k ≠ _skey_from_bpf_sock sk → group_at w' k = group_at w k) → own sk s R w w'.
Proof.
  intros [_ Hs Hh (l & E & Hl) _] Hg. split; [done|intros; by rewrite Hs|done|].
  exists l. split; [done|]. eapply Forall_impl; [exact Hl|]. by left.
Qed.
Lemma own_logs sk s R w w' : logs_only w w' → own sk s R w w'.
Proof. intros Hl. apply own_aside; [by apply logs_aside|]. intros k _. by apply group_at_logs. Qed.
Lemma own_put sk s R st w : own sk s R w (put_state sk st w).
Proof.
  split; try done; [intros k Hk; by apply group_at_put_other|]. exists []. by rewrite app_nil_r.
Qed.
Lemma own_socks sk s R s' w : own sk s R w (put_sock (bs_id sk) s' w).
Proof.
  split; try done; [intros id Hid; by apply (map_write_other (exact := true))|]. exists []. by rewrite app_nil_r.
Qed.
Lemma own_submit sk s R m w w1 : own sk s R w w1 → own_msg (_skey_from_bpf_sock sk) s R m →
  own sk s R w (rb_submit (List.length (w_rb w)) m w1).
Proof.
  intros [? ? ? (l & E & Hl)] Hm. split; try done. exists (m :: l). split; [|by constructor].
  cbn [w_rb rb_submit set_rb]. by rewrite E, take_app_length, drop_app_length.
Qed.

Definition registers (ctx : bpf_sockopt) (data : list Z) (s : socket_storage) (a g : Z) : Prop :=
  so_optname ctx = UDP_GRM_SOCKET_GEN ∧ a = sock_app s ∧ g = data_u32 data 0.
Lemma setsockopt_opt_own ctx data s created st w res w' :
  setsockopt_opt ctx data s created st w = (res, w') → own (so_sk ctx) s (registers ctx data s) w w'.
Proof.
  set (R := registers ctx data s).
  assert (own (so_sk ctx) s R w (tick w)) as Ht by apply own_logs, logs_only_tick.
  assert (∀ w1 f, own (so_sk ctx) s R w w1 → own (so_sk ctx) s R w (log_printf f [] w1)) as Hp.
  { intros w1 f Hw. etrans; [exact Hw|]. apply own_logs, logs_only_printf. }
  unfold setsockopt_opt. destruct (Z.eqb_spec (so_optname ctx) UDP_GRM_WORKING_GEN) as [_|_];
    [|destruct (Z.eqb_spec (so_optname ctx) UDP_GRM_SOCKET_GEN) as [Eg|_];
    [|destruct (_ =? UDP_GRM_DISSECTOR); [|destruct (_ =? UDP_GRM_FLOW_ASSURE); [|destruct (_ =? UDP_GRM_SOCKET_APP);
    [|by intros [= _ <-]]]]]].
  - unfold set_working_gen_opt, ringbuf_reserve. case_match; intros [= _ <-]; [|by apply Hp].
    apply (own_submit _ _ _ _ w); [|right; split; [done|by intros ? ? ? ? [=]]].
    etrans; [exact Ht|]. etrans; [apply own_put|]. apply own_logs, logs_only_printfs.
  - unfold set_socket_gen_opt, ringbuf_reserve. case_match; [|by intros [= _ <-]].
    case_match; intros [= _ <-]; [|by apply Hp].
    apply (own_submit _ _ _ _ w); [|right; split; [done|by intros ? ? ? ? [= _ <- <- <-]]].
    etrans; [exact Ht|]. etrans; [apply own_socks|]. apply own_logs.
    etrans; [apply logs_only_printfs|apply logs_only_printf].
  - unfold set_dissector_opt, ringbuf_reserve. repeat (case_match; [|]).
    + intros [= _ <-]. reflexivity.
    + intros [= _ <-]. apply own_put.
    + destruct (bpf_map_delete_elem _ _) as [m r] eqn:Hdel. intros [= _ <-].
      split; try done; [|exists []; by rewrite app_nil_r].
      intros k Hk. by apply (map_delete_other (exact := true) _ _ _ _ _ Hdel).
    + intros [= _ <-]. apply (own_submit _ _ _ _ w); [|right; split; [done|by intros ? ? ? ? [=]]].
      etrans; [exact Ht|]. etrans; [apply own_put|]. apply own_logs, logs_only_printfs.
    + intros [= _ <-]. by apply Hp.
  - unfold flow_assure_opt. case_match; [by intros [= _ <-]|]. case_match; [|by intros [= _ <-]].
    destruct (flow_assure _ _ _ _) as [[r st'] w1] eqn:Ef. intros E.
    assert (w' = put_state (so_sk ctx) st' w1) as -> by (case_match; by injection E as _ <-). clear E.
    apply flow_assure_spec in Ef as (t & _ & _ & _ & [Hg _ Hs Hh (l & Hrb & Hl) _]). cbn in *.
    etrans; [|apply own_put]. split; [done|by rewrite Hs|intros; unfold group_at; by rewrite Hg|].
    exists l. split; [done|]. eapply Forall_impl; [exact Hl|]. by left.
  - unfold set_socket_app_opt. repeat (case_match; [|]); intros [= _ <-]; try reflexivity. apply own_socks.
Qed.

(** And of a group that is there, it changes the counters and at most one working generation. *)
Record adjusts (ctx : bpf_sockopt) (s : socket_storage) (st st' : reuseport_storage) : Prop := {
  aj_id : same_identity st st';
  aj_cookies : cookies st' = cookies st;
  aj_max_idx : max_idx st' = max_idx st;
  aj_working : working_gen st' = working_gen st ∨ so_optname ctx = UDP_GRM_WORKING_GEN ∧
    ∃ g, working_gen st' = <[Z.to_nat (sock_app s mod MAX_APPS) := g]> (working_gen st);
}.
Lemma setsockopt_opt_group ctx data s st w res w' :
  group_at w (_skey_from_bpf_sock (so_sk ctx)) = Some st → setsockopt_opt ctx data s false st w = (res, w') →
  ∃ st', group_at w' (_skey_from_bpf_sock (so_sk ctx)) = Some st' ∧ adjusts ctx s st st'.
Proof.
  intros Hst. assert (is_Some (group_at w (_skey_from_bpf_sock (so_sk ctx)))) as Hsome by (by eexists).
  assert (∀ w1, (∀ k, group_at w1 k = group_at w k) →
    ∃ st', group_at w1 (_skey_from_bpf_sock (so_sk ctx)) = Some st' ∧ adjusts ctx s st st') as Hsame.
  { intros w1 Hw. exists st. rewrite Hw. split; [done|]. split; [done..|by left]. }
  assert (∀ w1 w2 st', adjusts ctx s st st' → (∀ k, group_at w1 k = group_at w k) → logs_only (put_state (so_sk ctx) st' w1) w2 →
    ∃ st', group_at w2 (_skey_from_bpf_sock (so_sk ctx)) = Some st' ∧ adjusts ctx s st st') as Hput.
  { intros w1 w2 st' Ha Hw Hl. exists st'. split; [|done]. rewrite (group_at_logs _ _ _ Hl). apply group_at_put_same.
    by rewrite Hw. }
  unfold setsockopt_opt. destruct (Z.eqb_spec (so_optname ctx) UDP_GRM_WORKING_GEN) as [Ew|_];
    [|destruct (_ =? UDP_GRM_SOCKET_GEN); [|destruct (_ =? UDP_GRM_DISSECTOR);
    [|destruct (_ =? UDP_GRM_FLOW_ASSURE); [|destruct (_ =? UDP_GRM_SOCKET_APP); [|intros [= _ <-]; by apply Hsame]]]]].
  - unfold set_working_gen_opt, ringbuf_reserve. case_match; intros [= _ <-]; [|apply Hsame; intros k; by rewrite (group_at_logs _ _ _ (logs_only_printf _ _ _))].
    rewrite group_at_submit. eapply (Hput (tick w)); [|done|apply logs_only_printfs].
    split; try done. right. split; [done|by eexists].
  - unfold set_socket_gen_opt, ringbuf_reserve. case_match; [|intros [= _ <-]; by apply Hsame].
    case_match; intros [= _ <-]; [|apply Hsame; intros k; by rewrite (group_at_logs _ _ _ (logs_only_printf _ _ _))].
    apply Hsame. intros k. rewrite group_at_submit. rewrite (group_at_logs _ _ _ (logs_only_printf _ _ _)).
    by rewrite (group_at_logs _ _ _ (logs_only_printfs _ _ _ _)).
  - unfold set_dissector_opt. cbn [negb]. case_match; intros [= _ <-]; [by apply Hsame|].
    eapply (Hput w); [|done|reflexivity]. split; try done. by left.
  - unfold flow_assure_opt. case_match; [intros [= _ <-]; by apply Hsame|]. case_match; [|intros [= _ <-]; by apply Hsame].
    destruct (flow_assure _ _ _ _) as [[r st'] w1] eqn:Ef. intros E.
    assert (w' = put_state (so_sk ctx) st' w1) as -> by (case_match; by injection E as _ <-). clear E.
    apply flow_assure_spec in Ef as (t & -> & _ & _ & [Hg _ _ _ _ _]). cbn in Hg.
    eapply (Hput w1); [|intros k; unfold group_at; by rewrite Hg|reflexivity]. destruct (bump_config t st) as [m ->].
    split; try done. by left.
  - unfold set_socket_app_opt. repeat (case_match; [|]); intros [= _ <-]; by apply Hsame.
Qed.

Lemma adjusts_retains ctx s st st' : independent ctx s → adjusts ctx s st st' → 0 <= app → retains st st'.
Proof.
  intros Hi [Hid Hc Hm Hw] Ha. split.
  - intros [? ? ?]. split; by rewrite ?Hc, ?Hm.
  - done.
  - destruct Hw as [->|[Hopt [g ->]]]; [done|]. rewrite length_insert. split; [done|].
    apply nth_insert_ne. pose proof (in_working _ _ Hi Hopt). pose proof (Z.mod_pos_bound (sock_app s) MAX_APPS ltac:(done)). lia.
  - by rewrite Hm.
  - intros i _. unfold cookie_at. by rewrite Hc.
Qed.

Lemma setsockopt_own ctx w :
  aloof w (snd (udpgrm_setsockopt ctx w)) ∨
  ∃ n s, first_fit setsockopt_sizes (so_optval ctx) = Some n ∧ bpf_map_lookup_elem (w_socks w) (bs_id (so_sk ctx)) = Some s ∧
    own (so_sk ctx) s (registers ctx (setsockopt_data ctx n) s) w (snd (udpgrm_setsockopt ctx w)) ∧
    ∀ st, group_at w (_skey_from_bpf_sock (so_sk ctx)) = Some st →
      ∃ st', group_at (snd (udpgrm_setsockopt ctx w)) (_skey_from_bpf_sock (so_sk ctx)) = Some st' ∧ adjusts ctx s st st'.
Proof.
  destruct (not_ours ctx) eqn:Ho.
  { left. unfold udpgrm_setsockopt. by rewrite Ho. }
  pose proof (udpgrm_setsockopt_outcome ctx w Ho) as Hout.
  destruct (udpgrm_setsockopt ctx w) as [res w'] eqn:E.
  destruct (Z.eq_dec (sr_ret res) 0) as [Hr|Hr].
  { left. replace w' with (snd (udpgrm_setsockopt ctx w)) by (by rewrite E). apply refused_calm. by rewrite E. }
  inversion Hout as [w1 E1 _ E2|e w1 ? _ E2|w1 _ _ E2|data s st w1 _ _ E2|n s created st w1 Hn Hs Hp _ E2]; subst; try done.
  - by left.
  - right. exists n, s. cbn [snd]. split_and!; [done|done| |].
    + etrans; [|by eapply (setsockopt_opt_own ctx _ s created st w1), surjective_pairing].
      inversion Hp as [? ? Hl|? ? Ha _ Hoth]; subst; [by apply own_logs|by apply own_aside].
    + intros st1 Hst1. inversion Hp as [? ? Hl Hst|? ? _ Hno]; subst; [|congruence].
      assert (st1 = st) as -> by congruence.
      eapply (setsockopt_opt_group ctx (setsockopt_data ctx n) s st w1); [by rewrite (group_at_logs w)|].
      apply surjective_pairing.
Qed.

Lemma own_calm ctx n s w w' :
  first_fit setsockopt_sizes (so_optval ctx) = Some n → own (so_sk ctx) s (registers ctx (setsockopt_data ctx n) s) w w' →
  (∀ st, group_at w (_skey_from_bpf_sock (so_sk ctx)) = Some st →
     ∃ st', group_at w' (_skey_from_bpf_sock (so_sk ctx)) = Some st' ∧ adjusts ctx s st st') →
  0 <= app → skey_ok (_skey_from_bpf_sock (so_sk ctx)) → (∀ n, n ∈ news → ns_id n ≠ bs_id (so_sk ctx)) →
  foreign (so_cookie s) → (_skey_from_bpf_sock (so_sk ctx) = key → independent ctx s) → aloof w w'.
Proof.
  intros Hn [Hh Hs Hg (l & E & Hl)] Hadj Ha Hok Hid Hf Hind.
  assert (∀ st, group_at w key = Some st → ∃ st', group_at w' key = Some st' ∧ retains st st' ∧ cookies st' = cookies st) as Hgrp.
  { intros st Hst. destruct (decide (key = _skey_from_bpf_sock (so_sk ctx))) as [Ek|Hne].
    - rewrite Ek in Hst. destruct (Hadj st Hst) as (st' & Hst' & Hj). exists st'. rewrite Ek. split_and!; [done| |apply Hj].
      apply (adjusts_retains ctx s); auto.
    - exists st. by rewrite Hg. }
  split_and!.
  - split; [|intros m Hm; by apply Hs, Hid|intros; by rewrite Hh|intros; left; by rewrite Hh].
    intros st Hst _. destruct (Hgrp st Hst) as (st' & ? & ? & _). eauto.
  - exists l. split; [done|]. eapply Forall_impl; [exact Hl|]. intros m [?|[Hm Hb]]; [by left|right].
    rewrite Hm. split; [done|]. intros pid c g a Hr. destruct (Hb _ _ _ _ Hr) as (-> & Hopt & -> & ->).
    split; [done|]. intros Hk. specialize (Hind Hk). split; [by apply Hind|]. by apply (in_gen _ _ Hind).
  - intros st Hst. destruct (Hgrp st Hst) as (st' & ? & _ & ?). eauto.
Qed.

Lemma other_calm w w' : 0 <= app → other_step w w' → aloof w w'.
Proof.
  intros Ha [md|ctx fam|ctx|ctx Hne|ctx Hr|ctx Hok Hid Hf|w1 [Hg Hrb _ Hs Hh]].
  - apply packet_calm.
  - apply sendmsg_calm.
  - apply logs_calm, getsockopt_logs.
  - by apply bind_calm.
  - by apply refused_calm.
  - destruct (setsockopt_own ctx w) as [?|(n & s & Hn & Hs & Ho & Hadj)]; [done|]. destruct (Hf s Hs). by eapply own_calm.
  - apply (aloof_logs _ _ []); [|by rewrite Hrb, app_nil_r|constructor]. split.
    + split; [|done|..].
      * intros st Hst _. exists st. unfold group_at. by rewrite Hg.
      * intros n Hn. destruct (Hh (ns_cookie n)) as [?|[Hno _]]; [done|]. by destruct (Hno n Hn).
      * intros i _. destruct (Hh (cookie_at st0 slot i)) as [?|[_ ?]]; auto.
    + intros st Hst. exists st. unfold group_at. by rewrite Hg.
Qed.

(** ** The daemon on messages of others *)
Lemma run_cb_frame msg w w' : run_cb_update_map msg w = Done w' →
  w_socks w' = w_socks w ∧ w_sockhash w' = w_sockhash w ∧ w_rb w' = w_rb w ∧
  ∀ k, k ≠ msg_skey msg → group_at w' k = group_at w k.
Proof.
  unfold run_cb_update_map, udpgrm_cb_update_map. intros E.
  repeat case_match; try done; simplify_eq; split_and!; try done;
    intros k Hk; by apply (map_write_other (exact := true)).
Qed.

Lemma metric_incr_frame k c g w w' : skey_ok k → metric_incr_critical k c g w = Done w' →
  w_socks w' = w_socks w ∧ w_sockhash w' = w_sockhash w ∧ w_rb w' = w_rb w ∧
  ∀ k', k' ≠ k → group_at w' k' = group_at w k'.
Proof.
  intros Hk. unfold metric_incr_critical.
  destruct (value_msg_decode GSM_SET_SOCKET_CRITICAL_GAUGE k g Hk) as (_ & _ & Hsk & _); [by vm_compute|].
  destruct (value_msg_decode GSM_INCR_SOCKET_CRITICAL k c Hk) as (_ & _ & Hsk' & _); [by vm_compute|].
  destruct (run_cb_update_map _ w) as [w1|] eqn:E1; [|done]. cbn [obind].
  apply run_cb_frame in E1 as (A1 & A2 & A3 & A4). rewrite Hsk in A4. case_match; [|by intros [= <-]].
  intros (B1 & B2 & B3 & B4)%run_cb_frame. rewrite Hsk' in B4.
  split_and!; try congruence. intros k' Hne. by rewrite B4, A4.
Qed.

Lemma register_socket_frame st k c g a f sk s d w d' w' : skey_ok k →
  register_socket st k c g a f sk s d w = Done (d', w') →
  w_rb w' = w_rb w ∧ (∀ id, id ≠ sk → bpf_map_lookup_elem (w_socks w') id = bpf_map_lookup_elem (w_socks w) id) ∧
  (∀ c', c' ≠ c ∨ is_Some (bpf_map_lookup_elem (w_sockhash w) c') →
     bpf_map_lookup_elem (w_sockhash w') c' = bpf_map_lookup_elem (w_sockhash w) c') ∧
  ∀ k', k' ≠ k → group_at w' k' = group_at w k'.
Proof.
  intros Hk. unfold register_socket. destruct (TO_WRK_GEN _ _ _) as [gn|]; [|done].
  destruct (cookies_find_empty _ _ _ _) as [[? free] len]. case_match.
  { case_match; [|done]. intros [= _ <-]. by split_and!. }
  destruct (bpf_map_update_elem (w_sockhash w) _ _ _) as [h r] eqn:Eh. case_match; [done|].
  destruct (tubular_maybe_preserve_fd _ _ _ _ _ _ _) as [close_fd d1].
  destruct (run_cb_update_map _ _) as [w1|] eqn:E1; [|done]. cbn [obind].
  apply run_cb_frame in E1 as (A1 & A2 & A3 & A4). cbn in A1, A2, A3.
  destruct (cookies_msg_decode k gn free len c Hk) as (_ & _ & Hsk & _). rewrite Hsk in A4.
  destruct (bpf_map_update_elem (w_socks w1) _ _ _) as [m r2] eqn:Em. case_match; [done|].
  case_match; [|done]. intros [= _ <-]. cbn. rewrite A2. split_and!; try done.
  - intros id Hid. rewrite <- A1. by destruct (map_update_other (exact := true) _ _ _ _ _ _ _ Em Hid) as [?|[? _]].
  - intros c' Hc. destruct (decide (c' = c)) as [->|Hne].
    + destruct Hc as [?|Hs]; [done|]. destruct (map_update_fail (exact := true) _ _ _ _ _ _ Eh) as [?|[? _]]; [|done..].
      intros ->. apply (map_update_noexist (exact := true)) in Eh. rewrite Eh in Hs. by destruct Hs.
    + by destruct (map_update_other (exact := true) _ _ _ _ _ _ _ Eh Hne) as [?|[? _]].
Qed.

(** What is live stays live and keeps its place. *)
Definition lossless (w w' : world) : Prop :=
  (∀ c, slot_live w c = true → slot_live w' c = true) ∧
  ∀ st, group_at w key = Some st → based st → ∃ st', group_at w' key = Some st' ∧ based st' ∧
    ∀ g i, 0 <= g < MAX_GENS → 0 <= i < MAX_SOCKETS_IN_GEN → slot_live w (cookie_at st g i) = true →
      cookie_at st' g i = cookie_at st g i.
#[export] Instance lossless_preorder : PreOrder lossless.
Proof.
  split; [intros w; split; [done|]; intros st Hst Hb; by exists st|]. intros w1 w2 w3 [L1 G1] [L2 G2]. split; [auto|].
  intros st Hst Hb. destruct (G1 st Hst Hb) as (st2 & E2 & B2 & C2). destruct (G2 st2 E2 B2) as (st3 & E3 & B3 & C3).
  exists st3. split_and!; [done|done|]. intros g i Hg Hi Hl. rewrite <- (C2 g i Hg Hi Hl). apply C3; [done|done|].
  rewrite C2 by done. by apply L1.
Qed.
(** The same for one step, in which others may also close their sockets. *)
Definition stays (w w' : world) : Prop :=
  ∀ st, group_at w key = Some st → based st → ∃ st', group_at w' key = Some st' ∧
    ∀ g i, 0 <= g < MAX_GENS → 0 <= i < MAX_SOCKETS_IN_GEN → slot_live w (cookie_at st g i) = true →
      cookie_at st' g i = cookie_at st g i.
Lemma stays_unmoved w w' : unmoved w w' → stays w w'.
Proof.
  intros Hu st Hst _. destruct (Hu st Hst) as (st' & Hst' & E). exists st'. split; [done|]. intros g i _ _ _.
  unfold cookie_at. by rewrite E.
Qed.
Lemma stays_lossless w w' : lossless w w' → stays w w'.
Proof. intros [_ Hl] st Hst Hb. destruct (Hl st Hst Hb) as (st' & ? & _ & ?). eauto. Qed.

(** A message that the daemon has dealt with. *)
Definition harmless (w w' : world) : Prop := calm w w' ∧ lossless w w' ∧ w_rb w' = w_rb w.
#[export] Instance harmless_preorder : PreOrder harmless.
Proof. split; [done|]. intros w1 w2 w3 (?&?&?) (?&?&?). split_and!; [by etrans..|congruence]. Qed.
Lemma harmless_config w w' : 
  (∀ st, group_at w key = Some st → ∃ st', group_at w' key = Some st' ∧ same_config st st') →
  w_socks w' = w_socks w → w_sockhash w' = w_sockhash w → w_rb w' = w_rb w → harmless w w'.
Proof.
  intros Hg Hs Hh Hr. destruct (calm_groups w w' Hg Hs Hh) as [Hc Hu]. split_and!; [done| |done]. split.
  - intros c. unfold slot_live, sockhash_lookup. by rewrite Hh.
  - intros st Hst Hb. destruct (Hg st Hst) as (st' & Hst' & Hcf). exists st'. split_and!; [done|by eapply based_retains, Hb; apply retains_config|].
    intros g i _ _ _. by destruct Hcf as [m ->].
Qed.
Lemma harmless_same w w' : group_at w' key = group_at w key →
  w_socks w' = w_socks w → w_sockhash w' = w_sockhash w → w_rb w' = w_rb w → harmless w w'.
Proof. intros Hg. apply harmless_config. intros st Hst. exists st. rewrite Hg. split; [done|apply same_config_refl]. Qed.

Lemma metric_harmless k c g w w' : skey_ok k → 0 <= c < 2 ^ 31 → 0 <= g < 2 ^ 31 →
  metric_incr_critical k c g w = Done w' → harmless w w'.
Proof.
  intros Hk Hc Hg E. pose proof (metric_incr_frame k c g w w' Hk E) as (A1 & A2 & A3 & A4).
  apply harmless_config; [|done..]. intros st Hst. destruct (decide (k = key)) as [->|Hne].
  - destruct (metric_incr_critical_spec key c g w st w' Hk Hst Hc Hg E) as (st' & ? & ? & _). eauto.
  - exists st. rewrite A4 by done. split; [done|apply same_config_refl].
Qed.

(** ** The invariant of the hand-over *)

(** The storage of the group: the slot holds the sockets registered so far, in order, and
    the working generation of the application is the old one until the switch. *)
Record grown (b : bool) (done : list newsock) (st : reuseport_storage) : Prop := {
  gr_shape : shape st;
  gr_id : same_identity st0 st;
  gr_working : List.length (working_gen st) = 4%nat ∧
    nthZ (working_gen st) app = if b then gen else nthZ (working_gen st0) app;
  gr_new : ∀ j n, done !! j = Some n → cookie_at st slot (Z.of_nat j) = ns_cookie n;
  gr_rest : ∀ i, Z.of_nat (List.length done) <= i → cookie_at st slot i = cookie_at st0 slot i;
  gr_len : done ≠ [] → nthZ (max_idx st) slot = Z.of_nat (List.length done);
}.
Lemma grown_based b done st : grown b done st → based st.
Proof. intros Hg. split; [apply Hg|apply (gr_id _ _ _ Hg)]. Qed.

Record serving (b : bool) (called done : list newsock) (w : world) : Prop := {
  sv_group : ∃ st, group_at w key = Some st ∧ grown b done st;
  sv_dead : ∀ i, 0 <= i < MAX_SOCKETS_IN_GEN → slot_live w (cookie_at st0 slot i) = false;
  sv_done : ∀ n, n ∈ done → bpf_map_lookup_elem (w_sockhash w) (ns_cookie n) = Some (ns_id n);
  sv_new : ∀ n, n ∈ news → n ∉ done → bpf_map_lookup_elem (w_sockhash w) (ns_cookie n) = None;
  sv_socks : ∀ n, n ∈ news → ∃ s, bpf_map_lookup_elem (w_socks w) (ns_id n) = Some s ∧
    sock_app s = app ∧ so_cookie s = ns_cookie n ∧ (n ∈ called → sock_gen s = gen) ∧
    (n ∉ done → sock_idx s = u32 (-1)) ∧ ∀ j, done !! j = Some n → sock_idx s = Z.of_nat j;
}.

(** The queue: the registrations not handled yet, in order, among other messages. *)
Definition register_msg (n : newsock) : msg_value :=
  mk_msg MSG_REGISTER_SOCKET key (M_reg (ns_pid n) (ns_cookie n) gen app).
Inductive pending : list msg_value → list newsock → Prop :=
  | P_nil : pending [] []
  | P_other m l ns : bystander m → pending l ns → pending (m :: l) ns
  | P_register n l ns : pending l ns → pending (register_msg n :: l) (n :: ns).

Lemma pending_app l l' ns ns' : pending l ns → pending l' ns' → pending (l ++ l') (ns ++ ns').
Proof. intros Hl Hl'. induction Hl; cbn; [done|by apply P_other|by apply P_register]. Qed.
Lemma pending_bystanders l : Forall bystander l → pending l [].
Proof. induction 1; [constructor|by apply P_other]. Qed.
Lemma pending_logs l : Forall is_log l → pending l [].
Proof. intros Hl. apply pending_bystanders. eapply Forall_impl; [exact Hl|]. by left. Qed.

Lemma grown_retains b done st st' : 0 <= slot → retains st st' → grown b done st → grown b done st'.
Proof.
  intros Hsl [A1 A2 [A3 A3'] A4 A5] [B1 B2 [B3 B3'] B4 B5 B6]. split; [auto|by etrans|by rewrite A3, A3'|..].
  - intros j n Hj. rewrite A5 by lia. by apply B4.
  - intros i Hi. rewrite A5 by lia. by apply B5.
  - intros Hne. rewrite A4. by apply B6.
Qed.

Lemma calm_serving b called done w w' : 0 <= slot → calm w w' → (∀ n, n ∈ done → n ∈ news) →
  serving b called done w → serving b called done w'.
Proof.
  intros Hsl [Hg Hs Hc Hr] Hin [(st & Hst & Hgr) Hd Hdn Hn Hso]. split.
  - destruct (Hg st Hst (grown_based _ _ _ Hgr)) as (st' & ? & ?). exists st'. split; [done|]. by eapply grown_retains.
  - intros i Hi. specialize (Hd i Hi). unfold slot_live, sockhash_lookup in *. destruct (Hr i Hi) as [-> | ->]; done.
  - intros n Hi. rewrite Hc by auto. by apply Hdn.
  - intros n Hi Hnd. rewrite Hc by auto. by apply Hn.
  - intros n Hi. rewrite Hs by done. by apply Hso.
Qed.

(** One more socket in the slot. *)
Lemma grown_slot b done n st : 0 <= slot < MAX_GENS → (List.length done < 256)%nat → grown b done st →
  grown b (done ++ [n])
    (set_cookie_slot slot (Z.of_nat (List.length done)) (ns_cookie n) (Z.of_nat (List.length done) + 1) st).
Proof.
  intros Hs Hl [Hsh Hid Hwg Hnew Hrest Hlen].
  destruct (set_cookie_slot_spec st slot (Z.of_nat (List.length done)) (ns_cookie n) (Z.of_nat (List.length done) + 1))
    as (Hsh' & Hat & Hmax & Hoth & Hmaxs); [done|done|lia|].
  split; [done|done|done|..].
  - intros j m Hj. apply lookup_app_Some in Hj as [Hj|[Hge Hj]].
    + apply lookup_lt_Some in Hj as Hlt. rewrite Hoth by lia. by apply Hnew.
    + apply list_lookup_singleton_Some in Hj as [Hj <-]. by replace (Z.of_nat j) with (Z.of_nat (List.length done)) by lia.
  - rewrite length_app. cbn [List.length]. intros i Hi. rewrite Hoth by lia. apply Hrest. lia.
  - intros _. rewrite Hmax, length_app. cbn. lia.
Qed.

(** A registration in another slot. *)
Lemma retains_slot st sl free c len : shape st → 0 <= slot → 0 <= sl < MAX_GENS → sl ≠ slot → 0 <= free < MAX_SOCKETS_IN_GEN →
  retains st (set_cookie_slot sl free c len st).
Proof.
  intros Hsh Hs Hsl Hne Hf. destruct (set_cookie_slot_spec st sl free c len Hsh Hsl Hf) as (Hsh' & _ & _ & Hoth & Hmaxs).
  split; [done|done|done|by apply Hmaxs|]. intros i Hi. apply Hoth; [done|done|by left].
Qed.
Lemma registered_lossless st k cookie sk s sl w w' free len :
  registered st k cookie sk s sl w w' free len → 0 <= sl < MAX_GENS → group_at w k = Some st →
  (∀ c, is_Some (bpf_map_lookup_elem (w_sockhash w) c) → bpf_map_lookup_elem (w_sockhash w') c = bpf_map_lookup_elem (w_sockhash w) c) →
  lossless w w'.
Proof.
  intros [Hfree Hdead Hgrp Hoth _ _ _ _ _ _ _ _ _ _ _ _] Hsl Hst Hhash. split.
  - intros c. unfold slot_live, sockhash_lookup. intros Hl.
    destruct (bpf_map_lookup_elem (w_sockhash w) c) as [id|] eqn:E; [|done]. rewrite Hhash, E by (by rewrite E). done.
  - intros st1 Hst1 [Hsh Hd]. destruct (decide (k = key)) as [->|Hne].
    + assert (st1 = st) as -> by congruence.
      destruct (set_cookie_slot_spec st sl free cookie len Hsh Hsl Hfree) as (Hsh' & _ & _ & Hc & _).
      eexists. split; [exact Hgrp|]. split; [done|]. intros g i Hg Hi Hl. apply Hc; [lia|lia|].
      destruct (decide (g = sl)) as [->|]; [|by left]. right. intros ->. congruence.
    + exists st1. rewrite Hoth by done. by split_and!.
Qed.

Section Run.
Context (w0 : world) (R : ready w0).

Lemma slot_range : 0 <= slot < MAX_GENS.
Proof.
  pose proof (rd_slot _ R) as Hs. pose proof (rd_apps _ R). pose proof (rd_gen _ R).
  destruct (TO_WRK_GEN_spec' (dis_max_apps (dis st0)) app gen) as (x & E & Hr);
    [unfold MAX_APPS, MAX_GENS in *; lia|apply R|lia|]. congruence.
Qed.
Lemma app_small : app mod MAX_APPS = app.
Proof. pose proof (rd_apps _ R). pose proof (rd_app _ R). apply Z.mod_small. unfold MAX_APPS in *. lia. Qed.
Lemma id_inj n m : n ∈ news → m ∈ news → ns_id n = ns_id m → n = m.
Proof.
  intros Hn Hm E. apply list_elem_of_lookup in Hn as [i Hi]. apply list_elem_of_lookup in Hm as [j Hj].
  assert (i = j) as ->; [|congruence].
  apply (NoDup_lookup _ _ _ (ns_id n) (rd_nodup _ R)); rewrite list_lookup_fmap; [by rewrite Hi|].
  rewrite Hj, E. done.
Qed.
Lemma cookie_inj n m : n ∈ news → m ∈ news → ns_cookie n = ns_cookie m → n = m.
Proof.
  intros Hn Hm E. apply id_inj; [done|done|]. symmetry. apply (proj2 (rd_cookie _ R n Hn)).
  rewrite E. apply (rd_cookie _ R m Hm).
Qed.
Lemma news_size l : NoDup l → (∀ n, n ∈ l → n ∈ news) → (List.length l <= 256)%nat.
Proof.
  intros Hnd Hin. etrans; [|apply (rd_size _ R)]. apply submseteq_length, NoDup_submseteq; done.
Qed.

Lemma ready_serving : serving false [] [] w0.
Proof.
  pose proof (rd_news _ R) as Hn. split.
  - exists st0. split; [apply R|]. split; try done; [apply R|]. split; [apply R|done].
  - apply R.
  - intros n Hi. by apply not_elem_of_nil in Hi.
  - intros n Hi _. apply Hn, Hi.
  - intros n Hi. destruct (Hn n Hi) as (_ & _ & _ & _ & s & Hs & ? & ? & ?). exists s. split_and!; try done.
    intros Hi'. by apply not_elem_of_nil in Hi'.
Qed.

(** *** Messages of others, and the working generation *)
Lemma socket_match_cookie type protocol addr c file :
  socket_match type protocol addr c file = true → fl_cookie file = Some c.
Proof.
  unfold socket_match. repeat (case_match; [done|]). unfold answers.
  destruct (fl_cookie file) as [c'|]; [|done]. by intros ->%Z.eqb_eq.
Qed.

(** A socket that is found by a cookie that is not of the new ones. *)
Lemma register_foreign st k pid c g a d w d' w' :
  group_at w k = Some st → skey_ok k → foreign c → (k = key → based st ∧ 0 <= c < 2 ^ 64 ∧ beyond a g) →
  handle_register_socket st k pid c g a d w = Done (d', w') → harmless w w'.
Proof.
  intros Hst Hok [Hnew Hrow] Hown. unfold handle_register_socket.
  destruct (proc_files (w_tick w) pid) as [proc|] eqn:Ep; [|intros [= _ <-]; by apply harmless_same].
  destruct (pidfd_find_socket _ _ _ _ _ _ _) as [f t] eqn:Ef.
  apply pidfd_find_socket_found in Ef as [[-> ->]|(i & file & _ & Hi & Hm & _ & _ & Hf & ->)].
  { cbn [Z.leb Z.compare]. destruct (metric_incr_critical k 1 1 (tick w)) as [w1|] eqn:E1; [|done].
    intros [= _ <-]. transitivity (tick w); [by apply harmless_same|]. by apply (metric_harmless k 1 1). }
  replace (0 <=? f) with true by lia. cbn [d_fds set_d_fds]. rewrite lookup_insert_eq.
  apply socket_match_cookie in Hm. pose proof (rd_files _ R _ _ _ _ _ _ Ep Hi Hm) as Hck.
  destruct (bpf_map_lookup_elem (w_socks (tick w)) (fl_sock file)) as [s|]; [|done]. intros E.
  pose proof (register_socket_frame st k c g a f (fl_sock file) s _ (tick w) d' w' Hok E) as (A1 & A2 & A3 & A4).
  assert (∀ n, n ∈ news → bpf_map_lookup_elem (w_socks w') (ns_id n) = bpf_map_lookup_elem (w_socks w) (ns_id n)) as Hsocks.
  { intros n Hn. rewrite A2; [done|]. intros En. apply (Hnew n Hn). rewrite <- Hck, <- En. symmetry. apply (rd_cookie _ R n Hn). }
  assert (∀ n, n ∈ news → bpf_map_lookup_elem (w_sockhash w') (ns_cookie n) = bpf_map_lookup_elem (w_sockhash w) (ns_cookie n)) as Hcks.
  { intros n Hn. rewrite A3; [done|]. left. by apply Hnew. }
  assert (∀ j, 0 <= j < MAX_SOCKETS_IN_GEN →
    bpf_map_lookup_elem (w_sockhash w') (cookie_at st0 slot j) = bpf_map_lookup_elem (w_sockhash w) (cookie_at st0 slot j)) as Hrw.
  { intros j Hj. rewrite A3; [done|]. left. by apply Hrow. }
  assert (∀ x, is_Some (bpf_map_lookup_elem (w_sockhash w) x) →
    bpf_map_lookup_elem (w_sockhash w') x = bpf_map_lookup_elem (w_sockhash w) x) as Hmono by (intros x Hx; apply A3; by right).
  destruct (decide (k = key)) as [->|Hk].
  - destruct (Hown eq_refl) as ([Hsh Hdis] & Hc & sl & Hsl & Hrng & Hne). rewrite <- Hdis in Hsl. pose proof slot_range as Hsr.
    destruct (register_socket_spec st key c g a f (fl_sock file) s _ (tick w) d' w' sl Hok Hst Hsh Hc Hsl Hrng E)
      as [[-> _]|(free & len & Hr)]; [by apply harmless_same|].
    split_and!; [|by apply (registered_lossless _ _ _ _ _ _ _ _ _ _ Hr)|exact A1].
    split; [|exact Hsocks|exact Hcks|intros j Hj; left; by apply Hrw].
    intros st1 Hst1 _. assert (st1 = st) as -> by congruence. eexists. split; [apply (rg_group _ _ _ _ _ _ _ _ _ _ Hr)|].
    apply retains_slot; [done|lia|done|done|]. apply (rg_free _ _ _ _ _ _ _ _ _ _ Hr).
  - split_and!; [| |exact A1].
    + split; [|exact Hsocks|exact Hcks|intros j Hj; left; by apply Hrw].
      intros st1 Hst1 _. exists st1. by rewrite A4.
    + split.
      * intros x. unfold slot_live, sockhash_lookup. intros Hl.
        destruct (bpf_map_lookup_elem (w_sockhash w) x) as [id|] eqn:Ex; [|done]. by rewrite Hmono, Ex by (by rewrite Ex).
      * intros st1 Hst1 Hb. exists st1. rewrite A4 by done. by split_and!.
Qed.

(** Log messages stop the daemon or do nothing, whatever type they carry. *)
Lemma bystander_handled path e d w d' w' :
  (∀ st, group_at w key = Some st → based st) → bystander e → handle_msg path e d w = Done (d', w') → harmless w w'.
Proof.
  intros Hb [Hl|(Hok & Hf)].
  { destruct (handle_log path e d w Hl) as [[-> _]|(x & -> & _)]; [|done]. by intros [= _ <-]. }
  unfold handle_msg.
  destruct (bpf_map_lookup_elem (w_groups w) (m_skey e)) as [st|] eqn:Hst; [|case_match; [|done]; by intros [= _ <-]].
  case_match; [|case_match; [|by intros [= _ <-]]]; destruct (m_body e) eqn:Eb; try done.
  - destruct (Hf _ _ _ _ eq_refl) as [Hc Hown]. eapply register_foreign; [exact Hst|done|done|].
    intros Hk. split; [|by apply Hown]. apply Hb. unfold group_at. by rewrite <- Hk.
  - unfold handle_working_gen. destruct (tubular_maybe_register _ _ _ _ _) as [err d1].
    assert (∀ c g, 0 <= c < 2 ^ 31 → 0 <= g < 2 ^ 31 → match metric_incr_critical (m_skey e) c g (tick w) with
      Done w1 => harmless w w1 | Stop _ => True end) as Hm.
    { intros c g Hc Hg. destruct (metric_incr_critical _ _ _ _) as [w1|] eqn:E1; [|done].
      transitivity (tick w); [by apply harmless_same|]. by apply (metric_harmless (m_skey e) c g). }
    case_match; [pose proof (Hm 1 1 ltac:(lia) ltac:(lia)) as Hc|pose proof (Hm 0 0 ltac:(lia) ltac:(lia)) as Hc];
      (destruct (metric_incr_critical _ _ _ _); [|done]); by intros [= _ <-].
Qed.

(** *** A registration *)

(** In a grown slot exactly the sockets registered so far are live. *)
Lemma grown_live b called done w st i :
  serving b called done w → grown b done st → (∀ n, n ∈ done → n ∈ news) → 0 <= i < MAX_SOCKETS_IN_GEN →
  slot_live w (cookie_at st slot i) = (i <? Z.of_nat (List.length done)).
Proof.
  intros Hs Hg Hin Hi. destruct (Z.ltb_spec i (Z.of_nat (List.length done))) as [Hlt|Hge].
  - destruct (lookup_lt_is_Some_2 done (Z.to_nat i)) as [n Hn]; [lia|].
    pose proof (gr_new _ _ _ Hg _ _ Hn) as Hc. rewrite Z2Nat.id in Hc by lia.
    assert (n ∈ done) as Hd by (by eapply list_elem_of_lookup_2).
    unfold slot_live, sockhash_lookup. rewrite Hc, (sv_done _ _ _ _ Hs n Hd). cbn.
    rewrite (proj1 (rd_cookie _ R n (Hin n Hd))). destruct (rd_news _ R n (Hin n Hd)) as (_ & ? & _). lia.
  - rewrite (gr_rest _ _ _ Hg) by lia. by apply (sv_dead _ _ _ _ Hs).
Qed.

Lemma register_grows b called done n w st d w' d' f s :
  serving b called done w → group_at w key = Some st → grown b done st →
  (∀ m, m ∈ done ++ [n] → m ∈ news) → n ∉ done → n ∈ called → NoDup (done ++ [n]) →
  bpf_map_lookup_elem (w_socks w) (ns_id n) = Some s →
  register_socket st key (ns_cookie n) gen app f (ns_id n) s d w = Done (d', w') →
  serving b called (done ++ [n]) w' ∧ lossless w w' ∧ w_rb w' = w_rb w.
Proof.
  intros Hs Hst Hg Hin Hnd Hcl Hdup Hsk E.
  assert (∀ m, m ∈ done → m ∈ news) as Hin' by (intros m Hm; apply Hin, elem_of_app; by left).
  assert (n ∈ news) as Hn by (apply Hin, elem_of_app; right; by apply list_elem_of_singleton).
  destruct (rd_news _ R n Hn) as (_ & Hc & _ & Hrow & _). pose proof slot_range as Hslot.
  assert (dis st = dis st0) as Hdis by apply (gr_id _ _ _ Hg).
  pose proof (news_size _ Hdup Hin) as Hsz. rewrite length_app in Hsz. cbn in Hsz.
  set (k := Z.of_nat (List.length done)).
  destruct (register_socket_spec st key (ns_cookie n) gen app f (ns_id n) s d w d' w' slot) as [[_ Hall]|(free & len & Hr)];
    [apply R|done|apply Hg|lia|rewrite Hdis; apply R|done|done| |].
  { specialize (Hall k ltac:(unfold MAX_SOCKETS_IN_GEN, k; lia)).
    rewrite (grown_live b called done) in Hall by (done || unfold MAX_SOCKETS_IN_GEN, k; lia). subst k. lia. }
  assert (lossless w w') as Hloss.
  { apply (registered_lossless _ _ _ _ _ _ _ _ _ _ Hr Hslot Hst). intros c Hs'. apply (rg_other_cookies _ _ _ _ _ _ _ _ _ _ Hr).
    intros ->. rewrite (sv_new _ _ _ _ Hs n Hn Hnd) in Hs'. by destruct Hs'. }
  destruct Hr as [Hfree Hdead Hgrp _ Hlen Hcover Hsock Hhash _ _ Hfirst Hleast Hsocks Hnew Hother Hrb].
  assert (free = k) as ->.
  { rewrite (grown_live b called done) in Hdead by done. destruct (Z.lt_trichotomy free k) as [?|[?|?]]; [subst k; lia|done|].
    specialize (Hfirst k ltac:(subst k; lia)).
    rewrite (grown_live b called done) in Hfirst by (done || unfold MAX_SOCKETS_IN_GEN in *; subst k; lia). subst k. lia. }
  assert (len = k + 1) as ->.
  { destruct Hleast as [?|Hl]; [lia|].
    rewrite (grown_live b called done) in Hl by (done || unfold MAX_SOCKETS_IN_GEN in *; lia). subst k. lia. }
  split; [|by split]. specialize (Hnew (sv_new _ _ _ _ Hs n Hn Hnd)).
  assert (∀ m, m ∈ news → m ≠ n → ns_cookie m ≠ ns_cookie n) as Hne by (intros m ? ? ?; by destruct (cookie_inj m n)).
  split.
  - eexists. split; [exact Hgrp|]. subst k.
    apply grown_slot; [done|lia|done].
  - intros i Hi. unfold slot_live, sockhash_lookup. rewrite Hother by (by apply Hrow). by apply (sv_dead _ _ _ _ Hs).
  - intros m. rewrite elem_of_app, list_elem_of_singleton. intros [Hm| ->]; [|done].
    rewrite Hother; [by apply (sv_done _ _ _ _ Hs)|]. apply Hne; [by apply Hin'|by intros ->].
  - intros m Hm Hmd. rewrite not_elem_of_app, list_elem_of_singleton in Hmd. destruct Hmd as [Hmd Hmn].
    rewrite Hother by (by apply Hne). by apply (sv_new _ _ _ _ Hs).
  - intros m Hm. destruct (sv_socks _ _ _ _ Hs m Hm) as (sm & Hsm & Ha & Hcm & Hgm & Hi & Hj).
    destruct (decide (m = n)) as [->|Hmn].
    + rewrite Hsk in Hsm. injection Hsm as <-. eexists. split; [exact Hsock|]. cbn. split_and!; try done.
      * intros Hnin. destruct Hnin. apply elem_of_app. right. by apply list_elem_of_singleton.
      * intros j Hj'. subst k. apply lookup_snoc_Some in Hj' as [[_ Hj']|[-> _]]; [|done].
        by apply list_elem_of_lookup_2 in Hj'.
    + exists sm. rewrite Hsocks; [|intros Eid; by apply Hmn, id_inj]. split_and!; try done.
      * intros Hnin. apply Hi. intros ?. apply Hnin, elem_of_app. by left.
      * intros j Hj'. apply lookup_snoc_Some in Hj' as [[_ Hj']|[_ <-]]; [by apply Hj|done].
Qed.

Lemma register_handled path b called done n d w d' w' :
  serving b called done w → (∀ m, m ∈ done ++ [n] → m ∈ news) → n ∉ done → n ∈ called → NoDup (done ++ [n]) →
  handle_msg path (register_msg n) d w = Done (d', w') →
  serving b called (done ++ [n]) w' ∧ lossless w w' ∧ w_rb w' = w_rb w.
Proof.
  intros Hs Hin Hnd Hcl Hdup. destruct (sv_group _ _ _ _ Hs) as (st & Hst & Hg).
  assert (n ∈ news) as Hn by (apply Hin, elem_of_app; right; by apply list_elem_of_singleton).
  unfold handle_msg, register_msg. cbn [m_skey m_type m_body]. pose proof Hst as Hst'. unfold group_at in Hst'.
  rewrite Hst'. change (MSG_REGISTER_SOCKET =? MSG_REGISTER_SOCKET) with true. cbv iota. clear Hst'.
  unfold handle_register_socket.
  destruct (rd_open _ R n (w_tick w) Hn) as (proc & i & file & Hproc & Hi & Hpi & Hm & Hreach). rewrite Hproc.
  pose proof (pidfd_find_socket_complete 8 SOCK_DGRAM IPPROTO_UDP _ (ns_cookie n) proc (d_fds d) i file Hi Hpi Hm Hreach) as Hpos.
  destruct (pidfd_find_socket _ _ _ _ _ _ _) as [f t] eqn:Ef. cbn [fst] in Hpos.
  apply pidfd_find_socket_found in Ef as [[-> _]|(j & fj & _ & Hj & Hmj & _ & _ & _ & ->)]; [lia|].
  replace (0 <=? f) with true by lia. cbn [d_fds set_d_fds]. rewrite lookup_insert_eq.
  apply socket_match_cookie in Hmj. pose proof (rd_files _ R _ _ _ _ _ _ Hproc Hj Hmj) as Hck.
  apply (proj2 (rd_cookie _ R n Hn)) in Hck. rewrite Hck.
  assert (serving b called done (tick w)) as Hst1.
  { eapply calm_serving; [apply slot_range|apply logs_calm, logs_only_tick| |exact Hs]. intros m Hmd. apply Hin, elem_of_app. by left. }
  destruct (bpf_map_lookup_elem (w_socks (tick w)) (ns_id n)) as [s|] eqn:Es; [|done].
  intros E. by apply (register_grows b called done n (tick w) st _ w' _ f s) in E.
Qed.

Lemma queue_handled path b called l ns done d w d' w' :
  pending l ns → serving b called done w → called = done ++ ns → NoDup called → (∀ n, n ∈ called → n ∈ news) →
  handle_msgs path l d w = Done (d', w') → serving b called called w' ∧ lossless w w' ∧ w_rb w' = w_rb w.
Proof.
  intros Hp. revert done d w. induction Hp as [|e l ns Ho _ IH|n l ns _ IH]; intros done d w Hs Hc Hdup Hin; cbn [handle_msgs].
  - intros [= _ <-]. rewrite app_nil_r in Hc. rewrite Hc in Hs |- *. by split_and!.
  - destruct (handle_msg path e d w) as [[d1 w1]|] eqn:E; [|done]. cbn [obind fst snd]. intros E'.
    assert (harmless w w1) as (Hcalm & Hl1 & Hrb).
    { eapply bystander_handled; [|exact Ho|exact E]. intros st Hst. destruct (sv_group _ _ _ _ Hs) as (st' & Hst' & Hg).
      assert (st = st') as -> by congruence. by eapply grown_based. }
    enough (serving b called called w' ∧ lossless w1 w' ∧ w_rb w' = w_rb w1) as (? & ? & ?)
      by (split_and!; [done|by etrans|congruence]).
    eapply (IH done); [|done|done|done|exact E'].
    eapply calm_serving; [apply slot_range|exact Hcalm| |done]. intros n Hn. apply Hin. rewrite Hc. apply elem_of_app. by left.
  - destruct (handle_msg path (register_msg n) d w) as [[d1 w1]|] eqn:E; [|done]. cbn [obind fst snd]. intros E'.
    assert (n ∈ called) as Hn by (rewrite Hc; apply elem_of_app; right; by left).
    assert (NoDup (done ++ [n]) ∧ n ∉ done) as [Hdup' Hnd].
    { rewrite Hc in Hdup. apply NoDup_app in Hdup as (Hd & Hdis & Hns). split.
      - apply NoDup_app. split_and!; [done| |apply NoDup_singleton].
        intros x Hx Hxn. apply list_elem_of_singleton in Hxn as ->. apply (Hdis n Hx). by left.
      - intros Hx. apply (Hdis n Hx). by left. }
    eapply register_handled in E as (Hs1 & Hl1 & Hrb); [|done| |done|done|done].
    + enough (serving b called called w' ∧ lossless w1 w' ∧ w_rb w' = w_rb w1) as (? & ? & ?)
        by (split_and!; [done|by etrans|congruence]). eapply (IH (done ++ [n])); [done| |done|done|exact E']. by rewrite <- app_assoc.
    + intros m Hm. apply Hin. rewrite Hc. apply elem_of_app in Hm as [?|Hm]; apply elem_of_app; [by left|right].
      apply list_elem_of_singleton in Hm as ->. by left.
Qed.

(** *** The service's calls *)
Lemma set_call_ours n optname : optname = UDP_GRM_WORKING_GEN ∨ optname = UDP_GRM_SOCKET_GEN →
  ∀ v, not_ours (set_call n optname v) = false.
Proof. by intros [-> | ->]. Qed.
Lemma set_call_value n optname v m :
  0 <= v < 2 ^ 32 → first_fit setsockopt_sizes (so_optval (set_call n optname v)) = Some m →
  data_u32 (setsockopt_data (set_call n optname v) m) 0 = v.
Proof.
  intros Hv Hm. rewrite (data_u32_first _ m Hm) by done. cbn [so_optval set_call].
  rewrite (load_app_end 4 v). by apply u32_small.
Qed.

Lemma prepared_group b called done ctx w data s created st w1 :
  _skey_from_bpf_sock (so_sk ctx) = key → serving b called done w → prepared ctx w data s created st w1 →
  created = false ∧ group_at w key = Some st ∧ group_at w1 key = Some st ∧ grown b done st.
Proof.
  intros Hk Hs Hp. destruct (sv_group _ _ _ _ Hs) as (st' & Hst & Hg).
  pose proof (prepared_at _ _ _ _ _ _ _ Hp) as Hat. rewrite Hk in Hat.
  inversion Hp as [? ? _ Hold|? ? _ Hnone]; subst; [|congruence].
  assert (st = st') as -> by congruence. done.
Qed.

Lemma register_called n b called done w res w' :
  n ∈ news → n ∉ called → (∀ m, m ∈ done → m ∈ called) → serving b called done w →
  udpgrm_setsockopt (set_call n UDP_GRM_SOCKET_GEN gen) w = (res, w') → sr_ret res = 1 →
  serving b (called ++ [n]) done w' ∧
  ∃ l l', w_rb w' = w_rb w ++ l ++ register_msg n :: l' ∧ Forall is_log (l ++ l').
Proof.
  intros Hn Hnc Hdc Hs E Hr.
  destruct (set_socket_gen_accepted (set_call n UDP_GRM_SOCKET_GEN gen) w res w' eq_refl (set_call_ours n _ (or_intror eq_refl) gen) ltac:(done) eq_refl E Hr)
    as (x & s & created & st & w1 & Hx & Hso & Hp & _ & Hgrp & Hhash & Hcase).
  rewrite (set_call_value n _ gen x (rd_gen _ R) Hx) in Hcase. cbn [so_sk set_call so_pid] in *.
  destruct (rd_news _ R n Hn) as (Hkey & _).
  destruct (prepared_group b called done (set_call n UDP_GRM_SOCKET_GEN gen) w _ s created st w1 Hkey Hs Hp) as (_ & Hst & Hst1 & Hg).
  destruct (sv_socks _ _ _ _ Hs n Hn) as (s' & Hs' & Happ & Hck & _ & Hidx & Hdi).
  assert (s' = s) as -> by (unfold ns_id in Hs'; congruence).
  assert (n ∉ done) as Hnd by (intros ?; by apply Hnc, Hdc).
  rewrite (Hidx Hnd) in Hcase. change (u32 (-1) =? 0xffffffff) with true in Hcase. rewrite orb_true_r in Hcase. destruct Hcase as (Hsk & Hoth & Hrb).
  rewrite Hkey, Hck, Happ in Hrb. split; [|done]. split.
  - exists st. by rewrite Hgrp.
  - intros i Hi. unfold slot_live, sockhash_lookup. rewrite Hhash. by apply (sv_dead _ _ _ _ Hs).
  - intros m Hm. rewrite Hhash. by apply (sv_done _ _ _ _ Hs).
  - intros m Hm Hmd. rewrite Hhash. by apply (sv_new _ _ _ _ Hs).
  - intros m Hm. destruct (decide (m = n)) as [->|Hmn].
    + eexists. split; [exact Hsk|]. cbn. split_and!; auto.
    + destruct (sv_socks _ _ _ _ Hs m Hm) as (sm & Hsm & ? & ? & Hgen & ? & ?). exists sm.
      rewrite Hoth; [|intros Eid; by apply Hmn, id_inj]. split_and!; try done.
      rewrite elem_of_app, list_elem_of_singleton. intros [?|?]; [by apply Hgen|done].
Qed.

Lemma working_called n b called done w res w' :
  n ∈ news → serving b called done w →
  udpgrm_setsockopt (set_call n UDP_GRM_WORKING_GEN gen) w = (res, w') → sr_ret res = 1 →
  serving true called done w' ∧
  adds_bystanders w w'.
Proof.
  intros Hn Hs E Hr.
  destruct (set_working_gen_accepted (set_call n UDP_GRM_WORKING_GEN gen) w res w' eq_refl (set_call_ours n _ (or_introl eq_refl) gen) ltac:(done) eq_refl E Hr)
    as (x & s & created & st & w1 & Hx & Hso & Hp & _ & Hsk & Hhash & Hgrp & Hrb).
  rewrite (set_call_value n _ gen x (rd_gen _ R) Hx) in Hgrp, Hrb. cbn [so_sk set_call so_pid] in *.
  destruct (rd_news _ R n Hn) as (Hkey & _).
  destruct (prepared_group b called done (set_call n UDP_GRM_WORKING_GEN gen) w _ s created st w1 Hkey Hs Hp) as (_ & Hst & _ & Hg).
  destruct (sv_socks _ _ _ _ Hs n Hn) as (s' & Hs' & Happ & _).
  assert (s' = s) as -> by (unfold ns_id in Hs'; congruence).
  rewrite Happ, app_small, Hkey in Hgrp, Hrb. split.
  2:{ destruct Hrb as (l & l' & Hrb & Hl). apply Forall_app in Hl as [Hl Hl']. eexists. split; [exact Hrb|].
      apply Forall_app. split; [|constructor].
      - eapply Forall_impl; [exact Hl|]. by left.
      - right. split; [apply R|]. intros ? ? ? ? [=].
      - eapply Forall_impl; [exact Hl'|]. by left. }
  split.
  - eexists. split; [exact Hgrp|]. destruct Hg as [[] ? [Hwg _] ? ? ?]. split; try done.
    cbn [working_gen set_working_gen]. rewrite length_insert. split; [done|]. apply nthZ_insert_eq.
    pose proof (rd_app _ R). pose proof (rd_apps _ R). unfold MAX_APPS in *. lia.
  - intros i Hi. unfold slot_live, sockhash_lookup. rewrite Hhash. by apply (sv_dead _ _ _ _ Hs).
  - intros m Hm. rewrite Hhash. by apply (sv_done _ _ _ _ Hs).
  - intros m Hm Hmd. rewrite Hhash. by apply (sv_new _ _ _ _ Hs).
  - intros m Hm. rewrite Hsk. by apply (sv_socks _ _ _ _ Hs).
Qed.

(** *** Every step keeps the invariant *)
Definition ho_ok (s : handover) : Prop := ∃ done queued,
  ho_called s = done ++ queued ∧ NoDup (ho_called s) ∧ (∀ n, n ∈ ho_called s → n ∈ news) ∧
  pending (w_rb (ho_world s)) queued ∧ serving (ho_switched s) (ho_called s) done (ho_world s) ∧
  (∀ n, n ∈ ho_seen s → n ∈ done) ∧ (ho_switched s = true → ∀ n, n ∈ news → n ∈ done).

Lemma ho_start d : ho_ok (mk_handover _ [] [] false w0 d).
Proof.
  exists [], []. cbn_ho. split_and!; [done|constructor|intros n Hn; by apply not_elem_of_nil in Hn| |apply ready_serving; done| |done].
  - apply pending_logs, R.
  - intros n Hn. by apply not_elem_of_nil in Hn.
Qed.

Lemma ho_ok_calm c s b w w' d : calm w w' → adds_bystanders w w' →
  ho_ok (mk_handover _ c s b w d) → ho_ok (mk_handover _ c s b w' d).
Proof.
  intros Hc (l & Hrb & Hl) (done & queued & Eq & Hnd & Hin & Hp & Hs & Hseen & Hsw). cbn_ho in *.
  exists done, queued. cbn_ho. split_and!; [done|done|done| | |done|done].
  - rewrite Hrb, <- (app_nil_r queued). apply pending_app; [done|by apply pending_bystanders].
  - eapply calm_serving; [apply slot_range|done| |done]. intros n Hn. apply Hin. rewrite Eq. apply elem_of_app. by left.
Qed.

(** What the daemon does to a queue that is in order. *)
Lemma consume_ok path c s b w d d' w' : ho_ok (mk_handover _ c s b w d) → ring_buffer_consume path d w = Done (d', w') →
  ho_ok (mk_handover _ c s b w' d') ∧ lossless w w'.
Proof.
  intros (done & queued & Eq & Hnd & Hin & Hp & Hs & Hseen & Hsw) E. cbn_ho in *.
  unfold ring_buffer_consume in E. assert (serving b c done (set_rb [] w)) as Hs0 by (destruct Hs; by split).
  destruct (queue_handled path b c _ _ done d _ d' w' Hp Hs0 Eq Hnd Hin E) as (Hs' & Hl & Hrb).
  split; [|exact Hl]. exists c, []. cbn_ho. rewrite app_nil_r. split_and!; try done.
  - rewrite Hrb. constructor.
  - intros m Hm. rewrite Eq. apply elem_of_app. left. auto.
  - intros Hb m Hm. rewrite Eq. apply elem_of_app. left. auto.
Qed.

Lemma hstep_ok s s' : hstep s s' → ho_ok s → ho_ok s'.
Proof.
  intros [c sn b w w' d Ho|n c sn b w res w' d Hn Hnc E Hr|path c sn b w w' d d' E|c sn b w d
         |n c sn b w res w' d Hn E Hr Hl|n c sn b w res w' d Hn Hall E Hr] Hok.
  - apply other_calm in Ho as (Hc & Ha & _); [|by apply (rd_app _ R)]. by eapply ho_ok_calm.
  - destruct Hok as (done & queued & Eq & Hnd & Hin & Hp & Hs & Hseen & Hsw). cbn_ho in *.
    destruct (register_called n b c done w res w' Hn Hnc) as (Hs' & l & l' & Hrb & Hf); [|done..|].
    { intros m Hm. rewrite Eq. apply elem_of_app. by left. }
    apply Forall_app in Hf as [Hf Hf'].
    exists done, (queued ++ [n]). cbn_ho. split_and!; [by rewrite Eq, app_assoc| | | |done|done|done].
    + apply NoDup_app. split_and!; [done| |apply NoDup_singleton].
      intros m Hm Hmn. by apply list_elem_of_singleton in Hmn as ->.
    + intros m. rewrite elem_of_app, list_elem_of_singleton. intros [?| ->]; auto.
    + rewrite Hrb. apply pending_app; [done|]. apply (pending_app l _ [] [n]); [by apply pending_logs|].
      apply P_register. by apply pending_logs.
  - by destruct (consume_ok path c sn b w d d' w' Hok E).
  - exact Hok.
  - destruct (getsockopt_index (poll_call n) w res w' eq_refl eq_refl eq_refl eq_refl E Hr) as (-> & so & Hs & Hi).
    destruct (logs_calm w (tick w) (logs_only_tick w)) as (Hc & Ha & _).
    destruct (ho_ok_calm c sn b w (tick w) d Hc Ha Hok) as (done & queued & Eq & Hnd & Hin & Hp & Hsv & Hseen & Hsw).
    cbn_ho in *. exists done, queued. cbn_ho. split_and!; [done..| |done].
    intros m. rewrite elem_of_cons. intros [->|Hm]; [|by apply Hseen].
    destruct (decide (n ∈ done)) as [?|Hnd']; [done|].
    destruct (sv_socks _ _ _ _ Hsv n Hn) as (so' & Hs' & _ & _ & _ & Hidx & _). cbn [w_socks tick] in Hs'.
    assert (so' = so) as -> by (change (ns_id n) with (bs_id (so_sk (poll_call n))) in Hs'; congruence). by rewrite (Hidx Hnd') in Hi.
  - destruct Hok as (done & queued & Eq & Hnd & Hin & Hp & Hs & Hseen & Hsw). cbn_ho in *.
    destruct (working_called n b c done w res w' Hn Hs E Hr) as (Hs' & l & Hrb & Hl).
    exists done, queued. cbn_ho. split_and!; [done..| |done|done|].
    + rewrite Hrb, <- (app_nil_r queued). apply pending_app; [done|]. by apply pending_bystanders.
    + intros _ m Hm. apply Hseen, Hall, Hm.
Qed.

(** No step takes a live socket of the group out of its place. *)
Lemma setsockopt_unmoved ctx w : unmoved w (snd (udpgrm_setsockopt ctx w)).
Proof.
  destruct (setsockopt_own ctx w) as [(_ & _ & ?)|(n & s & _ & _ & Ho & Hadj)]; [done|]. intros st Hst.
  destruct (decide (key = _skey_from_bpf_sock (so_sk ctx))) as [Ek|Hne].
  - rewrite Ek in *. destruct (Hadj st Hst) as (st' & ? & Hj). exists st'. split; [done|apply Hj].
  - exists st. by rewrite (ow_groups _ _ _ _ _ Ho).
Qed.
Lemma hstep_stays s s' : hstep s s' → ho_ok s → stays (ho_world s) (ho_world s').
Proof.
  intros [c sn b w w' d Ho|n c sn b w res w' d Hn Hnc E Hr|path c sn b w w' d d' E|c sn b w d
         |n c sn b w res w' d Hn E Hr Hl|n c sn b w res w' d Hn Hall E Hr] Hok; cbn_ho.
  - apply stays_unmoved. apply other_calm in Ho as (_ & _ & Hu); [done|]. by apply (rd_app _ R).
  - apply stays_unmoved. pose proof (setsockopt_unmoved (set_call n UDP_GRM_SOCKET_GEN gen) w) as Hu. by rewrite E in Hu.
  - apply stays_lossless. by destruct (consume_ok path c sn b w d d' w' Hok E).
  - by apply stays_unmoved.
  - apply stays_unmoved. destruct (logs_calm w _ (getsockopt_logs (poll_call n) w)) as (_ & _ & Hu). by rewrite E in Hu.
  - apply stays_unmoved. pose proof (setsockopt_unmoved (set_call n UDP_GRM_WORKING_GEN gen) w) as Hu. by rewrite E in Hu.
Qed.

Lemma hsteps_ok s s' : rtc hstep s s' → ho_ok s → ho_ok s'.
Proof. induction 1; [done|]. eauto using hstep_ok. Qed.

(** A place in the table names the socket it named at the start, unless that was gone at some
    time of the run. *)
Definition in_place (s0 s : handover) (st : reuseport_storage) : Prop :=
  ∀ g i, 0 <= g < MAX_GENS → 0 <= i < MAX_SOCKETS_IN_GEN →
    cookie_at st g i = cookie_at st0 g i ∨
    ∃ s1, rtc hstep s0 s1 ∧ rtc hstep s1 s ∧ slot_live (ho_world s1) (cookie_at st0 g i) = false.
Lemma hsteps_in_place s0 s : group_at (ho_world s0) key = Some st0 → ho_ok s0 → rtc hstep s0 s →
  ∃ st, group_at (ho_world s) key = Some st ∧ in_place s0 s st.
Proof.
  intros H0 Hok0. revert s. apply (rtc_ind_r (λ s, ∃ st, group_at (ho_world s) key = Some st ∧ in_place s0 s st)).
  { exists st0. split; [done|]. intros g i _ _. by left. }
  intros s s' Hrun Hstep (st & Hst & Hin). pose proof (hsteps_ok _ _ Hrun Hok0) as Hok.
  assert (based st) as Hb.
  { destruct Hok as (done & queued & _ & _ & _ & _ & Hs & _). destruct (sv_group _ _ _ _ Hs) as (st' & Hst' & Hg).
    assert (st = st') as -> by congruence. by eapply grown_based. }
  destruct (hstep_stays _ _ Hstep Hok st Hst Hb) as (st' & Hst' & Hkeep). exists st'. split; [done|].
  intros g i Hg Hi. destruct (Hin g i Hg Hi) as [E|(s1 & R1 & R2 & Hd)].
  - destruct (slot_live (ho_world s) (cookie_at st g i)) eqn:El.
    + left. rewrite Hkeep by done. exact E.
    + right. exists s. rewrite <- E. split_and!; [done|by apply rtc_once|done].
  - right. exists s1. split_and!; [done| |done]. by eapply rtc_r.
Qed.

(** *** New flows *)
Lemma working_gen_slot_spec st a :
  0 <= dis_max_apps (dis st) <= MAX_APPS → 0 <= a < Z.max 1 (dis_max_apps (dis st)) → 0 <= nthZ (working_gen st) a →
  TO_WRK_GEN (dis_max_apps (dis st)) a (nthZ (working_gen st) a) = Some (working_gen_slot st a) ∧
  0 <= working_gen_slot st a < MAX_GENS.
Proof.
  intros Hm Ha Hg. unfold MAX_APPS in Hm.
  destruct (TO_WRK_GEN_spec' (dis_max_apps (dis st)) a (nthZ (working_gen st) a)) as (x & E & Hr);
    [unfold MAX_GENS; lia|done|done|].
  unfold working_gen_slot, bpf_TO_WRK_GEN. rewrite (Z.mod_small a) by (unfold MAX_APPS; lia). by rewrite E.
Qed.

Lemma new_flow_new done st hash : grown true done st → done ≠ [] → (List.length done <= 256)%nat → 0 <= hash →
  ∃ n, done !! Z.to_nat (hash mod Z.of_nat (List.length done)) = Some n ∧
    new_flow_cookie st app hash = ns_cookie n.
Proof.
  intros Hg Hne Hsz Hh. assert (0 < List.length done)%nat as Hpos by (destruct done; [done|cbn; lia]).
  pose proof (Z.mod_pos_bound hash (Z.of_nat (List.length done)) ltac:(lia)) as Hmod.
  destruct (lookup_lt_is_Some_2 done (Z.to_nat (hash mod Z.of_nat (List.length done)))) as [n Hn]; [lia|].
  exists n. split; [done|]. pose proof (gr_id _ _ _ Hg) as (Hdis & _).
  pose proof (rd_apps _ R) as Hma. pose proof (rd_app _ R) as Ha. pose proof (rd_gen _ R) as Hgen.
  assert (nthZ (working_gen st) app = gen) as Hwg by apply (gr_working _ _ _ Hg).
  destruct (working_gen_slot_spec st app) as [Es _]; [by rewrite Hdis|by rewrite Hdis|lia|].
  rewrite Hwg, Hdis, (rd_slot _ R) in Es. injection Es as Es.
  pose proof slot_range as Hs. unfold new_flow_cookie. rewrite <- Es, (Z.mod_small slot) by done.
  rewrite (gr_len _ _ _ Hg) by done. unfold bpf_mod. replace (Z.of_nat (List.length done) =? 0) with false by lia.
  rewrite (Z.mod_small _ MAX_SOCKETS_IN_GEN) by (unfold MAX_SOCKETS_IN_GEN; lia).
  rewrite <- (gr_new _ _ _ Hg _ _ Hn), Z2Nat.id by lia. done.
Qed.

(** Until the switch the working generation is the old one. *)
Lemma old_generation done st : grown false done st → working_gen_slot st app = working_gen_slot st0 app.
Proof.
  intros Hg. pose proof (rd_apps _ R) as Hma. pose proof (rd_app _ R) as Happ. unfold working_gen_slot. rewrite app_small.
  rewrite (proj2 (gr_working _ _ _ Hg)). by rewrite (proj1 (gr_id _ _ _ Hg)).
Qed.

(** *** What the invariant says of a packet *)

(** Who gets a new flow of application [a] when the storage is [st]: after the switch, and for
    the application that is handed over, the new socket the hash selects; otherwise a socket
    of the working generation. *)
Definition new_flow_target (s : handover) (st : reuseport_storage) (a hash : Z) : Z :=
  if ho_switched s && (a =? app) then
    match ho_called s !! Z.to_nat (hash mod Z.of_nat (List.length (ho_called s))) with
    | Some n => ns_cookie n
    | None => 0
    end
  else new_flow_cookie st a hash.

Lemma switched_complete s : ho_ok s → ho_switched s = true →
  ho_called s ≡ₚ news ∧ serving true (ho_called s) (ho_called s) (ho_world s).
Proof.
  intros (done & queued & Eq & Hnd & Hin & _ & Hs & _ & Hall) Hsw. specialize (Hall Hsw). rewrite Hsw in Hs.
  assert (queued = []) as ->.
  { destruct queued as [|n q]; [done|]. rewrite Eq in Hnd. apply NoDup_app in Hnd as (_ & Hdis & _).
    destruct (Hdis n); [|by left]. apply Hall, Hin. rewrite Eq. apply elem_of_app. right. by left. }
  rewrite app_nil_r in Eq. split; [|by rewrite Eq in Hs |- *].
  apply NoDup_Permutation; [done|by eapply NoDup_fmap_1, (rd_nodup _ R)|].
  intros n. split; [apply Hin|]. rewrite Eq. apply Hall.
Qed.

Lemma new_flow_goes s st a hash :
  ho_ok s → news ≠ [] → group_at (ho_world s) key = Some st → 0 <= hash →
  new_flow_cookie st a hash = new_flow_target s st a hash.
Proof.
  intros Hok Hne Hst Hh. unfold new_flow_target. destruct (ho_switched s) eqn:Esw; [|done]. cbn [andb].
  destruct (Z.eqb_spec a app) as [->|_]; [|done].
  destruct (switched_complete s Hok Esw) as [Hperm Hs]. destruct (sv_group _ _ _ _ Hs) as (st' & Hst' & Hg).
  assert (st' = st) as -> by congruence.
  assert (ho_called s ≠ []) as Hc by (intros E; rewrite E in Hperm; by apply Permutation_nil_l in Hperm).
  destruct (new_flow_new (ho_called s) st hash Hg Hc) as (n & Hn & E); [|done|by rewrite Hn].
  rewrite Hperm. apply (rd_size _ R).
Qed.

Lemma ho_ok_group s : ho_ok s → ∃ st done, group_at (ho_world s) key = Some st ∧ grown (ho_switched s) done st ∧
  done `prefix_of` ho_called s ∧ serving (ho_switched s) (ho_called s) done (ho_world s) ∧
  (∀ n, n ∈ ho_seen s → n ∈ done).
Proof.
  intros (done & queued & Eq & _ & _ & _ & Hs & Hseen & _). destruct (sv_group _ _ _ _ Hs) as (st & Hst & Hg).
  exists st, done. split_and!; try done. rewrite Eq. by eexists.
Qed.
End Run.
End Handover.


(** [sd.getsockopt(IPPROTO_UDP, UDP_GRM_SOCKET_GEN, 12)]: generation, index and the
    16-bit cookie the application puts into its packets. *)
Definition cookie_call (n : newsock) : bpf_sockopt :=
  mk_sockopt (ns_sk n) IPPROTO_UDP UDP_GRM_SOCKET_GEN 12 (zeros 12) (- ENOPROTOOPT) (ns_pid n).

Section Seen.
Context {K : Kernel} {L : KernelLaws} {H : Host} {HL : HostLaws} {B : BespokeDissector} {BL : BespokeLaws}.
Context (key : reuseport_storage_key) (st0 : reuseport_storage) (news : list newsock) (gen app slot : Z) (w0 : world).
Context (R : ready key st0 news gen app slot w0).

(** A socket whose registration was seen has a slot, and reads its cookie. *)
Lemma seen_registered b called done w st n :
  serving key st0 news gen app slot b called done w → group_at w key = Some st →
  grown st0 gen app slot b done st → done `prefix_of` called → n ∈ done → n ∈ news →
  ∃ j, called !! j = Some n ∧ (j < List.length done)%nat ∧ cookie_at st slot (Z.of_nat j) = ns_cookie n ∧
    (percpu_page_ok (w_tick w) = true →
     slice (sr_optval (fst (udpgrm_getsockopt (cookie_call n) w))) 8 2
       = le_bytes 2 (grm_cookie_of slot (Z.of_nat j))).
Proof.
  intros Hs Hst Hg [rest Eq] Hn Hnews. apply list_elem_of_lookup in Hn as [j Hj]. exists j.
  assert (called !! j = Some n) as Hc by (rewrite Eq; by apply lookup_app_l_Some). split; [done|].
  split; [by eapply lookup_lt_Some|]. split; [by apply (gr_new _ _ _ _ _ _ _ Hg)|]. intros Hpg.
  destruct (sv_socks _ _ _ _ _ _ _ _ _ _ Hs n Hnews) as (so & Hso & Happ & _ & Hgen & _ & Hidx).
  destruct (rd_news _ _ _ _ _ _ _ R n Hnews) as (Hkey & _). destruct (gr_id _ _ _ _ _ _ _ Hg) as (Hdis & _).
  rewrite (getsockopt_cookie (cookie_call n) w st so slot); [|done|done|done|done|done| |done|].
  - rewrite (Hidx j Hj). apply cookie_bytes.
  - cbn [so_sk cookie_call]. by rewrite Hkey.
  - rewrite Happ, (Hgen (list_elem_of_lookup_2 _ _ _ Hc)), Hdis. apply (rd_slot _ _ _ _ _ _ _ R).
Qed.
End Seen.

(** C3. Zero-downtime hand-over, groups with a bytecode dissector, with the same
    interleavings: in every state reached, a packet that carries the cookie of a place in
    another generation slot goes to the socket there, which is the one of before as long as
    that is open; a new socket that was seen registered reads its own 16-bit cookie, and
    packets that carry it go to the socket; a new flow of any application goes to a socket of
    the working generation of that application, for the one that is handed over the old
    generation until the switch and after it the new socket that the hash selects. *)
Theorem cookie_handover {K : Kernel} {L : KernelLaws} {H : Host} {HL : HostLaws}
  {B : BespokeDissector} {BL : BespokeLaws} key st0 news gen app slot w0 d0 s :
  let start := mk_handover _ [] [] false w0 d0 in
  ready key st0 news gen app slot w0 → news ≠ [] →
  DISSECTOR_TYPE (dis_type (dis st0)) = DISSECTOR_CBPF → dis_bespoke_digest (dis st0) = 0 →
  dis_filter_len (dis st0) <= MAX_INSTR →
  rtc (hstep key st0 news gen app slot) start s →
  let w := ho_world s in
  (ho_switched s = true → ho_called s ≡ₚ news) ∧
  ∃ st, group_at w key = Some st ∧ dis st = dis st0 ∧ in_place key st0 news gen app slot start s st ∧
  (ho_switched s = false → working_gen_slot st app = working_gen_slot st0 app) ∧
  (∀ n, n ∈ ho_seen s → n ∈ news → ∃ j, ho_called s !! j = Some n ∧ (percpu_page_ok (w_tick w) = true →
     slice (sr_optval (fst (udpgrm_getsockopt (cookie_call n) w))) 8 2 = le_bytes 2 (grm_cookie_of slot (Z.of_nat j)))) ∧
  ∀ md v w1, _skey_from_bpf_sock (md_sk md) = key → md_ok md → interpret_cbpf md st 0 w = (IERR_OK, v, w1) →
    let select c := bpf_sk_select_reuseport (w_sockhash w) (md_sk md) c in
    let selected := rx_selected (fst (udpgrm_reuseport_prog md w)) in
    (∀ g i, 0 <= g < MAX_GENS → 0 <= i < MAX_SOCKETS_IN_GEN → g ≠ slot → v = grm_cookie_of g i →
       select (cookie_at st g i) = 0 → selected = Some (cookie_at st g i)) ∧
    (∀ n j, n ∈ ho_seen s → n ∈ news → ho_called s !! j = Some n → v = grm_cookie_of slot (Z.of_nat j) →
       select (ns_cookie n) = 0 → selected = Some (ns_cookie n)) ∧
    (∀ a, select (u64 (-1)) ≠ 0 → select (u64 (-2)) ≠ 0 → - 2 ^ 31 <= v < 2 ^ 31 →
       match verdict_of (dis_max_apps (dis st0)) v with
       | NewFlow a' => a' = a
       | Existing c => grm_cookie_unpack c = None ∧ a = 0
       end →
       let target := new_flow_target app s st a (md_hash md) in
       selected = if select target =? 0 then Some target else None).
Proof.
  intros start R Hne Ht Hdig Hf Hrun w. pose proof (ho_start key st0 news gen app slot w0 R d0) as Hok0.
  destruct (hsteps_in_place key st0 news gen app slot w0 R start s (rd_group _ _ _ _ _ _ _ R) Hok0 Hrun) as (st & Hst & Hplace).
  apply (hsteps_ok key st0 news gen app slot w0 R) in Hrun; [|exact Hok0].
  split; [intros Hsw; by eapply switched_complete|].
  destruct (ho_ok_group key st0 news gen app slot s Hrun) as (st' & done & Hst' & Hg & Hpre & Hs & Hseen).
  assert (st' = st) as -> by congruence.
  destruct (gr_id _ _ _ _ _ _ _ Hg) as (Hdis & _). pose proof (rd_apps _ _ _ _ _ _ _ R) as Hm.
  pose proof (slot_range _ _ _ _ _ _ _ R) as Hslot. pose proof (rd_size _ _ _ _ _ _ _ R) as Hsz.
  exists st. do 3 (split; [done|]).
  split. { intros Hsw. rewrite Hsw in Hg. by eapply old_generation. }
  split.
  { intros n Hn Hin. destruct (seen_registered key st0 news gen app slot w0 R _ _ _ _ st n Hs Hst Hg Hpre (Hseen n Hn) Hin)
      as (j & Hj & _ & _ & Hread). by exists j. }
  intros md v w1 Hk Hmd E select selected.
  assert (bpf_map_lookup_elem (w_groups w) (_skey_from_bpf_sock (md_sk md)) = Some st) as Hat by (rewrite Hk; exact Hst).
  rewrite <- Hdis in Ht, Hdig, Hf, Hm. split_and!.
  - intros g i Hgr Hi Hgs -> Hsel. by apply (prog_cookie_hit md w st g i w1).
  - intros n j Hn Hin Hj -> Hsel.
    destruct (seen_registered key st0 news gen app slot w0 R _ _ _ _ st n Hs Hst Hg Hpre (Hseen n Hn) Hin)
      as (j' & Hj' & Hlt & Hck & _).
    assert (j' = j) as ->.
    { destruct Hrun as (? & ? & _ & Hnd & _). by eapply NoDup_lookup. }
    rewrite <- Hck in Hsel |- *. apply (prog_cookie_hit md w st slot (Z.of_nat j) w1); try done.
    destruct Hrun as (? & ? & _ & Hnd & Hcn & _). pose proof (news_size _ _ _ _ _ _ _ R _ Hnd Hcn) as Hc.
    apply lookup_lt_Some in Hj. unfold MAX_SOCKETS_IN_GEN. lia.
  - intros a Hs1 Hs2 Hv Hver target. rewrite <- Hdis in Hver. subst selected.
    destruct (prog_new_flow md w st v w1 a Hat Ht Hdig Hf Hm Hs1 Hs2 E Hv Hver) as [Ha ->].
    unfold new_flow_selected.
    rewrite (new_flow_goes key st0 news gen app slot w0 R s st a (md_hash md) Hrun Hne Hst); [done|].
    apply (md_hash_ok _ Hmd).
Qed.

(** ** Evaluation: two new sockets of one process, generation 1 *)
Section Witnesses.
#[local] Existing Instance good_kernel.
#[local] Existing Instance no_bespoke.

Definition demo_file (cookie id : Z) : file :=
  mk_file (Some AF_INET) (Some SOCK_DGRAM) (Some IPPROTO_UDP) (mk_ss AF_INET 0x5111 (1, 0, 0, 0)) (Some cookie) id.
Definition demo_proc (i : Z) : option file :=
  if i =? 3 then Some (demo_file 46 5) else if i =? 4 then Some (demo_file 47 6) else None.
Definition demo_host : Host :=
  test_host (λ _ pid, if pid =? 99 then Some demo_proc else None) (λ _ _ _, T_reply [0x4f; 0x4b]).
#[local] Existing Instance demo_host.

Definition demo_sk (id : Z) : bpf_sock := mk_bpf_sock id AF_INET 1 (0, 0, 0, 0) 4433.
Definition demo_news : list newsock := [mk_newsock (demo_sk 5) 99 46; mk_newsock (demo_sk 6) 99 47].
Definition demo5 : newsock := mk_newsock (demo_sk 5) 99 46.
Definition demo6 : newsock := mk_newsock (demo_sk 6) 99 47.
Definition demo_key : reuseport_storage_key := _skey_from_bpf_sock (demo_sk 1).

(** Generation 0 has one socket, of cookie 42; the dissector is [d]. *)
Definition demo_group (d : list Z) : reuseport_storage :=
  set_cookies (<[0%nat := <[0%nat := 42]> (zeros 256)]> (repeat (zeros 256) 32))
    (set_max_idx (<[0%nat := 1]> (zeros 32)) (set_dis d (set_random_id 7 empty_state))).
Definition demo_w0 (d : list Z) : world :=
  set_sockhash (<[42 := 1]> (∅ : gmap Z Z))
    (set_socks (<[1 := mk_sock 0 0 0 42 0]> (<[5 := mk_sock (u32 (-1)) (u32 (-1)) 0 46 0]>
      (<[6 := mk_sock (u32 (-1)) (u32 (-1)) 0 47 0]> (∅ : gmap Z socket_storage))))
      (set_groups (<[demo_key := demo_group d]> (∅ : gmap reuseport_storage_key reuseport_storage)) empty_world)).
Definition demo_w1 d : world := snd (udpgrm_setsockopt (set_call demo5 UDP_GRM_SOCKET_GEN 1) (demo_w0 d)).
Definition demo_w2 d : world := snd (udpgrm_setsockopt (set_call demo6 UDP_GRM_SOCKET_GEN 1) (demo_w1 d)).
Definition demo_r3 d := ring_buffer_consume true no_daemon (demo_w2 d).
Definition demo_s3 d : daemon * world := done_or (demo_r3 d) (no_daemon, demo_w2 d).
Definition demo_w4 d : world := snd (udpgrm_getsockopt (poll_call demo5) (snd (demo_s3 d))).
Definition demo_w5 d : world := snd (udpgrm_getsockopt (poll_call demo6) (demo_w4 d)).
Definition demo_w6 d : world := snd (udpgrm_setsockopt (set_call demo5 UDP_GRM_WORKING_GEN 1) (demo_w5 d)).
Definition demo_end d : handover :=
  mk_handover _ [demo5; demo6] [demo6; demo5] true (demo_w6 d) (fst (demo_s3 d)).

(** The calls of the trace succeed. *)
Definition demo_checks (d : list Z) : bool :=
  (sr_ret (fst (udpgrm_setsockopt (set_call demo5 UDP_GRM_SOCKET_GEN 1) (demo_w0 d))) =? 1)
  && (sr_ret (fst (udpgrm_setsockopt (set_call demo6 UDP_GRM_SOCKET_GEN 1) (demo_w1 d))) =? 1)
  && is_done (demo_r3 d)
  && (let r := fst (udpgrm_getsockopt (poll_call demo5) (snd (demo_s3 d))) in
      (sr_ret r =? 1) && negb (load 4 (sr_optval r) 4 =? 0xffffffff))
  && (let r := fst (udpgrm_getsockopt (poll_call demo6) (demo_w4 d)) in
      (sr_ret r =? 1) && negb (load 4 (sr_optval r) 4 =? 0xffffffff))
  && (sr_ret (fst (udpgrm_setsockopt (set_call demo5 UDP_GRM_WORKING_GEN 1) (demo_w5 d))) =? 1).

Lemma demo_all m : m ∈ demo_news → m ∈ [demo6; demo5].
Proof.
  intros Hm. apply elem_of_cons in Hm as [->|Hm]; [right; left|].
  apply list_elem_of_singleton in Hm as ->. left.
Qed.
Lemma demo_run d : demo_checks d = true →
  rtc (hstep demo_key (demo_group d) demo_news 1 0 1) (mk_handover _ [] [] false (demo_w0 d) no_daemon) (demo_end d).
Proof.
  unfold demo_checks. cbv zeta. intros Hc.
  repeat (apply andb_prop in Hc as [Hc ?Hx]). repeat match goal with
    | Hx : (_ && _) = true |- _ => apply andb_prop in Hx as [Hx ?Hl]
    | Hx : negb _ = true |- _ => apply negb_true_iff, Z.eqb_neq in Hx
    | Hx : (_ =? _) = true |- _ => apply Z.eqb_eq in Hx
    end.
  assert (demo5 ∈ demo_news) as H5 by (left).
  assert (demo6 ∈ demo_news) as H6 by (right; left).
  set (ho c s b w dm := mk_handover good_kernel c s b w dm). fold (ho [] [] false (demo_w0 d) no_daemon).
  apply (rtc_l _ _ (ho [demo5] [] false (demo_w1 d) no_daemon)).
  { eapply (H_register _ _ _ _ _ _ demo5 [] [] false (demo_w0 d)); [exact H5|apply not_elem_of_nil|apply surjective_pairing|exact Hc]. }
  apply (rtc_l _ _ (ho [demo5; demo6] [] false (demo_w2 d) no_daemon)).
  { eapply (H_register _ _ _ _ _ _ demo6 [demo5] [] false (demo_w1 d)); [exact H6| |apply surjective_pairing|eassumption].
    intros Hin. apply list_elem_of_singleton in Hin. discriminate Hin. }
  apply (rtc_l _ _ (ho [demo5; demo6] [] false (snd (demo_s3 d)) (fst (demo_s3 d)))).
  { apply (H_daemon _ _ _ _ _ _ true). rewrite <- surjective_pairing. apply is_done_spec. eassumption. }
  apply (rtc_l _ _ (ho [demo5; demo6] [demo5] false (demo_w4 d) (fst (demo_s3 d)))).
  { eapply (H_poll _ _ _ _ _ _ demo5 _ [] false (snd (demo_s3 d))); [exact H5|apply surjective_pairing|eassumption..]. }
  apply (rtc_l _ _ (ho [demo5; demo6] [demo6; demo5] false (demo_w5 d) (fst (demo_s3 d)))).
  { eapply (H_poll _ _ _ _ _ _ demo6 _ [demo5] false (demo_w4 d)); [exact H6|apply surjective_pairing|eassumption..]. }
  apply rtc_once.
  eapply (H_switch _ _ _ _ _ _ demo5 _ [demo6; demo5] false (demo_w5 d)); [exact H5|exact demo_all|apply surjective_pairing|eassumption].
Qed.

Lemma nthZ_zeros n i : nthZ (zeros n) i = 0.
Proof.
  unfold nthZ, zeros. destruct (nth_in_or_default (Z.to_nat i) (repeat 0 n) 0) as [Hin|E]; [|done].
  by apply repeat_spec in Hin.
Qed.
Lemma demo_row d i : cookie_at (demo_group d) 1 i = 0.
Proof. apply (nthZ_zeros 256). Qed.
Lemma demo_key_ok : skey_ok demo_key.
Proof. split; vm_compute; repeat split; (discriminate || reflexivity). Qed.
Lemma demo_news_in n : n ∈ demo_news → n = demo5 ∨ n = demo6.
Proof.
  intros Hn. apply demo_all in Hn. apply elem_of_cons in Hn as [?|Hn]; [by right|].
  apply list_elem_of_singleton in Hn. by left.
Qed.
Lemma demo_proc_inv i f : demo_proc i = Some f → (i = 3 ∧ f = demo_file 46 5) ∨ (i = 4 ∧ f = demo_file 47 6).
Proof.
  unfold demo_proc. destruct (Z.eqb_spec i 3) as [->|_]; [intros [= <-]; by left|].
  destruct (Z.eqb_spec i 4) as [->|_]; [intros [= <-]; by right|discriminate].
Qed.

Lemma demo_ready d : dis_max_apps d = 0 → ready demo_key (demo_group d) demo_news 1 0 1 (demo_w0 d).
Proof.
  intros Hm. assert (dis_max_apps (dis (demo_group d)) = 0) as Hm' by exact Hm. split; rewrite ?Hm'.
  - exact demo_key_ok.
  - apply lookup_insert_eq.
  - split; [reflexivity|repeat constructor|reflexivity].
  - split; [reflexivity|repeat constructor; discriminate].
  - unfold MAX_APPS. lia.
  - lia.
  - lia.
  - reflexivity.
  - unfold working_gen_slot. rewrite Hm'. vm_compute. discriminate.
  - constructor.
  - apply (bool_decide_unpack _). vm_compute. exact I.
  - apply (Nat.leb_le 2). reflexivity.
  - intros n Hn. split_and!.
    + by apply demo_news_in in Hn as [->| ->].
    + apply demo_news_in in Hn as [->| ->]; reflexivity.
    + apply demo_news_in in Hn as [->| ->]; reflexivity.
    + apply demo_news_in in Hn as [->| ->]; reflexivity.
    + intros i _. rewrite demo_row. apply demo_news_in in Hn as [->| ->]; discriminate.
    + apply demo_news_in in Hn as [->| ->]; eexists; split_and!; reflexivity.
  - intros i _. rewrite demo_row. reflexivity.
  - intros n Hn. apply demo_news_in in Hn as [->| ->]; (split; [reflexivity|]); intros x; cbn; lia.
  - intros t pid proc i f c Hp Hi Hc. cbn in Hp. destruct (pid =? 99); [|discriminate]. injection Hp as <-.
    apply demo_proc_inv in Hi as [[_ ->]|[_ ->]]; injection Hc as <-; reflexivity.
  - intros n t Hn. exists demo_proc.
    apply demo_news_in in Hn as [->| ->];
      [exists 3, (demo_file 46 5)|exists 4, (demo_file 47 6)];
      (split_and!; [reflexivity|lia|lia|reflexivity|reflexivity|intros j Hj Hj8; lia]).
Qed.

Lemma flow_md_ok : md_ok flow_md.
Proof.
  apply packet_md_ok; try (vm_compute; repeat split; (discriminate || reflexivity)).
  - apply bytes_ok_check. vm_compute. reflexivity.
  - apply bytes_ok_check. vm_compute. reflexivity.
Qed.
Lemma no_entry {A} (o : option A) e : match o with Some _ => false | None => true end = true → o = Some e → False.
Proof. by intros H ->. Qed.


(** The same with the bytecode dissector of [Cbpf]: a packet with the cookie of the old
    socket goes to it, one with the cookie of the first new socket to that, a new flow to
    the second. *)
Definition demo_bytecode : list Z := cbpf_dissector example_prog.
Definition demo_after : reuseport_storage :=
  from_option id empty_state (group_at (ho_world (demo_end demo_bytecode)) demo_key).
Definition demo_selected (payload : list Z) : option Z :=
  rx_selected (fst (udpgrm_reuseport_prog (example_packet payload) (ho_world (demo_end demo_bytecode)))).
Lemma example_md_ok payload : bytes_ok payload → Z.of_nat (List.length payload) < 2 ^ 31 → md_ok (example_packet payload).
Proof.
  intros Hp Hl. apply packet_md_ok; [apply bytes_ok_zeros| |lia|lia|rewrite length_app; cbn; lia].
  apply Forall_app. split; [|exact Hp]. apply bytes_ok_check. vm_compute. reflexivity.
Qed.
Definition demo_interpreted (payload : list Z) :=
  interpret_cbpf (example_packet payload) demo_after 0 (ho_world (demo_end demo_bytecode)).

Lemma cookie_handover_witness :
  demo_selected [0x61; 0; 128] = Some 42 ∧ demo_selected [0x61; 0; 161] = Some 46 ∧
  demo_selected [0x62; 0; 0] = Some 47.
Proof.
  set (d := demo_bytecode).
  destruct (cookie_handover (HL := test_host_laws _ _) demo_key (demo_group d) demo_news 1 0 1 (demo_w0 d) no_daemon
    (demo_end d) (demo_ready d eq_refl) ltac:(discriminate) eq_refl eq_refl ltac:(vm_compute; discriminate)
    (demo_run d ltac:(vm_compute; reflexivity))) as (_ & st & Hst & _ & _ & _ & _ & Hp).
  assert (st = demo_after) as -> by (unfold demo_after; fold d; by rewrite Hst).
  cbv zeta in Hp. unfold demo_selected. fold d.
  assert (∀ payload v, fst (demo_interpreted payload) = (IERR_OK, v) →
    interpret_cbpf (example_packet payload) demo_after 0 (ho_world (demo_end d)) = (IERR_OK, v, snd (demo_interpreted payload)))
    as Hi by (intros payload v Hv; apply pair_of_fst, Hv).
  split; [|split].
  - destruct (Hp (example_packet [0x61; 0; 128]) 128 (snd (demo_interpreted [0x61; 0; 128])) eq_refl) as [Hold _].
    + apply example_md_ok; [apply bytes_ok_check|]; reflexivity.
    + apply Hi. vm_compute. reflexivity.
    + rewrite (Hold 0 0); [reflexivity|split; [discriminate|reflexivity]..|discriminate|reflexivity|].
      vm_compute. reflexivity.
  - destruct (Hp (example_packet [0x61; 0; 161]) 161 (snd (demo_interpreted [0x61; 0; 161])) eq_refl) as (_ & Hnew & _).
    + apply example_md_ok; [apply bytes_ok_check|]; reflexivity.
    + apply Hi. vm_compute. reflexivity.
    + rewrite (Hnew demo5 0%nat); [reflexivity|right; left|left|reflexivity|reflexivity|].
      vm_compute. reflexivity.
  - destruct (Hp (example_packet [0x62; 0; 0]) (-1) (snd (demo_interpreted [0x62; 0; 0])) eq_refl) as (_ & _ & Hnew).
    + apply example_md_ok; [apply bytes_ok_check|]; reflexivity.
    + apply Hi. vm_compute. reflexivity.
    + rewrite (Hnew 0); [vm_compute; reflexivity|vm_compute; discriminate..|split; [discriminate|reflexivity]|].
      vm_compute. reflexivity.
Defined.
End Witnesses.
