(* ===== verification/Activate.v ===== *)
(** The activation tool: [tools/udpgrm_activate.py], which creates the sockets of a new
    instance of a service, gives their group a dissector, and registers them.

    [dissector_value] is the option value the tool packs; [tool_call] is one socket call of
    its [main], between which anything may happen. The tool follows the protocol that
    [Handover] is about. *)

From S2P Require Import Prelude Cookie SipHash Storage Cbpf Dissector Reuseport Flow Hooks Host Daemon System Handover.
From stdpp Require Import relations.
Open Scope Z_scope.

(** ** The option value *)

(** [struct.pack] with I, H, B (an error outside of the range) and [<n>s] (cut or padded). *)
Definition pack_uint (n : nat) (v : Z) : option (list Z) :=
  if (0 <=? v) && (v <? 2 ^ (8 * Z.of_nat n)) then Some (le_bytes n v) else None.
Definition pack_I := pack_uint 4.
Definition pack_H := pack_uint 2.
Definition pack_B := pack_uint 1.
Definition pack_s (n : nat) (s : list Z) : list Z := take n s ++ zeros (n - List.length s).

(** The arguments that matter here: the instructions read from a file, the digest, the host
    names ([None]: not of the form [name:number]), and so on. *)
Record args := mk_args {
  a_cbpf : list (Z * Z * Z * Z);
  a_digest : Z;
  a_hostnames : list (option (list Z * Z));
  a_noop : bool;
  a_tubular : list Z;
  a_flow_timeout : Z;
  a_apps_max : Z;
  a_app : option Z;
  a_verbose : bool;
  a_no_register : bool;
  a_advance : bool;
}.

Definition pack_filter (f : Z * Z * Z * Z) : option (list Z) :=
  let '(code, jt, jf, k) := f in
  code ← pack_H code; jt ← pack_B jt; jf ← pack_B jf; k ← pack_I k; Some (code ++ jt ++ jf ++ k).
Definition pack_host (h : option (list Z * Z)) : option (list Z) :=
  h ← h; app ← pack_B (snd h); reserved ← pack_B 0; Some (app ++ reserved ++ pack_s 62 (fst h)).
(** ["IIII100s"], and ["IIII100sI512s"] *)
Definition pack_head (a b c d : Z) (label : list Z) : option (list Z) :=
  a ← pack_I a; b ← pack_I b; c ← pack_I c; d ← pack_I d; Some (a ++ b ++ c ++ d ++ pack_s 100 label).
Definition pack_full (a b c d : Z) (label : list Z) (n : nat) (tail : option (list (list Z))) : option (list Z) :=
  tail ← tail; h ← pack_head a b c d label; n ← pack_I (Z.of_nat n); Some (h ++ n ++ pack_s 512 (concat tail)).

(** Nothing to set, a value, or an exception (of [struct.pack], of the unpacking of a host
    name, or for want of a branch: with host names and nothing else [v] is not assigned). *)
Inductive packed := Unneeded | Packed (v : list Z) | Raises.
Definition nonempty {A} (l : list A) : bool := match l with [] => false | _ => true end.
Definition packed_of (o : option (list Z)) : packed := match o with Some v => Packed v | None => Raises end.
Definition dissector_value (a : args) : packed :=
  let D_FLAGS := if a_verbose a then DISSECTOR_FLAG_VERBOSE else 0 in
  if nonempty (a_cbpf a) || negb (a_digest a =? 0) || nonempty (a_tubular a) || nonempty (a_hostnames a) || a_noop a then
    if nonempty (a_cbpf a) then
      packed_of (pack_full (Z.lor DISSECTOR_CBPF D_FLAGS) 0 (a_apps_max a) 0 (a_tubular a)
        (List.length (a_cbpf a)) (mapM pack_filter (a_cbpf a)))
    else if negb (a_digest a =? 0) then
      packed_of (pack_full (Z.lor DISSECTOR_BESPOKE D_FLAGS) 0 (a_apps_max a) (a_digest a) (a_tubular a)
        (List.length (a_hostnames a)) (mapM pack_host (a_hostnames a)))
    else if a_noop a then packed_of (pack_head (Z.lor DISSECTOR_NOOP D_FLAGS) 0 0 0 (a_tubular a))
    else if nonempty (a_tubular a) then
      packed_of (pack_head (Z.lor DISSECTOR_FLOW D_FLAGS) (a_flow_timeout a) 0 0 (a_tubular a))
    else Raises
  else Unneeded.

(** ** The calls of [main] *)

(** What the tool is about to do; [i] counts the tries, [rest] the sockets still to come. *)
Inductive tool :=
  | Bind (n : newsock) (rest : list newsock)
  | Set_dissector (v : list Z) (i : nat) (n : newsock) (rest : list newsock)
  | Set_app (i : nat) (n : newsock) (rest : list newsock)
  | Read_gen
  | Register (gen : Z) (i : nat) (n : newsock) (rest : list newsock)
  | Poll (gen : Z) (i : nat) (n : newsock) (rest : list newsock)
  | Switch (gen : Z) (i : nat)
  | Exit (code : Z).

Section Tool.
Context {K : Kernel}.
(** The arguments, the sockets it creates, and what the bind hook sees of each. *)
Context (a : args) (first : newsock) (others : list newsock) (bind_ctx : newsock → bpf_sock_addr).
Definition sockets : list newsock := first :: others.

Definition switch_from (gen : Z) : tool := if a_advance a then Switch gen 0 else Exit 0.
Definition poll_from (gen : Z) (l : list newsock) : tool :=
  match l with [] => switch_from gen | n :: l => Poll gen 0 n l end.
Definition register_from (gen : Z) (l : list newsock) : tool :=
  match l with [] => poll_from gen sockets | n :: l => Register gen 0 n l end.
Definition bind_from (l : list newsock) : tool :=
  match l with [] => if a_no_register a then Exit 0 else Read_gen | n :: l => Bind n l end.
Definition app_from (n : newsock) (rest : list newsock) : tool :=
  if match a_app a with Some app => negb (app =? 0) | None => false end || negb (a_apps_max a =? 0)
  then Set_app 0 n rest else bind_from rest.

(** [retrying_setsockopt]: the call on try [i], then [ok], the next try, or the end of the
    tool. After eight EAGAIN the function returns as it does after a success. *)
Definition retrying_setsockopt (ctx : bpf_sockopt) (i : nat) (ok : tool) (again : nat → tool) (w : world) : tool * world :=
  let '(res, w) := udpgrm_setsockopt ctx w in
  if sr_ret res =? 1 then (ok, w)
  else if sr_retval res =? - EAGAIN then ((if (S i <? 8)%nat then again (S i) else ok), w)
  else (Exit 1, w).

(** [setsockopt] of bytes; [set_call] of an integer. *)
Definition set_bytes (n : newsock) (optname : Z) (v : list Z) : bpf_sockopt :=
  mk_sockopt (ns_sk n) IPPROTO_UDP optname (Z.of_nat (List.length v)) v 0 (ns_pid n).
Definition get_gen_call (n : newsock) : bpf_sockopt :=
  mk_sockopt (ns_sk n) IPPROTO_UDP UDP_GRM_WORKING_GEN 4 (zeros 4) (- ENOPROTOOPT) (ns_pid n).
(** The last of the loop, whose [fd] is the one that the switch is called on. *)
Definition last_socket : newsock := List.last sockets first.

Definition tool_call (t : tool) (w : world) : tool * world :=
  match t with
  | Bind n rest =>
      let '(_, w) := _bpf_bind (bind_ctx n) w in
      if bool_decide (rest = others) then
        match dissector_value a with
        | Unneeded => (app_from n rest, w)
        | Packed v => (Set_dissector v 0 n rest, w)
        | Raises => (Exit 1, w)
        end
      else (app_from n rest, w)
  | Set_dissector v i n rest =>
      retrying_setsockopt (set_bytes n UDP_GRM_DISSECTOR v) i (app_from n rest) (λ i, Set_dissector v i n rest) w
  | Set_app i n rest =>
      retrying_setsockopt (set_call n UDP_GRM_SOCKET_APP (default 0 (a_app a))) i (bind_from rest) (λ i, Set_app i n rest) w
  | Read_gen =>
      let '(res, w) := udpgrm_getsockopt (get_gen_call first) w in
      if sr_ret res =? 1 then
        (* an int of C; the successor of the largest is no longer one *)
        let gen := s32 (load 4 (sr_optval res) 0) + 1 in
        if gen <? 2 ^ 31 then (register_from gen sockets, w) else (Exit 1, w)
      else (Exit 1, w)
  | Register gen i n rest =>
      retrying_setsockopt (set_call n UDP_GRM_SOCKET_GEN (u32 gen)) i (register_from gen rest) (λ i, Register gen i n rest) w
  | Poll gen i n rest =>
      let '(res, w) := udpgrm_getsockopt (poll_call n) w in
      if sr_ret res =? 1 then
        if negb (load 4 (sr_optval res) 4 =? 0xffffffff) then (poll_from gen rest, w)
        else if (7 <=? i)%nat then (Exit 1, w)
        else (Poll gen (S i) n rest, w)
      else (Exit 1, w)
  | Switch gen i =>
      retrying_setsockopt (set_call last_socket UDP_GRM_WORKING_GEN (u32 gen)) i (Exit 0) (λ i, Switch gen i) w
  | Exit code => (Exit code, w)
  end.
End Tool.

(** ** The tool among everybody else *)
Section Refines.
Context {K : Kernel} {L : KernelLaws} {H : Host} {HL : HostLaws} {B : BespokeDissector} {BL : BespokeLaws}.
Context (a : args) (first : newsock) (others : list newsock) (bind_ctx : newsock → bpf_sock_addr).
Context (key : reuseport_storage_key) (st0 : reuseport_storage) (gen app slot : Z).
#[local] Abbreviation news := (sockets first others).
#[local] Abbreviation call := (tool_call a first others bind_ctx).

Definition running (t : tool) : bool := match t with Exit _ => false | _ => true end.
Inductive astep : tool * world * daemon → tool * world * daemon → Prop :=
  | A_tool t w d : running t = true → astep (t, w, d) (fst (call t w), snd (call t w), d)
  | A_other t w w' d : other_step key st0 news app slot w w' → astep (t, w, d) (t, w', d)
  | A_daemon path t w w' d d' : ring_buffer_consume path d w = Done (d', w') → astep (t, w, d) (t, w', d')
  | A_cleanup t w d : astep (t, w, d) (t, w, reuseport_groups_maybe_cleanup_stale (w_tick w) d).

(** Where the tool is in the protocol. *)
Definition at_stage (t : tool) (s : handover) : Prop :=
  match t with
  | Read_gen => ho_called s = [] ∧ ho_switched s = false
  | Register g _ n rest => g = gen ∧ ∃ before, news = before ++ n :: rest ∧ ∀ m, m ∈ ho_called s → m ∈ before
  | Poll g _ n rest => g = gen ∧ ∃ before, news = before ++ n :: rest ∧ ∀ m, m ∈ before → m ∈ ho_seen s
  | Switch g _ => g = gen ∧ ∀ m, m ∈ news → m ∈ ho_seen s
  | Exit code => code = 0 → ∀ m, m ∈ news → m ∈ ho_seen s
  | _ => False
  end.

Lemma setsockopt_ret ctx w : sr_ret (fst (udpgrm_setsockopt ctx w)) = 0 ∨ sr_ret (fst (udpgrm_setsockopt ctx w)) = 1.
Proof.
  unfold udpgrm_setsockopt, setsockopt_opt, set_working_gen_opt, set_socket_gen_opt, set_dissector_opt, flow_assure_opt,
    set_socket_app_opt. repeat case_match; auto.
Qed.

Lemma retrying_outcome ctx i ok again w :
  (sr_ret (fst (udpgrm_setsockopt ctx w)) = 1 ∧ retrying_setsockopt ctx i ok again w = (ok, snd (udpgrm_setsockopt ctx w))) ∨
  (sr_ret (fst (udpgrm_setsockopt ctx w)) = 0 ∧ ∃ t, retrying_setsockopt ctx i ok again w = (t, snd (udpgrm_setsockopt ctx w)) ∧
     t ∈ [ok; again (S i); Exit 1]).
Proof.
  unfold retrying_setsockopt. pose proof (setsockopt_ret ctx w) as Hr.
  destruct (udpgrm_setsockopt ctx w) as [res w']. cbn [fst snd] in *. destruct Hr as [Hr|Hr]; rewrite Hr; [right|by left].
  split; [done|]. cbn [Z.eqb]. case_match; [case_match|]; (eexists; split; [reflexivity|]).
  - right; left.
  - left.
  - right; right; left.
Qed.

Lemma nodup_news n before rest : NoDup (ns_id <$> news) → news = before ++ n :: rest → n ∉ before.
Proof.
  intros Hnd E Hin. rewrite E, fmap_app, fmap_cons in Hnd. apply NoDup_app in Hnd as (_ & Hdis & _).
  apply (Hdis (ns_id n)); [by apply list_elem_of_fmap_2|left].
Qed.

Lemma last_in : last_socket first others ∈ news.
Proof.
  unfold last_socket, sockets. generalize first at 1 3. induction others as [|x l IH]; intros y; [left|].
  cbn [List.last]. destruct l; [right; left|]. right. apply IH.
Qed.

(** The stages of the tool from [register_from] on. *)
Lemma stage_poll l before s : news = before ++ l → (∀ m, m ∈ before → m ∈ ho_seen s) → at_stage (poll_from a gen l) s.
Proof.
  intros E Hs. destruct l as [|n l]; cbn.
  - rewrite app_nil_r in E. unfold switch_from. destruct (a_advance a); cbn; rewrite E; auto.
  - split; [done|]. by exists before.
Qed.
Lemma stage_register l before s : news = before ++ l → (∀ m, m ∈ ho_called s → m ∈ before) →
  at_stage (register_from a first others gen l) s.
Proof.
  intros E Hs. destruct l as [|n l]; cbn [register_from].
  - apply (stage_poll news []); [done|]. intros m Hm. by apply not_elem_of_nil in Hm.
  - split; [done|]. by exists before.
Qed.

Lemma no_page ctx w : so_get_retval ctx = - ENOPROTOOPT → not_ours ctx = false → percpu_page_ok (w_tick w) = false →
  sr_ret (fst (udpgrm_getsockopt ctx w)) = 0.
Proof. intros Hrv Ho Hp. unfold udpgrm_getsockopt, empty_percpu_page. by rewrite Ho, Hrv, Hp. Qed.

Section Simulation.
Context (w0 : world) (R : ready key st0 news (u32 gen) app slot w0).
Context (Hgen : gen = s32 (nthZ (working_gen st0) app) + 1).
#[local] Abbreviation hstep := (hstep key st0 news (u32 gen) app slot).
#[local] Abbreviation ok := (ho_ok key st0 news (u32 gen) app slot).

(** The generation that the tool reads is the one the hand-over starts from. *)
Lemma read_gen s : ok s → ho_switched s = false →
  let '(res, w') := udpgrm_getsockopt (get_gen_call first) (ho_world s) in
  sr_ret res = 1 → s32 (load 4 (sr_optval res) 0) + 1 = gen.
Proof.
  intros Hok Hsw. destruct (ho_ok_group _ _ _ _ _ _ _ Hok) as (st & done & Hst & Hg & _ & Hs & _). rewrite Hsw in *.
  assert (first ∈ news) as Hf by left.
  destruct (rd_news _ _ _ _ _ _ _ R first Hf) as (Hkey & _).
  destruct (sv_socks _ _ _ _ _ _ _ _ _ _ Hs first Hf) as (so & Hso & Happ & _).
  destruct (percpu_page_ok (w_tick (ho_world s))) eqn:Hpg.
  - pose proof (getsockopt_working_gen (get_gen_call first) (ho_world s) st so eq_refl eq_refl eq_refl Hpg eq_refl) as Hr.
    destruct (udpgrm_getsockopt _ _) as [res w']. cbn [fst] in Hr. intros _. rewrite Hr.
    + cbn [sr_optval]. rewrite load_app_end, Happ, (app_small _ _ _ _ _ _ _ R), (proj2 (gr_working _ _ _ _ _ _ _ Hg)), Hgen.
      f_equal. unfold s32, u32. by rewrite Z.mod_mod.
    + cbn [so_sk get_gen_call]. by rewrite Hkey.
    + exact Hso.
  - pose proof (no_page (get_gen_call first) (ho_world s) eq_refl eq_refl Hpg) as Hr.
    destruct (udpgrm_getsockopt _ _) as [res w']. cbn [fst] in Hr. rewrite Hr. discriminate.
Qed.

(** A call of the tool is a step of the hand-over, or nothing to it. *)
Lemma tool_simulated t s : ok s → running t = true → at_stage t s →
  ∃ s', hstep s s' ∧ ho_world s' = snd (call t (ho_world s)) ∧ ho_daemon s' = ho_daemon s ∧
    at_stage (fst (call t (ho_world s))) s'.
Proof.
  destruct s as [c sn b w d]. intros Hok Hrun Hat. cbn [ho_world ho_daemon].
  assert (∀ ctx, hstep (mk_handover _ c sn b w d) (mk_handover _ c sn b (snd (udpgrm_getsockopt ctx w)) d)) as Hget
    by (intros; apply H_other, O_getsockopt).
  assert (∀ ctx, sr_ret (fst (udpgrm_setsockopt ctx w)) = 0 →
    hstep (mk_handover _ c sn b w d) (mk_handover _ c sn b (snd (udpgrm_setsockopt ctx w)) d)) as Href
    by (intros; by apply H_other, O_refused).
  destruct t as [| | | |g i n rest|g i n rest|g i|]; try done; cbn [tool_call].
  - (* the working generation is read *)
    pose proof (read_gen _ Hok (proj2 Hat)) as Hrd. cbn [ho_world] in Hrd. specialize (Hget (get_gen_call first)).
    destruct (udpgrm_getsockopt (get_gen_call first) w) as [res w'] eqn:E. cbn [snd] in Hget.
    eexists. split; [exact Hget|]. destruct (Z.eqb_spec (sr_ret res) 1) as [Hr|_]; [|done].
    rewrite (Hrd Hr). case_match; [|done]. cbn [fst snd ho_world ho_daemon]. split_and!; [done|done|].
    apply (stage_register _ []); [done|]. intros m Hm. destruct Hat as [Hc _]. cbn in Hc. cbn in Hm. by rewrite Hc in Hm.
  - (* a registration *)
    destruct Hat as (-> & before & E & Hc). cbn [ho_called] in Hc.
    assert (n ∈ news) as Hn by (rewrite E; apply elem_of_app; right; left).
    destruct (retrying_outcome (set_call n UDP_GRM_SOCKET_GEN (u32 gen)) i (register_from a first others gen rest)
      (λ i, Register gen i n rest) w) as [(Hr & ->)|(Hr & t & -> & Ht)].
    + eexists. split; [eapply (H_register _ _ _ _ _ _ n c sn b w); [exact Hn| |apply surjective_pairing|exact Hr]|].
      { intros Hin. by apply (nodup_news n before rest (rd_nodup _ _ _ _ _ _ _ R) E), Hc. }
      cbn [fst snd ho_world ho_daemon]. split_and!; [done|done|].
      apply (stage_register _ (before ++ [n])); [by rewrite <- app_assoc|]. cbn [ho_called].
      intros m. rewrite !elem_of_app. intros [?|?]; auto.
    + eexists. split; [by apply Href|]. cbn [fst snd ho_world ho_daemon]. split_and!; [done|done|].
      repeat (apply elem_of_cons in Ht as [->|Ht]); [| |done|by apply not_elem_of_nil in Ht].
      * apply (stage_register _ (before ++ [n])); [by rewrite <- app_assoc|]. cbn [ho_called].
        intros m Hm. apply elem_of_app. auto.
      * split; [done|]. exists before. done.
  - (* a poll *)
    destruct Hat as (-> & before & E & Hs). cbn [ho_seen] in Hs.
    assert (n ∈ news) as Hn by (rewrite E; apply elem_of_app; right; left).
    specialize (Hget (poll_call n)). destruct (udpgrm_getsockopt (poll_call n) w) as [res w'] eqn:Ep. cbn [snd] in Hget.
    destruct (Z.eqb_spec (sr_ret res) 1) as [Hr|_]; [|eexists; split; [exact Hget|done]].
    destruct (Z.eqb_spec (load 4 (sr_optval res) 4) 0xffffffff) as [_|Hl]; cbn [negb].
    + eexists. split; [exact Hget|]. case_match; [done|]. cbn. split_and!; [done|done|done|]. by exists before.
    + eexists. split; [by eapply (H_poll _ _ _ _ _ _ n c sn b w)|]. cbn [fst snd ho_world ho_daemon]. split_and!; [done|done|].
      apply (stage_poll _ (before ++ [n])); [by rewrite <- app_assoc|]. cbn [ho_seen].
      intros m. rewrite elem_of_app, list_elem_of_singleton. intros [Hm| ->]; [right; auto|left].
  - (* the switch *)
    destruct Hat as (-> & Hall). cbn [ho_seen] in Hall.
    assert (last_socket first others ∈ news) as Hn by apply last_in.
    destruct (retrying_outcome (set_call (last_socket first others) UDP_GRM_WORKING_GEN (u32 gen)) i (Exit 0)
      (λ i, Switch gen i) w) as [(Hr & ->)|(Hr & t & -> & Ht)].
    + eexists. split; [eapply (H_switch _ _ _ _ _ _ _ c sn b w); [exact Hn|exact Hall|apply surjective_pairing|exact Hr]|].
      cbn [fst snd ho_world ho_daemon]. split_and!; [done|done|intros _; exact Hall].
    + eexists. split; [by apply Href|]. cbn [fst snd ho_world ho_daemon]. split_and!; [done|done|].
      repeat (apply elem_of_cons in Ht as [->|Ht]); [intros _; exact Hall|by split|done|by apply not_elem_of_nil in Ht].
Qed.
(** One step of the system is at most one step of the hand-over. *)
Definition simulated (x : tool * world * daemon) (s : handover) : Prop :=
  ho_world s = snd (fst x) ∧ ho_daemon s = snd x ∧ ok s ∧ at_stage (fst (fst x)) s.
Lemma astep_simulated x y s : astep x y → simulated x s → ∃ s', hstep s s' ∧ simulated y s'.
Proof.
  intros Hstep (Hw & Hd & Hok & Hat).
  assert (∀ s', hstep s s' → ok s') as Hok' by (intros s' Hs'; by eapply (hstep_ok _ _ _ _ _ _ w0 R)).
  destruct Hstep as [t w d Hrun|t w w' d Ho|path t w w' d d' E|t w d]; cbn [fst snd] in *; subst w d.
  - destruct (tool_simulated t s Hok Hrun Hat) as (s' & Hs' & ? & ? & ?). exists s'. split; [done|].
    split_and!; [done|done|by apply Hok'|done].
  - destruct s as [c sn b w d]. cbn [ho_world ho_daemon] in *. assert (hstep (mk_handover _ c sn b w d) (mk_handover _ c sn b w' d)) as Hs'
      by by apply H_other.
    eexists. split; [exact Hs'|]. split_and!; [done|done|by apply Hok'|]. by destruct t.
  - destruct s as [c sn b w d]. cbn [ho_world ho_daemon] in *. assert (hstep (mk_handover _ c sn b w d) (mk_handover _ c sn b w' d')) as Hs'
      by by eapply H_daemon.
    eexists. split; [exact Hs'|]. split_and!; [done|done|by apply Hok'|]. by destruct t.
  - destruct s as [c sn b w d]. cbn [ho_world ho_daemon] in *.
    eexists. split; [apply H_cleanup|]. split_and!; [done|done|apply Hok', H_cleanup|]. by destruct t.
Qed.
Lemma activate_steps x y : rtc astep x y → ∀ s, simulated x s → ∃ s', rtc hstep s s' ∧ ho_world s' = snd (fst y) ∧
  ho_daemon s' = snd y ∧ at_stage (fst (fst y)) s'.
Proof.
  induction 1 as [x|x y z Hxy _ IH]; intros s Hs.
  - exists s. destruct Hs as (? & ? & _ & ?). by split_and!.
  - destruct (astep_simulated _ _ _ Hxy Hs) as (s1 & H1 & Hs1). destruct (IH s1 Hs1) as (s2 & H2 & ?).
    exists s2. split; [by eapply rtc_l|done].
Qed.
End Simulation.

(** The calls that are left at most. *)
Definition calls_left (t : tool) : nat :=
  let k := List.length news in
  let tries i := S (8 - i) in
  match t with
  | Bind _ rest => 19 + 19 * List.length rest + (18 * k + 10)
  | Set_dissector _ i _ rest => tries i + 9 + 19 * List.length rest + (18 * k + 10)
  | Set_app i _ rest => tries i + 19 * List.length rest + (18 * k + 10)
  | Read_gen => 18 * k + 10
  | Register _ i _ rest => tries i + 9 * List.length rest + 9 * k + 9
  | Poll _ i _ rest => tries i + 9 * List.length rest + 9
  | Switch _ i => tries i
  | Exit _ => 0
  end.
Lemma switch_left g : (calls_left (switch_from a g) <= 9)%nat.
Proof. unfold switch_from. case_match; cbn; lia. Qed.
Lemma poll_left g l : (calls_left (poll_from a g l) <= 9 * List.length l + 9)%nat.
Proof. destruct l; [apply switch_left|cbn; lia]. Qed.
Lemma register_left g l : (calls_left (register_from a first others g l) <= 9 * List.length l + 9 * List.length news + 9)%nat.
Proof. destruct l; [apply poll_left|cbn; lia]. Qed.
Lemma bind_left l : (calls_left (bind_from a l) <= 19 * List.length l + (18 * List.length news + 10))%nat.
Proof. destruct l; [cbn; case_match; cbn; lia|cbn; lia]. Qed.
Lemma app_left n l : (calls_left (app_from a n l) <= 9 + 19 * List.length l + (18 * List.length news + 10))%nat.
Proof. unfold app_from. case_match; [cbn; lia|]. pose proof (bind_left l). lia. Qed.

Lemma retrying_left ctx i o again w m :
  (calls_left o <= m)%nat → (∀ i, calls_left (again i) = S (8 - i) + m)%nat →
  (calls_left (fst (retrying_setsockopt ctx i o again w)) < S (8 - i) + m)%nat.
Proof.
  intros Ho Ha. unfold retrying_setsockopt. destruct (udpgrm_setsockopt ctx w) as [res w'].
  case_match; [cbn; lia|]. case_match; [|cbn; lia]. destruct (Nat.ltb_spec (S i) 8); cbn [fst]; [|lia].
  rewrite Ha. lia.
Qed.
Lemma calls_decrease t w : running t = true → (calls_left (fst (call t w)) < calls_left t)%nat.
Proof.
  destruct t as [n rest|v i n rest|i n rest| |g i n rest|g i n rest|g i|]; intros Hr; try done; cbn [tool_call].
  - destruct (_bpf_bind (bind_ctx n) w) as [? w'].
    pose proof (app_left n rest). repeat case_match; cbn [fst]; cbn [calls_left] in *; lia.
  - pose proof (app_left n rest) as Hl. pose proof (retrying_left (set_bytes n UDP_GRM_DISSECTOR v) i _
      (λ i, Set_dissector v i n rest) w _ Hl ltac:(intros; cbn; lia)). cbn [calls_left]. lia.
  - pose proof (bind_left rest) as Hl. pose proof (retrying_left (set_call n UDP_GRM_SOCKET_APP (default 0 (a_app a))) i _
      (λ i, Set_app i n rest) w _ Hl ltac:(intros; cbn; lia)). cbn [calls_left]. lia.
  - destruct (udpgrm_getsockopt _ w) as [res w'].
    pose proof (register_left (s32 (load 4 (sr_optval res) 0) + 1) news).
    repeat case_match; cbn [fst]; cbn [calls_left] in *; lia.
  - pose proof (register_left g rest) as Hl. pose proof (retrying_left (set_call n UDP_GRM_SOCKET_GEN (u32 g)) i _
      (λ i, Register g i n rest) w _ Hl ltac:(intros; cbn; lia)). cbn [calls_left]. lia.
  - destruct (udpgrm_getsockopt _ w) as [res w']. pose proof (poll_left g rest).
    repeat case_match; cbn [fst]; cbn [calls_left] in *; try lia.
    match goal with Hi : (7 <=? i)%nat = false |- _ => apply Nat.leb_gt in Hi end. lia.
  - pose proof (retrying_left (set_call (last_socket first others) UDP_GRM_WORKING_GEN (u32 g)) i (Exit 0)
      (λ i, Switch g i) w 0 ltac:(cbn; lia) ltac:(intros; cbn; lia)). cbn [calls_left]. lia.
Qed.
End Refines.


(** ** What the kernel reads in the option value *)
Lemma length_pack_s n s : List.length (pack_s n s) = n.
Proof. unfold pack_s. rewrite length_app, length_take, length_zeros. lia. Qed.
Lemma pack_uint_ok n v : 0 <= v < 2 ^ (8 * Z.of_nat n) → pack_uint n v = Some (le_bytes n v).
Proof. intros Hv. unfold pack_uint. replace ((0 <=? v) && (v <? 2 ^ (8 * Z.of_nat n))) with true by lia. done. Qed.

(** An instruction as [struct sock_filter], and as the tool's tuple. *)
Definition filter_of (f : Z * Z * Z * Z) : sock_filter := let '(code, jt, jf, k) := f in mk_filter code jt jf k.
Definition filter_ok (f : Z * Z * Z * Z) : Prop :=
  let '(code, jt, jf, k) := f in 0 <= code < 2 ^ 16 ∧ 0 <= jt < 2 ^ 8 ∧ 0 <= jf < 2 ^ 8 ∧ 0 <= k < 2 ^ 32.
Definition filter_bytes (f : Z * Z * Z * Z) : list Z :=
  let '(code, jt, jf, k) := f in le_bytes 2 code ++ le_bytes 1 jt ++ le_bytes 1 jf ++ le_bytes 4 k.
Lemma pack_filter_ok f : filter_ok f → pack_filter f = Some (filter_bytes f).
Proof.
  destruct f as [[[code jt] jf] k]. intros (? & ? & ? & ?). unfold pack_filter, pack_H, pack_B, pack_I.
  by rewrite !pack_uint_ok by lia.
Qed.
Lemma pack_filters l : Forall filter_ok l → mapM pack_filter l = Some (map filter_bytes l).
Proof. induction 1 as [|f l Hf _ IH]; [done|]. cbn. by rewrite (pack_filter_ok f Hf), IH. Qed.
Lemma length_filter_bytes f : List.length (filter_bytes f) = 8%nat.
Proof. destruct f as [[[code jt] jf] k]. unfold filter_bytes. by rewrite !length_app, !length_le_bytes. Qed.
Lemma length_filters l : List.length (concat (map filter_bytes l)) = (8 * List.length l)%nat.
Proof. induction l as [|f l IH]; [done|]. cbn [map concat List.length]. rewrite length_app, length_filter_bytes, IH. lia. Qed.

(** The [i]th instruction of the array of instructions in front of anything. *)
Lemma read_filter l z i f : Forall filter_ok l → l !! i = Some f →
  let b := concat (map filter_bytes l) ++ z in let o := (8 * i)%nat in
  mk_filter (load 2 b o) (load 1 b (o + 2)) (load 1 b (o + 3)) (load 4 b (o + 4)) = filter_of f.
Proof.
  intros Hl. revert i. induction Hl as [|g l Hg Hl IH]; intros [|i] Hi; try done.
  - injection Hi as ->. cbn [map concat Nat.mul]. rewrite <- app_assoc. destruct f as [[[code jt] jf] k].
    destruct Hg as (? & ? & ? & ?). unfold filter_bytes, filter_of. rewrite <- !app_assoc. cbn [Nat.add].
    rewrite (load_app_here 2). rewrite !(load_app_skip _ (le_bytes 2 code)) by (rewrite length_le_bytes; lia).
    rewrite length_le_bytes. cbn [Nat.sub]. rewrite (load_app_here 1).
    rewrite !(load_app_skip _ (le_bytes 1 jt)) by (rewrite length_le_bytes; lia). rewrite length_le_bytes. cbn [Nat.sub].
    rewrite (load_app_here 1). rewrite (load_app_skip _ (le_bytes 1 jf)) by (rewrite length_le_bytes; lia).
    rewrite length_le_bytes. cbn [Nat.sub]. rewrite (load_app_here 4). by rewrite !Z.mod_small by lia.
  - cbn zeta in *. rewrite <- (IH i Hi). cbn [map concat]. rewrite <- !app_assoc.
    rewrite !(load_app_skip _ (filter_bytes g)) by (rewrite length_filter_bytes; lia). rewrite length_filter_bytes.
    f_equal; f_equal; lia.
Qed.

(** The fields of a full value. *)
Lemma pack_full_fields a b c d label n tail v :
  pack_full a b c d label n (Some tail) = Some v →
  List.length v = DISSECTOR_SZ ∧ dis_type v = a ∧ dis_flow_entry_timeout_sec v = b ∧ dis_max_apps v = c ∧
  dis_bespoke_digest v = d ∧ dis_label v = pack_s 100 label ∧ dis_filter_len v = Z.of_nat n ∧
  drop 120 v = pack_s 512 (concat tail).
Proof.
  unfold pack_full, pack_head, pack_I, pack_uint. intros E.
  repeat match type of E with context [if ?x then _ else _] => destruct x eqn:?; [|discriminate] end.
  cbn [mbind option_bind] in E. apply (inj Some) in E. subst v. change (2 ^ (8 * Z.of_nat 4)) with (2 ^ 32) in *.
  set (l := pack_s 100 label). set (t := pack_s 512 (concat tail)).
  assert (List.length l = 100%nat) as Hl by apply length_pack_s.
  assert (List.length t = 512%nat) as Ht by apply length_pack_s.
  rewrite <- !app_assoc. clearbody l t.
  unfold dis_type, dis_flow_entry_timeout_sec, dis_max_apps, dis_bespoke_digest, dis_label, dis_filter_len.
  split_and!.
  - rewrite !length_app, !length_le_bytes, Hl, Ht. reflexivity.
  - rewrite (load_app_here 4). change (2 ^ (8 * Z.of_nat 4)) with (2 ^ 32). apply Z.mod_small. lia.
  - rewrite load_app_skip, length_le_bytes by (rewrite length_le_bytes; lia). cbn [Nat.sub].
    rewrite (load_app_here 4). change (2 ^ (8 * Z.of_nat 4)) with (2 ^ 32). apply Z.mod_small. lia.
  - do 2 rewrite load_app_skip, length_le_bytes by (rewrite length_le_bytes; cbn; lia). cbn [Nat.sub].
    rewrite (load_app_here 4). change (2 ^ (8 * Z.of_nat 4)) with (2 ^ 32). apply Z.mod_small. lia.
  - do 3 rewrite load_app_skip, length_le_bytes by (rewrite length_le_bytes; cbn; lia). cbn [Nat.sub].
    rewrite (load_app_here 4). change (2 ^ (8 * Z.of_nat 4)) with (2 ^ 32). apply Z.mod_small. lia.
  - unfold slice. do 4 rewrite drop_app_ge, length_le_bytes by (rewrite length_le_bytes; cbn; lia). cbn [Nat.sub].
    rewrite drop_0, <- Hl. by rewrite take_app_length.
  - do 4 rewrite load_app_skip, length_le_bytes by (rewrite length_le_bytes; cbn; lia).
    rewrite load_app_skip, Hl by (rewrite Hl; cbn; lia). cbn [Nat.sub]. rewrite (load_app_here 4). change (2 ^ (8 * Z.of_nat 4)) with (2 ^ 32). apply Z.mod_small. lia.
  - do 4 rewrite drop_app_ge, length_le_bytes by (rewrite length_le_bytes; cbn; lia).
    rewrite drop_app_ge, Hl by (rewrite Hl; cbn; lia). rewrite drop_app_ge, length_le_bytes by (rewrite length_le_bytes; cbn; lia).
    cbn [Nat.sub]. apply drop_0.
Qed.

Lemma load_drop n l x o : load n l (x + o) = load n (drop x l) o.
Proof. unfold load, slice. by rewrite drop_drop. Qed.
Lemma load_retyped n d x o : (4 <= o)%nat → (4 <= List.length d)%nat → load n (store d 0 (le_bytes 4 x)) o = load n d o.
Proof. intros Ho Hd. unfold load. rewrite slice_store_after by (rewrite ?length_le_bytes; lia). done. Qed.
Lemma retyped_filter d x i : (4 <= List.length d)%nat → dis_filter (store d 0 (le_bytes 4 x)) i = dis_filter d i.
Proof. intros Hd. unfold dis_filter. by rewrite !load_retyped by lia. Qed.

Lemma loaded_filter a b c d label l v i f : Forall filter_ok l → (List.length l <= 64)%nat →
  pack_full a b c d label (List.length l) (Some (map filter_bytes l)) = Some v → l !! i = Some f → dis_filter v i = filter_of f.
Proof.
  intros Hl Hsz E Hi. apply pack_full_fields in E as (_ & _ & _ & _ & _ & _ & _ & Hd).
  unfold dis_filter. rewrite <- !Nat.add_assoc, !(load_drop _ v 120), Hd.
  unfold pack_s. rewrite take_ge by (rewrite length_filters; lia). by apply read_filter.
Qed.

(** The value for a bytecode file. *)
Definition bytecode_type (a : args) : Z := Z.lor DISSECTOR_CBPF (if a_verbose a then DISSECTOR_FLAG_VERBOSE else 0).
Lemma bytecode_value a : Forall filter_ok (a_cbpf a) → a_cbpf a ≠ [] → Z.of_nat (List.length (a_cbpf a)) < 2 ^ 32 →
  0 <= a_apps_max a < 2 ^ 32 →
  ∃ v, dissector_value a = Packed v ∧ pack_full (bytecode_type a) 0 (a_apps_max a) 0 (a_tubular a)
    (List.length (a_cbpf a)) (Some (map filter_bytes (a_cbpf a))) = Some v.
Proof.
  intros Hf Hne Hl Hm. unfold dissector_value. replace (nonempty (a_cbpf a)) with true by (by destruct (a_cbpf a)).
  cbn [orb]. rewrite (pack_filters _ Hf). fold (bytecode_type a). unfold pack_full, pack_head, pack_I.
  rewrite (pack_uint_ok 4 (bytecode_type a)) by (unfold bytecode_type; destruct (a_verbose a); vm_compute; split; congruence).
  rewrite !pack_uint_ok by (change (2 ^ (8 * Z.of_nat 4)) with (2 ^ 32); lia). cbn [mbind option_bind packed_of]. by eexists.
Qed.

(** C19. The bytecode of the activation tool: for a file of 1 to 64 instructions the tool packs
    an option value that passes the validation of the hook; once the hook has accepted it
    on a new group, the group runs exactly these instructions, with the maximum number of
    applications asked for and the verbose flag; a longer file is refused. *)
Theorem activate_bytecode_loaded {K : Kernel} {L : KernelLaws} a :
  Forall filter_ok (a_cbpf a) → a_cbpf a ≠ [] → Z.of_nat (List.length (a_cbpf a)) < 2 ^ 32 → 0 <= a_apps_max a <= MAX_APPS →
  ∃ v, dissector_value a = Packed v ∧ List.length v = DISSECTOR_SZ ∧
  (dissector_invalid v = true ↔ (64 < List.length (a_cbpf a))%nat) ∧
  ∀ n w res w', udpgrm_setsockopt (set_bytes n UDP_GRM_DISSECTOR v) w = (res, w') → sr_ret res = 1 →
    group_at w (_skey_from_bpf_sock (ns_sk n)) = None →
    ∃ st, group_at w' (_skey_from_bpf_sock (ns_sk n)) = Some st ∧
      dis_type (dis st) = DISSECTOR_CBPF ∧ verbose st = (if a_verbose a then 1 else 0) ∧
      dis_max_apps (dis st) = a_apps_max a ∧ dis_bespoke_digest (dis st) = 0 ∧
      dis_filter_len (dis st) = Z.of_nat (List.length (a_cbpf a)) ∧
      ∀ i f, a_cbpf a !! i = Some f → dis_filter (dis st) i = filter_of f.
Proof.
  intros Hf Hne Hl Hm. unfold MAX_APPS in Hm.
  destruct (bytecode_value a Hf Hne Hl ltac:(lia)) as (v & Hv & Hp). exists v. split; [done|].
  pose proof (pack_full_fields _ _ _ _ _ _ _ _ Hp) as (Hlen & Hty & _ & Hap & Hdg & _ & Hfl & _).
  assert (DISSECTOR_TYPE (dis_type v) = DISSECTOR_CBPF) as Htype.
  { rewrite Hty. unfold bytecode_type. by destruct (a_verbose a). }
  assert (0 < List.length (a_cbpf a))%nat as Hpos by (destruct (a_cbpf a); [done|cbn; lia]).
  split; [done|]. assert (dissector_invalid v = (64 <? Z.of_nat (List.length (a_cbpf a)))) as Hinv.
  { unfold dissector_invalid. cbv zeta. rewrite Htype, Hfl, Hap, Hdg. change (DISSECTOR_CBPF =? DISSECTOR_FLOW) with false.
    change (DISSECTOR_CBPF =? DISSECTOR_CBPF) with true. change (negb (0 =? 0)) with false.
    unfold MAX_INSTR, MAX_APPS. cbv iota. lia. }
  split; [rewrite Hinv, Z.ltb_lt; lia|]. intros n w res w' E Hr Hnone.
  destruct (set_dissector_new (set_bytes n UDP_GRM_DISSECTOR v) w res w' eq_refl eq_refl
    ltac:(cbn [so_optlen set_bytes]; lia) eq_refl E Hr Hnone) as (x & s & rnd & Hx & _ & Hok & _ & Hat).
  rewrite (data_dis_full _ x Hx Hlen) in Hok, Hat. cbn [so_optval set_bytes so_sk] in Hok, Hat.
  eexists. split; [exact Hat|]. unfold dissector_storage. cbn [dis set_dis set_dis_type set_verbose verbose].
  rewrite Htype. unfold DISSECTOR_SZ in Hlen.
  assert (∀ o, (4 <= o)%nat → load 4 (store v 0 (le_bytes 4 DISSECTOR_CBPF)) o = load 4 v o) as Ho
    by (intros o Ho; by apply load_retyped; lia).
  unfold dis_max_apps, dis_bespoke_digest, dis_filter_len in *. split_and!.
  - unfold dis_type. rewrite load_store_same by (rewrite Hlen; lia). reflexivity.
  - rewrite Hty. unfold bytecode_type. by destruct (a_verbose a).
  - by rewrite Ho by lia.
  - by rewrite Ho by lia.
  - by rewrite Ho by lia.
  - intros i f Hi. rewrite retyped_filter by lia.
    assert (List.length (a_cbpf a) <= 64)%nat as Hsz by (rewrite Hinv in Hok; apply Z.ltb_ge in Hok; lia).
    by apply (loaded_filter _ _ _ _ _ _ _ _ _ Hf Hsz Hp).
Qed.

(** ** Evaluation *)
Section Witnesses.
#[local] Existing Instance good_kernel.
#[local] Existing Instance no_bespoke.
#[local] Existing Instance demo_host.

(** The bytecode of [Cbpf]'s example, verbose. *)
Definition demo_args : args :=
  mk_args (map (λ f, (f_code f, f_jt f, f_jf f, f_k f)) example_prog) 0 [] false [] 124 0 None true false true.
Definition demo_value : list Z := match dissector_value demo_args with Packed v => v | _ => [] end.
Definition demo_bound : world := set_groups (∅ : gmap reuseport_storage_key reuseport_storage) (demo_w0 []).
Definition demo_set : world := snd (udpgrm_setsockopt (set_bytes demo5 UDP_GRM_DISSECTOR demo_value) demo_bound).

Lemma activate_bytecode_loaded_witness :
  ∃ st, group_at demo_set demo_key = Some st ∧ verbose st = 1 ∧ dis_filter_len (dis st) = 5 ∧
    dis_filter (dis st) 3 = mk_filter 0x28 0 0 1.
Proof.
  destruct (activate_bytecode_loaded demo_args) as (v & Hv & _ & _ & Hset).
  - repeat constructor; discriminate.
  - discriminate.
  - reflexivity.
  - split; discriminate.
  - assert (v = demo_value) as -> by (unfold demo_value; by rewrite Hv).
    destruct (Hset demo5 demo_bound (fst (udpgrm_setsockopt (set_bytes demo5 UDP_GRM_DISSECTOR demo_value) demo_bound)) demo_set)
      as (st & Hst & _ & Hvb & _ & _ & Hlen & Hf).
    + apply surjective_pairing.
    + vm_compute. reflexivity.
    + reflexivity.
    + exists st. split; [exact Hst|]. split; [exact Hvb|]. split; [exact Hlen|]. apply (Hf 3%nat (0x28, 0, 0, 1)). reflexivity.
Defined.

(** A run of the tool on the two sockets of [Handover]'s example; the daemon runs after the
    registrations. *)
Definition demo_bind (n : newsock) : bpf_sock_addr :=
  mk_sock_addr (ns_sk n) AF_INET 1 (0, 0, 0, 0) 0x5111 IPPROTO_UDP (ns_cookie n) 0 (Some 1).
Definition demo_dis : list Z := zeros DISSECTOR_SZ.
Definition tool_next (x : tool * world * daemon) : tool * world * daemon :=
  let '(t, w, d) := x in
  (fst (tool_call demo_args demo5 [demo6] demo_bind t w), snd (tool_call demo_args demo5 [demo6] demo_bind t w), d).
Definition daemon_next (x : tool * world * daemon) : tool * world * daemon :=
  let '(t, w, d) := x in
  let r := done_or (ring_buffer_consume true d w) (d, w) in (t, snd r, fst r).
Definition demo_x0 : tool * world * daemon := (Read_gen, demo_w0 demo_dis, no_daemon).
Definition demo_x3 := tool_next (tool_next (tool_next demo_x0)).
Definition demo_x4 := daemon_next demo_x3.
Definition demo_x7 := tool_next (tool_next (tool_next demo_x4)).

Definition tool_of (x : tool * world * daemon) : tool := fst (fst x).
Definition world_of (x : tool * world * daemon) : world := snd (fst x).
#[local] Abbreviation demo_astep := (astep demo_args demo5 [demo6] demo_bind demo_key (demo_group demo_dis) 0 1).
Lemma demo_tool_next x : running (tool_of x) = true → demo_astep x (tool_next x).
Proof. destruct x as [[t w] d]. intros Hr. by apply A_tool. Qed.
Lemma demo_daemon_next x : is_done (ring_buffer_consume true (snd x) (world_of x)) = true → demo_astep x (daemon_next x).
Proof.
  destruct x as [[t w] d]. intros Hr. apply (A_daemon _ _ _ _ _ _ _ _ true). rewrite <- surjective_pairing. by apply is_done_spec.
Qed.
Lemma demo_tool_run : rtc demo_astep demo_x0 demo_x7.
Proof.
  eapply rtc_l; [apply demo_tool_next; vm_compute; reflexivity|].
  eapply rtc_l; [apply demo_tool_next; vm_compute; reflexivity|].
  eapply rtc_l; [apply demo_tool_next; vm_compute; reflexivity|].
  eapply rtc_l; [apply (demo_daemon_next demo_x3); vm_compute; reflexivity|].
  eapply rtc_l; [apply (demo_tool_next demo_x4); vm_compute; reflexivity|].
  eapply rtc_l; [apply demo_tool_next; vm_compute; reflexivity|].
  apply rtc_once, demo_tool_next. vm_compute. reflexivity.
Qed.


(** Eight EAGAIN are taken for a success: with a ring buffer that stays full the sockets are
    never registered, nor is the dissector set, and only polling notices. *)
Lemma eight_eagain_ignored {K' : Kernel} ctx ok again w :
  sr_ret (fst (udpgrm_setsockopt ctx w)) = 0 → sr_retval (fst (udpgrm_setsockopt ctx w)) = - EAGAIN →
  fst (retrying_setsockopt ctx 7 ok again w) = ok.
Proof.
  intros Hr Hv. unfold retrying_setsockopt. destruct (udpgrm_setsockopt ctx w) as [res w']. cbn [fst] in *. by rewrite Hr, Hv.
Qed.
(** Host names without a digest: the tool ends with an exception. *)
Example hostnames_need_digest :
  dissector_value (mk_args [] 0 [Some ([120], 1)] false [] 124 2 (Some 1) false false false) = Raises.
Proof. reflexivity. Qed.
End Witnesses.
