(* ===== verification/Crate.v ===== *)
(** The Rust crate: [crates/udpgrm/src/lib.rs] and [types.rs], socket options as a Rust
    application sets and reads them.

    A structure with [repr(C)] is the list of its bytes; [set_opt] and [get_opt] are the calls
    into libc, whose errors become [Err]. The options read back what was set, and the
    dissector option has the layout that the C code and the activation tool use. *)

From S2P Require Import Prelude Cookie SipHash Storage Cbpf Dissector Reuseport Flow Hooks Host Daemon System Handover Activate.
Open Scope Z_scope.

(** ** Types *)

(** [repr(u32)]: the discriminants. *)
Inductive UdpGrmDissectorType := DissectorFlow | DissectorCbpf | DissectorBespoke | DissectorNoop.
Definition discriminant (t : UdpGrmDissectorType) : Z :=
  match t with DissectorFlow => 0 | DissectorCbpf => 1 | DissectorBespoke => 3 | DissectorNoop => 4 end.
Definition SockFilter_default : sock_filter := mk_filter 0 0 0 0.
(** Arrays are lists of their length. *)
Record UdpGrmDissectorOpts := mk_opts {
  dissector_type : UdpGrmDissectorType;
  flow_entry_timeout_sec : Z;
  max_apps : Z;
  _res2 : Z;
  label : list Z;
  filter_len : Z;
  sock_filters : list sock_filter;
}.
Definition UdpGrmDissectorOpts_default : UdpGrmDissectorOpts :=
  mk_opts DissectorFlow 0 0 0 (zeros 100) 0 (repeat SockFilter_default 64).
Record UdpGrmSocketGen := mk_socket_gen { socket_gen : Z; socket_idx : Z; grm_cookie : Z }.

(** The layouts. *)
Definition tuple_of (f : sock_filter) : Z * Z * Z * Z := (f_code f, f_jt f, f_jf f, f_k f).
Definition opts_bytes (o : UdpGrmDissectorOpts) : list Z :=
  le_bytes 4 (discriminant (dissector_type o)) ++ le_bytes 4 (flow_entry_timeout_sec o) ++ le_bytes 4 (max_apps o)
  ++ le_bytes 4 (_res2 o) ++ label o ++ le_bytes 4 (filter_len o) ++ concat (map (λ f, filter_bytes (tuple_of f)) (sock_filters o)).
Definition socket_gen_of (b : list Z) : UdpGrmSocketGen := mk_socket_gen (load 4 b 0) (load 4 b 4) (load 2 b 8).

(** What the types say of the fields. *)
Record opts_ok (o : UdpGrmDissectorOpts) : Prop := {
  oo_timeout : 0 <= flow_entry_timeout_sec o < 2 ^ 32;
  oo_apps : 0 <= max_apps o < 2 ^ 32;
  oo_res2 : 0 <= _res2 o < 2 ^ 32;
  oo_label : List.length (label o) = 100%nat;
  oo_len : 0 <= filter_len o < 2 ^ 32;
  oo_filters : List.length (sock_filters o) = 64%nat;
  oo_each : Forall (λ f, filter_ok (tuple_of f)) (sock_filters o);
}.

(** ** Calls *)
Section Calls.
Context {K : Kernel}.

(** [io::Result]: [inl] of an errno. *)
Definition result (A : Type) : Type := Z + A.
Definition cvt_linux_error (t errno : Z) : result Z := if t =? -1 then inl errno else inr t.
(** What libc makes of the answer of the hook. *)
Definition libc_ret (res : sockopt_result) : Z * Z := if sr_ret res =? 1 then (0, 0) else (-1, - sr_retval res).

Definition set_opt (n : newsock) (val : Z) (payload : list Z) (w : world) : result unit * world :=
  let '(res, w) := udpgrm_setsockopt (set_bytes n val payload) w in
  let '(t, errno) := libc_ret res in
  (match cvt_linux_error t errno with inl e => inl e | inr _ => inr () end, w).
Definition get_bytes (n : newsock) (val : Z) (payload : list Z) : bpf_sockopt :=
  mk_sockopt (ns_sk n) IPPROTO_UDP val (Z.of_nat (List.length payload)) payload (- ENOPROTOOPT) (ns_pid n).
Definition get_opt (n : newsock) (val : Z) (payload : list Z) (w : world) : result (list Z) * world :=
  let '(res, w) := udpgrm_getsockopt (get_bytes n val payload) w in
  let '(t, errno) := libc_ret res in
  (match cvt_linux_error t errno with inl e => inl e | inr _ => inr (sr_optval res) end, w).

Definition map_ok {A B} (f : A → B) (r : result A * world) : result B * world :=
  (match fst r with inl e => inl e | inr a => inr (f a) end, snd r).

Definition fd_set_dissector (n : newsock) (dissector_opts : UdpGrmDissectorOpts) :=
  set_opt n UDP_GRM_DISSECTOR (opts_bytes dissector_opts).
Definition fd_set_socket_gen (n : newsock) (socket_gen : Z) := set_opt n UDP_GRM_SOCKET_GEN (le_bytes 4 socket_gen).
Definition fd_get_socket_gen (n : newsock) (w : world) : result UdpGrmSocketGen * world :=
  map_ok socket_gen_of (get_opt n UDP_GRM_SOCKET_GEN (zeros 12) w).
Definition fd_set_working_gen (n : newsock) (working_gen : Z) := set_opt n UDP_GRM_WORKING_GEN (le_bytes 4 working_gen).
Definition fd_get_working_gen (n : newsock) (w : world) : result Z * world :=
  map_ok (λ b, load 4 b 0) (get_opt n UDP_GRM_WORKING_GEN (zeros 4) w).
Definition fd_get_app_number (n : newsock) (w : world) : result Z * world :=
  map_ok (λ b, load 4 b 0) (get_opt n UDP_GRM_SOCKET_APP (zeros 4) w).
Definition fd_set_app_number (n : newsock) (app_no : Z) := set_opt n UDP_GRM_SOCKET_APP (le_bytes 4 app_no).

Lemma set_opt_ok n val payload w w' : set_opt n val payload w = (inr (), w') →
  ∃ res, udpgrm_setsockopt (set_bytes n val payload) w = (res, w') ∧ sr_ret res = 1.
Proof.
  unfold set_opt, libc_ret, cvt_linux_error. destruct (udpgrm_setsockopt _ w) as [res w1].
  destruct (Z.eqb_spec (sr_ret res) 1) as [Hr|]; cbn; [intros [= <-]; by eexists|done].
Qed.
Lemma get_opt_ok n val payload w ol v : fst (udpgrm_getsockopt (get_bytes n val payload) w) = mk_sores 1 ol 0 v →
  get_opt n val payload w = (inr v, snd (udpgrm_getsockopt (get_bytes n val payload) w)).
Proof. unfold get_opt. destruct (udpgrm_getsockopt _ w) as [res w1]. cbn. by intros ->. Qed.
End Calls.

(** ** The dissector option *)
Section Layout.
Context (o : UdpGrmDissectorOpts) (Ho : opts_ok o).

Definition opts_tuples : list (Z * Z * Z * Z) := map tuple_of (sock_filters o).
Lemma opts_pack_full : pack_full (discriminant (dissector_type o)) (flow_entry_timeout_sec o) (max_apps o) (_res2 o) (label o)
  (Z.to_nat (filter_len o)) (Some (map filter_bytes opts_tuples)) = Some (opts_bytes o).
Proof.
  destruct Ho as [Ht Ha Hr Hl Hn Hf _].
  assert (0 <= discriminant (dissector_type o) < 2 ^ 32) as Hd by (destruct (dissector_type o); cbn; lia).
  unfold pack_full, pack_head, pack_I. rewrite !pack_uint_ok by (change (2 ^ (8 * Z.of_nat 4)) with (2 ^ 32); lia).
  cbn [mbind option_bind]. f_equal. unfold opts_bytes. rewrite <- !app_assoc. rewrite Z2Nat.id by lia.
  assert (pack_s 100 (label o) = label o) as ->.
  { unfold pack_s. rewrite Hl, take_ge by lia. cbn. apply app_nil_r. }
  assert (pack_s 512 (concat (map filter_bytes opts_tuples)) = concat (map filter_bytes opts_tuples)) as ->.
  { unfold pack_s. rewrite take_ge by (rewrite length_filters; unfold opts_tuples; rewrite length_map, Hf; lia).
    rewrite length_filters. unfold opts_tuples. rewrite length_map, Hf. cbn. apply app_nil_r. }
  do 6 f_equal. unfold opts_tuples. by rewrite map_map.
Qed.
Lemma opts_filters i f : sock_filters o !! i = Some f → dis_filter (opts_bytes o) i = f.
Proof.
  intros Hi. pose proof opts_pack_full as E. apply pack_full_fields in E as (_ & _ & _ & _ & _ & _ & _ & Hd).
  assert (Forall filter_ok opts_tuples) as Hall by (apply Forall_map, (oo_each _ Ho)).
  assert (List.length opts_tuples = 64%nat) as Hlen by (unfold opts_tuples; rewrite length_map; apply (oo_filters _ Ho)).
  unfold dis_filter. rewrite <- !Nat.add_assoc, !(load_drop _ (opts_bytes o) 120), Hd.
  unfold pack_s. rewrite take_ge by (rewrite length_filters, Hlen; lia).
  rewrite (read_filter opts_tuples _ i (tuple_of f) Hall); [by destruct f|]. unfold opts_tuples. by rewrite list_lookup_fmap, Hi.
Qed.
End Layout.

(** A bytecode dissector is, byte for byte, what the activation tool packs for the same
    instructions, number of applications and label. *)
Theorem crate_dissector_is_tools o a :
  opts_ok o → dissector_type o = DissectorCbpf → flow_entry_timeout_sec o = 0 → _res2 o = 0 →
  a_verbose a = false → a_apps_max a = max_apps o → pack_s 100 (a_tubular a) = label o →
  a_cbpf a ≠ [] → a_cbpf a = map tuple_of (take (Z.to_nat (filter_len o)) (sock_filters o)) →
  drop (Z.to_nat (filter_len o)) (sock_filters o) = repeat SockFilter_default (64 - Z.to_nat (filter_len o)) →
  filter_len o <= 64 → dissector_value a = Packed (opts_bytes o).
Proof.
  intros Ho Hty Ht Hr Hv Hap Hl Hne Hf Hz Hle. pose proof (oo_len _ Ho) as Hlen. pose proof (oo_filters _ Ho) as H64.
  assert (List.length (a_cbpf a) = Z.to_nat (filter_len o)) as Hn by (rewrite Hf, length_map, length_take; lia).
  assert (Forall filter_ok (a_cbpf a)) as Hok.
  { rewrite Hf. apply Forall_map. apply Forall_take, (oo_each _ Ho). }
  destruct (bytecode_value a Hok Hne ltac:(lia) ltac:(rewrite Hap; apply (oo_apps _ Ho))) as (v & Hp & E).
  rewrite Hp. f_equal. pose proof (opts_pack_full o Ho) as E2. rewrite Hty, Ht, Hr in E2.
  assert (bytecode_type a = 1) as Hbt by (unfold bytecode_type; by rewrite Hv). rewrite Hbt, Hn, Hap in E. cbn [discriminant] in E2.
  assert (∀ t1 t2 l1 l2, pack_s 100 l1 = pack_s 100 l2 → pack_s 512 (concat t1) = pack_s 512 (concat t2) →
    pack_full 1 0 (max_apps o) 0 l1 (Z.to_nat (filter_len o)) (Some t1) =
    pack_full 1 0 (max_apps o) 0 l2 (Z.to_nat (filter_len o)) (Some t2)) as Hcongr.
  { intros t1 t2 l1 l2 E1 E3. unfold pack_full, pack_head. rewrite E1. cbn [mbind option_bind]. by rewrite E3. }
  rewrite (Hcongr _ (map filter_bytes (opts_tuples o)) _ (label o)) in E; [congruence| |].
  - rewrite Hl. unfold pack_s. rewrite (oo_label _ Ho), take_ge by (rewrite (oo_label _ Ho); lia). cbn. by rewrite app_nil_r.
  - rewrite Hf. unfold opts_tuples. set (m := Z.to_nat (filter_len o)) in *.
    rewrite <- (take_drop m (sock_filters o)) at 2. rewrite Hz, !map_app, concat_app.
    set (b := concat (map filter_bytes (map tuple_of (take m (sock_filters o))))).
    assert (List.length b = 8 * m)%nat as Hb by (unfold b; rewrite length_filters, length_map, length_take; lia).
    assert (concat (map filter_bytes (map tuple_of (repeat SockFilter_default (64 - m)))) = zeros (8 * (64 - m))) as ->.
    { clear. induction (64 - m)%nat as [|k IH]; [done|]. cbn [repeat map concat]. rewrite IH. replace (8 * S k)%nat with (8 + 8 * k)%nat by lia. done. }
    unfold pack_s. rewrite length_app, length_zeros, Hb. rewrite !take_ge by (rewrite ?length_app, ?length_zeros; lia).
    replace (512 - (8 * m + 8 * (64 - m)))%nat with 0%nat by lia. rewrite app_nil_r. do 2 f_equal. lia.
Qed.

(** The type is an enumeration without flags: the verbose flag of [UdpGrmDissectorFlags] has
    no place in the structure. *)
Lemma crate_never_verbose o : opts_ok o → verbose_of (dis_type (opts_bytes o)) = 0.
Proof.
  intros Ho. pose proof (opts_pack_full o Ho) as E. apply pack_full_fields in E as (_ & -> & _). by destruct (dissector_type o).
Qed.

(** ** Round trips *)
Section Trips.
Context {K : Kernel} {L : KernelLaws}.
Context (n : newsock).
#[local] Abbreviation key := (_skey_from_bpf_sock (ns_sk n)).

Lemma crate_dissector o w w' :
  opts_ok o → fd_set_dissector n o w = (inr (), w') → group_at w key = None →
  dissector_invalid (opts_bytes o) = false ∧ ∃ st, group_at w' key = Some st ∧ dis st = opts_bytes o ∧ verbose st = 0.
Proof.
  intros Ho E Hnone. apply set_opt_ok in E as (res & E & Hr).
  pose proof (pack_full_fields _ _ _ _ _ _ _ _ (opts_pack_full o Ho)) as (Hlen & Hty & _).
  destruct (set_dissector_new (set_bytes n UDP_GRM_DISSECTOR (opts_bytes o)) w res w' eq_refl eq_refl
    ltac:(cbn [so_optlen set_bytes]; lia) eq_refl E Hr Hnone) as (x & s & rnd & Hx & _ & Hok & _ & Hat).
  rewrite (data_dis_full _ x Hx Hlen) in Hok, Hat. cbn [so_optval set_bytes so_sk] in Hok, Hat.
  split; [done|]. eexists. split; [exact Hat|]. unfold dissector_storage.
  cbn [dis set_dis set_dis_type set_verbose verbose]. split; [|by apply crate_never_verbose].
  rewrite Hty. replace (DISSECTOR_TYPE _) with (discriminant (dissector_type o)) by (by destruct (dissector_type o)).
  rewrite store_spec by (rewrite length_le_bytes; unfold DISSECTOR_SZ in Hlen; lia). reflexivity.
Qed.
Lemma crate_working_gen g w w' s st :
  0 <= g < 2 ^ 32 → fd_set_working_gen n g w = (inr (), w') → bpf_map_lookup_elem (w_socks w) (ns_id n) = Some s →
  group_at w key = Some st → List.length (working_gen st) = 4%nat → percpu_page_ok (w_tick w') = true →
  fst (fd_get_working_gen n w') = inr g.
Proof.
  intros Hg E Hs Hst Hl Hp. apply set_opt_ok in E as (res & E & Hr).
  destruct (working_gen_roundtrip (set_bytes n UDP_GRM_WORKING_GEN (le_bytes 4 g)) w res w' s st) as (_ & _ & Hget); try done.
  unfold fd_get_working_gen. erewrite get_opt_ok by (apply (Hget (get_bytes n UDP_GRM_WORKING_GEN (zeros 4))); done).
  cbn [map_ok fst so_optval set_bytes]. rewrite !load_app_end. change (2 ^ (8 * Z.of_nat 4)) with (2 ^ 32).
  rewrite Z.mod_mod, Z.mod_small by lia. done.
Qed.
Lemma crate_app_number a w w' :
  0 <= a < 2 ^ 32 → fd_set_app_number n a w = (inr (), w') → percpu_page_ok (w_tick w') = true →
  fst (fd_get_app_number n w') = inr a.
Proof.
  intros Ha E Hp. apply set_opt_ok in E as (res & E & Hr).
  destruct (setsockopt_accepted (set_bytes n UDP_GRM_SOCKET_APP (le_bytes 4 a)) w res w' eq_refl ltac:(done) eq_refl E Hr)
    as (x & s & created & st & w1 & Hx & Hs & Hpr & E').
  pose proof (prepared_aside _ _ _ _ _ _ _ Hpr) as [_ Hsk _ _ _]. unfold setsockopt_opt in E'.
  cbn [so_optname set_bytes Z.eqb Pos.eqb UDP_GRM_DISSECTOR UDP_GRM_WORKING_GEN UDP_GRM_SOCKET_GEN UDP_GRM_FLOW_ASSURE UDP_GRM_SOCKET_APP] in E'.
  unfold set_socket_app_opt in E'. rewrite (data_u32_first _ x Hx ltac:(cbn; lia)) in E'. cbn [so_optval set_bytes] in E'.
  rewrite load_app_end in E'. change (2 ^ (8 * Z.of_nat 4)) with (2 ^ 32) in E'. rewrite Z.mod_small in E' by lia.
  assert (∃ s', bpf_map_lookup_elem (w_socks w') (ns_id n) = Some s' ∧ sock_app s' = a) as (s' & Hs' & <-).
  { destruct (Z.eqb_spec (sock_app s) a) as [Ea|_]; cbn [negb] in E'.
    - injection E' as _ <-. exists s. split; [by rewrite Hsk|done].
    - destruct (_ || _); [by simplify_eq|]. destruct (_ <=? a); [by simplify_eq|]. injection E' as _ <-.
      exists (set_sock_app a s). split; [|done]. apply (map_write_same (exact := true)). cbn [so_sk set_bytes]. rewrite Hsk. eauto. }
  unfold fd_get_app_number. erewrite get_opt_ok by (apply getsockopt_app; done).
  cbn [map_ok fst]. rewrite load_app_end. change (2 ^ (8 * Z.of_nat 4)) with (2 ^ 32). by rewrite Z.mod_small.
Qed.
Lemma crate_socket_gen w st s slot :
  group_at w key = Some st → bpf_map_lookup_elem (w_socks w) (ns_id n) = Some s →
  TO_WRK_GEN (dis_max_apps (dis st)) (sock_app s) (sock_gen s) = Some slot →
  0 <= sock_gen s < 2 ^ 32 → 0 <= sock_idx s < 2 ^ 32 → percpu_page_ok (w_tick w) = true →
  fst (fd_get_socket_gen n w) = inr (mk_socket_gen (sock_gen s) (sock_idx s) (grm_cookie_of slot (sock_idx s))).
Proof.
  intros Hst Hs Hslot Hg Hi Hp. unfold fd_get_socket_gen. erewrite get_opt_ok by (by apply (getsockopt_socket_gen _ w st s slot)).
  cbn [map_ok fst]. unfold socket_gen_of. do 2 f_equal.
  - rewrite load_app_here. change (2 ^ (8 * Z.of_nat 4)) with (2 ^ 32). by rewrite Z.mod_small.
  - rewrite load_app_skip, length_le_bytes by (rewrite length_le_bytes; lia). cbn [Nat.sub]. rewrite load_app_here.
    change (2 ^ (8 * Z.of_nat 4)) with (2 ^ 32). by rewrite Z.mod_small.
Qed.
End Trips.

(** C24. An application in Rust reads back what it set. A dissector that is accepted for a new
    group is in the group byte for byte, its fields where the C structure has them, its
    instructions one by one, has passed the validation and is read back as long as the group
    holds it; the working generation and the application number are read back as they were
    set; of a registered socket the crate reads the generation, the index and the 16-bit
    cookie that packets are dispatched by. *)
Theorem crate_options_roundtrip {K : Kernel} {L : KernelLaws} n :
  let key := _skey_from_bpf_sock (ns_sk n) in
  (∀ o w w', opts_ok o → fd_set_dissector n o w = (inr (), w') → group_at w key = None →
     dissector_invalid (opts_bytes o) = false ∧
     ∃ st, group_at w' key = Some st ∧ dis st = opts_bytes o ∧ verbose st = 0 ∧
       dis_type (dis st) = discriminant (dissector_type o) ∧ dis_flow_entry_timeout_sec (dis st) = flow_entry_timeout_sec o ∧
       dis_max_apps (dis st) = max_apps o ∧ dis_filter_len (dis st) = filter_len o ∧
       (∀ i f, sock_filters o !! i = Some f → dis_filter (dis st) i = f) ∧
       ∀ w2 b, List.length b = DISSECTOR_SZ → percpu_page_ok (w_tick w2) = true → group_at w2 key = Some st →
         fst (get_opt n UDP_GRM_DISSECTOR b w2) = inr (opts_bytes o)) ∧
  (∀ g w w' s st, 0 <= g < 2 ^ 32 → fd_set_working_gen n g w = (inr (), w') →
     bpf_map_lookup_elem (w_socks w) (ns_id n) = Some s → group_at w key = Some st → List.length (working_gen st) = 4%nat →
     percpu_page_ok (w_tick w') = true → fst (fd_get_working_gen n w') = inr g) ∧
  (∀ a w w', 0 <= a < 2 ^ 32 → fd_set_app_number n a w = (inr (), w') → percpu_page_ok (w_tick w') = true →
     fst (fd_get_app_number n w') = inr a) ∧
  ∀ w st s slot, group_at w key = Some st → bpf_map_lookup_elem (w_socks w) (ns_id n) = Some s →
     TO_WRK_GEN (dis_max_apps (dis st)) (sock_app s) (sock_gen s) = Some slot →
     0 <= sock_gen s < 2 ^ 32 → 0 <= sock_idx s < 2 ^ 32 → percpu_page_ok (w_tick w) = true →
     fst (fd_get_socket_gen n w) = inr (mk_socket_gen (sock_gen s) (sock_idx s) (grm_cookie_of slot (sock_idx s))).
Proof.
  intros key. split_and!.
  - intros o w w' Ho E Hnone. destruct (crate_dissector n o w w' Ho E Hnone) as (Hv & st & Hst & Hd & Hvb). split; [done|].
    exists st. rewrite Hd. pose proof (pack_full_fields _ _ _ _ _ _ _ _ (opts_pack_full o Ho)) as (Hlen & Hty & Ht & Ha & _ & _ & Hl & _).
    split_and!; try done.
    1: rewrite Hl; apply Z2Nat.id, (oo_len _ Ho).
    1: by apply opts_filters.
    intros w2 b Hb Hp2 Hat. rewrite <- Hd.
    erewrite get_opt_ok; [done|]. apply getsockopt_dissector; try done. by rewrite Hd, Hlen.
  - apply crate_working_gen.
  - apply crate_app_number.
  - apply crate_socket_gen.
Qed.

(** ** Evaluation *)
Section Witnesses.
#[local] Existing Instance good_kernel.
#[local] Existing Instance demo_host.

Definition demo_opts : UdpGrmDissectorOpts :=
  mk_opts DissectorCbpf 0 2 0 (zeros 100) 5 (example_prog ++ repeat SockFilter_default 59).
Lemma demo_opts_ok : opts_ok demo_opts.
Proof. split; try (cbn; lia). repeat constructor; discriminate. Qed.
Definition demo_accepted : result unit * world := fd_set_dissector demo5 demo_opts demo_bound.

Lemma crate_options_roundtrip_witness :
  (∃ st, group_at (snd demo_accepted) demo_key = Some st ∧ dis_max_apps (dis st) = 2 ∧
     dis_filter (dis st) 3 = mk_filter 0x28 0 0 1) ∧
  fst (fd_get_app_number demo5 (snd (fd_set_app_number demo5 1 (snd demo_accepted)))) = inr 1.
Proof.
  destruct (crate_options_roundtrip demo5) as (Hdis & _ & Happ & _).
  assert (fst demo_accepted = inr ()) as Hok by (vm_compute; reflexivity). split.
  - destruct (Hdis demo_opts demo_bound (snd demo_accepted) demo_opts_ok) as (_ & st & Hst & _ & _ & _ & _ & Hm & _ & Hf).
    + rewrite <- Hok. apply surjective_pairing.
    + reflexivity.
    + exists st. split; [exact Hst|]. split; [exact Hm|]. apply Hf. reflexivity.
  - assert (fst (fd_set_app_number demo5 1 (snd demo_accepted)) = inr ()) as Hset by (vm_compute; reflexivity).
    apply (Happ 1 (snd demo_accepted)).
    + split; [discriminate|reflexivity].
    + rewrite <- Hset. apply surjective_pairing.
    + vm_compute. reflexivity.
Defined.

(** Setting the same dissector again is accepted, another one is refused with EPERM. *)
Example crate_errors :
  (fst (fd_set_dissector demo5 demo_opts (snd demo_accepted)),
   fst (fd_set_dissector demo5 UdpGrmDissectorOpts_default (snd demo_accepted)),
   fst (fd_set_app_number demo5 2 (snd demo_accepted)))
  = (inr (), inl EPERM, inl EOVERFLOW).
Proof. vm_compute. reflexivity. Qed.
End Witnesses.
