(* ===== verification/Quic.v ===== *)
(** QUIC Initial packets as the bespoke dissector reads them: [ebpf/ebpf_quic.c].

    The operations work on the [scratch] of [Sha]; each takes what the source passes by
    pointer and returns it changed. [Rfc9000] is the integer encoding of QUIC; the lemmas
    on [agree] (reads stay inside the packet) and [cursor] (reads give back what was
    written) are shared by the theorems on the parsers. The cryptography is in
    [QuicCrypto], the packet header in [QuicPacket], the frames in [ClientHello]. *)

From S2P Require Import Prelude Cookie Storage Cbpf Sha Aes.

(** ** [struct scratch] seen through its other members *)
Definition SNI_SZ : nat := 150.
Definition get_aes_ctx (sc : scratch) : list Z := slice (s_union sc) 0 AES_ctx_SZ.
Definition set_aes_ctx (v : list Z) sc := set_union (store (s_union sc) 0 v) sc.
Definition get_sni (sc : scratch) : list Z := slice (s_union sc) 0 SNI_SZ.
(** A store to the member alone: one that passes its end makes the union longer. *)
Definition set_sni (v : list Z) sc := set_union (store (get_sni sc) 0 v ++ drop SNI_SZ (s_union sc)) sc.
Lemma set_sni_store v sc : (length v <= SNI_SZ)%nat → (SNI_SZ <= length (s_union sc))%nat →
  set_sni v sc = set_union (store (s_union sc) 0 v) sc.
Proof.
  intros Hv Hu. unfold set_sni, get_sni, store, slice. f_equal. rewrite !take_0, !app_nil_l, <- app_assoc. f_equal.
  rewrite drop_0. cbn [Nat.add]. rewrite <- (take_drop SNI_SZ (s_union sc)) at 3.
  by rewrite drop_app_le by (rewrite length_take; lia).
Qed.
Definition get_sni_len (sc : scratch) : Z := load 4 (s_union sc) 152.
Definition set_sni_len (v : Z) sc := set_union (store (s_union sc) 152 (le_bytes 4 v)) sc.

(** The object in memory. *)
Definition scratch_of (m : list Z) : scratch :=
  mk_scratch (slice m 0 UNION_SZ) (slice m 416 16) (slice m 432 16) (slice m 448 16) (slice m 464 PKT_SZ).

(** A string argument of a log message: its characters. *)
Definition str_arg (s : string) : list Z :=
  map (λ a, Z.of_N (Strings.Ascii.N_of_ascii a)) (list_ascii_of_string s).

Section Quic.
Context {K : Kernel}.
Local Open Scope c_scope.

Definition log_printf_hex16 (name : string) (buf : list Z) (w : world) : world :=
  log_printf "%10s %016llx%016llx" (str_arg name ++ [bswap64 (load 8 buf 0); bswap64 (load 8 buf 8)]) w.
Definition log_printf_hex20 (name : string) (buf : list Z) (w : world) : world :=
  log_printf "%10s %016llx%016llx%08x"
    (str_arg name ++ [bswap64 (load 8 buf 0); bswap64 (load 8 buf 8); bswap32 (load 4 buf 16)]) w.

Definition percpu_scratch_page (w : world) : option scratch * world :=
  (scratch_of <$> percpu_scratch (w_tick w), tick w).

(** The mask, [*ctx] and [*sample] afterwards. *)
Definition compute_hp_mask (ctx quic_hp sample : list Z) (verbose : Z) (w : world) : Z * list Z * list Z * world :=
  let ctx := store ctx 0 (zeros AES_ctx_SZ) in
  let ctx := AES_key_expand ctx quic_hp in
  let sample := AES_ECB_encrypt ctx sample in
  let mask := le_combine (store (zeros 8) 0 (slice sample 0 5)) in
  let w :=
    if 3 <=? verbose then
      let w := log_printf_hex16 "aes_init" quic_hp w in
      log_printf_hex16 "doneenc" sample w
    else w in
  (mask, ctx, sample, w).

(** [get_u8], [get_u16], [get_u32] and their [buf_] versions: the value and the position
    behind it, or return [IERR_LOAD] from the caller. [get] is given as the rest of
    the caller. *)
Definition get_u8 {A} (pkt : list Z) (off pkt_end : Z) (ret : Z → A) (get : Z → Z → A) : A :=
  if pkt_end <? off + 1 then ret IERR_LOAD
  else get (nthZ pkt off) (off + 1).
Definition get_u16 {A} (pkt : list Z) (off pkt_end : Z) (ret : Z → A) (get : Z → Z → A) : A :=
  if pkt_end <? off + 2 then ret IERR_LOAD
  else get (bswap16 (load 2 pkt (Z.to_nat off))) (off + 2).
Definition get_u32 {A} (pkt : list Z) (off pkt_end : Z) (ret : Z → A) (get : Z → Z → A) : A :=
  if pkt_end <? off + 4 then ret IERR_LOAD
  else get (bswap32 (load 4 pkt (Z.to_nat off))) (off + 4).

(** [*value_ptr] and [*value_len_ptr], or -1. *)
Definition varint_decode (data : Z) : option (Z * Z) :=
  let pkt := le_bytes 8 data in
  match nthZ pkt 0 >> 6 with
  | 0 => Some (nthZ pkt 0 .& 0x3f, 1)
  | 1 => Some (bswap16 (load 2 pkt 0) .& 0x3fff, 2)
  | 2 => Some (bswap32 (load 4 pkt 0) .& 0x3fffffff, 4)
  | 3 => Some (bswap64 (load 8 pkt 0) .& 0x3fffffffffffffff, 8)
  | _ => None
  end.

(** The check and call of [varint_decode] that the parsers repeat. *)
Definition get_varint {A} (pkt : list Z) (off pkt_end : Z) (ret : Z → A) (get : Z → Z → A) : A :=
  if pkt_end <? off + 8 then ret IERR_LOAD
  else
    match varint_decode (load 8 pkt (Z.to_nat off)) with
    | None => ret IERR_LOAD
    | Some (v, len) => get v len
    end.

(** ** Decryption *)
Definition increment_counter (counter : list Z) : list Z :=
  let counter := store counter 8 (le_bytes 8 (bswap64 (u64 (bswap64 (load 8 counter 8) + 1)))) in
  let carry := if load 8 counter 8 =? 0 then 1 else 0 in
  store counter 0 (le_bytes 8 (bswap64 (u64 (bswap64 (load 8 counter 0) + carry)))).

Definition decrypt_quic_init (ctx quic_key : list Z) : list Z := AES_key_expand ctx quic_key.

Definition _do_decrypt_quic_loop (index : Z) (sc : scratch) : scratch * Z :=
  let i := u32 (index * 16) in
  let sc := set_quic_iv (increment_counter (s_quic_iv sc)) sc in
  let tmp := s_quic_iv sc in
  let tmp := AES_ECB_encrypt (get_aes_ctx sc) tmp in
  if Z.of_nat PKT_SZ <? i + 16 then (sc, LOOP_BREAK)
  else
    let p := Z.to_nat i in
    let pkt := s_pkt sc in
    let pkt := store pkt p (le_bytes 8 (load 8 pkt p .^ load 8 tmp 0)) in
    let pkt := store pkt (p + 8) (le_bytes 8 (load 8 pkt (p + 8) .^ load 8 tmp 8)) in
    (set_pkt pkt sc, LOOP_CONTINUE).

Definition clear_upper_bytes (len : Z) : Z * Z :=
  let len := len .& 0x0F in
  if 8 <=? len then (U64_MAX, u64 (u64 (1 << ((len - 8) * 8)) - 1))
  else (u64 (u64 (1 << (len * 8)) - 1), 0).

(** [ctx] is the [aes_ctx] of the scratch. *)
Definition decrypt_quic (sc : scratch) (packet_len : Z) : scratch :=
  let sc := bpf_loop (u32 (packet_len / 16 + (if packet_len mod 16 =? 0 then 0 else 1)))
              _do_decrypt_quic_loop sc in
  let '(mask0, mask1) := clear_upper_bytes (u8 (packet_len mod 16)) in
  let last_chunk_off := packet_len / 16 * 16 in
  if Z.of_nat PKT_SZ - 16 <? last_chunk_off then sc
  else
    let p := Z.to_nat last_chunk_off in
    let pkt := s_pkt sc in
    let pkt := store pkt p (le_bytes 8 (load 8 pkt p .& mask0)) in
    let pkt := store pkt (p + 8) (le_bytes 8 (load 8 pkt (p + 8) .& mask1)) in
    set_pkt pkt sc.

Definition _do_print_loop (sc : scratch) (index : Z) (w : world) : world * Z :=
  let i := u32 (index * 16) in
  if Z.of_nat PKT_SZ <? i + 16 then (w, LOOP_BREAK)
  else
    let p := Z.to_nat i in
    (log_printf "%10s %016llx%016llx"
       (str_arg (if i =? 0 then "plaintext" else "") ++
        [bswap64 (load 8 (s_pkt sc) p); bswap64 (load 8 (s_pkt sc) (p + 8))]) w, LOOP_CONTINUE).
Definition log_print_plaintext (sc : scratch) (packet_len : Z) (w : world) : world :=
  bpf_loop (u32 (packet_len / 16 + 1)) (_do_print_loop sc) w.

(** ** The Client Hello *)

(** The loop over the extensions; [None]: the loop ended without a return. *)
Fixpoint parse_extensions (n : nat) (buf : list Z) (buf_off buf_sz extensions_end : Z) (sc : scratch) : option Z * scratch :=
  match n with
  | O => (None, sc)
  | S n =>
      if extensions_end <=? buf_off then (None, sc)
      else
        let ret code := (Some code, sc) in
        get_u16 buf buf_off buf_sz ret (λ ext_type buf_off,
        get_u16 buf buf_off buf_sz ret (λ ext_len buf_off,
        if ext_type =? 0 then
          if buf_sz <? buf_off + Z.of_nat SNI_SZ then ret IERR_LOAD
          else
            let cnt := Z.min ext_len (Z.of_nat SNI_SZ) in
            let sc := set_sni (slice buf (Z.to_nat buf_off) (Z.to_nat cnt)) sc in
            let sc := set_sni_len ext_len sc in
            (Some IERR_OK, sc)
        else parse_extensions n buf (buf_off + ext_len) buf_sz extensions_end sc))
  end.

(** [buf] is the memory that holds [scratch->pkt], [buf_sz] the size of that object. *)
Definition parse_client_hello (buf : list Z) (buf_sz : Z) (sc : scratch) (verbose : Z) (w : world)
  : Z * scratch * world :=
  let ret code := (code, sc, w) in
  get_u8 buf 0 buf_sz ret (λ frame_type buf_off,
  if negb (frame_type =? 0x6) then ret IERR_OK
  else
    get_varint buf buf_off buf_sz ret (λ offset offset_len,
    let buf_off := buf_off + offset_len in
    get_varint buf buf_off buf_sz ret (λ crypto_len crypto_len_len,
    let buf_off := buf_off + crypto_len_len in
    let w := log_if (2 <=? verbose) "TLS Frame %d offset=%lld crypto_len=%d" [frame_type; offset; crypto_len] w in
    let ret code := (code, sc, w) in
    get_u8 buf buf_off buf_sz ret (λ handshake_type buf_off,
    if negb (handshake_type =? 0x1) then ret IERR_SANITY
    else
      get_u8 buf buf_off buf_sz ret (λ l0 buf_off,
      get_u8 buf buf_off buf_sz ret (λ l1 buf_off,
      get_u8 buf buf_off buf_sz ret (λ l2 buf_off,
      let len := (l0 << 16) .| (l1 << 8) .| l2 in
      get_u16 buf buf_off buf_sz ret (λ client_version buf_off,
      let buf_off := buf_off + 32 in
      get_u8 buf buf_off buf_sz ret (λ session_id_len buf_off,
      let w := log_if (2 <=? verbose) "len=%d cv=%d sessid_len=%d" [len; client_version; session_id_len] w in
      let ret code := (code, sc, w) in
      let buf_off := buf_off + session_id_len in
      get_u16 buf buf_off buf_sz ret (λ cipher_suite_len buf_off,
      let buf_off := buf_off + cipher_suite_len in
      get_u8 buf buf_off buf_sz ret (λ compression_len buf_off,
      let buf_off := buf_off + compression_len in
      get_u16 buf buf_off buf_sz ret (λ extensions_len buf_off,
      let extensions_end := buf_off + extensions_len in
      match parse_extensions 32 buf buf_off buf_sz extensions_end sc with
      | (Some code, sc) => (code, sc, w)
      | (None, sc) =>
          (IERR_OK, sc, log_if (2 <=? verbose) "TLS ct=%x version=%d " [handshake_type; len] w)
      end)))))))))))).
Definition parse_client_hello_extract_sni (sc : scratch) (verbose : Z) (w : world) : Z * scratch * world :=
  parse_client_hello (s_pkt sc) (Z.of_nat PKT_SZ) sc verbose w.

(** ** Keys *)
Inductive const_id := CONST_INITIAL_SALT | CONST_CLIENT_IN | CONST_QUIC_KEY | CONST_QUIC_IV | CONST_QUIC_HP.

Definition initial_salt : list Z :=
  [0x38; 0x76; 0x2c; 0xf7; 0xf5; 0x59; 0x34; 0xb3; 0x4d; 0x17; 0x9a; 0xe6; 0xa4; 0xc8; 0x0c; 0xad; 0xcc; 0xbb; 0x7f; 0x0a].
Definition client_in : list Z := [0x00; 0x20; 0x0f] ++ str_arg "tls13 client in" ++ [0x00; 0x01].
Definition quic_key : list Z := [0; 0x10; 0x0e] ++ str_arg "tls13 quic key" ++ [0; 0x01; 0].
Definition quic_iv : list Z := [0; 0x0c; 0x0d] ++ str_arg "tls13 quic iv" ++ [0; 0x01; 0; 0].
Definition quic_hp : list Z := [0; 0x10; 0x0d] ++ str_arg "tls13 quic hp" ++ [0; 0x01; 0; 0].

Definition load_const (tmp : list Z) (i : const_id) : list Z :=
  let tmp := store tmp 20 (zeros 44) in
  match i with
  | CONST_INITIAL_SALT => store tmp 0 initial_salt
  | CONST_CLIENT_IN => store tmp 0 client_in
  | CONST_QUIC_KEY => store tmp 0 quic_key
  | CONST_QUIC_IV => store tmp 0 quic_iv
  | CONST_QUIC_HP => store tmp 0 quic_hp
  end.

(** [sha256_hmac(scratch, secret, tmp, len)] on the members of the scratch. *)
Definition hmac_in_scratch (len : Z) (sc : scratch) : scratch :=
  let '(sc, key, data) := sha256_hmac sc (get_secret sc) (get_tmp sc) len in
  set_tmp data (set_secret key sc).

(** [load_const(tmp, i); sha256_hmac(scratch, secret, tmp, len)]. *)
Definition hmac_const (i : const_id) (len : Z) (sc : scratch) : scratch :=
  hmac_in_scratch len (set_tmp (load_const (get_tmp sc) i) sc).
(** [*secret = *tmp], and the copies of [tmp->u8] to the keys. *)
Definition tmp_to_secret (sc : scratch) : scratch := set_secret (get_tmp sc) sc.
Definition tmp_to_hp (sc : scratch) : scratch := set_quic_hp (store (s_quic_hp sc) 0 (slice (get_tmp sc) 0 16)) sc.
Definition tmp_to_key (sc : scratch) : scratch := set_quic_key (store (s_quic_key sc) 0 (slice (get_tmp sc) 0 16)) sc.
Definition tmp_to_iv (sc : scratch) : scratch :=
  let sc := set_quic_iv (store (s_quic_iv sc) 0 (slice (get_tmp sc) 0 12)) sc in
  set_quic_iv (store (s_quic_iv sc) 12 (le_bytes 4 0)) sc.
Definition load_initial_salt (sc : scratch) : scratch :=
  set_secret (load_const (get_secret sc) CONST_INITIAL_SALT) sc.

Definition expand_client_keys_from_dcid (sc : scratch) (user_dcid : list Z) (dcid_len : Z) : scratch :=
  let sc := set_tmp (zeros 64) sc in
  let sc := set_tmp (slice user_dcid 0 20) sc in
  let sc := load_initial_salt sc in
  (* initial_salt -> initial_secret *)
  let sc := hmac_in_scratch dcid_len sc in
  let sc := tmp_to_secret sc in
  (* initial_secret -> client_initial_secret *)
  let sc := hmac_const CONST_CLIENT_IN 20 sc in
  let sc := tmp_to_secret sc in
  (* client_initial_secret -> quic hp *)
  let sc := hmac_const CONST_QUIC_HP 18 sc in
  let sc := tmp_to_hp sc in
  (* client_initial_secret -> quic key *)
  let sc := hmac_const CONST_QUIC_KEY 19 sc in
  let sc := tmp_to_key sc in
  (* client_initial_secret -> quic iv *)
  let sc := hmac_const CONST_QUIC_IV 18 sc in
  tmp_to_iv sc.

(** ** The header of the packet *)
Definition MIN_QUIC_HDR_LINEAR : Z := 192.

(** Removing the header protection at [pkt], where the packet number is: what
    [quic_parse_hdr] does from its [hp_mask] on. The scratch, the end of the packet number
    and its length. *)
Definition unprotect_header (buf : list Z) (pkt hdr hp_mask : Z) (sc : scratch) : scratch * Z * Z :=
  let is_long_header := hdr >> 7 in
  let hdr := hdr .^ ((hp_mask .& 0xff) .& (if is_long_header =? 0 then 0x1F else 0x0F)) in
  let pno := u32 (load 4 buf (Z.to_nat pkt) .^ (hp_mask >> 8)) in
  let pno_len := (hdr .& 0x3) + 1 in
  let '(pkt, pno) :=
    match pno_len with
    | 1 => (pkt + 1, u32 ((pno .& 0xff) << 24))
    | 2 => (pkt + 2, u32 ((pno .& 0xffff) << 16))
    | 3 => (pkt + 3, u32 ((pno .& 0xffffff) << 8))
    | 4 => (pkt + 4, pno)
    | _ => (pkt, pno)
    end in
  let pno := bswap32 pno in
  let iv := s_quic_iv sc in
  let iv := store iv 8 (le_bytes 4 (load 4 iv 8 .^ bswap32 pno)) in
  let iv := store iv 12 (le_bytes 4 (bswap32 1)) in
  (set_quic_iv iv sc, pkt, pno_len).

(** From the UDP header on; [buf] is the memory at [pkt_start], of which [pkt_end] bytes
    are the packet. Results: the code, the scratch, [*enc_offset_ptr], [*packet_len_ptr]. *)
Definition quic_parse_fields (buf : list Z) (pkt_end : Z) (sc : scratch) (enc_offset packet_len_out verbose : Z)
  (w : world) : Z * scratch * Z * Z * world :=
  let ret code := (code, sc, enc_offset, packet_len_out, w) in
  get_u8 buf 8 pkt_end ret (λ hdr pkt,
  if negb (hdr >> 4 =? 0xC) then ret IERR_OK
  else
    get_u32 buf pkt pkt_end ret (λ version pkt,
    if negb (version =? 0x1) then ret IERR_BADINSTR
    else
      get_u8 buf pkt pkt_end ret (λ dcid_len pkt,
      if (dcid_len <? 8) || (20 <? dcid_len) then ret IERR_SANITY
      else
        let pkt := pkt + dcid_len in
        get_u8 buf pkt pkt_end ret (λ scid_len pkt,
        let pkt := pkt + scid_len in
        get_varint buf pkt pkt_end ret (λ token_len token_len_len,
        if (8 <? token_len_len) || (255 <? token_len) then ret IERR_SANITY
        else
          let pkt := pkt + token_len_len in
          let pkt := pkt + token_len in
          get_varint buf pkt pkt_end ret (λ packet_len packet_len_len,
          if 255 <? packet_len_len then ret IERR_LOAD
          else
            let pkt := pkt + packet_len_len in
            if pkt_end <=? pkt + 20 then ret IERR_LOAD
            else
              let sample := slice buf (Z.to_nat (pkt + 4)) 16 in
              let '(hp_mask, ctx, sample, w) := compute_hp_mask (get_aes_ctx sc) (s_quic_hp sc) sample verbose w in
              let sc := set_aes_ctx ctx sc in
              let '(sc, pkt, pno_len) := unprotect_header buf pkt hdr hp_mask sc in
              (0, sc, pkt, u64 (packet_len - pno_len - 16), w))))))).

Definition quic_parse_hdr (md : sk_reuseport_md) (sc : scratch) (enc_offset packet_len verbose : Z)
  (w : world) : Z * scratch * Z * Z * world :=
  let pkt := md_data md in
  let pkt_end := Z.of_nat (List.length pkt) in
  if pkt_end <? Z.min (md_len md) MIN_QUIC_HDR_LINEAR then
    let sz := md_len md in
    if sz <? 1 then (IERR_SANITY, sc, enc_offset, packet_len, w)
    else
      let sz := if MIN_QUIC_HDR_LINEAR <? sz then MIN_QUIC_HDR_LINEAR else sz in
      match md_load_bytes md 0 (Z.to_nat sz) with
      | None => (IERR_LOAD, sc, enc_offset, packet_len, w)
      | Some bs =>
          let sc := set_pkt (store (s_pkt sc) 0 bs) sc in
          quic_parse_fields (s_pkt sc) sz sc enc_offset packet_len verbose w
      end
  else quic_parse_fields pkt pkt_end sc enc_offset packet_len verbose w.

Definition quic_extract_sni (md : sk_reuseport_md) (sc : scratch) (enc_offset packet_len verbose : Z)
  (w : world) : Z * scratch * world :=
  if packet_len <? 2 then (IERR_SANITY, sc, w)
  else
    let packet_len := if Z.of_nat PKT_SZ <? packet_len then Z.of_nat PKT_SZ else packet_len in
    match md_load_bytes md enc_offset (Z.to_nat packet_len) with
    | None => (IERR_LOAD, sc, w)
    | Some bs =>
        let sc := set_pkt (store (s_pkt sc) 0 bs) sc in
        let sc := set_aes_ctx (decrypt_quic_init (get_aes_ctx sc) (s_quic_key sc)) sc in
        let sc := decrypt_quic sc packet_len in
        let w := if 2 <=? verbose then log_print_plaintext sc packet_len w else w in
        let sc := set_sni (zeros SNI_SZ) sc in
        let sc := set_sni_len 0 sc in
        parse_client_hello_extract_sni sc verbose w
    end.
End Quic.

(** ** RFC 9000, section 16: variable-length integers *)
Module Rfc9000.
(** The two-bit prefix [p] says that the integer has [2 ^ p] bytes. *)
Definition varint_len (p : nat) : nat := (2 ^ p)%nat.
Definition varint_bits (p : nat) : Z := 8 * Z.of_nat (varint_len p) - 2.
Definition varint_encode (p : nat) (v : Z) : list Z :=
  be_bytes (varint_len p) (Z.of_nat p * 2 ^ varint_bits p + v).
End Rfc9000.
Import Rfc9000.

Lemma land_mod x n : 0 <= n → Z.land x (2 ^ n - 1) = x mod 2 ^ n.
Proof. apply land_ones_mod. Qed.

(** The prefix of the first byte is the top of the whole integer. *)
Lemma varint_prefix b p :
  bytes_ok b → length b = varint_len p →
  Z.shiftr (nthZ b 0) 6 = be_combine b / 2 ^ varint_bits p.
Proof.
  intros Hb Hl. destruct b as [|x b].
  { exfalso. unfold varint_len in Hl. cbn in Hl. pose proof (Nat.pow_nonzero 2 p ltac:(lia)). lia. }
  apply Forall_cons in Hb as [Hx Hb]. change (nthZ (x :: b) 0) with x.
  rewrite Z.shiftr_div_pow2 by lia. change (x :: b) with ([x] ++ b). rewrite be_combine_app.
  change (be_combine [x]) with (x + 256 * 0). rewrite Z.mul_0_r, Z.add_0_r.
  unfold varint_bits. rewrite <-Hl. cbn [length].
  replace (8 * Z.of_nat (S (length b)) - 2) with (8 * Z.of_nat (length b) + 6) by lia.
  rewrite Z.pow_add_r, <-Z.div_div by lia. pose proof (be_combine_range b Hb).
  by rewrite Z.div_add_l, (Z.div_small (be_combine b)), Z.add_0_r by lia.
Qed.

(** What is read from eight bytes that begin with prefix [p]. *)
Lemma varint_decode_bytes b p :
  bytes_ok b → length b = 8%nat → (p <= 3)%nat → Z.shiftr (nthZ b 0) 6 = Z.of_nat p →
  varint_decode (le_combine b)
  = Some (be_combine (take (varint_len p) b) mod 2 ^ varint_bits p, Z.of_nat (varint_len p)).
Proof.
  intros Hb Hl Hp Hs. unfold varint_decode.
  assert (le_bytes 8 (le_combine b) = b) as -> by (rewrite <-Hl; by apply le_bytes_le_combine).
  cbv zeta. rewrite Hs.
  assert (∀ n, (n <= 8)%nat → bswap n (load n b 0) = be_combine (take n b)) as Hload.
  { intros n Hn. apply (bswap_load n (take n b)); [by apply Forall_take|]. rewrite length_take. lia. }
  destruct p as [|[|[|[|p]]]]; [| | | |lia].
  - destruct b as [|x b]; [done|]. change (nthZ (x :: b) 0) with x.
    change (take (varint_len 0) (x :: b)) with [x]. change (be_combine [x]) with (x + 256 * 0).
    rewrite Z.mul_0_r, Z.add_0_r. change 0x3f with (2 ^ 6 - 1). by rewrite land_ones_mod.
  - change (Z.of_nat 1) with 1. cbv iota. rewrite Hload by lia. change 0x3fff with (2 ^ 14 - 1). by rewrite land_ones_mod.
  - change (Z.of_nat 2) with 2. cbv iota. rewrite Hload by lia. change 0x3fffffff with (2 ^ 30 - 1). by rewrite land_ones_mod.
  - change (Z.of_nat 3) with 3. cbv iota. rewrite Hload by lia. change 0x3fffffffffffffff with (2 ^ 62 - 1). by rewrite land_ones_mod.
Qed.

Lemma varint_encode_ok p v : bytes_ok (varint_encode p v) ∧ length (varint_encode p v) = varint_len p.
Proof. split; [apply be_bytes_ok|apply length_be_bytes]. Qed.
Lemma varint_pow p : 2 ^ (8 * Z.of_nat (varint_len p)) = 4 * 2 ^ varint_bits p ∧ 0 < 2 ^ varint_bits p.
Proof.
  unfold varint_bits, varint_len. pose proof (Nat.pow_nonzero 2 p ltac:(lia)).
  replace (8 * Z.of_nat (2 ^ p)) with (8 * Z.of_nat (2 ^ p) - 2 + 2) at 1 by lia.
  rewrite Z.pow_add_r by lia. split; [lia|]. apply Z.pow_pos_nonneg; lia.
Qed.

Lemma varint_decode_encode_rest p v rest :
  (p <= 3)%nat → 0 <= v < 2 ^ varint_bits p → bytes_ok rest → (8 <= length (varint_encode p v ++ rest))%nat →
  varint_decode (load 8 (varint_encode p v ++ rest) 0) = Some (v, Z.of_nat (varint_len p)).
Proof.
  intros Hp Hv Hr Hl. destruct (varint_encode_ok p v) as [He Hel]. destruct (varint_pow p) as [Hpow Hpos].
  set (l := varint_encode p v ++ rest) in *.
  assert (varint_len p <= 8)%nat as H8 by (do 4 (destruct p as [|p]; [cbn; lia|]); lia).
  assert (0 < varint_len p)%nat as H0 by (unfold varint_len; pose proof (Nat.pow_nonzero 2 p ltac:(lia)); lia).
  assert (be_combine (varint_encode p v) = Z.of_nat p * 2 ^ varint_bits p + v) as Hbe.
  { unfold varint_encode. rewrite be_combine_be_bytes, Hpow. apply Z.mod_small. nia. }
  assert (take (varint_len p) (slice l 0 8) = varint_encode p v) as Ht.
  { unfold slice. rewrite drop_0, take_take, Nat.min_l by lia. unfold l. rewrite <-Hel. apply take_app_length. }
  unfold load. rewrite (varint_decode_bytes _ p).
  - rewrite Ht, Hbe, Z.add_comm, Z.mod_add, Z.mod_small by lia. done.
  - apply bytes_ok_slice, Forall_app. done.
  - by apply length_slice.
  - done.
  - assert (nthZ (slice l 0 8) 0 = nthZ (varint_encode p v) 0) as ->.
    { rewrite <-Ht. unfold nthZ. rewrite !nth_lookup, lookup_take_lt; [done|]. cbn. lia. }
    rewrite (varint_prefix _ p) by done. rewrite Hbe, Z.div_add_l, Z.div_small, Z.add_0_r by lia. done.
Qed.

Lemma varint_decode_total b :
  bytes_ok b → length b = 8%nat →
  ∃ p v, (p <= 3)%nat ∧ 0 <= v < 2 ^ varint_bits p ∧
    varint_decode (le_combine b) = Some (v, Z.of_nat (varint_len p)) ∧ take (varint_len p) b = varint_encode p v.
Proof.
  intros Hb Hl.
  assert (0 <= Z.shiftr (nthZ b 0) 6 < 4) as Hp.
  { pose proof (nthZ_byte b 0 Hb) as Hx. unfold byte_ok in Hx. rewrite Z.shiftr_div_pow2 by lia.
    split; [apply Z.div_pos; lia|]. apply Z.div_lt_upper_bound; lia. }
  set (p := Z.to_nat (Z.shiftr (nthZ b 0) 6)).
  assert (Z.shiftr (nthZ b 0) 6 = Z.of_nat p ∧ (p <= 3)%nat) as [Hs Hp3] by lia.
  destruct (varint_pow p) as [Hpow Hpos]. set (X := be_combine (take (varint_len p) b)).
  assert (varint_len p <= 8)%nat as H8 by (clearbody p; do 4 (destruct p as [|p]; [cbn; lia|]); lia).
  assert (length (take (varint_len p) b) = varint_len p) as Htl by (rewrite length_take; lia).
  assert (0 < varint_len p)%nat as H0 by (unfold varint_len; pose proof (Nat.pow_nonzero 2 p ltac:(lia)); lia).
  assert (X / 2 ^ varint_bits p = Z.of_nat p) as HX.
  { unfold X. rewrite <-varint_prefix by (done || by apply Forall_take). rewrite <-Hs. f_equal.
    unfold nthZ. rewrite !nth_lookup, lookup_take_lt; [done|cbn; lia]. }
  exists p, (X mod 2 ^ varint_bits p). split_and!; [done|apply Z.mod_pos_bound; lia|apply Z.mod_pos_bound; lia|by apply varint_decode_bytes|].
  unfold varint_encode. rewrite <-HX, Z.mul_comm, <-Z_div_mod_eq_full by lia. unfold X.
  rewrite <-Htl at 2. symmetry. apply be_bytes_be_combine. by apply Forall_take.
Qed.

(** ** Reading inside the packet

    Two memories that agree on the first [e] bytes. *)
Definition agree (e : Z) (buf buf' : list Z) : Prop :=
  bytes_ok buf ∧ bytes_ok buf' ∧ take (Z.to_nat e) buf = take (Z.to_nat e) buf'.

Lemma agree_slice e buf buf' off n : agree e buf buf' → 0 <= off → off + Z.of_nat n <= e →
  slice buf (Z.to_nat off) n = slice buf' (Z.to_nat off) n.
Proof.
  intros (_ & _ & H) Ho Hn. unfold slice. rewrite !take_drop_commute.
  assert (∀ l : list Z, take (Z.to_nat off + n) l = take (Z.to_nat off + n) (take (Z.to_nat e) l)) as Ht.
  { intros l. rewrite take_take. f_equal. lia. }
  by rewrite (Ht buf), (Ht buf'), H.
Qed.
Lemma agree_nthZ e buf buf' off : agree e buf buf' → 0 <= off → off + 1 <= e → nthZ buf off = nthZ buf' off.
Proof.
  intros (_ & _ & H) Ho Hn. unfold nthZ. rewrite !nth_lookup.
  by rewrite <-(lookup_take_lt buf (Z.to_nat e)), <-(lookup_take_lt buf' (Z.to_nat e)), H by lia.
Qed.
Lemma bswap_nonneg n x : 0 <= bswap n x.
Proof. apply bswap_range. Qed.

Section Agree.
Context {A : Type} (e : Z) (buf buf' : list Z) (H : agree e buf buf').
Implicit Types k : Z → Z → A.

Lemma agree_u8 off ret k k' : 0 <= off → (∀ v o, 0 <= v → 0 <= o → k v o = k' v o) →
  get_u8 buf off e ret k = get_u8 buf' off e ret k'.
Proof.
  intros Ho Hk. unfold get_u8. destruct (Z.ltb_spec e (off + 1)); [done|].
  rewrite <-(agree_nthZ e buf buf') by (done || lia). apply Hk; [|lia].
  destruct H as (Hb & _). pose proof (nthZ_byte buf off Hb) as Hx. unfold byte_ok in Hx. lia.
Qed.
Lemma agree_u16 off ret k k' : 0 <= off → (∀ v o, 0 <= v → 0 <= o → k v o = k' v o) →
  get_u16 buf off e ret k = get_u16 buf' off e ret k'.
Proof.
  intros Ho Hk. unfold get_u16. destruct (Z.ltb_spec e (off + 2)); [done|]. unfold load.
  rewrite (agree_slice e buf buf') by (done || lia). apply Hk; [apply bswap_nonneg|lia].
Qed.
Lemma agree_u32 off ret k k' : 0 <= off → (∀ v o, 0 <= v → 0 <= o → k v o = k' v o) →
  get_u32 buf off e ret k = get_u32 buf' off e ret k'.
Proof.
  intros Ho Hk. unfold get_u32. destruct (Z.ltb_spec e (off + 4)); [done|]. unfold load.
  rewrite (agree_slice e buf buf') by (done || lia). apply Hk; [apply bswap_nonneg|lia].
Qed.
Lemma agree_varint off ret k k' : 0 <= off → (∀ v len, 0 <= v → 0 <= len → k v len = k' v len) →
  get_varint buf off e ret k = get_varint buf' off e ret k'.
Proof.
  intros Ho Hk. unfold get_varint. destruct (Z.ltb_spec e (off + 8)); [done|]. unfold load.
  rewrite (agree_slice e buf buf') by (done || lia).
  destruct (varint_decode _) as [[v len]|] eqn:E; [|done]. unfold varint_decode in E.
  assert (∀ x y, 0 <= y → 0 <= Z.land x y) as Hland by (intros; apply Z.land_nonneg; lia).
  repeat case_match; simplify_eq; apply Hk; first [lia | apply Hland; lia].
Qed.
End Agree.

(** Walk through the reads of two parsers side by side. *)
Ltac agree_steps H :=
  repeat first
    [ apply (agree_u8 _ _ _ H); [lia|intros]
    | apply (agree_u16 _ _ _ H); [lia|intros]
    | apply (agree_u32 _ _ _ H); [lia|intros]
    | apply (agree_varint _ _ _ H); [lia|intros]
    | match goal with
      | |- (if ?c then _ else _) = (if ?c then _ else _) => destruct c eqn:?; [done|]
      end ].

Section Bounds.
Context {K : Kernel}.

Lemma parse_extensions_agree n buf buf' off e extensions_end sc :
  agree e buf buf' → 0 <= off →
  parse_extensions n buf off e extensions_end sc = parse_extensions n buf' off e extensions_end sc.
Proof.
  intros H. induction n as [|n IH] in off |- *; intros Ho; [done|]. cbn [parse_extensions].
  agree_steps H. case_match; [|apply IH; lia]. case_match eqn:E; [done|]. apply Z.ltb_ge in E.
  rewrite (agree_slice e buf buf'); [done|done|lia|]. unfold SNI_SZ in *. lia.
Qed.
Lemma parse_client_hello_agree buf buf' e sc verbose w :
  agree e buf buf' → parse_client_hello buf e sc verbose w = parse_client_hello buf' e sc verbose w.
Proof.
  intros H. unfold parse_client_hello. agree_steps H. by rewrite (parse_extensions_agree _ _ buf') by (done || lia).
Qed.
Lemma quic_parse_fields_agree buf buf' e sc enc_offset packet_len verbose w :
  agree e buf buf' → quic_parse_fields buf e sc enc_offset packet_len verbose w
  = quic_parse_fields buf' e sc enc_offset packet_len verbose w.
Proof.
  intros H. unfold quic_parse_fields. agree_steps H.
  match goal with E : (_ <=? _) = false |- _ => apply Z.leb_gt in E end.
  rewrite (agree_slice e buf buf') by (done || lia).
  destruct (compute_hp_mask _ _ _ _ _) as [[[mask c] sample] w1]. unfold unprotect_header, load.
  by rewrite (agree_slice e buf buf') by (done || lia).
Qed.
End Bounds.

(** ** Reading what was written: [rest] is what follows position [off] of [buf] *)
Definition cursor (buf : list Z) (off : Z) (rest : list Z) : Prop :=
  0 <= off ∧ drop (Z.to_nat off) buf = rest ∧ bytes_ok rest.

Lemma cursor_app buf off l r : cursor buf off (l ++ r) → cursor buf (off + Z.of_nat (length l)) r.
Proof.
  intros (Ho & Hd & Hb). apply Forall_app in Hb as [_ Hr]. split_and!; [lia| |done].
  rewrite Z2Nat.inj_add, Nat2Z.id by lia. rewrite <-drop_drop, Hd. apply drop_app_length.
Qed.
Lemma cursor_cons buf off x r : cursor buf off (x :: r) → cursor buf (off + 1) r.
Proof. apply (cursor_app buf off [x] r). Qed.
Lemma cursor_nth buf off x r : cursor buf off (x :: r) → nthZ buf off = x.
Proof.
  intros (Ho & Hd & _). unfold nthZ. rewrite nth_lookup.
  assert (buf !! Z.to_nat off = Some x) as ->; [|done].
  replace (Z.to_nat off) with (Z.to_nat off + 0)%nat by lia. rewrite <-lookup_drop. by rewrite Hd.
Qed.
Lemma cursor_slice buf off l r n : cursor buf off (l ++ r) → length l = n → slice buf (Z.to_nat off) n = l.
Proof. intros (Ho & Hd & _) <-. unfold slice. rewrite Hd. apply take_app_length. Qed.

Section Cursor.
Context {A : Type} (buf : list Z) (off e : Z) (ret : Z → A) (k : Z → Z → A).
Lemma cursor_u8 x r : cursor buf off (x :: r) → off + 1 <= e → get_u8 buf off e ret k = k x (off + 1).
Proof. intros Hc He. unfold get_u8. destruct (Z.ltb_spec e (off + 1)); [lia|]. by rewrite (cursor_nth _ _ _ _ Hc). Qed.
Lemma cursor_u16 v r : cursor buf off (be_bytes 2 v ++ r) → off + 2 <= e → 0 <= v < 2 ^ 16 →
  get_u16 buf off e ret k = k v (off + 2).
Proof.
  intros Hc He Hv. unfold get_u16. destruct (Z.ltb_spec e (off + 2)); [lia|].
  unfold load. rewrite (cursor_slice _ _ _ _ 2 Hc) by apply length_be_bytes.
  rewrite (bswap_load 2) by (apply be_bytes_ok || apply length_be_bytes). rewrite be_combine_be_bytes.
  by rewrite Z.mod_small by lia.
Qed.
Lemma cursor_u32 v r : cursor buf off (be_bytes 4 v ++ r) → off + 4 <= e → 0 <= v < 2 ^ 32 →
  get_u32 buf off e ret k = k v (off + 4).
Proof.
  intros Hc He Hv. unfold get_u32. destruct (Z.ltb_spec e (off + 4)); [lia|].
  unfold load. rewrite (cursor_slice _ _ _ _ 4 Hc) by apply length_be_bytes.
  rewrite (bswap_load 4) by (apply be_bytes_ok || apply length_be_bytes). rewrite be_combine_be_bytes.
  by rewrite Z.mod_small by lia.
Qed.
Lemma cursor_varint p v r : cursor buf off (varint_encode p v ++ r) → off + 8 <= e →
  (p <= 3)%nat → 0 <= v < 2 ^ varint_bits p → (8 <= length (varint_encode p v ++ r))%nat →
  get_varint buf off e ret k = k v (Z.of_nat (varint_len p)).
Proof.
  intros (Ho & Hd & Hb) He Hp Hv Hl. unfold get_varint. destruct (Z.ltb_spec e (off + 8)); [lia|].
  assert (load 8 buf (Z.to_nat off) = load 8 (varint_encode p v ++ r) 0) as ->.
  { unfold load, slice. by rewrite Hd, drop_0. }
  apply Forall_app in Hb as [_ Hr]. by rewrite varint_decode_encode_rest.
Qed.
End Cursor.

(** Variable-length integers: what an encoder writes in any of the four forms is read
    back, with the number of its bytes, whatever follows it. *)
Theorem varint_roundtrip p v rest :
  (p <= 3)%nat → 0 <= v < 2 ^ varint_bits p → bytes_ok rest → (8 <= length (varint_encode p v ++ rest))%nat →
  varint_decode (load 8 (varint_encode p v ++ rest) 0) = Some (v, Z.of_nat (varint_len p)).
Proof. apply varint_decode_encode_rest. Qed.
Lemma varint_roundtrip_witness :
  varint_decode (load 8 (varint_encode 2 494878333 ++ [1; 2; 3; 4]) 0) = Some (494878333, 4).
Proof.
  apply (varint_roundtrip 2 494878333 [1; 2; 3; 4]); [lia|split; vm_compute; congruence| |cbn; lia].
  repeat (constructor; [split; [discriminate|reflexivity]|]). constructor.
Defined.

(** Bounds of the variable-length integers: every eight bytes decode (the last return
    is never reached) to a value below 2^62 and a length of 1, 2, 4 or 8, and the bytes
    consumed are the encoding of that value in one of the four forms. *)
Theorem varint_decode_bounds b :
  bytes_ok b → length b = 8%nat →
  ∃ p v, (p <= 3)%nat ∧ 0 <= v < 2 ^ varint_bits p ∧
    varint_decode (le_combine b) = Some (v, Z.of_nat (varint_len p)) ∧ take (varint_len p) b = varint_encode p v.
Proof. apply varint_decode_total. Qed.
Lemma varint_decode_bounds_witness :
  ∃ p v, (p <= 3)%nat ∧ 0 <= v < 2 ^ varint_bits p ∧
    varint_decode (le_combine [0x7b; 0xbd; 0; 1; 2; 3; 4; 5]) = Some (v, Z.of_nat (varint_len p)) ∧
    take (varint_len p) [0x7b; 0xbd; 0; 1; 2; 3; 4; 5] = varint_encode p v.
Proof.
  apply (varint_decode_bounds [0x7b; 0xbd; 0; 1; 2; 3; 4; 5]); [|reflexivity].
  repeat (constructor; [split; [discriminate|reflexivity]|]). constructor.
Defined.

(** C29. Both parsers stay inside the packet: the header parser depends on no byte at or
    behind [pkt_end], the Client Hello parser on none behind the 1024 bytes of the page,
    whatever lengths, offsets and extensions the packet claims. *)
Theorem quic_parsers_in_bounds {K : Kernel} e buf buf' sc enc_offset packet_len verbose w :
  bytes_ok buf → bytes_ok buf' → take (Z.to_nat e) buf = take (Z.to_nat e) buf' →
  quic_parse_fields buf e sc enc_offset packet_len verbose w
    = quic_parse_fields buf' e sc enc_offset packet_len verbose w ∧
  parse_client_hello buf e sc verbose w = parse_client_hello buf' e sc verbose w.
Proof.
  intros Hb Hb' He. split; [by apply quic_parse_fields_agree|by apply parse_client_hello_agree].
Qed.
Lemma quic_parsers_in_bounds_witness :
  parse_client_hello (K := good_kernel) [6; 0; 0] 2 zero_scratch 0 empty_world
  = parse_client_hello (K := good_kernel) [6; 0; 9; 9] 2 zero_scratch 0 empty_world.
Proof.
  apply (quic_parsers_in_bounds (K := good_kernel) 2 [6; 0; 0] [6; 0; 9; 9] zero_scratch 0 0 0 empty_world);
    [| |reflexivity]; repeat (constructor; [split; [discriminate|reflexivity]|]); constructor.
Defined.
