(* ===== verification/QuicCrypto.v ===== *)
(** The cryptography of QUIC Initial packets.

    [Rfc9001] is the published derivation of the client's keys from the connection id
    (HKDF with SHA-256) and the AES-128 counter mode of the payload. The source derives the
    keys with chained [sha256_hmac] calls in the scratch page and decrypts in place; the
    theorems show both are the published functions. *)

From S2P Require Import Prelude Cookie Storage Cbpf Sha Aes Quic.

(** ** RFC 9001: packet protection with AES-128 *)
Module Rfc9001.
(** HKDF (RFC 5869) with SHA-256 and the labels of TLS 1.3. *)
Definition hkdf_extract (salt ikm : list Z) : list Z := Hmac.hmac salt ikm.
Fixpoint hkdf_blocks (n i : nat) (prk info t : list Z) : list Z :=
  match n with
  | O => []
  | S n => let t := Hmac.hmac prk (t ++ info ++ [Z.of_nat i]) in t ++ hkdf_blocks n (S i) prk info t
  end.
Definition hkdf_expand (prk info : list Z) (len : nat) : list Z := take len (hkdf_blocks ((len + 31) / 32) 1 prk info []).
Definition hkdf_expand_label (secret : list Z) (label : string) (len : nat) : list Z :=
  let label := str_arg "tls13 " ++ str_arg label in
  hkdf_expand secret (be_bytes 2 (Z.of_nat len) ++ [Z.of_nat (List.length label)] ++ label ++ [0]) len.

(** Section 5.2. *)
Definition client_initial_secret (dcid : list Z) : list Z :=
  hkdf_expand_label (hkdf_extract (be_bytes 20 0x38762cf7f55934b34d179ae6a4c80cadccbb7f0a) dcid) "client in" 32.
Definition initial_key (dcid : list Z) : list Z := hkdf_expand_label (client_initial_secret dcid) "quic key" 16.
Definition initial_iv (dcid : list Z) : list Z := hkdf_expand_label (client_initial_secret dcid) "quic iv" 12.
Definition initial_hp (dcid : list Z) : list Z := hkdf_expand_label (client_initial_secret dcid) "quic hp" 16.

(** Section 5.3, without the tag: the counter mode of GCM from block 2. *)
Definition nonce (iv : list Z) (pn : Z) : list Z := xor_bytes iv (zeros 4 ++ be_bytes 8 pn).
Definition keystream (key nonce : list Z) (n : nat) : list Z :=
  concat (map (λ i, Fips197.Cipher key (nonce ++ be_bytes 4 (Z.of_nat i + 2))) (seq 0 n)).
Definition ctr (key nonce m : list Z) : list Z :=
  xor_bytes m (keystream key nonce ((List.length m + 15) / 16)).
End Rfc9001.

(** The sample of RFC 9001, appendix A.1. *)
Example initial_key_rfc9001 :
  Rfc9001.initial_key (be_bytes 8 0x8394c8f03e515708) = be_bytes 16 0x1f369613dd76d5467730efcbe3b1a22d.
Proof. vm_compute. reflexivity. Qed.

(** ** Counter mode *)
Lemma split_16 (l : list Z) : length l = 16%nat → ∃ h t, l = h ++ t ∧ length h = 8%nat ∧ length t = 8%nat.
Proof.
  intros H. exists (take 8 l), (drop 8 l). rewrite take_drop, length_take, length_drop. split_and!; [done|lia|lia].
Qed.
(** The counter is a big-endian number of 128 bits. *)
Lemma increment_counter_succ c :
  bytes_ok c → length c = 16%nat → increment_counter c = be_bytes 16 (be_combine c + 1).
Proof.
  intros Hc Hl. destruct (split_16 c Hl) as (h & t & -> & Hh & Ht). apply Forall_app in Hc as [Hch Hct].
  assert (load 8 (h ++ t) 8 = le_combine t) as El.
  { unfold load, slice. rewrite drop_app_length' by done. by rewrite take_ge by lia. }
  assert (∀ t', load 8 (h ++ t') 0 = le_combine h) as Eh.
  { intros t'. unfold load, slice. by rewrite drop_0, take_app_length'. }
  unfold increment_counter. rewrite El, (bswap_load 8 t), le_bytes_bswap by done.
  assert (∀ x, store (h ++ t) 8 (be_bytes 8 x) = h ++ be_bytes 8 x) as Es.
  { intros x. rewrite store_spec by (rewrite length_be_bytes, length_app; lia).
    rewrite take_app_length', length_be_bytes, drop_ge by (rewrite ?length_app; lia). by rewrite app_nil_r. }
  rewrite Es, Eh, (bswap_load 8 h), le_bytes_bswap by done.
  set (y := u64 (be_combine t + 1)).
  assert (load 8 (h ++ be_bytes 8 y) 8 = bswap 8 y) as ->.
  { unfold load, slice. rewrite drop_app_length' by done. rewrite take_ge by (by rewrite length_be_bytes). reflexivity. }
  rewrite store_spec by (rewrite length_be_bytes, length_app; lia).
  rewrite take_0, app_nil_l, length_be_bytes, drop_app_length' by done.
  change 16%nat with (8 + 8)%nat at 1. rewrite be_bytes_app, be_combine_app, Ht.
  change (2 ^ (8 * Z.of_nat 8)) with (2 ^ 64).
  pose proof (be_combine_range t Hct) as Rt. rewrite Ht in Rt. change (2 ^ (8 * Z.of_nat 8)) with (2 ^ 64) in Rt.
  set (T := be_combine t) in *. set (H := be_combine h). f_equal.
  - replace (if bswap 8 y =? 0 then 1 else 0) with ((T + 1) / 2 ^ 64).
    2: { subst y. destruct (Z.eqb_spec (bswap 8 (u64 (T + 1))) 0) as [E|E]; rewrite bswap_0_iff in E; unfold u64 in E;
         change (2 ^ (8 * Z.of_nat 8)) with (2 ^ 64) in E; clearbody T H; Z.div_mod_to_equations; lia. }
    rewrite <-(be_bytes_mod 8 ((H * 2 ^ 64 + T + 1) / 2 ^ 64)). f_equal.
    change (2 ^ (8 * Z.of_nat 8)) with (2 ^ 64). unfold u64. rewrite <-Z.add_assoc, Z.div_add_l by lia. done.
  - rewrite <-(be_bytes_mod 8 (H * 2 ^ 64 + T + 1)). f_equal. subst y. unfold u64.
    change (2 ^ (8 * Z.of_nat 8)) with (2 ^ 64). rewrite <-Z.add_assoc, (Z.add_comm (H * 2 ^ 64)), Z.mod_add by lia. done.
Qed.
Lemma increment_counter_nonce nc n :
  bytes_ok nc → length nc = 12%nat → 0 <= n → n + 1 < 2 ^ 32 →
  increment_counter (nc ++ be_bytes 4 n) = nc ++ be_bytes 4 (n + 1).
Proof.
  intros Hb Hl H0 Hn. rewrite increment_counter_succ.
  - change 16%nat with (12 + 4)%nat at 1. rewrite be_bytes_app, be_combine_app, be_combine_be_bytes, length_be_bytes.
    change (2 ^ (8 * Z.of_nat 4)) with (2 ^ 32). rewrite (Z.mod_small n), <-Z.add_assoc by lia.
    rewrite Z.div_add_l, (Z.div_small (n + 1)), Z.add_0_r, be_bytes_combine by (done || lia). f_equal.
    rewrite <-be_bytes_mod. change (2 ^ (8 * Z.of_nat 4)) with (2 ^ 32).
    rewrite (Z.add_comm (_ * 2 ^ 32)), Z.mod_add, Z.mod_small by lia. done.
  - apply Forall_app. split; [done|apply be_bytes_ok].
  - rewrite length_app, length_be_bytes. lia.
Qed.

(** The two 64-bit halves of a 16-byte operation on [pkt]. *)
Lemma store_halves pkt p a b :
  length a = 8%nat → length b = 8%nat → (p + 16 <= length pkt)%nat →
  store (store pkt p a) (p + 8) b = store pkt p (a ++ b).
Proof. intros Ha Hb Hp. rewrite <-Ha at 1. apply store_store_app. lia. Qed.
Lemma load_second_half pkt p a :
  length a = 8%nat → (p + 16 <= length pkt)%nat → load 8 (store pkt p a) (p + 8) = load 8 pkt (p + 8).
Proof. intros Ha Hp. unfold load. rewrite slice_store_after; [done|lia|lia]. Qed.

Lemma xor_chunk pkt p tmp :
  bytes_ok pkt → bytes_ok tmp → length tmp = 16%nat → (p + 16 <= length pkt)%nat →
  (let pkt := store pkt p (le_bytes 8 (Z.lxor (load 8 pkt p) (load 8 tmp 0))) in
   store pkt (p + 8) (le_bytes 8 (Z.lxor (load 8 pkt (p + 8)) (load 8 tmp 8))))
  = store pkt p (xor_bytes (slice pkt p 16) tmp).
Proof.
  intros Hb Ht Hl Hp. cbv zeta. rewrite load_second_half by (done || apply length_le_bytes).
  rewrite store_halves by (done || apply length_le_bytes). f_equal. unfold load.
  rewrite !le_bytes_lxor by first [by apply bytes_ok_slice | apply length_slice; lia].
  rewrite (slice_app pkt p 8 8 : slice pkt p 16 = _). unfold xor_bytes. rewrite <-zip_with_app.
  - f_equal. pose proof (slice_app tmp 0 8 8) as Ht2. cbn [Nat.add] in Ht2. rewrite <-Ht2.
    unfold slice. by rewrite drop_0, take_ge by lia.
  - rewrite !length_slice; lia.
Qed.
Lemma mask_chunk pkt p r :
  bytes_ok pkt → (p + 16 <= length pkt)%nat → (r < 16)%nat →
  (let '(mask0, mask1) := clear_upper_bytes (Z.of_nat r) in
   let pkt := store pkt p (le_bytes 8 (Z.land (load 8 pkt p) mask0)) in
   store pkt (p + 8) (le_bytes 8 (Z.land (load 8 pkt (p + 8)) mask1)))
  = store pkt p (take r (slice pkt p 16) ++ zeros (16 - r)).
Proof.
  intros Hb Hp Hr.
  assert (clear_upper_bytes (Z.of_nat r) = (2 ^ (8 * Z.of_nat (Nat.min r 8)) - 1, 2 ^ (8 * Z.of_nat (r - 8)) - 1)) as ->.
  { do 16 (destruct r as [|r]; [reflexivity|]). lia. }
  cbv zeta beta iota. rewrite load_second_half by (done || apply length_le_bytes).
  rewrite store_halves by (done || apply length_le_bytes). f_equal. unfold load.
  rewrite !le_bytes_low by first [by apply bytes_ok_slice | apply length_slice; lia | lia].
  rewrite (slice_app pkt p 8 8 : slice pkt p 16 = _).
  assert (length (slice pkt p 8) = 8%nat) as Hl8 by (apply length_slice; lia).
  rewrite take_app, Hl8. destruct (le_lt_dec r 8) as [H8|H8].
  - replace (r - 8)%nat with 0%nat by lia. rewrite !take_0, Nat.min_l, !app_nil_l, app_nil_r, <-app_assoc by lia.
    f_equal. unfold zeros. rewrite <-repeat_app. f_equal. lia.
  - rewrite Nat.min_r, !(take_ge (slice pkt p 8)) by lia. cbn [zeros repeat Nat.sub]. rewrite app_nil_r, <-app_assoc.
    do 2 f_equal. f_equal. lia.
Qed.

(** The ciphertext blocks turned so far, and the rest. *)
Definition ctr_pkt (key nc pkt : list Z) (i : nat) : list Z :=
  xor_bytes (take (16 * i) pkt) (Rfc9001.keystream key nc i) ++ drop (16 * i) pkt.

Definition counter_at (nc : list Z) (i : nat) : list Z := nc ++ be_bytes 4 (Z.of_nat i + 1).

Section Ctr.
Context {K : Kernel} {L : KernelLaws}.
Context (key nc : list Z) (Hkey : length key = 16%nat) (Hkb : bytes_ok key)
  (Hnc : length nc = 12%nat) (Hnb : bytes_ok nc).

Lemma ctr_block_ok i : state_ok (Fips197.Cipher key (nc ++ be_bytes 4 (Z.of_nat i + 2))).
Proof.
  apply (encrypt_Cipher (zeros 176)); [apply length_zeros|done|done|]. split.
  - rewrite length_app, length_be_bytes. lia.
  - apply Forall_app. split; [done|apply be_bytes_ok].
Qed.
Lemma keystream_S i :
  Rfc9001.keystream key nc (S i) = Rfc9001.keystream key nc i ++ Fips197.Cipher key (nc ++ be_bytes 4 (Z.of_nat i + 2)).
Proof.
  unfold Rfc9001.keystream. rewrite seq_S, map_app, concat_app. cbn [map concat]. by rewrite app_nil_r.
Qed.
Lemma length_keystream i : length (Rfc9001.keystream key nc i) = (16 * i)%nat.
Proof.
  induction i as [|i IH]; [done|]. rewrite keystream_S, length_app, IH.
  destruct (ctr_block_ok i) as [-> _]. lia.
Qed.
Lemma keystream_ok i : bytes_ok (Rfc9001.keystream key nc i).
Proof.
  induction i as [|i IH]; [constructor|]. rewrite keystream_S. apply Forall_app. split; [done|apply ctr_block_ok].
Qed.
Lemma ctr_pkt_ok pkt i : bytes_ok pkt → bytes_ok (ctr_pkt key nc pkt i).
Proof.
  intros H. apply Forall_app. split; [|by apply Forall_drop]. apply xor_bytes_ok; [by apply Forall_take|apply keystream_ok].
Qed.
Lemma length_ctr_pkt pkt i : length (ctr_pkt key nc pkt i) = length pkt.
Proof. unfold ctr_pkt. rewrite length_app, length_xor_bytes, length_take, length_drop, length_keystream. lia. Qed.
Lemma ctr_pkt_S pkt i : (16 * S i <= length pkt)%nat →
  store (ctr_pkt key nc pkt i) (16 * i)
    (xor_bytes (slice (ctr_pkt key nc pkt i) (16 * i) 16) (Fips197.Cipher key (nc ++ be_bytes 4 (Z.of_nat i + 2))))
  = ctr_pkt key nc pkt (S i).
Proof.
  intros Hl. destruct (ctr_block_ok i) as [Hbl _]. set (blk := Fips197.Cipher _ _) in *.
  assert (length (xor_bytes (take (16 * i) pkt) (Rfc9001.keystream key nc i)) = (16 * i)%nat) as Hx.
  { rewrite length_xor_bytes, length_take, length_keystream. lia. }
  assert (slice (ctr_pkt key nc pkt i) (16 * i) 16 = slice pkt (16 * i) 16) as ->.
  { unfold slice, ctr_pkt. rewrite drop_app_length' by done. done. }
  assert (length (xor_bytes (slice pkt (16 * i) 16) blk) = 16%nat) as Hs.
  { rewrite length_xor_bytes, length_slice; lia. }
  rewrite store_spec by (rewrite length_ctr_pkt; lia). rewrite Hs. unfold ctr_pkt at 1 2.
  rewrite take_app_length' by done. rewrite drop_app_ge by lia. rewrite Hx, drop_drop.
  unfold ctr_pkt. rewrite keystream_S. fold blk. replace (16 * S i)%nat with (16 * i + 16)%nat by lia.
  rewrite <-take_take_drop. unfold xor_bytes. rewrite zip_with_app by (rewrite length_take, length_keystream; lia).
  rewrite <-app_assoc. do 3 f_equal. lia.
Qed.

Lemma length_ctr m : length (Rfc9001.ctr key nc m) = length m.
Proof.
  unfold Rfc9001.ctr. rewrite length_xor_bytes, length_keystream.
  pose proof (Nat.div_mod_eq (length m + 15) 16). pose proof (Nat.mod_upper_bound (length m + 15) 16 ltac:(lia)). lia.
Qed.
Lemma ctr_ok m : bytes_ok m → bytes_ok (Rfc9001.ctr key nc m).
Proof. intros Hm. apply xor_bytes_ok; [done|apply keystream_ok]. Qed.

Context (ctx : list Z) (Hctx : length ctx = AES_ctx_SZ).

(** What the loop body changes of the scratch. *)
Definition ctr_scratch (sc : scratch) (i : nat) : scratch :=
  set_quic_iv (counter_at nc i) (set_pkt (ctr_pkt key nc (s_pkt sc) i) sc).
Lemma decrypt_step sc i :
  get_aes_ctx sc = AES_key_expand ctx key → length (s_pkt sc) = PKT_SZ → bytes_ok (s_pkt sc) → (i < 64)%nat →
  _do_decrypt_quic_loop (Z.of_nat i) (ctr_scratch sc i) = (ctr_scratch sc (S i), LOOP_CONTINUE).
Proof.
  intros Hc Hl Hb Hi. unfold _do_decrypt_quic_loop, ctr_scratch, PKT_SZ, counter_at in *. cbv zeta.
  rewrite u32_small by lia. destruct (Z.ltb_spec (Z.of_nat 1024) (Z.of_nat i * 16 + 16)); [lia|].
  cbn [s_quic_iv set_quic_iv set_pkt s_pkt s_union].
  rewrite increment_counter_nonce by (done || lia).
  replace (Z.of_nat i + 1 + 1) with (Z.of_nat i + 2) by lia.
  assert (state_ok (nc ++ be_bytes 4 (Z.of_nat i + 2))) as Hst.
  { split; [rewrite length_app, length_be_bytes; lia|]. apply Forall_app. split; [done|apply be_bytes_ok]. }
  change (get_aes_ctx _) with (get_aes_ctx sc). rewrite Hc.
  destruct (encrypt_Cipher ctx key _ Hctx Hkey Hkb Hst) as [He [Hbl Hbb]]. rewrite He.
  replace (Z.to_nat (Z.of_nat i * 16)) with (16 * i)%nat by lia. cbv zeta.
  pose proof (xor_chunk (ctr_pkt key nc (s_pkt sc) i) (16 * i) _ (ctr_pkt_ok _ i Hb) Hbb Hbl
    ltac:(rewrite length_ctr_pkt; lia)) as Hx. cbv zeta in Hx.
  rewrite Hx, ctr_pkt_S by lia. replace (Z.of_nat (S i) + 1) with (Z.of_nat i + 2) by lia. done.
Qed.
Lemma loop_steps {C : Type} (f : Z → C → C * Z) (g : nat → C) n i :
  (∀ j, (i <= j < i + n)%nat → f (Z.of_nat j) (g j) = (g (S j), LOOP_CONTINUE)) →
  loop_from n (Z.of_nat i) f (g i) = g (i + n)%nat.
Proof.
  induction n as [|n IH] in i |- *; intros Hf; cbn [loop_from]; [f_equal; lia|].
  rewrite Hf by lia. change (LOOP_CONTINUE =? 0) with true. cbv iota.
  replace (Z.of_nat i + 1) with (Z.of_nat (S i)) by lia. rewrite IH by (intros; apply Hf; lia). f_equal. lia.
Qed.

(** Blocks of a message of [n] bytes: the last one may be partial. *)
Lemma ctr_pkt_masked pkt n :
  length pkt = PKT_SZ → bytes_ok pkt → (n < PKT_SZ)%nat →
  let m := ((n + 15) / 16)%nat in
  store (ctr_pkt key nc pkt m) (16 * (n / 16))
    (take (n mod 16) (slice (ctr_pkt key nc pkt m) (16 * (n / 16)) 16) ++ zeros (16 - n mod 16))
  = Rfc9001.ctr key nc (take n pkt) ++ zeros (16 - n mod 16) ++ drop (16 * (n / 16) + 16) pkt.
Proof.
  intros Hl Hb Hn m. unfold PKT_SZ in *.
  pose proof (Nat.div_mod_eq n 16) as Hdm. pose proof (Nat.mod_upper_bound n 16 ltac:(lia)) as Hr.
  set (q := (n / 16)%nat) in *. set (r := (n mod 16)%nat) in *.
  assert (m = (q + (if r =? 0 then 0 else 1))%nat) as Hm.
  { subst m. rewrite Hdm. replace (16 * q + r + 15)%nat with (r + 15 + q * 16)%nat by lia.
    rewrite Nat.div_add by lia. destruct (Nat.eqb_spec r 0) as [->|]; [change ((0 + 15) / 16)%nat with 0%nat; lia|].
    replace (r + 15)%nat with (r - 1 + 1 * 16)%nat by lia. rewrite Nat.div_add, Nat.div_small; lia. }
  assert (((n + 15) / 16)%nat = m) as Hnm by done. clearbody q r m.
  assert (length (take r (slice (ctr_pkt key nc pkt m) (16 * q) 16) ++ zeros (16 - r)) = 16%nat) as H16.
  { rewrite length_app, length_take, length_slice, length_zeros by (rewrite length_ctr_pkt; lia). lia. }
  rewrite store_spec by (rewrite length_ctr_pkt; lia). rewrite H16, <-app_assoc.
  rewrite (app_assoc (take (16 * q) _)). unfold slice. rewrite take_take, Nat.min_l by lia.
  rewrite take_take_drop. f_equal; [|f_equal].
  - unfold Rfc9001.ctr. rewrite length_take, Nat.min_l by lia.
    rewrite Hnm. replace (16 * q + r)%nat with n by lia. unfold ctr_pkt.
    assert (n <= 16 * m <= 1024)%nat by (destruct (Nat.eqb_spec r 0); lia).
    rewrite take_app_le by (rewrite length_xor_bytes, length_take, length_keystream; lia).
    unfold xor_bytes. rewrite zip_with_take, take_take, Nat.min_l by lia.
    apply zip_with_take_r'. rewrite length_take. lia.
  - unfold ctr_pkt. rewrite drop_app_ge.
    2: { rewrite length_xor_bytes, length_take, length_keystream. destruct (Nat.eqb_spec r 0); lia. }
    rewrite length_xor_bytes, length_take, length_keystream, drop_drop. f_equal.
    destruct (Nat.eqb_spec r 0); lia.
Qed.

Lemma blocks_of n : (n <= PKT_SZ)%nat →
  u32 (Z.of_nat n / 16 + (if Z.of_nat n mod 16 =? 0 then 0 else 1)) = Z.of_nat ((n + 15) / 16) ∧
  ((n + 15) / 16 <= 64)%nat.
Proof.
  unfold PKT_SZ. intros Hn. rewrite !(Nat2Z.inj_div (n + 15)). split.
  - rewrite u32_small; [|destruct (Z.of_nat n mod 16 =? 0); Z.div_mod_to_equations; lia].
    destruct (Z.eqb_spec (Z.of_nat n mod 16) 0); Z.div_mod_to_equations; lia.
  - apply Nat.lt_succ_r, Nat.Div0.div_lt_upper_bound. lia.
Qed.

Lemma decrypt_quic_loop sc n :
  get_aes_ctx sc = AES_key_expand ctx key → length (s_pkt sc) = PKT_SZ → bytes_ok (s_pkt sc) →
  s_quic_iv sc = nc ++ be_bytes 4 1 → (n <= PKT_SZ)%nat →
  bpf_loop (u32 (Z.of_nat n / 16 + (if Z.of_nat n mod 16 =? 0 then 0 else 1))) _do_decrypt_quic_loop sc
  = ctr_scratch sc ((n + 15) / 16).
Proof.
  intros Hc Hl Hb Hiv Hn. destruct (blocks_of n Hn) as [-> H64]. set (m := ((n + 15) / 16)%nat) in *. clearbody m.
  rewrite bpf_loop_spec. destruct (Z.leb_spec (Z.of_nat m) BPF_MAX_LOOPS) as [_|Hbig]; [|unfold BPF_MAX_LOOPS in Hbig; lia].
  rewrite Nat2Z.id. replace sc with (ctr_scratch sc 0) at 1.
  - apply (loop_steps _ (ctr_scratch sc) m 0). intros j Hj. apply decrypt_step; (done || lia).
  - unfold ctr_scratch, counter_at. change (Z.of_nat 0 + 1) with 1. rewrite <-Hiv. by destruct sc.
Qed.

(** [pkt] after the decryption of its first [n] bytes. *)
Definition decrypted (pkt : list Z) (n : nat) : list Z :=
  take PKT_SZ (Rfc9001.ctr key nc (take n pkt) ++ zeros (16 - n mod 16) ++ drop (16 * (n / 16) + 16) pkt).
Lemma decrypt_quic_ctr sc n :
  get_aes_ctx sc = AES_key_expand ctx key → length (s_pkt sc) = PKT_SZ → bytes_ok (s_pkt sc) →
  s_quic_iv sc = nc ++ be_bytes 4 1 → (n <= PKT_SZ)%nat →
  decrypt_quic sc (Z.of_nat n) =
  set_quic_iv (counter_at nc ((n + 15) / 16)) (set_pkt (decrypted (s_pkt sc) n) sc).
Proof.
  intros Hc Hl Hb Hiv Hn. unfold decrypt_quic. rewrite decrypt_quic_loop by done.
  assert (Z.of_nat n mod 16 = Z.of_nat (n mod 16)) as -> by (by rewrite Nat2Z.inj_mod).
  assert (Z.of_nat n / 16 * 16 = Z.of_nat (16 * (n / 16))) as -> by (rewrite Nat2Z.inj_mul, Nat2Z.inj_div; lia).
  pose proof (Nat.div_mod_eq n 16) as Hdm. pose proof (Nat.mod_upper_bound n 16 ltac:(lia)) as Hr.
  rewrite u8_small by lia. unfold PKT_SZ in *. destruct (le_lt_eq_dec n 1024 Hn) as [Hlt| ->].
  - pose proof (ctr_pkt_masked (s_pkt sc) n Hl Hb Hlt) as Hm. cbv zeta in Hm.
    pose proof (length_ctr_pkt (s_pkt sc) ((n + 15) / 16)) as Hlp. rewrite Hl in Hlp.
    pose proof (mask_chunk (s_pkt (ctr_scratch sc ((n + 15) / 16))) (16 * (n / 16)) (n mod 16)
      ltac:(by apply ctr_pkt_ok) ltac:(unfold ctr_scratch; cbn [s_pkt set_quic_iv set_pkt]; lia) Hr) as Hk.
    destruct (clear_upper_bytes (Z.of_nat (n mod 16))) as [mask0 mask1]. cbv zeta in Hk.
    destruct (Z.ltb_spec (Z.of_nat 1024 - 16) (Z.of_nat (16 * (n / 16)))); [lia|].
    rewrite Nat2Z.id, Hk. change (s_pkt (ctr_scratch sc ((n + 15) / 16))) with (ctr_pkt key nc (s_pkt sc) ((n + 15) / 16)).
    rewrite Hm. unfold decrypted, PKT_SZ. rewrite (take_ge _ 1024); [done|].
    rewrite !length_app, length_ctr, length_take, length_zeros, length_drop. lia.
  - destruct (clear_upper_bytes _) as [mask0 mask1].
    change (Z.of_nat 1024 - 16 <? Z.of_nat (16 * (1024 / 16))) with true. cbv iota.
    unfold ctr_scratch, decrypted. do 2 f_equal. change ((1024 + 15) / 16)%nat with 64%nat.
    unfold ctr_pkt, PKT_SZ. change (16 * 64)%nat with 1024%nat. rewrite (drop_ge _ 1024), app_nil_r by lia.
    rewrite take_app_length' by (rewrite length_ctr, length_take; lia).
    unfold Rfc9001.ctr. rewrite length_take, Hl. done.
Qed.

End Ctr.

(** ** Key derivation *)
Lemma get_tmp_set v sc : length (s_union sc) = UNION_SZ → length v = 64%nat → get_tmp (set_tmp v sc) = v.
Proof. intros Hu Hv. unfold UNION_SZ in Hu. unfold get_tmp, set_tmp. cbn [s_union set_union]. rewrite <-Hv. apply slice_store_same. lia. Qed.
Lemma get_secret_set v sc : length (s_union sc) = UNION_SZ → length v = 64%nat → get_secret (set_secret v sc) = v.
Proof. intros Hu Hv. unfold UNION_SZ in Hu. unfold get_secret, set_secret. cbn [s_union set_union]. rewrite <-Hv. apply slice_store_same. lia. Qed.
Lemma get_secret_set_tmp v sc : length (s_union sc) = UNION_SZ → (length v <= 64)%nat → get_secret (set_tmp v sc) = get_secret sc.
Proof. intros Hu Hv. unfold UNION_SZ in Hu. apply slice_store_after; lia. Qed.
Lemma get_tmp_set_secret v sc : length (s_union sc) = UNION_SZ → length v = 64%nat → get_tmp (set_secret v sc) = get_tmp sc.
Proof. intros Hu Hv. unfold UNION_SZ in Hu. apply slice_store_before; lia. Qed.

Lemma scratch_ok_union sc v off : scratch_ok sc → bytes_ok v → (off + length v <= UNION_SZ)%nat →
  scratch_ok (set_union (store (s_union sc) off v) sc).
Proof.
  intros [[Hu Hub] ? ? ? ?] Hv Hl. split; try done. cbn. rewrite length_store by lia. split; [done|]. by apply bytes_ok_store.
Qed.
Lemma get_tmp_ok sc : scratch_ok sc → length (get_tmp sc) = 64%nat ∧ bytes_ok (get_tmp sc).
Proof.
  intros [[Hu Hub] ? ? ? ?]. unfold UNION_SZ in Hu. split; [apply length_slice; lia|by apply bytes_ok_slice].
Qed.
Lemma get_secret_ok sc : scratch_ok sc → length (get_secret sc) = 64%nat ∧ bytes_ok (get_secret sc).
Proof.
  intros [[Hu Hub] ? ? ? ?]. unfold UNION_SZ in Hu. split; [apply length_slice; lia|by apply bytes_ok_slice].
Qed.

(** The members the key derivation works with; [sc0] fixes the other ones. *)
Record deriving (sc0 sc : scratch) (secret tmp : list Z) : Prop := {
  dv_ok : scratch_ok sc;
  dv_secret : get_secret sc = secret;
  dv_tmp : get_tmp sc = tmp;
  dv_key : s_quic_key sc = s_quic_key sc0;
  dv_iv : s_quic_iv sc = s_quic_iv sc0;
  dv_hp : s_quic_hp sc = s_quic_hp sc0;
  dv_pkt : s_pkt sc = s_pkt sc0;
}.

Lemma deriving_set_tmp sc0 sc S T T' :
  deriving sc0 sc S T → length T' = 64%nat → bytes_ok T' → deriving sc0 (set_tmp T' sc) S T'.
Proof.
  intros [Hok HS HT ? ? ? ?] Hl Hb. destruct (so_union _ Hok) as [Hu _]. split; try done.
  - apply scratch_ok_union; [done|done|unfold UNION_SZ; lia].
  - by rewrite get_secret_set_tmp by (done || lia).
  - by apply get_tmp_set.
Qed.
Lemma deriving_set_secret sc0 sc S T S' :
  deriving sc0 sc S T → length S' = 64%nat → bytes_ok S' → deriving sc0 (set_secret S' sc) S' T.
Proof.
  intros [Hok HS HT ? ? ? ?] Hl Hb. destruct (so_union _ Hok) as [Hu _]. split; try done.
  - apply scratch_ok_union; [done|done|unfold UNION_SZ; lia].
  - by apply get_secret_set.
  - by rewrite get_tmp_set_secret.
Qed.
Lemma length_hmac key T : length (Hmac.hmac key T) = 32%nat ∧ bytes_ok (Hmac.hmac key T).
Proof. apply length_sha256. Qed.
Lemma block_key_32 key : length key = 32%nat → Hmac.block_key key = key ++ zeros 32.
Proof. intros H. unfold Hmac.block_key. by rewrite H. Qed.
Lemma deriving_hmac sc0 sc key T n :
  deriving sc0 sc (Hmac.block_key key) (T ++ zeros (64 - n)) →
  bytes_ok key → (length key <= 64)%nat → length T = n → (n <= 55)%nat → bytes_ok T →
  deriving sc0 (hmac_in_scratch (Z.of_nat n) sc) (Hmac.block_key key) (Hmac.hmac key T ++ zeros 32).
Proof.
  intros D Hk Hl HT Hn Hb. destruct (dv_ok _ _ _ _ D) as [[Hu Hub] ? ? ? ?].
  unfold hmac_in_scratch. rewrite (dv_secret _ _ _ _ D), (dv_tmp _ _ _ _ D).
  pose proof (sha256_hmac_hmac sc key T n Hu Hk Hl HT Hn Hb) as Hs.
  destruct (sha256_hmac sc _ _ _) as [[sc1 key1] data1]. destruct Hs as (-> & -> & u & -> & Hlu & Hd & Hbu).
  assert (deriving sc0 (set_union u sc) (Hmac.block_key key) (T ++ zeros (64 - n))) as D1.
  { destruct D as [? HS HT' ? ? ? ?]. split; try done.
    - split; try done. cbn. split; [congruence|auto].
    - rewrite <-HS. unfold get_secret. cbn. unfold slice. f_equal.
      replace 352%nat with (288 + 64)%nat by lia. by rewrite <-!drop_drop, Hd.
    - rewrite <-HT'. unfold get_tmp. cbn. unfold slice. by rewrite Hd. }
  destruct (length_hmac key T) as [Hhl Hhb].
  eapply deriving_set_tmp; [eapply deriving_set_secret; [exact D1|..]|..].
  - unfold Hmac.block_key. rewrite length_app, length_zeros. lia.
  - apply Forall_app. split; [done|apply bytes_ok_zeros].
  - by rewrite length_app, length_zeros, Hhl.
  - apply Forall_app. split; [done|apply bytes_ok_zeros].
Qed.

Definition const_bytes (i : const_id) : list Z :=
  match i with
  | CONST_INITIAL_SALT => initial_salt | CONST_CLIENT_IN => client_in
  | CONST_QUIC_KEY => quic_key | CONST_QUIC_IV => quic_iv | CONST_QUIC_HP => quic_hp
  end.
Lemma const_bytes_ok i : bytes_ok (const_bytes i) ∧ length (const_bytes i) = 20%nat.
Proof. destruct i; (split; [|reflexivity]); repeat (constructor; [split; [discriminate|reflexivity]|]); constructor. Qed.
Lemma load_const_bytes tmp i : length tmp = 64%nat → load_const tmp i = const_bytes i ++ zeros 44.
Proof.
  intros Hl. assert (load_const tmp i = store (store tmp 20 (zeros 44)) 0 (const_bytes i)) as -> by by destruct i.
  destruct (const_bytes_ok i) as [_ Hc]. rewrite store_spec by (rewrite length_store by (rewrite length_zeros; lia); lia).
  rewrite take_0, app_nil_l, Hc. f_equal. rewrite store_spec by (rewrite length_zeros; lia).
  rewrite drop_app_length' by (rewrite length_take; lia). rewrite length_zeros, (drop_ge tmp) by lia. apply app_nil_r.
Qed.

Lemma deriving_refl sc : scratch_ok sc → deriving sc sc (get_secret sc) (get_tmp sc).
Proof. by split. Qed.
Lemma deriving_label sc0 sc S T i n :
  deriving sc0 sc (Hmac.block_key S) T → length S = 32%nat → bytes_ok S → (n <= 20)%nat →
  drop n (const_bytes i) = zeros (20 - n) →
  deriving sc0 (hmac_const i (Z.of_nat n) sc)
    (Hmac.block_key S) (Hmac.hmac S (take n (const_bytes i)) ++ zeros 32).
Proof.
  intros D HS Hb Hn Hd. destruct (const_bytes_ok i) as [Hcb Hcl].
  destruct (get_tmp_ok sc (dv_ok _ _ _ _ D)) as [Hl _]. unfold hmac_const. rewrite load_const_bytes by done.
  apply deriving_hmac; [|done|lia|rewrite length_take; lia|lia|by apply Forall_take].
  assert (const_bytes i ++ zeros 44 = take n (const_bytes i) ++ zeros (64 - n)) as E.
  { rewrite <-(take_drop n (const_bytes i)) at 1. rewrite Hd, <-app_assoc. f_equal.
    unfold zeros. rewrite <-repeat_app. f_equal. lia. }
  rewrite <-E. eapply deriving_set_tmp; [exact D|rewrite length_app, length_zeros; lia|].
  apply Forall_app. split; [done|apply bytes_ok_zeros].
Qed.
Lemma deriving_to_secret sc0 sc S X :
  deriving sc0 sc S (X ++ zeros 32) → length X = 32%nat →
  deriving sc0 (tmp_to_secret sc) (Hmac.block_key X) (X ++ zeros 32).
Proof.
  intros D HX. destruct (get_tmp_ok sc (dv_ok _ _ _ _ D)) as [Hl Hb]. unfold tmp_to_secret. rewrite block_key_32 by done.
  rewrite <-(dv_tmp _ _ _ _ D) at 1. by eapply deriving_set_secret.
Qed.
(** The first [len] bytes of an HMAC left in [tmp]. *)
Lemma deriving_prefix sc0 sc S key T len :
  deriving sc0 sc S (Hmac.hmac key T ++ zeros 32) → (len <= 32)%nat →
  slice (get_tmp sc) 0 len = take len (Hmac.hmac key T) ∧ length (slice (get_tmp sc) 0 len) = len ∧
  bytes_ok (slice (get_tmp sc) 0 len).
Proof.
  intros D Hlen. destruct (length_hmac key T) as [Hl Hb]. rewrite (dv_tmp _ _ _ _ D).
  assert (slice (Hmac.hmac key T ++ zeros 32) 0 len = take len (Hmac.hmac key T)) as ->.
  { unfold slice. rewrite drop_0, take_app_le by lia. done. }
  split_and!; [done|rewrite length_take; lia|by apply Forall_take].
Qed.

Lemma hkdf_expand_one prk info len : (1 <= len <= 32)%nat →
  Rfc9001.hkdf_expand prk info len = take len (Hmac.hmac prk (info ++ [1])).
Proof.
  intros Hl. unfold Rfc9001.hkdf_expand.
  assert ((len + 31) / 32 = 1)%nat as ->.
  { symmetry. apply (Nat.div_unique _ 32 1 (len - 1)); lia. }
  cbn [Rfc9001.hkdf_blocks]. rewrite app_nil_r. done.
Qed.
Lemma client_initial_secret_eq dcid :
  Rfc9001.client_initial_secret dcid = Hmac.hmac (Hmac.hmac initial_salt dcid) client_in.
Proof.
  unfold Rfc9001.client_initial_secret, Rfc9001.hkdf_expand_label. rewrite hkdf_expand_one by lia.
  rewrite take_ge by (destruct (length_hmac (Rfc9001.hkdf_extract (be_bytes 20 0x38762cf7f55934b34d179ae6a4c80cadccbb7f0a) dcid)
    ((be_bytes 2 (Z.of_nat 32) ++ [Z.of_nat (List.length (str_arg "tls13 " ++ str_arg "client in"))] ++
      (str_arg "tls13 " ++ str_arg "client in") ++ [0]) ++ [1])) as [-> _]; lia).
  reflexivity.
Qed.

(** [memset] of the whole object, then [memcpy] of its beginning. *)
Lemma store_over l off a b : (length b <= length a)%nat → (off + length a <= length l)%nat →
  store (store l off a) off b = store l off (b ++ drop (length b) a).
Proof.
  intros Hb Ha. rewrite (store_spec (store l off a)) by (rewrite length_store by lia; lia).
  rewrite !store_spec by (rewrite ?length_app, ?length_drop; lia).
  rewrite take_app_length' by (rewrite length_take; lia). rewrite drop_app_ge by (rewrite length_take; lia).
  rewrite length_take, Nat.min_l by lia. rewrite drop_app_le by lia. rewrite <-!app_assoc. do 3 f_equal; [f_equal; lia|].
  f_equal. rewrite length_app, length_drop. lia.
Qed.
Lemma set_tmp_dcid sc d n : length (s_union sc) = UNION_SZ → length d = n → (n <= 20)%nat →
  set_tmp (d ++ zeros (20 - n)) (set_tmp (zeros 64) sc) = set_tmp (d ++ zeros (64 - n)) sc.
Proof.
  unfold UNION_SZ. intros Hu Hl Hn. unfold set_tmp. cbn [s_union set_union]. unfold set_union.
  cbn [s_union s_quic_key s_quic_iv s_quic_hp s_pkt]. f_equal. rewrite store_over by (rewrite ?length_app, ?length_zeros; lia). f_equal. rewrite <-app_assoc. f_equal.
  rewrite length_app, length_zeros, Hl. unfold zeros. replace (n + (20 - n))%nat with 20%nat by lia.
  change (drop 20 (repeat 0 64)) with (repeat 0 44). rewrite <-repeat_app. f_equal. lia.
Qed.

(** The keys are stored outside the union. *)
Lemma store_key old v : length old = 16%nat → length v = 16%nat → store old 0 v = v.
Proof. intros Ho Hv. rewrite store_spec by lia. rewrite take_0, app_nil_l, drop_ge by lia. apply app_nil_r. Qed.
Lemma deriving_to_hp sc0 sc S key T :
  deriving sc0 sc S (Hmac.hmac key T ++ zeros 32) →
  deriving (set_quic_hp (take 16 (Hmac.hmac key T)) sc0) (tmp_to_hp sc) S (Hmac.hmac key T ++ zeros 32).
Proof.
  intros D. destruct (deriving_prefix _ _ _ _ _ 16 D ltac:(lia)) as (E & Hl & Hb).
  unfold tmp_to_hp. destruct D as [[? ? ? [? ?] ?] ? ? ? ? ? ?]. rewrite store_key, E in * by done. split; try done; by split.
Qed.
Lemma deriving_to_key sc0 sc S key T :
  deriving sc0 sc S (Hmac.hmac key T ++ zeros 32) →
  deriving (set_quic_key (take 16 (Hmac.hmac key T)) sc0) (tmp_to_key sc) S (Hmac.hmac key T ++ zeros 32).
Proof.
  intros D. destruct (deriving_prefix _ _ _ _ _ 16 D ltac:(lia)) as (E & Hl & Hb).
  unfold tmp_to_key. destruct D as [[? [? ?] ? ? ?] ? ? ? ? ? ?]. rewrite store_key, E in * by done. split; try done; by split.
Qed.
Lemma deriving_to_iv sc0 sc S key T :
  deriving sc0 sc S (Hmac.hmac key T ++ zeros 32) →
  deriving (set_quic_iv (take 12 (Hmac.hmac key T) ++ zeros 4) sc0) (tmp_to_iv sc) S (Hmac.hmac key T ++ zeros 32).
Proof.
  intros D. destruct (deriving_prefix _ _ _ _ _ 12 D ltac:(lia)) as (E & Hl & Hb). rewrite E in *.
  unfold tmp_to_iv. rewrite E. destruct D as [[? ? [Hiv ?] ? ?] ? ? ? ? ? ?]. cbn [s_quic_iv set_quic_iv].
  set (v := take 12 _) in *. clearbody v.
  assert (store (store (s_quic_iv sc) 0 v) 12 (le_bytes 4 0) = v ++ zeros 4) as ->.
  { rewrite <-Hl. rewrite (store_store_app _ 0) by (rewrite length_le_bytes; lia). apply store_key; [done|].
    rewrite length_app, length_zeros. lia. }
  split; try done. split; try done. cbn [s_quic_iv set_quic_iv]. split; [rewrite length_app, length_zeros; lia|].
  apply Forall_app. split; [done|apply bytes_ok_zeros].
Qed.
Lemma deriving_salt sc0 sc S T :
  deriving sc0 sc S T → deriving sc0 (load_initial_salt sc) (Hmac.block_key initial_salt) T.
Proof.
  intros D. destruct (get_secret_ok _ (dv_ok _ _ _ _ D)) as [Hsl _]. unfold load_initial_salt.
  rewrite load_const_bytes by done. destruct (const_bytes_ok CONST_INITIAL_SALT) as [Hb Hl].
  change (Hmac.block_key initial_salt) with (const_bytes CONST_INITIAL_SALT ++ zeros 44).
  eapply deriving_set_secret; [exact D|rewrite length_app, length_zeros; lia|].
  apply Forall_app. split; [done|apply bytes_ok_zeros].
Qed.

Lemma expand_client_keys sc dcid n :
  scratch_ok sc → length dcid = n → (n <= 20)%nat → bytes_ok dcid →
  let sc' := expand_client_keys_from_dcid sc (dcid ++ zeros (20 - n)) (Z.of_nat n) in
  scratch_ok sc' ∧ s_quic_key sc' = Rfc9001.initial_key dcid ∧ s_quic_hp sc' = Rfc9001.initial_hp dcid ∧
  s_quic_iv sc' = Rfc9001.initial_iv dcid ++ zeros 4 ∧ s_pkt sc' = s_pkt sc.
Proof.
  intros Hok Hl Hn Hb. unfold expand_client_keys_from_dcid. cbv zeta.
  assert (slice (dcid ++ zeros (20 - n)) 0 20 = dcid ++ zeros (20 - n)) as ->.
  { unfold slice. rewrite drop_0. apply take_ge. rewrite length_app, length_zeros. lia. }
  rewrite set_tmp_dcid by (done || apply Hok).
  assert (bytes_ok (dcid ++ zeros (64 - n))) as Hdb by (apply Forall_app; split; [done|apply bytes_ok_zeros]).
  pose proof (deriving_set_tmp _ _ _ _ (dcid ++ zeros (64 - n)) (deriving_refl sc Hok)
    ltac:(rewrite length_app, length_zeros; lia) Hdb) as D.
  apply deriving_salt in D. apply deriving_hmac in D; [|apply (const_bytes_ok CONST_INITIAL_SALT)|cbn; lia|done|lia|done].
  destruct (length_hmac initial_salt dcid) as [Hl1 Hb1]. set (s1 := Hmac.hmac initial_salt dcid) in *.
  apply deriving_to_secret in D; [|done].
  apply (deriving_label _ _ _ _ CONST_CLIENT_IN 20) in D; [|done|done|lia|reflexivity].
  change (take 20 (const_bytes CONST_CLIENT_IN)) with client_in in D.
  destruct (length_hmac s1 client_in) as [Hl2 Hb2]. set (s2 := Hmac.hmac s1 client_in) in *.
  assert (Rfc9001.client_initial_secret dcid = s2) as Hs2 by apply client_initial_secret_eq.
  apply deriving_to_secret in D; [|done].
  apply (deriving_label _ _ _ _ CONST_QUIC_HP 18) in D; [|done|done|lia|reflexivity]. apply deriving_to_hp in D.
  apply (deriving_label _ _ _ _ CONST_QUIC_KEY 19) in D; [|done|done|lia|reflexivity]. apply deriving_to_key in D.
  apply (deriving_label _ _ _ _ CONST_QUIC_IV 18) in D; [|done|done|lia|reflexivity]. apply deriving_to_iv in D.
  unfold Rfc9001.initial_key, Rfc9001.initial_hp, Rfc9001.initial_iv, Rfc9001.hkdf_expand_label.
  rewrite Hs2, !hkdf_expand_one by lia. destruct D as [Hok' _ _ Hk Hi Hh Hp].
  split_and!; [exact Hok'|exact Hk|exact Hh|exact Hi|exact Hp].
Qed.

(** ** Decrypting what was encrypted *)

(** What the page holds after a message [m] was loaded encrypted and decrypted. *)
Definition plain_page (m pkt : list Z) (n : nat) : list Z :=
  take PKT_SZ (take n m ++ zeros (16 - n mod 16) ++ drop (16 * (n / 16) + 16) pkt).
Lemma plain_page_ok m pkt n :
  length pkt = PKT_SZ → bytes_ok pkt → bytes_ok m → n = Nat.min (length m) PKT_SZ →
  length (plain_page m pkt n) = PKT_SZ ∧ bytes_ok (plain_page m pkt n).
Proof.
  unfold plain_page, PKT_SZ. intros Hl Hb Hmb Hn.
  pose proof (Nat.div_mod_eq n 16). pose proof (Nat.mod_upper_bound n 16 ltac:(lia)). split.
  - rewrite length_take, !length_app, length_take, length_zeros, length_drop. lia.
  - apply Forall_take, Forall_app. split; [by apply Forall_take|]. apply Forall_app.
    split; [apply bytes_ok_zeros|by apply Forall_drop].
Qed.

Section Involution.
Context (key nc : list Z) (Hkey : length key = 16%nat) (Hkb : bytes_ok key)
  (Hnc : length nc = 12%nat) (Hnb : bytes_ok nc).

Lemma keystream_prefix i j : (i <= j)%nat → take (16 * i) (Rfc9001.keystream key nc j) = Rfc9001.keystream key nc i.
Proof.
  intros Hij. induction j as [|j IH]; [by replace i with 0%nat by lia|].
  destruct (decide (i = S j)) as [->|Hne]; [apply take_ge; rewrite length_keystream by done; lia|].
  rewrite keystream_S, take_app_le by (rewrite length_keystream by done; lia). apply IH. lia.
Qed.
(** Any keystream that is long enough serves. *)
Lemma ctr_keystream m j : (length m <= 16 * j)%nat → Rfc9001.ctr key nc m = xor_bytes m (Rfc9001.keystream key nc j).
Proof.
  intros Hj. unfold Rfc9001.ctr. set (i := ((length m + 15) / 16)%nat).
  assert (length m <= 16 * i)%nat as Hi.
  { subst i. pose proof (Nat.div_mod_eq (length m + 15) 16). pose proof (Nat.mod_upper_bound (length m + 15) 16 ltac:(lia)). lia. }
  clearbody i. destruct (le_lt_dec i j) as [Hij|Hji].
  - rewrite <-(keystream_prefix i j) by done. apply zip_with_take_r'. lia.
  - rewrite <-(keystream_prefix j i) by lia. symmetry. apply zip_with_take_r'. lia.
Qed.
Lemma ctr_involutive n m : Rfc9001.ctr key nc (take n (Rfc9001.ctr key nc m)) = take n m.
Proof.
  rewrite !(ctr_keystream _ (length m)) by (rewrite ?length_take, ?length_ctr by done; lia).
  set (ks := Rfc9001.keystream key nc (length m)).
  assert (length m <= length ks)%nat as Hl by (subst ks; rewrite length_keystream by done; lia).
  rewrite <-(xor_bytes_involutive m ks) at 2 by done. unfold xor_bytes.
  etrans; [|symmetry; apply zip_with_take]. symmetry. apply zip_with_take_r'. rewrite length_take. lia.
Qed.

Lemma decrypted_plain m pkt n :
  length pkt = PKT_SZ → n = Nat.min (length m) PKT_SZ →
  decrypted key nc (store pkt 0 (take n (Rfc9001.ctr key nc m))) n = plain_page m pkt n.
Proof.
  unfold PKT_SZ. intros Hl Hn. pose proof (ctr_involutive n m) as Hinv.
  assert (length (take n (Rfc9001.ctr key nc m)) = n) as Htl by (rewrite length_take, length_ctr by done; lia).
  unfold decrypted, plain_page. set (t := take n (Rfc9001.ctr key nc m)) in *. clearbody t.
  pose proof (Nat.div_mod_eq n 16) as Hd. pose proof (Nat.mod_upper_bound n 16 ltac:(lia)) as Hm.
  rewrite store_spec by lia. rewrite take_0, app_nil_l, Htl, (take_app_length' t) by done. rewrite Hinv.
  do 3 f_equal. rewrite (drop_app_ge t) by lia. rewrite Htl, drop_drop. f_equal. lia.
Qed.
End Involution.

(** C12. Key derivation: from a connection id of at most 20 bytes, padded with zeros, the
    five chained HMACs in the page leave the key, the IV (with four zero bytes) and the
    header protection key that RFC 9001 derives with HKDF, and change no byte of the
    packet area. *)
Theorem expand_client_keys_rfc9001 sc dcid n :
  scratch_ok sc → length dcid = n → (n <= 20)%nat → bytes_ok dcid →
  let sc' := expand_client_keys_from_dcid sc (dcid ++ zeros (20 - n)) (Z.of_nat n) in
  s_quic_key sc' = Rfc9001.initial_key dcid ∧ s_quic_hp sc' = Rfc9001.initial_hp dcid ∧
  s_quic_iv sc' = Rfc9001.initial_iv dcid ++ zeros 4 ∧ s_pkt sc' = s_pkt sc.
Proof. intros Hok Hl Hn Hb. by destruct (expand_client_keys sc dcid n Hok Hl Hn Hb) as (_ & ?). Qed.

Lemma zero_scratch_ok : scratch_ok zero_scratch.
Proof. split; (split; [apply length_zeros|apply bytes_ok_zeros]). Qed.
(** The connection id of RFC 9001, appendix A. *)
Definition example_dcid : list Z := [0x83; 0x94; 0xc8; 0xf0; 0x3e; 0x51; 0x57; 0x08].
Lemma example_dcid_ok : bytes_ok example_dcid.
Proof. repeat (constructor; [split; [discriminate|reflexivity]|]). constructor. Qed.
Lemma expand_client_keys_rfc9001_witness :
  s_quic_key (expand_client_keys_from_dcid zero_scratch (example_dcid ++ zeros (20 - 8)) (Z.of_nat 8))
  = Rfc9001.initial_key example_dcid.
Proof.
  exact (proj1 (expand_client_keys_rfc9001 zero_scratch example_dcid 8 zero_scratch_ok eq_refl ltac:(lia) example_dcid_ok)).
Defined.

(** C11. Decryption: with the expanded key and the counter of a nonce in the page, an
    encrypted message of at most 1024 bytes is replaced in place by its plaintext, the
    rest of its last block by zeros, and nothing behind that block changes. *)
Theorem decrypt_quic_inverts {K : Kernel} {L : KernelLaws} sc key nc m n :
  scratch_ok sc → length key = 16%nat → bytes_ok key → length nc = 12%nat → bytes_ok nc →
  bytes_ok m → n = length m → (n <= PKT_SZ)%nat → s_quic_key sc = key → s_quic_iv sc = nc ++ be_bytes 4 1 →
  let sc1 := set_pkt (store (s_pkt sc) 0 (Rfc9001.ctr key nc m)) sc in
  let sc2 := set_aes_ctx (decrypt_quic_init (get_aes_ctx sc1) (s_quic_key sc1)) sc1 in
  s_pkt (decrypt_quic sc2 (Z.of_nat n))
  = take PKT_SZ (m ++ zeros (16 - n mod 16) ++ drop (16 * (n / 16) + 16) (s_pkt sc)).
Proof.
  intros Hok Hkl Hkb Hnl Hnb Hmb Hn Hle Hk Hiv. cbv zeta.
  destruct (so_union _ Hok) as [Hul _]. destruct (so_pkt _ Hok) as [Hpl Hpb]. unfold UNION_SZ in Hul.
  set (sc1 := set_pkt _ sc). assert (s_quic_key sc1 = key) as -> by done.
  assert (length (s_union sc1) = 416%nat) as Hul1 by exact Hul.
  assert (length (get_aes_ctx sc1) = AES_ctx_SZ) as Hctx by (apply length_slice; unfold AES_ctx_SZ; lia).
  destruct (AES_key_expand_KeyExpansion (get_aes_ctx sc1) key Hctx Hkl Hkb) as (Eke & HW & HlW).
  unfold decrypt_quic_init. set (rk := AES_key_expand (get_aes_ctx sc1) key) in *.
  assert (length rk = AES_ctx_SZ) as Hrl by (rewrite Eke, length_concat_words, HlW by done; done).
  assert (get_aes_ctx (set_aes_ctx rk sc1) = rk) as Eget.
  { unfold get_aes_ctx, set_aes_ctx. cbn [s_union set_union]. rewrite <-Hrl. apply slice_store_same. unfold AES_ctx_SZ in Hrl. lia. }
  assert (bytes_ok (store (s_pkt sc) 0 (Rfc9001.ctr key nc m))) as Hsb by (apply bytes_ok_store; [done|by apply ctr_ok]).
  rewrite (decrypt_quic_ctr key nc Hkl Hkb Hnl Hnb (get_aes_ctx sc1) Hctx (set_aes_ctx rk sc1) n Eget);
    [|etrans; [apply length_store; rewrite length_ctr by done; lia|exact Hpl]|exact Hsb|exact Hiv|done].
  change (s_pkt (set_aes_ctx rk sc1)) with (store (s_pkt sc) 0 (Rfc9001.ctr key nc m)).
  cbn [s_pkt set_quic_iv set_pkt].
  rewrite <-(take_ge (Rfc9001.ctr key nc m) n) by (rewrite length_ctr by done; lia).
  rewrite (decrypted_plain key nc Hkl Hkb Hnl Hnb m (s_pkt sc) n Hpl) by lia.
  unfold plain_page. rewrite (take_ge m) by lia. reflexivity.
Qed.
Lemma decrypt_quic_inverts_witness :
  let sc := mk_scratch (zeros UNION_SZ) (zeros 16) (zeros 12 ++ be_bytes 4 1) (zeros 16) (zeros PKT_SZ) in
  let sc1 := set_pkt (store (s_pkt sc) 0 (Rfc9001.ctr (zeros 16) (zeros 12) [6; 7; 8])) sc in
  let sc2 := set_aes_ctx (decrypt_quic_init (get_aes_ctx sc1) (s_quic_key sc1)) sc1 in
  s_pkt (decrypt_quic (K := good_kernel) sc2 (Z.of_nat 3)) = take PKT_SZ ([6; 7; 8] ++ zeros 13 ++ drop 16 (zeros PKT_SZ)).
Proof.
  apply (decrypt_quic_inverts (K := good_kernel)
    (mk_scratch (zeros UNION_SZ) (zeros 16) (zeros 12 ++ be_bytes 4 1) (zeros 16) (zeros PKT_SZ)) (zeros 16) (zeros 12) [6; 7; 8] 3).
  - split; (split; [reflexivity|]); try apply bytes_ok_zeros. apply Forall_app. split; [apply bytes_ok_zeros|apply be_bytes_ok].
  - apply length_zeros.
  - apply bytes_ok_zeros.
  - apply length_zeros.
  - apply bytes_ok_zeros.
  - repeat (constructor; [split; [discriminate|reflexivity]|]). constructor.
  - reflexivity.
  - vm_compute. lia.
  - reflexivity.
  - reflexivity.
Defined.
