(* ===== verification/QuicPacket.v ===== *)
(** The header of a protected Initial packet: [protected] builds the packet of RFC 9000 and
    RFC 9001 that a client sends, [quic_parse_fields_spec] and what follows show what
    [quic_parse_hdr] and [quic_extract_sni] make of it. *)

From S2P Require Import Prelude Cookie Storage Cbpf Sha Aes Quic QuicCrypto.
Import Rfc9000.

(** ** Header protection *)
Module Header.
(** An Initial packet before header protection: [first] is its first byte; then version 1,
    the connection ids, the token and the length, up to the packet number. *)
Definition long_header (first : Z) (dcid scid : list Z) (pt : nat) (token : list Z) (pl : nat) (len : Z) : list Z :=
  first :: be_bytes 4 1 ++ Z.of_nat (length dcid) :: dcid ++ Z.of_nat (length scid) :: scid ++
  varint_encode pt (Z.of_nat (length token)) ++ token ++ varint_encode pl len.
(** RFC 9001, section 5.4: the mask hides the low bits of the first byte and the packet
    number. *)
Definition hide_first (mask : list Z) (first : Z) : Z := Z.lxor first (Z.land (nthZ mask 0) 0x0f).
Definition hide_pn (mask pn : list Z) : list Z := xor_bytes pn (drop 1 mask).
Definition mask (hp sample : list Z) : list Z := take 5 (Fips197.Cipher hp sample).
End Header.

Lemma hide_first_spec m b : byte_ok m → 0xC0 <= b < 0xD0 →
  let b' := Z.lxor b (Z.land m 0x0f) in
  Z.shiftr b' 4 = 0xC ∧ Z.shiftr b' 7 = 1 ∧ Z.lxor b' (Z.land m 0x0f) = b ∧ byte_ok b'.
Proof.
  intros Hm Hb b'. subst b'. rewrite land_15. pose proof (Z.mod_pos_bound m 16 ltac:(lia)) as Hr.
  set (x := m mod 16) in *. clearbody x.
  assert (forall_below 16 (λ x, forall_below 16 (λ b, let b' := Z.lxor (0xC0 + b) x in
    (Z.shiftr b' 4 =? 0xC) && (Z.shiftr b' 7 =? 1) && (Z.lxor b' x =? 0xC0 + b) && (0 <=? b') && (b' <? 256))) = true) as H
    by (vm_compute; reflexivity).
  pose proof (forall_below2_spec 16 16 (λ x b, let b' := Z.lxor (0xC0 + b) x in
    (Z.shiftr b' 4 =? 0xC) && (Z.shiftr b' 7 =? 1) && (Z.lxor b' x =? 0xC0 + b) && (0 <=? b') && (b' <? 256)) H x (b - 0xC0)
    ltac:(lia) ltac:(lia)) as Hs.
  cbv beta zeta in Hs. replace (0xC0 + (b - 0xC0)) with b in Hs by lia. unfold byte_ok. lia.
Qed.

(** The packet number is what its unmasked bytes say in network order. *)
Lemma packet_number xs n :
  bytes_ok xs → length xs = 4%nat → (1 <= n <= 4)%nat →
  bswap32 (u32 (Z.shiftl (Z.land (le_combine xs) (2 ^ (8 * Z.of_nat n) - 1)) (8 * Z.of_nat (4 - n))))
  = be_combine (take n xs).
Proof.
  intros Hb Hl Hn. pose proof (le_bytes_low 4 n xs Hb Hl ltac:(lia)) as Hlow.
  assert (Z.land (le_combine xs) (2 ^ (8 * Z.of_nat n) - 1) = le_combine (take n xs)) as ->.
  { rewrite land_ones_mod by lia. rewrite <-(take_drop n xs) at 1. rewrite le_combine_app.
    pose proof (le_combine_range (take n xs) ltac:(by apply Forall_take)) as Hx.
    rewrite length_take, Nat.min_l in * by lia. rewrite Z.mul_comm, Z.mod_add, Z.mod_small; lia. }
  assert (Z.shiftl (le_combine (take n xs)) (8 * Z.of_nat (4 - n)) = le_combine (zeros (4 - n) ++ take n xs)) as ->.
  { rewrite le_combine_app, le_combine_zeros, length_zeros, Z.shiftl_mul_pow2 by lia. lia. }
  assert (bytes_ok (zeros (4 - n) ++ take n xs)) as Hz by (apply Forall_app; split; [apply bytes_ok_zeros|by apply Forall_take]).
  assert (length (zeros (4 - n) ++ take n xs) = 4%nat) as Hzl by (rewrite length_app, length_zeros, length_take; lia).
  pose proof (le_combine_range _ Hz) as Hr. rewrite Hzl in Hr. change (8 * Z.of_nat 4) with 32 in Hr.
  rewrite u32_small by lia. rewrite bswap_load by done.
  unfold be_combine. rewrite rev_app_distr, le_combine_app.
  assert (rev (zeros (4 - n)) = zeros (4 - n)) as ->; [|rewrite le_combine_zeros; lia].
  do 4 (destruct n as [|n]; [reflexivity|]). destruct n; reflexivity.
Qed.

Lemma xor_bytes_zeros a n : length a = n → xor_bytes a (zeros n) = a.
Proof.
  intros <-. unfold xor_bytes, zeros. induction a as [|x a IH]; [done|]. cbn [length repeat zip_with].
  by rewrite IH, Z.lxor_0_r.
Qed.
Lemma be_bytes_zeros n : be_bytes n 0 = zeros n.
Proof.
  unfold be_bytes, zeros. induction n as [|n IH]; [done|]. cbn [le_bytes rev]. change (0 mod 256) with 0.
  change (0 / 256) with 0. by rewrite IH, <-repeat_cons.
Qed.
Lemma be_bytes_wide a b x : 0 <= x < 2 ^ (8 * Z.of_nat b) → be_bytes (a + b) x = zeros a ++ be_bytes b x.
Proof. intros Hx. by rewrite be_bytes_app, Z.div_small, be_bytes_zeros. Qed.

(** The nonce of a packet number below 2^32 differs from the IV in its last four bytes. *)
Lemma nonce_split a b pn : length a = 8%nat → length b = 4%nat → 0 <= pn < 2 ^ 32 →
  Rfc9001.nonce (a ++ b) pn = a ++ xor_bytes b (be_bytes 4 pn).
Proof.
  intros Ha Hb Hpn. unfold Rfc9001.nonce. rewrite (be_bytes_wide 4 4) by done. rewrite app_assoc.
  change (zeros 4 ++ zeros 4) with (zeros 8). unfold xor_bytes.
  rewrite zip_with_app by (by rewrite length_zeros). f_equal. by apply (xor_bytes_zeros a 8).
Qed.
Lemma iv_to_counter iv pn :
  length iv = 12%nat → bytes_ok iv → 0 <= pn < 2 ^ 32 →
  (let iv1 := store (iv ++ zeros 4) 8 (le_bytes 4 (Z.lxor (load 4 (iv ++ zeros 4) 8) (bswap32 pn))) in
   store iv1 12 (le_bytes 4 (bswap32 1)))
  = Rfc9001.nonce iv pn ++ be_bytes 4 1.
Proof.
  intros Hl Hb Hpn. cbv zeta. rewrite <-(take_drop 8 iv). set (a := take 8 iv). set (b := drop 8 iv).
  assert (length a = 8%nat) as Ha by (subst a; rewrite length_take; lia).
  assert (length b = 4%nat) as Hb4 by (subst b; rewrite length_drop; lia).
  assert (bytes_ok b) as Hbb by by apply Forall_drop.
  rewrite nonce_split, <-app_assoc by done. unfold load.
  assert (slice (a ++ b ++ zeros 4) 8 4 = b) as ->.
  { unfold slice. rewrite drop_app_length' by done. by rewrite take_app_length'. }
  change (bswap32 pn) with (le_combine (be_bytes 4 pn)).
  rewrite le_bytes_lxor by (done || apply be_bytes_ok || apply length_be_bytes).
  set (x := xor_bytes b (be_bytes 4 pn)).
  assert (length x = 4%nat) as Hx by (subst x; rewrite length_xor_bytes, length_be_bytes; lia).
  replace 12%nat with (8 + length x)%nat by lia.
  rewrite store_store_app by (rewrite length_le_bytes, !length_app, length_zeros; lia).
  rewrite store_spec by (rewrite !length_app, length_le_bytes, length_zeros; lia).
  rewrite take_app_length' by done. rewrite drop_ge by (rewrite !length_app, length_le_bytes, length_zeros; lia).
  rewrite app_nil_r, <-app_assoc. by rewrite le_bytes_bswap.
Qed.

(** The bytes of the packet number, and up to four bytes at its position. *)
Lemma unmask_pn mask pn rest xs :
  length mask = 5%nat → (1 <= length pn <= 4)%nat → xs = take 4 (Header.hide_pn mask pn ++ rest) →
  take (length pn) (xor_bytes xs (drop 1 mask)) = pn.
Proof.
  intros Hm Hl ->. unfold Header.hide_pn. set (ms := drop 1 mask).
  assert (length ms = 4%nat) as Hms by (subst ms; rewrite length_drop; lia). unfold xor_bytes.
  rewrite zip_with_take, take_take, Nat.min_l by lia.
  rewrite take_app_length' by (rewrite length_zip_with; lia).
  rewrite zip_with_take_r' by (rewrite length_zip_with; lia).
  apply (xor_bytes_involutive pn ms). lia.
Qed.

Lemma unprotect_header_spec buf pkt first mask pn rest iv sc :
  length mask = 5%nat → bytes_ok mask → 0xC0 <= first < 0xD0 →
  first mod 4 + 1 = Z.of_nat (length pn) → bytes_ok pn →
  cursor buf pkt (Header.hide_pn mask pn ++ rest) → (4 <= length pn + length rest)%nat →
  s_quic_iv sc = iv ++ zeros 4 → length iv = 12%nat → bytes_ok iv →
  unprotect_header buf pkt (Header.hide_first mask first) (le_combine (mask ++ zeros 3)) sc
  = (set_quic_iv (Rfc9001.nonce iv (be_combine pn) ++ be_bytes 4 1) sc,
     pkt + Z.of_nat (length pn), Z.of_nat (length pn)).
Proof.
  intros Hm Hmb Hf Hpnl Hpb Hc Hrest Hiv Hivl Hivb.
  destruct mask as [|m0 ms]; [done|]. apply Forall_cons in Hmb as [Hm0 Hms]. injection Hm as Hm.
  change (Header.hide_first (m0 :: ms) first) with (Z.lxor first (Z.land m0 0x0f)).
  destruct (hide_first_spec m0 first Hm0 Hf) as (_ & H7 & Hinv & _). cbv zeta in H7, Hinv.
  unfold unprotect_header. rewrite H7. change (1 =? 0) with false. cbv iota.
  assert (Z.land (le_combine ((m0 :: ms) ++ zeros 3)) 0xff = m0) as ->.
  { cbn [app le_combine]. change 0xff with (2 ^ 8 - 1). rewrite land_ones_mod by lia.
    change (2 ^ 8) with 256. unfold byte_ok in Hm0. rewrite Z.mul_comm, Z.mod_add, Z.mod_small; lia. }
  rewrite Hinv.
  assert (Z.land first 3 + 1 = Z.of_nat (length pn)) as ->.
  { rewrite (Z.land_ones first 2 ltac:(lia) : Z.land first 3 = _). exact Hpnl. }
  assert (Z.shiftr (le_combine ((m0 :: ms) ++ zeros 3)) 8 = le_combine ms) as ->.
  { cbn [app le_combine]. rewrite le_combine_app, le_combine_zeros, Z.mul_0_r, Z.add_0_r.
    rewrite Z.shiftr_div_pow2 by lia. change (2 ^ 8) with 256. unfold byte_ok in Hm0.
    rewrite Z.mul_comm, Z.div_add, Z.div_small; lia. }
  assert (1 <= length pn <= 4)%nat as Hpl by (pose proof (Z.mod_pos_bound first 4 ltac:(lia)); lia).
  set (xs := slice buf (Z.to_nat pkt) 4).
  assert (xs = take 4 (Header.hide_pn (m0 :: ms) pn ++ rest)) as Hxs.
  { subst xs. destruct Hc as (_ & Hd & _). unfold slice. by rewrite Hd. }
  assert (bytes_ok xs ∧ length xs = 4%nat) as [Hxb Hxl].
  { rewrite Hxs. destruct Hc as (_ & _ & Hb). split; [by apply Forall_take|].
    rewrite length_take, length_app. unfold Header.hide_pn. rewrite length_xor_bytes. cbn [drop]. rewrite drop_0. lia. }
  assert (u32 (Z.lxor (load 4 buf (Z.to_nat pkt)) (le_combine ms)) = le_combine (xor_bytes xs ms)) as ->.
  { unfold load. fold xs. rewrite le_combine_lxor by (done || lia). apply u32_small.
    pose proof (le_combine_range (xor_bytes xs ms) ltac:(by apply xor_bytes_ok)) as Hr.
    rewrite length_xor_bytes in Hr. rewrite Hxl, Hm in Hr. exact Hr. }
  pose proof (unmask_pn (m0 :: ms) pn rest xs ltac:(cbn; lia) Hpl Hxs) as Hpn. cbn [drop] in Hpn. rewrite drop_0 in Hpn.
  assert (bytes_ok (xor_bytes xs ms)) as Hyb by by apply xor_bytes_ok.
  assert (length (xor_bytes xs ms) = 4%nat) as Hyl by (rewrite length_xor_bytes; lia).
  set (ys := xor_bytes xs ms) in *. clearbody ys.
  pose proof (packet_number ys (length pn) Hyb Hyl Hpl) as HP. rewrite Hpn in HP.
  pose proof (be_combine_range pn Hpb) as Hr.
  assert (0 <= be_combine pn < 2 ^ 32) as Hr32.
  { split; [lia|]. eapply Z.lt_le_trans; [apply Hr|]. apply Z.pow_le_mono_r; lia. }
  cbv zeta. rewrite Hiv.
  assert (∀ p, bswap32 p = be_combine pn →
    store (store (iv ++ zeros 4) 8 (le_bytes 4 (Z.lxor (load 4 (iv ++ zeros 4) 8) (bswap32 (bswap32 p))))) 12 (le_bytes 4 (bswap32 1))
    = Rfc9001.nonce iv (be_combine pn) ++ be_bytes 4 1) as Hfin.
  { intros p ->. exact (iv_to_counter iv (be_combine pn) Hivl Hivb Hr32). }
  destruct (length pn) as [|[|[|[|[|l]]]]]; try lia.
  - change (Z.of_nat 1) with 1. cbv iota. by rewrite (Hfin (u32 (Z.shiftl (Z.land (le_combine ys) 0xff) 24)) HP).
  - change (Z.of_nat 2) with 2. cbv iota. by rewrite (Hfin (u32 (Z.shiftl (Z.land (le_combine ys) 0xffff) 16)) HP).
  - change (Z.of_nat 3) with 3. cbv iota. by rewrite (Hfin (u32 (Z.shiftl (Z.land (le_combine ys) 0xffffff) 8)) HP).
  - change (Z.of_nat 4) with 4. cbv iota. rewrite Hfin; [done|].
    rewrite bswap_load by done. by rewrite <-Hpn, take_ge by lia.
Qed.

(** ** A protected Initial packet *)
Record initial := mk_initial {
  i_first : Z;                (* first byte: form, type, reserved bits, packet number length *)
  i_dcid : list Z;
  i_scid : list Z;
  i_token : list Z;
  i_token_form : nat;         (* encoding chosen for the token's length *)
  i_len_form : nat;           (* encoding chosen for the packet's length *)
  i_pn : list Z;              (* packet number, one to four bytes *)
  i_plain : list Z;           (* the frames *)
  i_tag : list Z;
}.
Record initial_ok (p : initial) : Prop := {
  io_first : 0xC0 <= i_first p < 0xD0;
  io_pn_len : i_first p mod 4 + 1 = Z.of_nat (length (i_pn p));
  io_dcid : (8 <= length (i_dcid p) <= 20)%nat;
  io_scid : (length (i_scid p) <= 20)%nat;
  io_token : (length (i_token p) <= 255)%nat ∧ (i_token_form p <= 3)%nat ∧
    Z.of_nat (length (i_token p)) < 2 ^ varint_bits (i_token_form p);
  io_len : (i_len_form p <= 3)%nat ∧
    Z.of_nat (length (i_pn p) + length (i_plain p) + 16) < 2 ^ varint_bits (i_len_form p);
  io_tag : length (i_tag p) = 16%nat;
  io_bytes : bytes_ok (i_dcid p) ∧ bytes_ok (i_scid p) ∧ bytes_ok (i_token p) ∧ bytes_ok (i_pn p) ∧
    bytes_ok (i_plain p) ∧ bytes_ok (i_tag p);
}.

(** RFC 9001, section 5: the keys of the connection id, payload and header protection.
    The tag is not computed: the source does not check it. *)
Definition i_len (p : initial) : Z := Z.of_nat (length (i_pn p) + length (i_plain p) + 16).
Definition i_nonce (p : initial) : list Z := Rfc9001.nonce (Rfc9001.initial_iv (i_dcid p)) (be_combine (i_pn p)).
Definition i_payload (p : initial) : list Z :=
  Rfc9001.ctr (Rfc9001.initial_key (i_dcid p)) (i_nonce p) (i_plain p) ++ i_tag p.
Definition i_mask (p : initial) : list Z :=
  Header.mask (Rfc9001.initial_hp (i_dcid p)) (slice (i_payload p) (4 - length (i_pn p)) 16).
Definition i_header (p : initial) : list Z :=
  Header.long_header (Header.hide_first (i_mask p) (i_first p)) (i_dcid p) (i_scid p)
    (i_token_form p) (i_token p) (i_len_form p) (i_len p).
Definition protected (p : initial) : list Z := i_header p ++ Header.hide_pn (i_mask p) (i_pn p) ++ i_payload p.

(** Where the packet number is in a UDP datagram, header included. *)
Definition pn_offset (p : initial) : nat := (8 + length (i_header p))%nat.

Section Parse.
Context (p : initial) (Hp : initial_ok p).

Lemma pn_len : (1 <= length (i_pn p) <= 4)%nat.
Proof. pose proof (io_pn_len p Hp). pose proof (Z.mod_pos_bound (i_first p) 4 ltac:(lia)). lia. Qed.
Lemma pn_range : 0 <= be_combine (i_pn p) < 2 ^ 32.
Proof.
  destruct (io_bytes p Hp) as (_ & _ & _ & Hb & _). pose proof (be_combine_range _ Hb) as Hr. pose proof pn_len.
  split; [lia|]. eapply Z.lt_le_trans; [apply Hr|]. apply Z.pow_le_mono_r; lia.
Qed.
Lemma hkdf_label_ok secret label n : (1 <= n <= 32)%nat →
  length (Rfc9001.hkdf_expand_label secret label n) = n ∧ bytes_ok (Rfc9001.hkdf_expand_label secret label n).
Proof.
  intros Hn. unfold Rfc9001.hkdf_expand_label. rewrite hkdf_expand_one by done.
  match goal with |- context [Hmac.hmac ?k ?t] => destruct (length_hmac k t) as [Hl Hb] end.
  split; [rewrite length_take; lia|by apply Forall_take].
Qed.
Lemma initial_keys_ok d :
  (length (Rfc9001.initial_key d) = 16%nat ∧ bytes_ok (Rfc9001.initial_key d)) ∧
  (length (Rfc9001.initial_iv d) = 12%nat ∧ bytes_ok (Rfc9001.initial_iv d)) ∧
  (length (Rfc9001.initial_hp d) = 16%nat ∧ bytes_ok (Rfc9001.initial_hp d)).
Proof. split_and!; apply hkdf_label_ok; lia. Qed.
Lemma nonce_ok : length (i_nonce p) = 12%nat ∧ bytes_ok (i_nonce p).
Proof.
  destruct (initial_keys_ok (i_dcid p)) as (_ & [Hl Hb] & _). unfold i_nonce, Rfc9001.nonce. split.
  - rewrite length_xor_bytes, length_app, length_zeros, length_be_bytes. lia.
  - apply xor_bytes_ok; [done|]. apply Forall_app. split; [apply bytes_ok_zeros|apply be_bytes_ok].
Qed.
Lemma payload_ok : length (i_payload p) = (length (i_plain p) + 16)%nat ∧ bytes_ok (i_payload p).
Proof.
  destruct (initial_keys_ok (i_dcid p)) as ([Hl Hb] & _). destruct nonce_ok as [Hn Hnb].
  destruct (io_bytes p Hp) as (_ & _ & _ & _ & Hpl & Ht). unfold i_payload.
  split; [rewrite length_app, length_ctr, (io_tag p Hp) by done; done|].
  apply Forall_app. split; [by apply ctr_ok|done].
Qed.
Lemma mask_ok : (4 < length (i_pn p) + length (i_plain p))%nat → length (i_mask p) = 5%nat ∧ bytes_ok (i_mask p).
Proof.
  intros Hl. destruct (initial_keys_ok (i_dcid p)) as (_ & _ & [Hh Hhb]). destruct payload_ok as [Hpl Hpb].
  pose proof pn_len as Hpn.
  assert (state_ok (Fips197.Cipher (Rfc9001.initial_hp (i_dcid p)) (slice (i_payload p) (4 - length (i_pn p)) 16))) as [Hcl Hcb].
  { apply (encrypt_Cipher (zeros 176)); [apply length_zeros|done|done|].
    split; [apply length_slice; lia|by apply bytes_ok_slice]. }
  unfold i_mask, Header.mask. split; [rewrite length_take; lia|by apply Forall_take].
Qed.
End Parse.

Section ParseHeader.
Context {K : Kernel}.

Lemma compute_hp_mask_spec ctx hp sample verbose w :
  length ctx = AES_ctx_SZ → length hp = 16%nat → bytes_ok hp → state_ok sample →
  ∃ ctx' sample' w', compute_hp_mask ctx hp sample verbose w
    = (le_combine (Header.mask hp sample ++ zeros 3), ctx', sample', w') ∧
    length ctx' = AES_ctx_SZ ∧ bytes_ok ctx' ∧ logs_only w w'.
Proof.
  intros Hc Hh Hhb Hs. unfold compute_hp_mask.
  assert (length (store ctx 0 (zeros AES_ctx_SZ)) = AES_ctx_SZ) as Hz
    by (rewrite length_store; rewrite ?length_zeros; lia).
  destruct (encrypt_Cipher _ hp sample Hz Hh Hhb Hs) as [-> [Hl Hb]].
  destruct (AES_key_expand_KeyExpansion _ hp Hz Hh Hhb) as (-> & HW & HlW).
  assert (store (zeros 8) 0 (slice (Fips197.Cipher hp sample) 0 5) = Header.mask hp sample ++ zeros 3) as ->.
  { rewrite store_spec by (unfold slice; rewrite length_take, length_drop, length_zeros; lia).
    rewrite take_0, app_nil_l. unfold slice. rewrite drop_0. unfold Header.mask.
    by rewrite length_take, Hl. }
  eexists _, _, _. split; [reflexivity|split_and!].
  - rewrite length_concat_words, HlW by done. reflexivity.
  - clear -HW. induction HW as [|x W [_ Hx] _ IH]; [constructor|]. cbn. by apply Forall_app.
  - destruct (3 <=? verbose); [|done]. etrans; apply logs_only_printf.
Qed.

(** Bytes and lengths of a protected packet. *)
Lemma first_ok p : initial_ok p → (4 < length (i_pn p) + length (i_plain p))%nat →
  Z.shiftr (Header.hide_first (i_mask p) (i_first p)) 4 = 0xC ∧
  Z.shiftr (Header.hide_first (i_mask p) (i_first p)) 7 = 1 ∧ byte_ok (Header.hide_first (i_mask p) (i_first p)).
Proof.
  intros Hp Hplain. destruct (mask_ok p Hp Hplain) as [_ Hmb].
  destruct (hide_first_spec (nthZ (i_mask p) 0) (i_first p)) as (H4 & H7 & _ & Hb); [by apply nthZ_byte|by apply io_first|].
  done.
Qed.
Lemma pn_offset_eq p : pn_offset p = (8 + (7 + length (i_dcid p) + length (i_scid p) + varint_len (i_token_form p)
    + length (i_token p) + varint_len (i_len_form p)))%nat.
Proof.
  destruct (varint_encode_ok (i_token_form p) (Z.of_nat (length (i_token p)))) as [_ Hvtl].
  destruct (varint_encode_ok (i_len_form p) (i_len p)) as [_ Hvll].
  unfold pn_offset, i_header, Header.long_header. repeat (rewrite ?length_app; cbn [length]).
  rewrite length_be_bytes, Hvtl, Hvll. lia.
Qed.
Lemma hide_pn_ok p : initial_ok p → (4 < length (i_pn p) + length (i_plain p))%nat →
  bytes_ok (Header.hide_pn (i_mask p) (i_pn p)) ∧ length (Header.hide_pn (i_mask p) (i_pn p)) = length (i_pn p).
Proof.
  intros Hp Hplain. destruct (mask_ok p Hp Hplain) as [Hml Hmb]. destruct (io_bytes p Hp) as (_ & _ & _ & Hb & _).
  pose proof (pn_len p Hp). unfold Header.hide_pn. split; [apply xor_bytes_ok; [done|by apply Forall_drop]|].
  rewrite length_xor_bytes, length_drop. lia.
Qed.
Lemma protected_ok p : initial_ok p → (4 < length (i_pn p) + length (i_plain p))%nat → bytes_ok (protected p).
Proof.
  intros Hp Hplain. destruct (io_bytes p Hp) as (Hbd & Hbs & Hbt & _). destruct (first_ok p Hp Hplain) as (_ & _ & Hf).
  destruct (payload_ok p Hp) as [_ Hplb]. destruct (hide_pn_ok p Hp Hplain) as [Hpn _].
  pose proof (io_dcid p Hp) as Hdl. pose proof (io_scid p Hp) as Hsl.
  unfold protected, i_header, Header.long_header.
  repeat match goal with
  | |- bytes_ok (_ ++ _) => apply Forall_app; split
  | |- bytes_ok (_ :: _) => apply Forall_cons; split
  end; first [done | apply be_bytes_ok | apply varint_encode_ok | unfold byte_ok; lia].
Qed.

Lemma varint_len_le q : (q <= 3)%nat → (1 <= varint_len q <= 8)%nat.
Proof. intros H. do 4 (destruct q as [|q]; [cbn; lia|]). lia. Qed.

(** The fields from the UDP header to the packet number. *)
Lemma quic_parse_fields_spec p udp rest e sc enc_offset packet_len verbose w :
  initial_ok p → length udp = 8%nat → bytes_ok rest →
  Z.of_nat (pn_offset p) + 20 < e →
  (4 < length (i_pn p) + length (i_plain p))%nat →
  scratch_ok sc → s_quic_hp sc = Rfc9001.initial_hp (i_dcid p) →
  s_quic_iv sc = Rfc9001.initial_iv (i_dcid p) ++ zeros 4 →
  ∃ ctx w', quic_parse_fields (udp ++ protected p ++ rest) e sc enc_offset packet_len verbose w
    = (0, set_quic_iv (i_nonce p ++ be_bytes 4 1) (set_aes_ctx ctx sc),
       Z.of_nat (pn_offset p + length (i_pn p)), Z.of_nat (length (i_plain p)), w') ∧
    length ctx = AES_ctx_SZ ∧ bytes_ok ctx ∧ logs_only w w'.
Proof.
  intros Hp Hu Hrb Hlo Hplain Hok Hhp Hiv.
  destruct (mask_ok p Hp Hplain) as [Hml Hmb]. destruct (payload_ok p Hp) as [Hpll Hplb].
  pose proof (pn_len p Hp) as Hpn. destruct (io_token p Hp) as (Htl & Htf & Htv). destruct (io_len p Hp) as [Hlf Hlv].
  pose proof (io_dcid p Hp) as Hdl. pose proof (io_scid p Hp) as Hsl.
  destruct (first_ok p Hp Hplain) as (Hf4 & _ & _). destruct (hide_pn_ok p Hp Hplain) as [_ Hpnl].
  destruct (varint_encode_ok (i_token_form p) (Z.of_nat (length (i_token p)))) as [_ Hvtl].
  destruct (varint_encode_ok (i_len_form p) (i_len p)) as [_ Hvll].
  rewrite pn_offset_eq in *.
  set (buf := udp ++ protected p ++ rest).
  assert (cursor buf 8 (protected p ++ rest)) as C.
  { split_and!; [lia| |].
    - subst buf. by rewrite drop_app_length'.
    - apply Forall_app. split; [by apply protected_ok|done]. }
  clearbody buf. unfold protected, i_header, Header.long_header in C.
  cbn [app] in C. rewrite <-!app_assoc in C. cbn [app] in C. rewrite <-!app_assoc in C. cbn [app] in C.
  rewrite <-!app_assoc in C.
  unfold quic_parse_fields.
  rewrite (cursor_u8 _ _ _ _ _ _ _ C) by lia. rewrite Hf4. change (negb (0xC =? 0xC)) with false. cbv iota.
  apply cursor_cons in C. rewrite (cursor_u32 _ _ _ _ _ _ _ C) by lia. change (negb (1 =? 1)) with false. cbv iota.
  apply cursor_app in C. rewrite length_be_bytes in C.
  rewrite (cursor_u8 _ _ _ _ _ _ _ C) by lia.
  replace ((Z.of_nat (length (i_dcid p)) <? 8) || (20 <? Z.of_nat (length (i_dcid p)))) with false by lia.
  apply cursor_cons, cursor_app in C. 
  rewrite (cursor_u8 _ _ _ _ _ _ _ C) by lia. apply cursor_cons, cursor_app in C.
  rewrite (cursor_varint _ _ _ _ _ _ _ _ C); [|lia|done|lia|repeat (rewrite length_app); lia].
  pose proof (varint_len_le _ Htf) as Ht8. pose proof (varint_len_le _ Hlf) as Hl8.
  replace ((8 <? Z.of_nat (varint_len (i_token_form p))) || (255 <? Z.of_nat (length (i_token p)))) with false by lia.
  apply cursor_app in C. rewrite Hvtl in C. apply cursor_app in C.
  rewrite (cursor_varint _ _ _ _ _ _ _ _ C); [|lia|done|unfold i_len in *; lia|repeat (rewrite length_app); lia].
  replace (255 <? Z.of_nat (varint_len (i_len_form p))) with false by lia.
  apply cursor_app in C. rewrite Hvll in C.
  match type of C with cursor _ ?o _ => set (off := o) in * end.
  assert (off = Z.of_nat (8 + (7 + length (i_dcid p) + length (i_scid p) + varint_len (i_token_form p)
    + length (i_token p) + varint_len (i_len_form p)))) as Hoff by (unfold off; lia).
  rewrite <-Hoff in Hlo. clearbody off. destruct (Z.leb_spec e (off + 20)); [lia|].
  assert (slice buf (Z.to_nat (off + 4)) 16 = slice (i_payload p) (4 - length (i_pn p)) 16) as ->.
  { pose proof (cursor_app _ _ _ _ C) as (_ & Hd & _). destruct C as (Ho & _). rewrite Hpnl in Hd.
    unfold slice. replace (Z.to_nat (off + 4)) with (Z.to_nat (off + Z.of_nat (length (i_pn p))) + (4 - length (i_pn p)))%nat by lia.
    rewrite <-drop_drop, Hd. rewrite drop_app_le by lia. rewrite take_app_le by (rewrite length_drop; lia). done. }
  destruct (initial_keys_ok (i_dcid p)) as (_ & [Hivl Hivb] & [Hhl Hhb]).
  destruct (compute_hp_mask_spec (get_aes_ctx sc) (s_quic_hp sc) (slice (i_payload p) (4 - length (i_pn p)) 16) verbose w)
    as (ctx & sample & w' & -> & Hcl & Hcb & Hlog).
  { destruct (so_union _ Hok) as [Hul _]. unfold UNION_SZ in Hul. apply length_slice. unfold AES_ctx_SZ. lia. }
  { by rewrite Hhp. }
  { by rewrite Hhp. }
  { split; [apply length_slice; lia|by apply bytes_ok_slice]. }
  exists ctx, w'. split_and!; [|done..]. rewrite Hhp. fold (i_mask p).
  rewrite (unprotect_header_spec buf off (i_first p) (i_mask p) (i_pn p) (i_payload p ++ rest) (Rfc9001.initial_iv (i_dcid p)));
    [|done|done|by apply io_first|by apply io_pn_len|by apply io_bytes|done|rewrite length_app; lia|done|done|done].
  do 3 f_equal; [do 2 f_equal; lia|]. unfold i_len.
  assert (2 ^ varint_bits (i_len_form p) <= 2 ^ 62) by (apply Z.pow_le_mono_r; unfold varint_bits; lia).
  rewrite u64_small by lia. lia.
Qed.
End ParseHeader.

(** ** The whole datagram

    [udp] has the UDP header first; the linear part of the packet is its first [k]
    bytes. *)
Definition datagram (sk : bpf_sock) (eth hash : Z) (net udp : list Z) (k : nat) : sk_reuseport_md :=
  mk_md sk (Z.of_nat (length udp)) eth hash (take k udp) (buf_load udp) (buf_load (net ++ udp)).
(** How many bytes [quic_parse_hdr] looks at: the linear part, or up to 192 copied ones. *)
Definition header_window (udp : list Z) (k : nat) : Z :=
  Z.max (Z.of_nat (Nat.min k (length udp))) (Z.min (Z.of_nat (length udp)) MIN_QUIC_HDR_LINEAR).

Lemma set_pkt_ok sc off v : scratch_ok sc → bytes_ok v → (off + length v <= PKT_SZ)%nat →
  scratch_ok (set_pkt (store (s_pkt sc) off v) sc).
Proof.
  intros [? ? ? ? [Hl Hb]] Hv Hs. split; try done. cbn. split; [by rewrite length_store by lia|by apply bytes_ok_store].
Qed.
Lemma buf_load_prefix l n : (n <= length l)%nat → buf_load l 0 n = Some (take n l).
Proof.
  intros Hn. unfold buf_load. replace ((0 <=? 0) && (0 + Z.of_nat n <=? Z.of_nat (length l))) with true by lia.
  unfold slice. by rewrite drop_0.
Qed.

Section Datagram.
Context {K : Kernel}.

(** Copied or not, the header is parsed as if the whole datagram were at hand. *)
Lemma quic_parse_hdr_window sk eth hash net udp k sc enc_offset packet_len verbose w :
  scratch_ok sc → bytes_ok udp → (1 <= length udp)%nat →
  ∃ pkt, scratch_ok (set_pkt pkt sc) ∧
    quic_parse_hdr (datagram sk eth hash net udp k) sc enc_offset packet_len verbose w
    = quic_parse_fields udp (header_window udp k) (set_pkt pkt sc) enc_offset packet_len verbose w.
Proof.
  intros Hok Hb Hlen. unfold quic_parse_hdr, header_window, MIN_QUIC_HDR_LINEAR. cbn [md_data md_len md_load_bytes datagram].
  rewrite length_take.
  destruct (Z.ltb_spec (Z.of_nat (Nat.min k (length udp))) (Z.min (Z.of_nat (length udp)) 192)) as [Hlt|Hge].
  - destruct (Z.ltb_spec (Z.of_nat (length udp)) 1); [lia|].
    assert ((if 192 <? Z.of_nat (length udp) then 192 else Z.of_nat (length udp)) = Z.min (Z.of_nat (length udp)) 192) as ->
      by (destruct (Z.ltb_spec 192 (Z.of_nat (length udp))); lia).
    rewrite Z.max_r by lia. set (e := Z.min (Z.of_nat (length udp)) 192) in *.
    assert (0 <= e <= 192 ∧ (Z.to_nat e <= length udp)%nat) as [He Hel] by (subst e; lia). clearbody e.
    rewrite buf_load_prefix by done. destruct (so_pkt _ Hok) as [Hpl Hpb]. unfold PKT_SZ in Hpl.
    assert (bytes_ok (take (Z.to_nat e) udp)) as Htb by by apply Forall_take.
    pose proof (set_pkt_ok sc 0 _ Hok Htb ltac:(rewrite length_take; unfold PKT_SZ; lia)) as Hok'.
    exists (store (s_pkt sc) 0 (take (Z.to_nat e) udp)). split; [done|].
    apply quic_parse_fields_agree. split_and!; [apply Hok'|done|]. cbn [s_pkt set_pkt].
    rewrite store_spec by (rewrite length_take; lia). rewrite take_0, app_nil_l.
    by rewrite take_app_length' by (rewrite length_take; lia).
  - exists (s_pkt sc). assert (set_pkt (s_pkt sc) sc = sc) as -> by by destruct sc. split; [done|].
    rewrite Z.max_l by lia. apply quic_parse_fields_agree.
    split_and!; [by apply Forall_take|done|]. rewrite Nat2Z.id, take_take. f_equal. lia.
Qed.

Lemma quic_parse_hdr_initial sk eth hash net p udp rest k sc verbose w :
  initial_ok p → length udp = 8%nat → bytes_ok udp → bytes_ok rest →
  let d := udp ++ protected p ++ rest in
  Z.of_nat (pn_offset p) + 20 < header_window d k →
  (4 < length (i_pn p) + length (i_plain p))%nat →
  scratch_ok sc → s_quic_key sc = Rfc9001.initial_key (i_dcid p) → s_quic_hp sc = Rfc9001.initial_hp (i_dcid p) →
  s_quic_iv sc = Rfc9001.initial_iv (i_dcid p) ++ zeros 4 →
  ∃ sc' w', quic_parse_hdr (datagram sk eth hash net d k) sc 0 0 verbose w
    = (0, sc', Z.of_nat (pn_offset p + length (i_pn p)), Z.of_nat (length (i_plain p)), w') ∧
    scratch_ok sc' ∧ s_quic_key sc' = Rfc9001.initial_key (i_dcid p) ∧ s_quic_iv sc' = i_nonce p ++ be_bytes 4 1 ∧
    logs_only w w'.
Proof.
  intros Hp Hu Hub Hrb d He Hplain Hok Hkey Hhp Hiv.
  assert (bytes_ok d) as Hdb.
  { apply Forall_app. split; [done|]. apply Forall_app. split; [by apply protected_ok|done]. }
  destruct (quic_parse_hdr_window sk eth hash net d k sc 0 0 verbose w Hok Hdb) as (pkt & Hok' & ->).
  { subst d. rewrite length_app. lia. }
  destruct (quic_parse_fields_spec p udp rest (header_window d k) (set_pkt pkt sc) 0 0 verbose w)
    as (ctx & w' & E & Hcl & Hcb & Hlog); try done.
  eexists _, w'. split; [exact E|]. split_and!; [|done|done|done].
  destruct (nonce_ok p) as [Hnl Hnb]. pose proof (scratch_ok_union (set_pkt pkt sc) ctx 0 Hok' Hcb ltac:(rewrite Hcl; unfold AES_ctx_SZ, UNION_SZ; lia)) as [? ? ? ? ?].
  split; try done. cbn [s_quic_iv set_quic_iv]. split; [rewrite length_app, length_be_bytes; lia|].
  apply Forall_app. split; [done|apply be_bytes_ok].
Qed.
End Datagram.

Lemma set_iv_pkt_ok sc iv pk :
  scratch_ok sc → length iv = 16%nat → bytes_ok iv → length pk = PKT_SZ → bytes_ok pk →
  scratch_ok (set_quic_iv iv (set_pkt pk sc)).
Proof. intros [? ? ? ? ?] ? ? ? ?. by split. Qed.
Lemma set_sni_ok sc v : scratch_ok sc → bytes_ok v → (length v <= SNI_SZ)%nat → scratch_ok (set_sni v sc).
Proof.
  intros Hok Hb Hl. destruct (so_union _ Hok) as [Hu _]. rewrite set_sni_store by (rewrite ?Hu; unfold UNION_SZ, SNI_SZ in *; lia).
  apply scratch_ok_union; [done|done|]. unfold UNION_SZ, SNI_SZ in *. lia.
Qed.
Lemma set_sni_len_ok sc v : scratch_ok sc → scratch_ok (set_sni_len v sc).
Proof. intros Hok. apply scratch_ok_union; [done|apply le_bytes_ok|]. rewrite length_le_bytes. unfold UNION_SZ. lia. Qed.
Lemma clear_sni sc : length (s_union sc) = UNION_SZ →
  get_sni (set_sni_len 0 (set_sni (zeros SNI_SZ) sc)) = zeros SNI_SZ ∧
  get_sni_len (set_sni_len 0 (set_sni (zeros SNI_SZ) sc)) = 0.
Proof.
  intros Hsz. rewrite set_sni_store by (rewrite ?length_zeros, ?Hsz; unfold UNION_SZ, SNI_SZ; lia). revert Hsz.
  unfold get_sni, get_sni_len, set_sni_len, UNION_SZ, SNI_SZ. cbn [s_union set_union].
  generalize (s_union sc). intros u Hu.
  assert (length (store u 0 (zeros 150)) = 416%nat) as Hl by (rewrite length_store; rewrite ?length_zeros; lia). split.
  - rewrite slice_store_before by (rewrite ?Hl, ?length_le_bytes; lia).
    pose proof (slice_store_same u 0 (zeros 150)) as Hs. rewrite length_zeros in Hs. apply Hs. lia.
  - rewrite load_store_same by (rewrite Hl; lia). done.
Qed.
Lemma counter_at_ok nc i :
  length nc = 12%nat → bytes_ok nc → length (counter_at nc i) = 16%nat ∧ bytes_ok (counter_at nc i).
Proof.
  intros Hl Hb. unfold counter_at. split; [rewrite length_app, length_be_bytes; lia|].
  apply Forall_app. split; [done|apply be_bytes_ok].
Qed.

Section Decrypt.
Context {K : Kernel} {L : KernelLaws}.

(** The page when the frames are parsed: the plaintext, zeros to the end of its last
    block, and what was in the page before. *)
Lemma quic_extract_sni_decrypts md p sc enc_offset verbose w n :
  initial_ok p → scratch_ok sc → s_quic_key sc = Rfc9001.initial_key (i_dcid p) →
  s_quic_iv sc = i_nonce p ++ be_bytes 4 1 →
  (2 <= length (i_plain p))%nat → n = Nat.min (length (i_plain p)) PKT_SZ →
  md_load_bytes md enc_offset n = Some (take n (Rfc9001.ctr (Rfc9001.initial_key (i_dcid p)) (i_nonce p) (i_plain p))) →
  ∃ sc' w', quic_extract_sni md sc enc_offset (Z.of_nat (length (i_plain p))) verbose w
    = parse_client_hello_extract_sni sc' verbose w' ∧
    logs_only w w' ∧ scratch_ok sc' ∧ get_sni sc' = zeros SNI_SZ ∧ get_sni_len sc' = 0 ∧
    s_pkt sc' = plain_page (i_plain p) (s_pkt sc) n.
Proof.
  intros Hp Hok Hkey Hiv H2 Hn Hload. unfold quic_extract_sni.
  destruct (Z.ltb_spec (Z.of_nat (length (i_plain p))) 2); [lia|].
  assert ((if Z.of_nat PKT_SZ <? Z.of_nat (length (i_plain p)) then Z.of_nat PKT_SZ else Z.of_nat (length (i_plain p)))
    = Z.of_nat n) as -> by (destruct (Z.ltb_spec (Z.of_nat PKT_SZ) (Z.of_nat (length (i_plain p)))); lia).
  rewrite Nat2Z.id, Hload. destruct (initial_keys_ok (i_dcid p)) as ([Hkl Hkb] & _). destruct (nonce_ok p) as [Hnl Hnb].
  set (ct := Rfc9001.ctr _ _ (i_plain p)) in *.
  destruct (io_bytes p Hp) as (_ & _ & _ & _ & Hplb & _).
  assert (length ct = length (i_plain p) ∧ bytes_ok ct) as [Hcl Hcb] by (split; [by apply length_ctr|by apply ctr_ok]).
  assert (bytes_ok (take n ct)) as Htb by by apply Forall_take.
  pose proof (set_pkt_ok sc 0 (take n ct) Hok Htb ltac:(rewrite length_take; lia)) as Hok1. set (sc1 := set_pkt _ sc) in *.
  destruct (so_union _ Hok1) as [Hul Hub]. unfold UNION_SZ in Hul.
  assert (length (get_aes_ctx sc1) = AES_ctx_SZ) as Hctx by (apply length_slice; unfold AES_ctx_SZ; lia).
  unfold decrypt_quic_init. assert (s_quic_key sc1 = Rfc9001.initial_key (i_dcid p)) as -> by done.
  destruct (AES_key_expand_KeyExpansion (get_aes_ctx sc1) _ Hctx Hkl Hkb) as (Eke & HW & HlW).
  set (rk := AES_key_expand (get_aes_ctx sc1) (Rfc9001.initial_key (i_dcid p))) in *.
  assert (length rk = AES_ctx_SZ ∧ bytes_ok rk) as [Hrl Hrb].
  { rewrite Eke, length_concat_words, HlW by done. split; [done|].
    clear -HW. induction HW as [|x W [_ Hx] _ IH]; [constructor|]. cbn. by apply Forall_app. }
  pose proof (scratch_ok_union sc1 rk 0 Hok1 Hrb ltac:(rewrite Hrl; unfold AES_ctx_SZ, UNION_SZ; lia)) as Hok2. fold (set_aes_ctx rk sc1) in Hok2.
  assert (get_aes_ctx (set_aes_ctx rk sc1) = rk) as Eget.
  { unfold get_aes_ctx, set_aes_ctx. cbn [s_union set_union]. rewrite <-Hrl. apply slice_store_same. unfold AES_ctx_SZ in Hrl. lia. }
  destruct (so_pkt _ Hok2) as [Hpl Hpb].
  rewrite (decrypt_quic_ctr _ _ Hkl Hkb Hnl Hnb _ Hctx (set_aes_ctx rk sc1) n Eget Hpl Hpb Hiv) by lia.
  destruct (so_pkt _ Hok) as [Hl0 Hb0].
  change (s_pkt (set_aes_ctx rk sc1)) with (store (s_pkt sc) 0 (take n ct)). subst ct.
  rewrite decrypted_plain by done.
  destruct (plain_page_ok (i_plain p) (s_pkt sc) n Hl0 Hb0 Hplb Hn) as [Hpkl Hpkb].
  set (pk := plain_page _ _ _) in *.
  set (sc2 := set_quic_iv _ (set_pkt pk _)).
  assert (scratch_ok sc2) as Hok3.
  { apply set_iv_pkt_ok; [done|apply counter_at_ok; done..|done|done]. }
  cbv zeta. eexists _, _. split; [reflexivity|].
  assert (length (s_union sc2) = UNION_SZ) as Hu2 by apply Hok3.
  assert (scratch_ok (set_sni (zeros SNI_SZ) sc2)) as Hok4.
  { apply set_sni_ok; [done|apply bytes_ok_zeros|by rewrite length_zeros]. }
  split_and!; [|by apply set_sni_len_ok| | |reflexivity].
  - destruct (2 <=? verbose); [|done]. unfold log_print_plaintext. apply (bpf_loop_inv (λ w', logs_only w w')); [|done].
    intros i w1 Hw1. unfold _do_print_loop. case_match; [done|]. etrans; [exact Hw1|apply logs_only_printf].
  - by apply clear_sni.
  - by apply clear_sni.
Qed.
End Decrypt.

Lemma length_protected p : initial_ok p → (4 < length (i_pn p) + length (i_plain p))%nat →
  (8 + length (protected p) = pn_offset p + length (i_pn p) + length (i_plain p) + 16)%nat.
Proof.
  intros Hp H4. unfold protected. rewrite !length_app. destruct (hide_pn_ok p Hp H4) as [_ ->].
  destruct (payload_ok p Hp) as [-> _]. unfold pn_offset. lia.
Qed.

(** C13. The header: for every protected Initial packet behind a UDP header, wherever the
    kernel keeps its bytes as long as the header window reaches the sample, the parser
    with the keys of the connection id finds the payload behind the packet number and its
    length without the tag, and turns the IV into the first counter block of that packet,
    the nonce and 1; keys stay, only log messages change the shared state. *)
Theorem quic_parse_hdr_unprotects {K : Kernel} sk eth hash net p udp rest k sc verbose w :
  initial_ok p → length udp = 8%nat → bytes_ok udp → bytes_ok rest →
  Z.of_nat (pn_offset p) + 20 < header_window (udp ++ protected p ++ rest) k →
  (4 < length (i_pn p) + length (i_plain p))%nat →
  scratch_ok sc → s_quic_key sc = Rfc9001.initial_key (i_dcid p) → s_quic_hp sc = Rfc9001.initial_hp (i_dcid p) →
  s_quic_iv sc = Rfc9001.initial_iv (i_dcid p) ++ zeros 4 →
  ∃ sc' w', quic_parse_hdr (datagram sk eth hash net (udp ++ protected p ++ rest) k) sc 0 0 verbose w
    = (0, sc', Z.of_nat (pn_offset p + length (i_pn p)), Z.of_nat (length (i_plain p)), w') ∧
    scratch_ok sc' ∧ s_quic_key sc' = Rfc9001.initial_key (i_dcid p) ∧ s_quic_iv sc' = i_nonce p ++ be_bytes 4 1 ∧
    logs_only w w'.
Proof. intros Hp Hu Hub Hrb Hw. by apply quic_parse_hdr_initial. Qed.

Definition sample_initial : initial := mk_initial 0xC1 example_dcid [7] [8; 9] 0 1 [0x12; 0x34] (zeros 40) (zeros 16).
Lemma sample_initial_ok : initial_ok sample_initial.
Proof.
  split.
  - split; vm_compute; congruence.
  - reflexivity.
  - cbn. lia.
  - cbn. lia.
  - split_and!; [cbn; lia|cbn; lia|vm_compute; reflexivity].
  - split; [cbn; lia|vm_compute; reflexivity].
  - reflexivity.
  - split_and!; by apply bytes_by_check.
Qed.
Definition sample_scratch : scratch :=
  mk_scratch (zeros UNION_SZ) (Rfc9001.initial_key example_dcid) (Rfc9001.initial_iv example_dcid ++ zeros 4)
    (Rfc9001.initial_hp example_dcid) (zeros PKT_SZ).
Lemma sample_scratch_ok : scratch_ok sample_scratch.
Proof.
  destruct (initial_keys_ok example_dcid) as ([Hk Hkb] & [Hi Hib] & [Hh Hhb]).
  split; unfold sample_scratch; cbn [s_union s_quic_key s_quic_iv s_quic_hp s_pkt].
  - split; [apply length_zeros|apply bytes_ok_zeros].
  - split; [exact Hk|exact Hkb].
  - split; [rewrite length_app, Hi; reflexivity|]. apply Forall_app. split; [exact Hib|apply bytes_ok_zeros].
  - split; [exact Hh|exact Hhb].
  - split; [apply length_zeros|apply bytes_ok_zeros].
Qed.
Lemma quic_parse_hdr_unprotects_witness :
  ∃ sc' w', quic_parse_hdr (K := good_kernel) (datagram (mk_bpf_sock 1 AF_INET 0 (0, 0, 0, 0) 443) 8 0 []
      (zeros 8 ++ protected sample_initial ++ []) 12) sample_scratch 0 0 3 empty_world = (0, sc', 31, 40, w') ∧
    s_quic_iv sc' = i_nonce sample_initial ++ be_bytes 4 1.
Proof.
  destruct (quic_parse_hdr_unprotects (K := good_kernel) (mk_bpf_sock 1 AF_INET 0 (0, 0, 0, 0) 443) 8 0 []
    sample_initial (zeros 8) [] 12 sample_scratch 3 empty_world sample_initial_ok (length_zeros 8) (bytes_ok_zeros 8))
    as (sc' & w' & E & _ & _ & Hiv & _).
  - constructor.
  - pose proof (length_protected sample_initial sample_initial_ok ltac:(vm_compute; lia)) as Hl.
    assert (pn_offset sample_initial = 29%nat) as Eo by (rewrite pn_offset_eq; vm_compute; reflexivity). rewrite Eo in *.
    change (length (i_plain sample_initial)) with 40%nat in Hl. change (length (i_pn sample_initial)) with 2%nat in Hl.
    unfold header_window, MIN_QUIC_HDR_LINEAR. rewrite !length_app, length_zeros. change (length (@nil Z)) with 0%nat. lia.
  - vm_compute. lia.
  - exact sample_scratch_ok.
  - reflexivity.
  - reflexivity.
  - reflexivity.
  - exists sc', w'. split; [|exact Hiv].
    assert (pn_offset sample_initial = 29%nat) as Eo by (rewrite pn_offset_eq; vm_compute; reflexivity).
    rewrite Eo in E. exact E.
Defined.
