(* ===== verification/QuicState.v ===== *)
(** What every operation of [ebpf/ebpf_quic.c] leaves behind, on every branch: the scratch
    page keeps its shape ([scratch_ok]: five objects of fixed size, all bytes), the shared
    state changes by log messages only. *)

From S2P Require Import Prelude Cookie Storage Cbpf Sha Aes Quic QuicCrypto QuicPacket.

(** A postcondition goes through a read: it holds on return and on whatever was read. *)
Section Post.
Context {A : Type} (P : A → Prop) (pkt : list Z) (off pkt_end : Z) (ret : Z → A) (get : Z → Z → A).
Hypothesis (Hret : ∀ code, P (ret code)) (Hget : ∀ v o, P (get v o)).
Lemma get_u8_post : P (get_u8 pkt off pkt_end ret get).
Proof. unfold get_u8. by case_match. Qed.
Lemma get_u16_post : P (get_u16 pkt off pkt_end ret get).
Proof. unfold get_u16. by case_match. Qed.
Lemma get_u32_post : P (get_u32 pkt off pkt_end ret get).
Proof. unfold get_u32. by case_match. Qed.
Lemma get_varint_post : P (get_varint pkt off pkt_end ret get).
Proof. unfold get_varint. by repeat case_match. Qed.
End Post.

(** Through all the reads of a parser; [tac] proves the postcondition on a return. *)
Ltac reads tac :=
  repeat first
    [ apply get_u8_post; [intros; tac|intros]
    | apply get_u16_post; [intros; tac|intros]
    | apply get_u32_post; [intros; tac|intros]
    | apply get_varint_post; [intros; tac|intros]
    | match goal with |- _ (if _ then _ else _) => case_match; [solve [tac]|] end ].

(** Messages one after the other. *)
Lemma logs_refl {K : Kernel} w : logs_only w w.
Proof. done. Qed.
Lemma logs_if_trans {K : Kernel} w w1 b fmt args : logs_only w w1 → logs_only w (log_if b fmt args w1).
Proof. intros H. etrans; [exact H|apply logs_only_if]. Qed.
Lemma logs_printf_trans {K : Kernel} w w1 fmt args : logs_only w w1 → logs_only w (log_printf fmt args w1).
Proof. intros H. etrans; [exact H|apply logs_only_printf]. Qed.
Lemma logs_tick_trans {K : Kernel} w w1 : logs_only w w1 → logs_only w (tick w1).
Proof. intros H. etrans; [exact H|apply logs_only_tick]. Qed.
Lemma logs_cond {K : Kernel} (b : bool) w w1 w2 : logs_only w w1 → logs_only w w2 → logs_only w (if b then w1 else w2).
Proof. by destruct b. Qed.
Create HintDb logs.
#[export] Hint Resolve logs_refl logs_if_trans logs_printf_trans logs_tick_trans logs_cond : logs.

Section State.
Context {K : Kernel}.

Lemma parse_extensions_ok n buf off e extensions_end sc :
  scratch_ok sc → bytes_ok buf → scratch_ok (snd (parse_extensions n buf off e extensions_end sc)).
Proof.
  intros Hok Hb. induction n as [|n IH] in off |- *; cbn [parse_extensions]; [done|].
  case_match; [done|].
  apply (get_u16_post (λ r, scratch_ok (snd r))); [done|]. intros ty o.
  apply (get_u16_post (λ r, scratch_ok (snd r))); [done|]. intros len o'.
  case_match; [|done]. case_match; [done|]. cbn [snd].
  apply set_sni_len_ok, set_sni_ok; [done|by apply bytes_ok_slice|].
  unfold slice, SNI_SZ in *. rewrite length_take. lia.
Qed.

(** The code, the scratch and the world a parser returns: only messages, and from an
    input that satisfies [G] a page in shape. *)
Definition kept_page (G : Prop) (w : world) (r : Z * scratch * world) : Prop :=
  let '(_, sc, w') := r in logs_only w w' ∧ (G → scratch_ok sc).

Lemma parse_client_hello_kept buf e sc verbose w :
  kept_page (scratch_ok sc ∧ bytes_ok buf) w (parse_client_hello buf e sc verbose w).
Proof.
  unfold parse_client_hello. cbv zeta.
  reads ltac:(split; [auto with logs|by intros [? _]]).
  match goal with |- context [parse_extensions 32 buf ?o e ?x sc] =>
    pose proof (parse_extensions_ok 32 buf o e x sc) as Hx;
    destruct (parse_extensions 32 buf o e x sc) as [[code|] sc'] end; (split; [auto 6 with logs|intros [? ?]; by apply Hx]).
Qed.

(** The code, the scratch, the two results and the world of [quic_parse_hdr]. *)
Definition kept_hdr (G : Prop) (w : world) (r : Z * scratch * Z * Z * world) : Prop :=
  let '(_, sc, _, _, w') := r in logs_only w w' ∧ (G → scratch_ok sc).

Lemma AES_key_expand_ok ctx key : length ctx = AES_ctx_SZ → length key = 16%nat → bytes_ok key →
  length (AES_key_expand ctx key) = AES_ctx_SZ ∧ bytes_ok (AES_key_expand ctx key).
Proof.
  intros Hc Hk Hb. destruct (AES_key_expand_KeyExpansion ctx key Hc Hk Hb) as (-> & HW & HlW).
  split; [by rewrite length_concat_words, HlW|].
  clear -HW. induction HW as [|x W [_ Hx] _ IH]; [constructor|]. cbn. by apply Forall_app.
Qed.
Lemma length_get_aes_ctx sc : scratch_ok sc → length (get_aes_ctx sc) = AES_ctx_SZ.
Proof. intros Hok. destruct (so_union _ Hok) as [Hu _]. unfold UNION_SZ in Hu. apply length_slice. unfold AES_ctx_SZ. lia. Qed.
Lemma iv_ok sc iv : scratch_ok sc → length iv = 16%nat → bytes_ok iv → scratch_ok (set_quic_iv iv sc).
Proof. intros [? ? ? ? ?] ? ?. by split. Qed.

Lemma unprotect_header_ok buf pkt hdr hp_mask sc :
  scratch_ok sc → scratch_ok (fst (fst (unprotect_header buf pkt hdr hp_mask sc))).
Proof.
  intros Hok. unfold unprotect_header. case_match. cbn [fst]. destruct (so_iv _ Hok) as [Hl Hb].
  apply iv_ok; [done|store_lengths|]. apply bytes_ok_store; [apply bytes_ok_store; [done|]|]; apply le_bytes_ok.
Qed.
Lemma compute_hp_mask_kept ctx hp sample verbose w :
  let '(_, ctx', _, w') := compute_hp_mask ctx hp sample verbose w in
  logs_only w w' ∧ (length ctx = AES_ctx_SZ → length hp = 16%nat → bytes_ok hp → length ctx' = AES_ctx_SZ ∧ bytes_ok ctx').
Proof.
  unfold compute_hp_mask, log_printf_hex16. split; [auto with logs|].
  intros Hc Hh Hb. apply AES_key_expand_ok; [rewrite length_store; rewrite ?length_zeros; lia|done|done].
Qed.
Lemma quic_parse_fields_kept buf e sc enc_offset packet_len verbose w :
  kept_hdr (scratch_ok sc) w (quic_parse_fields buf e sc enc_offset packet_len verbose w).
Proof.
  unfold quic_parse_fields. cbv zeta. reads ltac:(by split).
  match goal with |- context [compute_hp_mask ?c ?h ?s ?v ?w] =>
    pose proof (compute_hp_mask_kept c h s v w) as Hm; destruct (compute_hp_mask c h s v w) as [[[mask ctx] sample] w1] end.
  destruct Hm as [Hl Hcb].
  match goal with |- context [unprotect_header ?b ?o ?h ?m ?s] =>
    pose proof (unprotect_header_ok b o h m s) as Hu;
    destruct (unprotect_header b o h m s) as [[sc' pkt] pnl] end.
  split; [done|]. intros Hok. destruct Hcb as [Hcl Hcb]; [by apply length_get_aes_ctx|by apply so_hp|by apply so_hp|].
  apply Hu, scratch_ok_union; [done|done|]. rewrite Hcl. unfold AES_ctx_SZ, UNION_SZ. lia.
Qed.
Lemma quic_parse_hdr_kept md sc enc_offset packet_len verbose w :
  kept_hdr (md_ok md ∧ scratch_ok sc) w (quic_parse_hdr md sc enc_offset packet_len verbose w).
Proof.
  unfold quic_parse_hdr. assert (∀ G G' r, kept_hdr G w r → (G' → G) → kept_hdr G' w r) as Hmono.
  { intros G G' [[[[c s] o] l] w'] [? ?] HG. split; [done|auto]. }
  case_match; [|by eapply Hmono; [apply quic_parse_fields_kept|intros [_ ?]]].
  case_match; [by split; [|intros [_ ?]]|].
  set (sz := if MIN_QUIC_HDR_LINEAR <? md_len md then MIN_QUIC_HDR_LINEAR else md_len md).
  assert (sz <= 192) as Hsz by (unfold sz, MIN_QUIC_HDR_LINEAR; destruct (Z.ltb_spec 192 (md_len md)); lia).
  destruct (md_load_bytes md 0 _) as [bs|] eqn:E; [|by split; [|intros [_ ?]]].
  eapply Hmono; [apply quic_parse_fields_kept|]. intros [Hmd Hok].
  destruct (md_load_ok _ Hmd _ _ _ E) as [Hl Hb]. apply set_pkt_ok; [done|done|]. unfold PKT_SZ. lia.
Qed.

(** ** Decryption *)
Lemma increment_counter_ok c : length c = 16%nat → bytes_ok c →
  length (increment_counter c) = 16%nat ∧ bytes_ok (increment_counter c).
Proof.
  intros Hl Hb. unfold increment_counter. cbv zeta. split; [store_lengths|].
  apply bytes_ok_store; [apply bytes_ok_store; [done|]|]; apply le_bytes_ok.
Qed.
Lemma set_words_ok sc p a b : scratch_ok sc → (p + 16 <= PKT_SZ)%nat →
  scratch_ok (set_pkt (store (store (s_pkt sc) p (le_bytes 8 a)) (p + 8) (le_bytes 8 b)) sc).
Proof.
  intros Hok Hp.
  pose proof (set_pkt_ok sc p _ Hok (le_bytes_ok 8 a) ltac:(rewrite length_le_bytes; lia)) as H1.
  pose proof (set_pkt_ok _ (p + 8) _ H1 (le_bytes_ok 8 b) ltac:(rewrite length_le_bytes; lia)) as H2. by destruct sc.
Qed.
Lemma decrypt_loop_ok i sc : scratch_ok sc → scratch_ok (fst (_do_decrypt_quic_loop i sc)).
Proof.
  intros Hok. unfold _do_decrypt_quic_loop. destruct (so_iv _ Hok) as [Hl Hb].
  destruct (increment_counter_ok _ Hl Hb) as [Hil Hib]. pose proof (iv_ok sc _ Hok Hil Hib) as Hok1.
  cbv zeta. destruct (Z.ltb_spec (Z.of_nat PKT_SZ) (u32 (i * 16) + 16)); [done|].
  apply set_words_ok; [done|]. unfold PKT_SZ in *. lia.
Qed.
Lemma decrypt_quic_ok {L : KernelLaws} sc n : scratch_ok sc → scratch_ok (decrypt_quic sc n).
Proof.
  intros Hok. unfold decrypt_quic.
  assert (scratch_ok (bpf_loop (u32 (n / 16 + (if n mod 16 =? 0 then 0 else 1))) _do_decrypt_quic_loop sc)) as H
    by (apply (bpf_loop_inv scratch_ok); [intros; by apply decrypt_loop_ok|done]).
  set (sc1 := bpf_loop _ _ _) in *. clearbody sc1. destruct (clear_upper_bytes _) as [m0 m1].
  destruct (Z.ltb_spec (Z.of_nat PKT_SZ - 16) (n / 16 * 16)); [done|].
  apply set_words_ok; [done|]. unfold PKT_SZ in *. lia.
Qed.
Lemma log_print_plaintext_logs {L : KernelLaws} sc n w : logs_only w (log_print_plaintext sc n w).
Proof.
  unfold log_print_plaintext. apply (bpf_loop_inv (λ w', logs_only w w')); [|done].
  intros i w1 Hw1. unfold _do_print_loop. case_match; cbn [fst]; auto with logs.
Qed.
Lemma quic_extract_sni_kept {L : KernelLaws} md sc enc_offset packet_len verbose w :
  kept_page (md_ok md ∧ scratch_ok sc) w (quic_extract_sni md sc enc_offset packet_len verbose w).
Proof.
  unfold quic_extract_sni. case_match; [by split; [|intros [_ ?]]|]. cbv zeta.
  destruct (md_load_bytes md enc_offset _) as [bs|] eqn:E; [|by split; [|intros [_ ?]]].
  set (n := if Z.of_nat PKT_SZ <? packet_len then Z.of_nat PKT_SZ else packet_len) in *.
  set (sc1 := set_pkt (store (s_pkt sc) 0 bs) sc).
  set (sc2 := decrypt_quic _ n).
  match goal with |- kept_page _ _ (parse_client_hello_extract_sni ?s _ ?w1) =>
    pose proof (parse_client_hello_kept (s_pkt s) (Z.of_nat PKT_SZ) s verbose w1) as Hk; set (sc3 := s) in * end.
  unfold parse_client_hello_extract_sni. destruct (parse_client_hello _ _ _ _ _) as [[c s] w2]. destruct Hk as [Hl Hs].
  split.
  - etrans; [|exact Hl]. apply logs_cond; [apply log_print_plaintext_logs|done].
  - intros [Hmd Hok]. apply Hs.
    assert (scratch_ok sc1) as H1.
    { destruct (md_load_ok _ Hmd _ _ _ E) as [Hbl Hbb]. apply set_pkt_ok; [done|done|].
      rewrite Hbl. unfold n. destruct (Z.ltb_spec (Z.of_nat PKT_SZ) packet_len); lia. }
    assert (scratch_ok sc2) as H2.
    { destruct (AES_key_expand_ok (get_aes_ctx sc1) (s_quic_key sc1)) as [Hrl Hrb];
        [by apply length_get_aes_ctx|by apply so_key|by apply so_key|].
      apply decrypt_quic_ok, scratch_ok_union; [done|done|].
      unfold decrypt_quic_init. rewrite Hrl. unfold AES_ctx_SZ, UNION_SZ. lia. }
    assert (scratch_ok sc3) as H3.
    { apply set_sni_len_ok, set_sni_ok; [done|apply bytes_ok_zeros|by rewrite length_zeros]. }
    split; [done|by apply so_pkt].
Qed.
End State.

(** C30. No store of the slow path leaves its array: for every packet, well-formed or not, and
    on success and on every error, both stages and the derivation of keys map a page of five
    byte arrays of their sizes to such a page (a store that is not inside its array makes the
    array longer), and change the shared state by log messages only. The clamp of the packet
    length, the guards of the decryption loop and of the last block, and the cut of the
    server name are what it takes. *)
Theorem quic_operations_keep_page {K : Kernel} {L : KernelLaws} md sc enc_offset packet_len verbose w dcid :
  md_ok md → scratch_ok sc →
  (let '(_, sc', _, _, w') := quic_parse_hdr md sc enc_offset packet_len verbose w in
   scratch_ok sc' ∧ logs_only w w') ∧
  (let '(_, sc', w') := quic_extract_sni md sc enc_offset packet_len verbose w in
   scratch_ok sc' ∧ logs_only w w') ∧
  (bytes_ok dcid → (length dcid <= 20)%nat →
   scratch_ok (expand_client_keys_from_dcid sc (dcid ++ zeros (20 - length dcid)) (Z.of_nat (length dcid)))).
Proof.
  intros Hmd Hok. split_and!.
  - pose proof (quic_parse_hdr_kept md sc enc_offset packet_len verbose w) as H.
    destruct (quic_parse_hdr md sc enc_offset packet_len verbose w) as [[[[c sc'] o] l] w'].
    destruct H as [Hl Hs]. split; [by apply Hs|done].
  - pose proof (quic_extract_sni_kept md sc enc_offset packet_len verbose w) as H.
    destruct (quic_extract_sni md sc enc_offset packet_len verbose w) as [[c sc'] w'].
    destruct H as [Hl Hs]. split; [by apply Hs|done].
  - intros Hb Hl. by apply (expand_client_keys sc dcid (length dcid)).
Qed.
Lemma quic_operations_keep_page_witness :
  let '(_, sc', w') := quic_extract_sni (K := good_kernel) (example_packet (zeros 64)) zero_scratch 8 20 2 empty_world in
  scratch_ok sc' ∧ logs_only empty_world w'.
Proof.
  apply (quic_operations_keep_page (K := good_kernel) (example_packet (zeros 64)) zero_scratch 8 20 2 empty_world []).
  - apply example_packet_ok; [apply bytes_ok_zeros|reflexivity].
  - exact zero_scratch_ok.
Defined.
