(* ===== verification/ClientHello.v ===== *)
(** The CRYPTO frame with the TLS Client Hello, and the server name in it.

    [frame] writes a Client Hello with any list of extensions; [parse_client_hello_spec]
    is what [parse_client_hello_extract_sni] reads from it. *)

From S2P Require Import Prelude Cookie Storage Cbpf Sha Aes Quic.
Import Rfc9000.

Record client_hello := mk_hello {
  ch_offset : Z; ch_offset_form : nat;     (* of the CRYPTO frame *)
  ch_len : Z; ch_len_form : nat;
  ch_body_len : Z;
  ch_version : Z;
  ch_random : list Z;
  ch_session : list Z;
  ch_ciphers : list Z;
  ch_compression : list Z;
  ch_extensions : list (Z * list Z);       (* type and contents *)
}.

Definition ext_bytes (x : Z * list Z) : list Z := be_bytes 2 (fst x) ++ be_bytes 2 (Z.of_nat (length (snd x))) ++ snd x.
Definition exts_bytes (xs : list (Z * list Z)) : list Z := concat (map ext_bytes xs).
Definition frame (h : client_hello) : list Z :=
  0x06 :: varint_encode (ch_offset_form h) (ch_offset h) ++ varint_encode (ch_len_form h) (ch_len h) ++
  0x01 :: be_bytes 3 (ch_body_len h) ++ be_bytes 2 (ch_version h) ++ ch_random h ++
  Z.of_nat (length (ch_session h)) :: ch_session h ++
  be_bytes 2 (Z.of_nat (length (ch_ciphers h))) ++ ch_ciphers h ++
  Z.of_nat (length (ch_compression h)) :: ch_compression h ++
  be_bytes 2 (Z.of_nat (length (exts_bytes (ch_extensions h)))) ++ exts_bytes (ch_extensions h).

Record hello_ok (h : client_hello) : Prop := {
  ho_offset : (ch_offset_form h <= 3)%nat ∧ 0 <= ch_offset h < 2 ^ varint_bits (ch_offset_form h);
  ho_len : (ch_len_form h <= 3)%nat ∧ 0 <= ch_len h < 2 ^ varint_bits (ch_len_form h);
  ho_version : 0 <= ch_version h < 2 ^ 16;
  ho_random : length (ch_random h) = 32%nat;
  ho_session : (length (ch_session h) <= 255)%nat;
  ho_ciphers : Z.of_nat (length (ch_ciphers h)) < 2 ^ 16;
  ho_compression : (length (ch_compression h) <= 255)%nat;
  ho_extensions : Forall (λ x, 0 <= fst x < 2 ^ 16 ∧ Z.of_nat (length (snd x)) < 2 ^ 16) (ch_extensions h) ∧
    Z.of_nat (length (exts_bytes (ch_extensions h))) < 2 ^ 16;
  ho_bytes : bytes_ok (frame h);
}.

(** The server name extension among the first [n], with the position of its contents. *)
Fixpoint find_sni (n : nat) (off : Z) (xs : list (Z * list Z)) : option (Z * list Z) :=
  match n, xs with
  | S n, (t, d) :: xs => if t =? 0 then Some (off + 4, d) else find_sni n (off + 4 + Z.of_nat (length d)) xs
  | _, _ => None
  end.
(** Code and scratch for an extension found, in a buffer of [e] bytes. *)
Definition store_sni (e : Z) (found : option (Z * list Z)) (sc : scratch) : Z * scratch :=
  match found with
  | None => (IERR_OK, sc)
  | Some (pos, d) =>
      if e <? pos + Z.of_nat SNI_SZ then (IERR_LOAD, sc)
      else (IERR_OK, set_sni_len (Z.of_nat (length d)) (set_sni (take SNI_SZ d) sc))
  end.
Definition extensions_offset (h : client_hello) : Z :=
  Z.of_nat (length (frame h)) - Z.of_nat (length (exts_bytes (ch_extensions h))).

Lemma length_ext_bytes x : length (ext_bytes x) = (4 + length (snd x))%nat.
Proof. unfold ext_bytes. rewrite !length_app, !length_be_bytes. lia. Qed.

Lemma parse_extensions_spec n xs buf off e rest sc :
  cursor buf off (exts_bytes xs ++ rest) → off + Z.of_nat (length (exts_bytes xs)) <= e →
  Forall (λ x, 0 <= fst x < 2 ^ 16 ∧ Z.of_nat (length (snd x)) < 2 ^ 16) xs →
  let '(code, sc') := store_sni e (find_sni n off xs) sc in
  parse_extensions n buf off e (off + Z.of_nat (length (exts_bytes xs))) sc
  = (if find_sni n off xs is Some _ then Some code else None, sc').
Proof.
  induction n as [|n IH] in xs, off |- *; intros C He Hxs; [done|].
  destruct xs as [|[t d] xs]; cbn [parse_extensions find_sni].
  { cbn [store_sni exts_bytes map concat length]. destruct (Z.leb_spec (off + Z.of_nat 0) off); [done|lia]. }
  apply Forall_cons in Hxs as [[Ht Hd] Hxs]. cbn [fst snd] in Ht, Hd.
  assert (exts_bytes ((t, d) :: xs) = be_bytes 2 t ++ be_bytes 2 (Z.of_nat (length d)) ++ d ++ exts_bytes xs) as E.
  { unfold exts_bytes. cbn [map concat]. unfold ext_bytes at 1. cbn [fst snd]. by rewrite <-!app_assoc. }
  assert (Z.of_nat (length (exts_bytes ((t, d) :: xs))) = 4 + Z.of_nat (length d) + Z.of_nat (length (exts_bytes xs))) as El.
  { rewrite E, !length_app, !length_be_bytes. lia. }
  rewrite El in *. rewrite E, <-!app_assoc in C. clear E El.
  destruct (Z.leb_spec (off + (4 + Z.of_nat (length d) + Z.of_nat (length (exts_bytes xs)))) off); [lia|].
  rewrite (cursor_u16 _ _ _ _ _ _ _ C) by lia. apply cursor_app in C. rewrite length_be_bytes in C.
  change (Z.of_nat 2) with 2 in C. rewrite (cursor_u16 _ _ _ _ _ _ _ C) by lia.
  apply cursor_app in C. rewrite length_be_bytes in C. change (Z.of_nat 2) with 2 in C.
  replace (off + 2 + 2) with (off + 4) in * by lia.
  destruct (Z.eqb_spec t 0) as [->|Hne].
  - unfold store_sni. destruct (Z.ltb_spec e (off + 4 + Z.of_nat SNI_SZ)); [done|]. do 5 f_equal.
    destruct C as (Ho & Hdr & _). unfold slice. rewrite Hdr.
    destruct (Z.min_spec (Z.of_nat (length d)) (Z.of_nat SNI_SZ)) as [[Hlt ->]|[Hge ->]]; rewrite Nat2Z.id.
    + by rewrite take_app_length, take_ge by lia.
    + by rewrite take_app_le by lia.
  - apply cursor_app in C.
    replace (off + (4 + Z.of_nat (length d) + Z.of_nat (length (exts_bytes xs))))
      with (off + 4 + Z.of_nat (length d) + Z.of_nat (length (exts_bytes xs))) by lia.
    apply IH; [exact C|lia|done].
Qed.

Section Hello.
Context {K : Kernel}.

Lemma parse_client_hello_spec h buf rest e sc verbose w :
  hello_ok h → cursor buf 0 (frame h ++ rest) → Z.of_nat (length (frame h)) <= e →
  ∃ w', parse_client_hello buf e sc verbose w
    = (let '(code, sc') := store_sni e (find_sni 32 (extensions_offset h) (ch_extensions h)) sc in (code, sc', w')) ∧
    logs_only w w'.
Proof.
  intros Hok C He. destruct (ho_offset h Hok) as [Hof Hov]. destruct (ho_len h Hok) as [Hlf Hlv].
  destruct (ho_extensions h Hok) as [Hxs Hxl]. pose proof (ho_random h Hok) as Hr. pose proof (ho_session h Hok) as Hs.
  pose proof (ho_ciphers h Hok) as Hc. pose proof (ho_compression h Hok) as Hcm. pose proof (ho_version h Hok) as Hver.
  destruct (varint_encode_ok (ch_offset_form h) (ch_offset h)) as [_ Hovl].
  destruct (varint_encode_ok (ch_len_form h) (ch_len h)) as [_ Hlvl].
  set (xs := ch_extensions h) in *.
  assert (Z.of_nat (length (frame h)) = 45 + Z.of_nat (varint_len (ch_offset_form h)) + Z.of_nat (varint_len (ch_len_form h))
    + Z.of_nat (length (ch_session h)) + Z.of_nat (length (ch_ciphers h)) + Z.of_nat (length (ch_compression h))
    + Z.of_nat (length (exts_bytes xs))) as El.
  { unfold frame. repeat (rewrite ?length_app; cbn [length]). rewrite !length_be_bytes, Hovl, Hlvl, Hr. fold xs. lia. }
  assert (extensions_offset h = 45 + Z.of_nat (varint_len (ch_offset_form h)) + Z.of_nat (varint_len (ch_len_form h))
    + Z.of_nat (length (ch_session h)) + Z.of_nat (length (ch_ciphers h)) + Z.of_nat (length (ch_compression h))) as Eo.
  { unfold extensions_offset. fold xs. lia. }
  rewrite El in He. unfold frame in C. fold xs in C. cbn [app] in C. repeat (rewrite <-!app_assoc in C; cbn [app] in C).
  unfold parse_client_hello. rewrite (cursor_u8 _ _ _ _ _ _ _ C) by lia. apply cursor_cons in C.
  change (negb (6 =? 6)) with false. cbv iota.
  rewrite (cursor_varint _ _ _ _ _ _ _ _ C); [|lia|done|done|repeat (rewrite ?length_app; cbn [length]); lia].
  apply cursor_app in C. rewrite Hovl in C.
  rewrite (cursor_varint _ _ _ _ _ _ _ _ C); [|lia|done|done|repeat (rewrite ?length_app; cbn [length]); lia].
  apply cursor_app in C. rewrite Hlvl in C.
  rewrite (cursor_u8 _ _ _ _ _ _ _ C) by lia. change (negb (1 =? 1)) with false. cbv iota. apply cursor_cons in C.
  assert (∃ b2 b1 b0, be_bytes 3 (ch_body_len h) = [b2; b1; b0]) as (b2 & b1 & b0 & Eb) by (do 3 eexists; reflexivity).
  rewrite Eb in C. cbn [app] in C.
  rewrite (cursor_u8 _ _ _ _ _ _ _ C) by lia. apply cursor_cons in C.
  rewrite (cursor_u8 _ _ _ _ _ _ _ C) by lia. apply cursor_cons in C.
  rewrite (cursor_u8 _ _ _ _ _ _ _ C) by lia. apply cursor_cons in C.
  rewrite (cursor_u16 _ _ _ _ _ _ _ C) by lia. apply cursor_app in C. rewrite length_be_bytes in C.
  apply cursor_app in C. rewrite Hr in C. change (Z.of_nat 2) with 2 in C. change (Z.of_nat 32) with 32 in C.
  rewrite (cursor_u8 _ _ _ _ _ _ _ C) by lia. apply cursor_cons, cursor_app in C.
  rewrite (cursor_u16 _ _ _ _ _ _ _ C) by lia. apply cursor_app in C. rewrite length_be_bytes in C.
  apply cursor_app in C. change (Z.of_nat 2) with 2 in C.
  rewrite (cursor_u8 _ _ _ _ _ _ _ C) by lia. apply cursor_cons, cursor_app in C.
  rewrite (cursor_u16 _ _ _ _ _ _ _ C) by lia. apply cursor_app in C. rewrite length_be_bytes in C.
  change (Z.of_nat 2) with 2 in C.
  match type of C with cursor _ ?o _ => replace o with (extensions_offset h) in * by lia end.
  match goal with |- context [parse_extensions 32 buf ?o e (?o + _) sc] =>
    replace o with (extensions_offset h) by lia end.
  pose proof (parse_extensions_spec 32 xs buf (extensions_offset h) e rest sc C ltac:(lia) Hxs) as Hp.
  destruct (store_sni e (find_sni 32 (extensions_offset h) xs) sc) as [code sc'] eqn:Es. rewrite Hp.
  unfold store_sni in Es. destruct (find_sni 32 (extensions_offset h) xs) as [[pos d]|].
  - eexists. split; [reflexivity|]. etrans; apply logs_only_if.
  - injection Es as <- <-. eexists. split; [reflexivity|]. etrans; [etrans|]; apply logs_only_if.
Qed.
End Hello.

(** The server name: from every Client Hello in a CRYPTO frame that fits the buffer,
    whatever its session id, cipher suites, compression methods and extensions, the parser
    stores the first server name extension among the first 32, its first 150 bytes and its
    length; it reports success without one, and a load error if the extension starts less
    than 150 bytes before the end of the buffer. *)
Theorem parse_client_hello_server_name {K : Kernel} h rest e sc verbose w :
  hello_ok h → bytes_ok rest → Z.of_nat (length (frame h)) <= e →
  ∃ w', parse_client_hello (frame h ++ rest) e sc verbose w
    = (let '(code, sc') := store_sni e (find_sni 32 (extensions_offset h) (ch_extensions h)) sc in (code, sc', w')) ∧
    logs_only w w'.
Proof.
  intros Hh Hr He. apply (parse_client_hello_spec h _ rest); [done| |done].
  split_and!; [lia|by rewrite drop_0|]. apply Forall_app. split; [by apply ho_bytes|done].
Qed.

(** A Client Hello for the host [test]. *)
Definition example_sni : list Z := be_bytes 2 7 ++ [0] ++ be_bytes 2 4 ++ str_arg "test".
Definition example_hello : client_hello :=
  mk_hello 0 0 66 1 60 0x303 (zeros 32) [] [0x13; 0x01] [0] [(0x10, [1; 2]); (0, example_sni)].
Lemma example_hello_ok : hello_ok example_hello.
Proof.
  split.
  - cbn. split; [lia|split; vm_compute; congruence].
  - cbn. split; [lia|split; vm_compute; congruence].
  - split; vm_compute; congruence.
  - reflexivity.
  - cbn. lia.
  - vm_compute. reflexivity.
  - cbn. lia.
  - split; [|vm_compute; reflexivity]. repeat (constructor; [split; [split|]; vm_compute; congruence|]). constructor.
  - by apply bytes_by_check.
Qed.
Lemma parse_client_hello_server_name_witness :
  ∃ w', parse_client_hello (K := good_kernel) (frame example_hello ++ []) 1024 zero_scratch 0 empty_world
    = (IERR_OK, set_sni_len 9 (set_sni example_sni zero_scratch), w').
Proof.
  destruct (parse_client_hello_server_name (K := good_kernel) example_hello [] 1024 zero_scratch 0 empty_world example_hello_ok)
    as (w' & E & _); [constructor|vm_compute; congruence|].
  exists w'. exact E.
Defined.
