(* ===== verification/Bespoke.v ===== *)
(** The hard-coded dissector of [ebpf/ebpf_bespoke.c]: a QUIC packet is dispatched by the
    server name of its Client Hello when it is an Initial packet with one, and by its
    destination connection id otherwise.

    [bespoke] is the implementation of the interface [BespokeDissector] that the receive
    path ([Dissector], [Reuseport]) is proved against; [bespoke_laws] discharges what the
    interface promises. *)

From S2P Require Import Prelude Cookie SipHash Storage Sha Aes Cbpf Dissector.
From S2P Require Import Quic QuicCrypto QuicPacket QuicState ClientHello.
Import Rfc9000.

Definition MIN_QUIC_LEN : nat := 32.

Section Bespoke.
Context {K : Kernel}.
Local Open Scope c_scope.

(** From the QUIC header on; [*dcid], [*dcid_len_ptr], [*is_init_packet_ptr]. *)
Definition parse_quic_fields (pkt : list Z) (dcid : list Z) (dcid_len : Z) : Z * list Z * Z * bool :=
  let hdr := nthZ pkt 0 in
  let is_long_header := hdr >> 7 in
  let is_init_packet := hdr >> 4 =? 0xC in
  if negb (is_long_header =? 0) then
    let len := nthZ pkt (1 + 4) in
    if (len <? 8) || (20 <? len) then (IERR_SANITY, dcid, dcid_len, is_init_packet)
    else
      let dcid := store dcid 0 (slice pkt (1 + 4 + 1) 20) in
      let dcid := fold_left (λ d i, <[i := 0]> d) (seq (Z.to_nat len) (20 - Z.to_nat len)) dcid in
      (IERR_OK, dcid, len, is_init_packet)
  else (IERR_OK, store dcid 0 (slice pkt 1 20), dcid_len, is_init_packet).

Definition parse_quic_fast (md : sk_reuseport_md) (dcid : list Z) (dcid_len : Z) (is_init_packet : bool)
  : Z * list Z * Z * bool :=
  let pkt := drop 8 (md_data md) in
  if md_len md <? Z.of_nat MIN_QUIC_LEN then (IERR_SANITY, dcid, dcid_len, is_init_packet)
  else if (List.length (md_data md) <? 8 + MIN_QUIC_LEN)%nat then
    match md_load_bytes md 8 MIN_QUIC_LEN with
    | None => (IERR_LOAD, dcid, dcid_len, is_init_packet)
    | Some _packet => parse_quic_fields _packet dcid dcid_len
    end
  else parse_quic_fields pkt dcid dcid_len.

(** The loop over the configured host names: the application of the first match. *)
Fixpoint match_sni (n i : nat) (sni d : list Z) : option Z :=
  match n with
  | O => None
  | S n =>
      if dis_bespoke_hostname_len d <=? Z.of_nat i then None
      else if bool_decide (slice sni 0 (BESPOKE_SNI_LEN - 1) = slice (dis_bespoke_hostname d i) 0 (BESPOKE_SNI_LEN - 1))
      then Some (dis_bespoke_app d i)
      else match_sni n (S i) sni d
  end.

(** The slow path for an Initial packet: the code to return at once, or the server name
    extension if one was found. *)
Definition initial_packet (md : sk_reuseport_md) (dcid : list Z) (dcid_len verbose : Z) (w : world)
  : (Z + option (list Z)) * world :=
  let '(page, w) := percpu_scratch_page w in
  match page with
  | None => (inl IERR_SANITY, w)
  | Some sc =>
      let sc := expand_client_keys_from_dcid sc dcid dcid_len in
      let w :=
        if 4 <=? verbose then
          let w := log_printf_hex16 "quic_key" (s_quic_key sc) w in
          let w := log_printf_hex16 "quic_iv" (s_quic_iv sc) w in
          log_printf_hex16 "quic_hp" (s_quic_hp sc) w
        else w in
      let '(r, sc, enc_offset, packet_len, w) := quic_parse_hdr md sc 0 0 verbose w in
      if negb (r =? IERR_OK) then (inl r, w)
      else
        let '(r, sc, w) := quic_extract_sni md sc enc_offset packet_len verbose w in
        if (r =? IERR_OK) && negb (get_sni_len sc =? 0) then (inr (Some (get_sni sc)), w)
        else if r =? IERR_OK then
          (inr None, log_if (1 <=? verbose) "[ ] Not a recognized crypto frame, or borken encryption" [] w)
        else (inr None, log_if (1 <=? verbose) "[ ] SNI failed %d" [r] w)
  end.

Definition NEW_FLOW (app : Z) : Z := s32 (0x80000000 .| app).

(** Dispatch by the server name, and by the connection id: what is stored in [*retval]. *)
Definition dispatch_sni (state : reuseport_storage) (sni : list Z) (w : world) : Z * world :=
  let sni := drop 5 sni in
  let w := log_if (2 <=? verbose state) "    SNI extracted: %s" (c_string (<[64%nat := 0]> sni)) w in
  match match_sni (Z.to_nat MAX_BESPOKE_SNI) 0 sni (dis state) with
  | Some app => (NEW_FLOW app, log_if (1 <=? verbose state) "[ ] SNI ok, app=1" [] w)
  | None => (NEW_FLOW 0x0, log_if (1 <=? verbose state) "[ ] SNI not matched, dispatching to app=0" [] w)
  end.
Definition dispatch_dcid (state : reuseport_storage) (dcid : list Z) (w : world) : Z * world :=
  if nthZ dcid 0 =? 1 then
    let cookie := load 2 dcid 1 in
    let cookie := bswap16 cookie in
    if cookie =? 0 then
      let app := nthZ dcid 4 in
      (NEW_FLOW app, log_if (1 <=? verbose state) "[ ] DCID by app %d" [app] w)
    else (cookie, log_if (1 <=? verbose state) "[ ] DCID by cookie %04x" [cookie] w)
  else (NEW_FLOW 0x0, log_if (1 <=? verbose state) "[ ] DCID not ours, dispatching to app=0" [] w).

Definition run_0xDEAD (md : sk_reuseport_md) (state : reuseport_storage) (retval : Z) (w : world)
  : Z * Z * world :=
  let '(r, dcid, dcid_len, is_init_packet) := parse_quic_fast md (zeros 20) 0 false in
  if negb (r =? IERR_OK) then (r, retval, log_printf "[ ] Quic parse failed hard err=%d" [r] w)
  else
    let w := if 3 <=? verbose state then log_printf_hex20 "DCID" dcid w else w in
    let '(found, w) :=
      if is_init_packet then initial_packet md dcid dcid_len (verbose state) w else (inr None, w) in
    match found with
    | inl r => (r, retval, w)
    | inr (Some sni) => let '(retval, w) := dispatch_sni state sni w in (IERR_OK, retval, w)
    | inr None => let '(retval, w) := dispatch_dcid state dcid w in (IERR_OK, retval, w)
    end.

Definition run_by_digest (md : sk_reuseport_md) (bespoke_digest : Z) (state : reuseport_storage) (retval : Z)
  (w : world) : Z * Z * world :=
  if bespoke_digest =? 0xDEAD then run_0xDEAD md state retval w
  else (IERR_INSTREXCEEDED, retval, w).
End Bespoke.

#[export] Instance bespoke {K : Kernel} : BespokeDissector := {| run_bespoke_by_digest := run_by_digest |}.

(** ** The interface *)
Lemma NEW_FLOW_range app : - 2 ^ 31 <= NEW_FLOW app < 2 ^ 31.
Proof.
  unfold NEW_FLOW, s32. pose proof (u32_range (Z.lor 0x80000000 app)) as Hr.
  destruct (Z.ltb_spec (u32 (Z.lor 0x80000000 app)) (2 ^ 31)); lia.
Qed.
Lemma NEW_FLOW_app app : 0 <= app < 2 ^ 31 → NEW_FLOW app = app - 2 ^ 31.
Proof.
  intros Ha. unfold NEW_FLOW, s32. pose proof (lor_shiftl_add app 1 31 ltac:(lia) Ha ltac:(lia)) as Hl.
  change (Z.shiftl 1 31) with 0x80000000 in Hl. rewrite Hl, u32_small by lia.
  destruct (Z.ltb_spec (app + 2 ^ 31 * 1) (2 ^ 31)); lia.
Qed.

Section Interface.
Context {K : Kernel} {L : KernelLaws}.

Lemma initial_packet_logs md dcid dcid_len v w : logs_only w (snd (initial_packet md dcid dcid_len v w)).
Proof.
  unfold initial_packet, percpu_scratch_page.
  assert (logs_only w (tick w)) as Ht by auto with logs.
  destruct (percpu_scratch (w_tick w)) as [m|]; cbn [fmap option_fmap option_map]; [|done]. cbv zeta.
  set (sc := expand_client_keys_from_dcid _ dcid dcid_len). clearbody sc.
  set (w1 := if 4 <=? v then _ else _).
  assert (logs_only w w1) as H1 by (subst w1; unfold log_printf_hex16; auto 6 with logs). clearbody w1.
  pose proof (quic_parse_hdr_kept md sc 0 0 v w1) as Hh.
  destruct (quic_parse_hdr md sc 0 0 v w1) as [[[[r sc1] off] len] w2]. destruct Hh as [H2 _].
  case_match; cbn [snd]; [by etrans|].
  pose proof (quic_extract_sni_kept md sc1 off len v w2) as He.
  destruct (quic_extract_sni md sc1 off len v w2) as [[r' sc2] w3]. destruct He as [H3 _].
  assert (logs_only w w3) by (do 2 (etrans; [eassumption|]); done).
  repeat case_match; cbn [snd]; auto with logs.
Qed.
Lemma dispatch_sni_kept st sni w :
  - 2 ^ 31 <= fst (dispatch_sni st sni w) < 2 ^ 31 ∧ logs_only w (snd (dispatch_sni st sni w)).
Proof. unfold dispatch_sni. cbv zeta. case_match; split; cbn [fst snd]; auto using NEW_FLOW_range with logs. Qed.
Lemma dispatch_dcid_kept st dcid w :
  - 2 ^ 31 <= fst (dispatch_dcid st dcid w) < 2 ^ 31 ∧ logs_only w (snd (dispatch_dcid st dcid w)).
Proof.
  unfold dispatch_dcid. cbv zeta. repeat case_match; split; cbn [fst snd]; auto using NEW_FLOW_range with logs.
  pose proof (bswap_range 2 (load 2 dcid 1)). change (8 * Z.of_nat 2) with 16 in *. lia.
Qed.
Lemma run_0xDEAD_kept md st retval w code v w' :
  run_0xDEAD md st retval w = (code, v, w') →
  logs_only w w' ∧ (code = IERR_OK → - 2 ^ 31 <= v < 2 ^ 31).
Proof.
  unfold run_0xDEAD. destruct (parse_quic_fast md (zeros 20) 0 false) as [[[r dcid] dcid_len] init].
  destruct (Z.eqb_spec r IERR_OK) as [Hr|Hr]; cbn [negb]; [|intros [= <- <- <-]; split; [auto with logs|done]].
  set (w1 := if 3 <=? verbose st then _ else w).
  assert (logs_only w w1) as H1 by (subst w1; unfold log_printf_hex20; auto with logs). clearbody w1.
  pose proof (initial_packet_logs md dcid dcid_len (verbose st) w1) as Hi.
  assert (∃ found w2, (if init then initial_packet md dcid dcid_len (verbose st) w1 else (inr None, w1)) = (found, w2) ∧
    logs_only w w2 ∧ (found ≠ inl IERR_OK)) as (found & w2 & -> & H2 & Hne).
  { destruct init; [|by exists (inr None), w1].
    destruct (initial_packet _ _ _ _ _) as [found w2] eqn:E. exists found, w2. split_and!; [done|by etrans|].
    intros ->. unfold initial_packet in E. destruct (percpu_scratch_page w1) as [[sc|] ?]; [|done].
    destruct (quic_parse_hdr _ _ _ _ _ _) as [[[[r' ?] ?] ?] ?]. destruct (Z.eqb_spec r' IERR_OK); cbn [negb] in E; [|congruence].
    destruct (quic_extract_sni _ _ _ _ _ _) as [[? ?] ?]. repeat case_match; congruence. }
  destruct found as [r'|[sni|]].
  - intros [= <- <- <-]. split; [done|]. intros ->. done.
  - pose proof (dispatch_sni_kept st sni w2) as [Hv Hl]. destruct (dispatch_sni st sni w2) as [v' w3].
    intros [= <- <- <-]. split; [by etrans|done].
  - pose proof (dispatch_dcid_kept st dcid w2) as [Hv Hl]. destruct (dispatch_dcid st dcid w2) as [v' w3].
    intros [= <- <- <-]. split; [by etrans|done].
Qed.

#[export] Instance bespoke_laws : BespokeLaws (B := bespoke).
Proof.
  split; cbn [run_bespoke_by_digest bespoke]; unfold run_by_digest.
  - intros md digest st retval w code v w'. case_match; [intros Hr%run_0xDEAD_kept; apply Hr|]. by intros [= <- <- <-].
  - intros md digest st retval w v w'. case_match; [|done]. intros Hr%run_0xDEAD_kept. by apply Hr.
Qed.
End Interface.

(** ** The connection id *)
Lemma zero_tail l n : length l = 20%nat → (n <= 20)%nat →
  fold_left (λ d i, <[i := 0]> d) (seq n (20 - n)) l = take n l ++ zeros (20 - n).
Proof.
  intros Hl Hn. rewrite (fold_assign (λ _, 0)) by lia. f_equal. rewrite drop_ge, app_nil_r by lia.
  unfold zeros. generalize (20 - n)%nat. intros m. generalize n. clear.
  induction m as [|m IH]; intros n; [done|]. cbn [seq map repeat]. by rewrite IH.
Qed.

Lemma parse_quic_fields_agree pkt pkt' dcid dcid_len :
  agree 32 pkt pkt' → parse_quic_fields pkt dcid dcid_len = parse_quic_fields pkt' dcid dcid_len.
Proof.
  intros H. unfold parse_quic_fields. change (slice pkt (1 + 4 + 1) 20) with (slice pkt (Z.to_nat 6) 20).
  change (slice pkt 1 20) with (slice pkt (Z.to_nat 1) 20).
  rewrite !(agree_nthZ 32 pkt pkt'), !(agree_slice 32 pkt pkt') by (done || lia). done.
Qed.

Section Routes.
Context {K : Kernel}.

(** In the linear part or copied, the first 32 bytes behind the UDP header are parsed. *)
Lemma parse_quic_fast_datagram sk eth hash net udp k dcid dcid_len init :
  (40 <= length udp)%nat → bytes_ok udp →
  parse_quic_fast (datagram sk eth hash net udp k) dcid dcid_len init = parse_quic_fields (drop 8 udp) dcid dcid_len.
Proof.
  intros Hl Hb. unfold parse_quic_fast. cbn [md_data md_len md_load_bytes datagram]. unfold MIN_QUIC_LEN.
  destruct (Z.ltb_spec (Z.of_nat (length udp)) (Z.of_nat 32)); [lia|].
  assert (bytes_ok (drop 8 udp)) as Hdb by by apply Forall_drop.
  rewrite length_take. destruct (Nat.ltb_spec (Nat.min k (length udp)) (8 + 32)).
  - unfold buf_load. change (0 <=? 8) with true. destruct (Z.leb_spec (8 + Z.of_nat 32) (Z.of_nat (length udp))); [|lia].
    cbn [andb].
    apply parse_quic_fields_agree. split_and!; [by apply bytes_ok_slice|done|].
    unfold slice. by rewrite take_take.
  - apply parse_quic_fields_agree. split_and!; [by apply Forall_drop, Forall_take|done|].
    change (Z.to_nat 32) with 32%nat. rewrite !take_drop_commute, take_take. do 2 f_equal. lia.
Qed.

(** The group sees a 32-bit word with bit 31 set as the application [app]. *)
Lemma verdict_of_NEW_FLOW max app : 0 <= app < 2 ^ 31 → 0 <= max →
  verdict_of max (NEW_FLOW app) = NewFlow (if app <? max then app else 0).
Proof.
  intros Ha Hm. rewrite NEW_FLOW_app by done. unfold verdict_of.
  destruct (Z.ltb_spec (app - 2 ^ 31) (- 2 ^ 31 + max)); destruct (Z.ltb_spec app max); try lia.
  - f_equal. lia.
  - by destruct (Z.leb_spec 0 (app - 2 ^ 31)); [lia|].
Qed.
(** What the dispatcher makes of [*retval = 0x80000000 | app]: a new flow of that
    application, or of the caller's one if the group has fewer. *)
Lemma dissector_new_flow md st gc app w a w1 :
  dis_bespoke_digest (dis st) = 0xDEAD → run_0xDEAD md st 0 w = (IERR_OK, NEW_FLOW a, w1) →
  0 <= a < 256 → 0 <= dis_max_apps (dis st) < 2 ^ 31 →
  dissector_cbpf (B := bespoke) md st gc app w
  = (IERR_BADRETURNVALUE, gc, if a <? dis_max_apps (dis st) then a else app, w1).
Proof.
  intros Hd Hr Ha Hm. rewrite (dissector_cbpf_verdict md st gc app w IERR_OK (NEW_FLOW a) w1).
  - change (IERR_OK =? IERR_OK) with true. cbv iota. rewrite verdict_of_NEW_FLOW by lia. rewrite NEW_FLOW_app by lia.
    destruct (Z.ltb_spec a (dis_max_apps (dis st))), (Z.ltb_spec (a - 2 ^ 31) (- 2 ^ 31 + dis_max_apps (dis st))); try lia; done.
  - rewrite Hd. exact Hr.
  - apply NEW_FLOW_range.
  - done.
Qed.
Lemma dissector_cookie md st gc app w c w1 :
  dis_bespoke_digest (dis st) = 0xDEAD → run_0xDEAD md st 0 w = (IERR_OK, c, w1) →
  0 <= c < 2 ^ 16 → 0 <= dis_max_apps (dis st) < 2 ^ 31 →
  dissector_cbpf (B := bespoke) md st gc app w = (IERR_OK, c, app, w1).
Proof.
  intros Hd Hr Hc Hm. rewrite (dissector_cbpf_verdict md st gc app w IERR_OK c w1); [|by rewrite Hd|lia|done].
  change (IERR_OK =? IERR_OK) with true. cbv iota. unfold verdict_of.
  destruct (Z.ltb_spec c (- 2 ^ 31 + dis_max_apps (dis st))); [lia|].
  by replace ((0 <=? c) && (c <? 2 ^ 16)) with true by lia.
Qed.

(** What a connection id says: with first byte 1, bytes 1 and 2 are the cookie of a
    flow, or byte 4 the application of a new one. *)
Inductive cid_route := ToFlow (cookie : Z) | ToApp (app : Z).
Definition route_of_cid (d : list Z) : cid_route :=
  if nthZ d 0 =? 1 then
    let cookie := be_combine (slice d 1 2) in
    if cookie =? 0 then ToApp (nthZ d 4) else ToFlow cookie
  else ToApp 0.
Definition routed (st : reuseport_storage) (gc app : Z) (r : cid_route) (w : world) : Z * Z * Z * world :=
  match r with
  | ToFlow c => (IERR_OK, c, app, w)
  | ToApp a => (IERR_BADRETURNVALUE, gc, if a <? dis_max_apps (dis st) then a else app, w)
  end.
Lemma dispatch_dcid_route st d w : bytes_ok d → (5 <= length d)%nat →
  fst (dispatch_dcid st d w)
  = (match route_of_cid d with ToFlow c => c | ToApp a => NEW_FLOW a end) ∧
  match route_of_cid d with ToFlow c => 0 <= c < 2 ^ 16 | ToApp a => 0 <= a < 256 end.
Proof.
  intros Hb Hl. unfold dispatch_dcid, route_of_cid, load. cbv zeta.
  destruct (nthZ d 0 =? 1); [|by split].
  assert (bytes_ok (slice d 1 2)) as Hs by by apply bytes_ok_slice.
  assert (length (slice d 1 2) = 2%nat) as Hsl by (apply length_slice; lia).
  rewrite (bswap_load 2) by done. pose proof (be_combine_range _ Hs) as Hr. rewrite Hsl in Hr.
  change (8 * Z.of_nat 2) with 16 in Hr. pose proof (nthZ_byte d 4 Hb) as H4. unfold byte_ok in H4.
  by destruct (be_combine (slice d 1 2) =? 0).
Qed.

Lemma run_dcid md st retval w d len :
  parse_quic_fast md (zeros 20) 0 false = (IERR_OK, d, len, false) → bytes_ok d → (5 <= length d)%nat →
  ∃ w', run_0xDEAD md st retval w
    = (IERR_OK, match route_of_cid d with ToFlow c => c | ToApp a => NEW_FLOW a end, w').
Proof.
  intros Hp Hb Hl. unfold run_0xDEAD. rewrite Hp. change (negb (IERR_OK =? IERR_OK)) with false. cbv iota zeta.
  set (w1 := if 3 <=? verbose st then _ else w).
  destruct (dispatch_dcid_route st d w1 Hb Hl) as [E _].
  destruct (dispatch_dcid st d w1) as [v w2]. cbn [fst] in E. subst v. by eexists.
Qed.
End Routes.

(** The connection id of a datagram that is not an Initial packet, padded to 20 bytes, or
    the error of the dissector. *)
Definition connection_id (udp : list Z) : Z + list Z :=
  let n := length udp in
  if (n <? 32)%nat then inl IERR_SANITY
  else if (n <? 40)%nat then inl IERR_LOAD
  else
    let pkt := drop 8 udp in
    if nthZ pkt 0 <? 128 then inr (slice pkt 1 20)
    else
      let len := Z.to_nat (nthZ pkt 5) in
      if (len <? 8)%nat || (20 <? len)%nat then inl IERR_SANITY
      else inr (slice pkt 6 len ++ zeros (20 - len)).
Definition is_initial (udp : list Z) : bool := nthZ (drop 8 udp) 0 / 16 =? 0xC.

Section Short.
Context {K : Kernel}.

Lemma parse_quic_fields_cid udp :
  (40 <= length udp)%nat → bytes_ok udp →
  match connection_id udp with
  | inl e => e ≠ IERR_OK ∧ ∃ len, parse_quic_fields (drop 8 udp) (zeros 20) 0 = (e, zeros 20, len, is_initial udp)
  | inr d => bytes_ok d ∧ length d = 20%nat ∧
      ∃ len, parse_quic_fields (drop 8 udp) (zeros 20) 0 = (IERR_OK, d, len, is_initial udp)
  end.
Proof.
  intros Hl Hb. unfold connection_id, is_initial. set (pkt := drop 8 udp).
  assert (bytes_ok pkt) as Hpb by by apply Forall_drop.
  assert (32 <= length pkt)%nat as Hpl by (subst pkt; rewrite length_drop; lia).
  destruct (Nat.ltb_spec (length udp) 32); [lia|]. destruct (Nat.ltb_spec (length udp) 40); [lia|].
  clearbody pkt. pose proof (nthZ_byte pkt 0 Hpb) as Hb0. pose proof (nthZ_byte pkt 5 Hpb) as Hb5. unfold byte_ok in Hb0, Hb5.
  unfold parse_quic_fields. change (1 + 4) with 5. rewrite !Z.shiftr_div_pow2 by lia. change (2 ^ 4) with 16. change (2 ^ 7) with 128.
  assert (∀ v, length v = 20%nat → store (zeros 20) 0 v = v) as Hst.
  { intros v Hv. rewrite store_spec by (rewrite length_zeros; lia). rewrite take_0, app_nil_l, drop_ge by (rewrite length_zeros; lia).
    apply app_nil_r. }
  destruct (Z.ltb_spec (nthZ pkt 0) 128) as [Hs|Hs].
  - rewrite (Z.div_small (nthZ pkt 0) 128) by lia. change (negb (0 =? 0)) with false. cbv iota.
    rewrite Hst by (apply length_slice; lia). split_and!; [by apply bytes_ok_slice|apply length_slice; lia|]. by eexists.
  - assert (nthZ pkt 0 / 128 = 1) as -> by (symmetry; apply (Z.div_unique _ 128 1 (nthZ pkt 0 - 128)); lia).
    change (negb (1 =? 0)) with true. cbv iota.
    set (len := nthZ pkt 5) in *. clearbody len.
    destruct (Z.ltb_spec len 8), (Z.ltb_spec 20 len), (Nat.ltb_spec (Z.to_nat len) 8), (Nat.ltb_spec 20 (Z.to_nat len)); try lia;
      cbn [orb]; try (split; [done|by eexists]).
    change (1 + 4 + 1)%nat with 6%nat. rewrite Hst by (apply length_slice; lia).
    rewrite zero_tail by (rewrite ?length_slice; lia).
    assert (take (Z.to_nat len) (slice pkt 6 20) = slice pkt 6 (Z.to_nat len)) as ->.
    { unfold slice. rewrite take_take. f_equal. lia. }
    split_and!; [|rewrite length_app, length_zeros, length_slice; lia|by eexists].
    apply Forall_app. split; [by apply bytes_ok_slice|apply bytes_ok_zeros].
Qed.

Lemma run_not_initial sk eth hash net udp k st retval w :
  bytes_ok udp → is_initial udp = false →
  ∃ w', run_0xDEAD (datagram sk eth hash net udp k) st retval w =
    match connection_id udp with
    | inl e => (e, retval, w')
    | inr d => (IERR_OK, match route_of_cid d with ToFlow c => c | ToApp a => NEW_FLOW a end, w')
    end.
Proof.
  intros Hb Hi. destruct (le_lt_dec 40 (length udp)) as [Hl|Hl].
  - pose proof (parse_quic_fields_cid udp Hl Hb) as Hc. destruct (connection_id udp) as [e|d].
    + destruct Hc as (He & len & E). rewrite Hi in E. unfold run_0xDEAD. rewrite parse_quic_fast_datagram, E by done.
      destruct (Z.eqb_spec e IERR_OK); [done|]. by eexists.
    + destruct Hc as (Hdb & Hdl & len & E). rewrite Hi in E.
      apply (run_dcid _ _ _ _ _ len); [by rewrite parse_quic_fast_datagram, E|done|lia].
  - assert (∃ e, connection_id udp = inl e ∧ e ≠ IERR_OK ∧
      parse_quic_fast (datagram sk eth hash net udp k) (zeros 20) 0 false = (e, zeros 20, 0, false)) as (e & -> & He & E).
    { unfold connection_id, parse_quic_fast, MIN_QUIC_LEN, buf_load. cbn [md_data md_len md_load_bytes datagram].
      unfold buf_load. rewrite length_take. change (0 <=? 8) with true. cbn [andb].
      destruct (Nat.ltb_spec (length udp) 32), (Z.ltb_spec (Z.of_nat (length udp)) (Z.of_nat 32)); try lia; [by eexists|].
      destruct (Nat.ltb_spec (length udp) 40); [|lia].
      destruct (Nat.ltb_spec (Nat.min k (length udp)) (8 + 32)); [|lia].
      destruct (Z.leb_spec (8 + Z.of_nat 32) (Z.of_nat (length udp))); [lia|]. by eexists. }
    unfold run_0xDEAD. rewrite E. destruct (Z.eqb_spec e IERR_OK); [done|]. by eexists.
Qed.
End Short.

(** C10. A QUIC packet that is not an Initial packet is routed by its connection id,
    wherever the kernel keeps its bytes: first byte 1 and a non-zero cookie in bytes 1 and
    2 make it a packet of that flow; first byte 1 and a zero cookie start a flow of the
    application in byte 4, any other id a flow of application 0, and the caller's
    application stands in for one the group does not have; a datagram that is too short,
    or whose connection id has not 8 to 20 bytes, is an error. Only log messages change
    the shared state. *)
Theorem connection_id_routes {K : Kernel} {L : KernelLaws} sk eth hash net udp k st gc app w :
  bytes_ok udp → is_initial udp = false →
  dis_bespoke_digest (dis st) = 0xDEAD → 0 <= dis_max_apps (dis st) < 2 ^ 31 →
  ∃ w', logs_only w w' ∧
    dissector_cbpf (B := bespoke) (datagram sk eth hash net udp k) st gc app w =
      match connection_id udp with
      | inl e => (e, gc, app, w')
      | inr d => routed st gc app (route_of_cid d) w'
      end.
Proof.
  intros Hb Hi Hd Hm. destruct (run_not_initial sk eth hash net udp k st 0 w Hb Hi) as [w' E]. exists w'.
  assert (logs_only w w') as Hl by (destruct (connection_id udp); by apply run_0xDEAD_kept in E as [? _]).
  split; [done|]. destruct (connection_id udp) as [e|d] eqn:Ec.
  - unfold dissector_cbpf. rewrite Hd. change (0xDEAD =? 0) with false. cbv iota.
    cbn [run_bespoke_by_digest bespoke]. unfold run_by_digest. change (0xDEAD =? 0xDEAD) with true. cbv iota. rewrite E.
    destruct (Z.eqb_spec e IERR_OK) as [->|]; [|done]. exfalso. unfold connection_id, IERR_SANITY, IERR_LOAD, IERR_OK in Ec.
    repeat case_match; discriminate.
  - destruct (le_lt_dec 40 (length udp)) as [H40|H40].
    2: { unfold connection_id in Ec. destruct (Nat.ltb_spec (length udp) 32); [done|].
         destruct (Nat.ltb_spec (length udp) 40); [done|lia]. }
    pose proof (parse_quic_fields_cid udp H40 Hb) as Hc. rewrite Ec in Hc. destruct Hc as (Hdb & Hdl & _).
    destruct (dispatch_dcid_route st d w Hdb ltac:(lia)) as [_ Hr]. unfold routed. destruct (route_of_cid d) as [c|a].
    + by apply dissector_cookie.
    + by apply dissector_new_flow.
Qed.

Lemma connection_id_routes_witness :
  let udp := zeros 8 ++ [0x40; 1; 0xab; 0xcd] ++ zeros 30 in
  ∃ w', logs_only empty_world w' ∧
    dissector_cbpf (B := bespoke) (datagram (mk_bpf_sock 1 AF_INET 0 (0, 0, 0, 0) 443) ETH_P_IP 0 [] udp 20)
      (set_dis (store (zeros DISSECTOR_SZ) 12 (le_bytes 4 0xDEAD)) empty_state) 7 8 empty_world
    = (IERR_OK, 0xabcd, 8, w').
Proof.
  cbv zeta.
  pose proof (connection_id_routes (K := good_kernel) (mk_bpf_sock 1 AF_INET 0 (0, 0, 0, 0) 443) ETH_P_IP 0 []
    (zeros 8 ++ [0x40; 1; 0xab; 0xcd] ++ zeros 30) 20
    (set_dis (store (zeros DISSECTOR_SZ) 12 (le_bytes 4 0xDEAD)) empty_state) 7 8 empty_world) as H.
  apply H.
  - apply Forall_app. split; [apply bytes_ok_zeros|]. apply Forall_app. split; [|apply bytes_ok_zeros].
    repeat (constructor; [split; [discriminate|reflexivity]|]). constructor.
  - vm_compute. reflexivity.
  - vm_compute. reflexivity.
  - split; vm_compute; [discriminate|reflexivity].
Defined.

(** ** The server name

    The configured host names, at most eight, compared on 61 bytes padded with zeros. *)
Definition hosts (d : list Z) : list (list Z * Z) :=
  map (λ i, (slice (dis_bespoke_hostname d i) 0 61, dis_bespoke_app d i))
    (seq 0 (Nat.min 8 (Z.to_nat (dis_bespoke_hostname_len d)))).
Fixpoint lookup_host (name : list Z) (hs : list (list Z * Z)) : option Z :=
  match hs with
  | [] => None
  | (h, app) :: hs => if bool_decide (name = h) then Some app else lookup_host name hs
  end.
(** The name in the contents of the extension: behind the length of the list, the type
    and the length of the name. *)
Definition padded_name (d : list Z) : list Z := take 61 (drop 5 d ++ zeros 61).

Lemma match_sni_from sni d m i : 0 <= dis_bespoke_hostname_len d →
  match_sni m i sni d = lookup_host (slice sni 0 61)
    (map (λ i, (slice (dis_bespoke_hostname d i) 0 61, dis_bespoke_app d i))
      (seq i (Nat.min m (Z.to_nat (dis_bespoke_hostname_len d) - i)))).
Proof.
  intros Hn. induction m as [|m IH] in i |- *; [done|]. cbn [match_sni].
  destruct (Z.leb_spec (dis_bespoke_hostname_len d) (Z.of_nat i)) as [Hle|Hlt].
  { replace (Nat.min (S m) (Z.to_nat (dis_bespoke_hostname_len d) - i)) with 0%nat by lia. done. }
  replace (Nat.min (S m) (Z.to_nat (dis_bespoke_hostname_len d) - i))
    with (S (Nat.min m (Z.to_nat (dis_bespoke_hostname_len d) - S i))) by lia.
  cbn [seq map lookup_host]. change (BESPOKE_SNI_LEN - 1)%nat with 61%nat. by rewrite IH.
Qed.
Lemma match_sni_hosts sni d : bytes_ok d →
  match_sni (Z.to_nat MAX_BESPOKE_SNI) 0 sni d = lookup_host (slice sni 0 61) (hosts d).
Proof.
  intros Hb. rewrite match_sni_from by (apply load_range; done). unfold hosts. by rewrite Nat.sub_0_r.
Qed.
Lemma padded_sni d : slice (drop 5 (take SNI_SZ d ++ zeros (SNI_SZ - length (take SNI_SZ d)))) 0 61 = padded_name d.
Proof.
  unfold slice, padded_name, SNI_SZ. rewrite drop_0. apply list_eq. intros i.
  destruct (decide (i < 61)%nat) as [Hi|Hi]; [|by rewrite !lookup_take_ge by lia].
  rewrite !lookup_take_lt, lookup_drop by lia.
  assert (∀ (l : list Z) n j, (j < length l + n)%nat → (l ++ zeros n) !! j = Some (nth j l 0)) as Hz.
  { intros l n j Hj. destruct (decide (j < length l)%nat) as [Hjl|Hjl].
    - rewrite lookup_app_l by done. destruct (lookup_lt_is_Some_2 l j Hjl) as [x Hx]. rewrite Hx.
      by rewrite (nth_lookup_Some _ _ _ _ Hx).
    - rewrite lookup_app_r by lia. rewrite nth_overflow by lia. unfold zeros.
      assert (∀ m i, (i < m)%nat → repeat 0 m !! i = Some 0) as Hr; [|apply Hr; lia].
      clear. intros m. induction m as [|m IH]; intros [|i] Hi; try lia; [done|]. apply IH. lia. }
  rewrite !Hz by (rewrite ?length_take, ?length_drop; lia). rewrite !nth_lookup, lookup_take_lt, lookup_drop by lia. done.
Qed.

Lemma scratch_of_ok m : length m = SCRATCH_SZ → bytes_ok m → scratch_ok (scratch_of m).
Proof.
  unfold SCRATCH_SZ. intros Hl Hb.
  assert (∀ o n, (o + n <= 1488)%nat → length (slice m o n) = n ∧ bytes_ok (slice m o n)) as H.
  { intros o n Hn. split; [apply length_slice; lia|by apply bytes_ok_slice]. }
  split; apply H; unfold UNION_SZ, PKT_SZ; lia.
Qed.

Lemma drop_zeros n m : drop n (zeros m) = zeros (m - n).
Proof. unfold zeros. revert m. induction n as [|n IH]; intros [|m]; try done. apply IH. Qed.

(** The extension in the page. *)
Lemma get_sni_stored sc d : scratch_ok sc → get_sni sc = zeros SNI_SZ → (1 <= Z.of_nat (length d) < 2 ^ 16) →
  let sc' := set_sni_len (Z.of_nat (length d)) (set_sni (take SNI_SZ d) sc) in
  get_sni_len sc' = Z.of_nat (length d) ∧ get_sni sc' = take SNI_SZ d ++ zeros (SNI_SZ - length (take SNI_SZ d)).
Proof.
  intros Hok Hz Hd. destruct (so_union _ Hok) as [Hu _].
  rewrite set_sni_store by (rewrite ?length_take, ?Hu; unfold UNION_SZ, SNI_SZ; lia). unfold get_sni, get_sni_len, set_sni_len, set_sni, UNION_SZ, SNI_SZ in *.
  cbn [s_union set_union]. set (v := take 150 d). assert (length v <= 150)%nat as Hv by (subst v; rewrite length_take; lia).
  clearbody v. set (u := s_union sc) in *. clearbody u. split.
  - rewrite load_store_same by store_lengths. apply Z.mod_small. lia.
  - rewrite slice_store_before by store_lengths.
    replace 150%nat with (length v + (150 - length v))%nat at 1 by lia. rewrite slice_app.
    rewrite slice_store_same, slice_store_after by lia. f_equal.
    rewrite Nat.add_0_l. transitivity (drop (length v) (slice u 0 150)).
    + unfold slice. rewrite drop_0. rewrite take_drop_commute. f_equal. f_equal. lia.
    + by rewrite Hz, drop_zeros.
Qed.

Section Initial.
Context {K : Kernel} {L : KernelLaws}.
Context (p : initial) (h : client_hello) (tail udp rest d : list Z) (pos : Z) (k : nat).
Context (Hp : initial_ok p) (Hh : hello_ok h) (Hplain : i_plain p = frame h ++ tail)
  (Hframe : (length (frame h) <= PKT_SZ)%nat)
  (Hfind : find_sni 32 (extensions_offset h) (ch_extensions h) = Some (pos, d))
  (Hd : 1 <= Z.of_nat (length d) < 2 ^ 16) (Hpos : pos + Z.of_nat SNI_SZ <= Z.of_nat PKT_SZ)
  (Hudp : length udp = 8%nat) (Hub : bytes_ok udp) (Hrb : bytes_ok rest).
Let dg : list Z := udp ++ protected p ++ rest.
Context (Hwin : Z.of_nat (pn_offset p) + 20 < header_window dg k).
Context (Hpage : ∀ n, is_Some (percpu_scratch n)).

Lemma frame_len : (32 < length (frame h))%nat.
Proof.
  unfold frame. repeat (rewrite ?length_app; cbn [length]). rewrite (ho_random h Hh). lia.
Qed.
Lemma plain_len : (4 < length (i_pn p) + length (i_plain p))%nat ∧ (2 <= length (i_plain p))%nat.
Proof. rewrite Hplain, length_app. pose proof frame_len. lia. Qed.
Lemma dg_ok : bytes_ok dg ∧ (40 <= length dg)%nat.
Proof.
  destruct plain_len as [H4 _]. split.
  - apply Forall_app. split; [done|]. apply Forall_app. split; [by apply protected_ok|done].
  - subst dg. unfold protected. rewrite !length_app, Hudp. destruct (payload_ok p Hp) as [-> _].
    rewrite Hplain, length_app. pose proof frame_len. lia.
Qed.

Lemma parse_quic_fast_initial sk eth hash net :
  parse_quic_fast (datagram sk eth hash net dg k) (zeros 20) 0 false
  = (IERR_OK, i_dcid p ++ zeros (20 - length (i_dcid p)), Z.of_nat (length (i_dcid p)), true).
Proof.
  destruct dg_ok as [Hdb Hdl]. rewrite parse_quic_fast_datagram by done. subst dg.
  rewrite drop_app_length' by done. destruct plain_len as [H4 _]. destruct (first_ok p Hp H4) as (Hf4 & Hf7 & _).
  unfold protected, i_header, Header.long_header. set (first := Header.hide_first _ _) in *. clearbody first.
  change (be_bytes 4 1) with [0; 0; 0; 1]. cbn [app]. rewrite <-!app_assoc.
  match goal with |- context [i_dcid p ++ ?r] => match r with context [i_payload p] => set (X := r) end end.
  assert (20 <= length (i_dcid p) + length X)%nat as HX.
  { subst X. pose proof (io_dcid p Hp). cbn [app length]. rewrite !length_app. destruct (payload_ok p Hp) as [-> _]. lia. }
  clearbody X. pose proof (io_dcid p Hp) as Hdc. unfold parse_quic_fields.
  change (nthZ (first :: 0 :: 0 :: 0 :: 1 :: Z.of_nat (length (i_dcid p)) :: i_dcid p ++ X) 0) with first.
  change (nthZ (first :: 0 :: 0 :: 0 :: 1 :: Z.of_nat (length (i_dcid p)) :: i_dcid p ++ X) (1 + 4)) with (Z.of_nat (length (i_dcid p))).
  change (slice (first :: 0 :: 0 :: 0 :: 1 :: Z.of_nat (length (i_dcid p)) :: i_dcid p ++ X) (1 + 4 + 1) 20) with (take 20 (i_dcid p ++ X)).
  rewrite Hf4, Hf7. change (negb (1 =? 0)) with true. change (0xC =? 0xC) with true. cbv iota.
  replace ((Z.of_nat (length (i_dcid p)) <? 8) || (20 <? Z.of_nat (length (i_dcid p)))) with false by lia.
  rewrite Nat2Z.id. assert (length (take 20 (i_dcid p ++ X)) = 20%nat) as Ht by (rewrite length_take, length_app; lia).
  rewrite store_spec by (rewrite Ht, length_zeros; lia). rewrite take_0, app_nil_l, (drop_ge (zeros 20)), app_nil_r by (rewrite Ht, length_zeros; lia).
  rewrite zero_tail by lia. do 4 f_equal. rewrite take_take, Nat.min_l by lia. by rewrite take_app_length.
Qed.

Lemma load_payload sk eth hash net n : (n <= length (i_plain p))%nat →
  md_load_bytes (datagram sk eth hash net dg k) (Z.of_nat (pn_offset p + length (i_pn p))) n
  = Some (take n (Rfc9001.ctr (Rfc9001.initial_key (i_dcid p)) (i_nonce p) (i_plain p))).
Proof.
  intros Hn. destruct plain_len as [H4 _]. destruct (hide_pn_ok p Hp H4) as [_ Hpnl].
  destruct (payload_ok p Hp) as [Hpl _]. cbn [md_load_bytes datagram]. unfold buf_load.
  set (a := udp ++ i_header p ++ Header.hide_pn (i_mask p) (i_pn p)).
  assert (dg = a ++ i_payload p ++ rest) as E by (subst dg a; unfold protected; by rewrite <-!app_assoc).
  assert (length a = (pn_offset p + length (i_pn p))%nat) as Ha by (subst a; rewrite !length_app, Hpnl, Hudp; unfold pn_offset; lia).
  rewrite E, !length_app, Ha, Hpl. set (o := (pn_offset p + length (i_pn p))%nat) in *.
  destruct (Z.leb_spec 0 (Z.of_nat o)); [|lia].
  destruct (Z.leb_spec (Z.of_nat o + Z.of_nat n) (Z.of_nat (o + (length (i_plain p) + 16 + length rest)))); [|lia].
  cbn [andb].
  f_equal. unfold slice. rewrite Nat2Z.id, drop_app_length' by done. unfold i_payload.
  destruct (initial_keys_ok (i_dcid p)) as ([Hkl Hkb] & _). destruct (nonce_ok p) as [Hnl Hnb].
  rewrite <-app_assoc. apply take_app_le. rewrite length_ctr by done. lia.
Qed.

Lemma initial_packet_sni sk eth hash net v w :
  ∃ w', initial_packet (datagram sk eth hash net dg k) (i_dcid p ++ zeros (20 - length (i_dcid p)))
    (Z.of_nat (length (i_dcid p))) v w
  = (inr (Some (take SNI_SZ d ++ zeros (SNI_SZ - length (take SNI_SZ d)))), w').
Proof.
  unfold initial_packet, percpu_scratch_page. destruct (Hpage (w_tick w)) as [m Hm]. rewrite Hm.
  destruct (percpu_scratch_ok _ _ Hm) as [Hml Hmb]. cbn [fmap option_fmap option_map].
  destruct plain_len as [H4 H2]. destruct (io_bytes p Hp) as (Hbd & _). pose proof (io_dcid p Hp) as Hdc.
  destruct (expand_client_keys (scratch_of m) (i_dcid p) _ (scratch_of_ok m Hml Hmb) eq_refl ltac:(lia) Hbd)
    as (Hok & Hkey & Hhp & Hiv & _).
  set (sc := expand_client_keys_from_dcid _ _ _) in *. clearbody sc. cbv zeta.
  set (w1 := if 4 <=? v then _ else _). clearbody w1.
  destruct (quic_parse_hdr_initial sk eth hash net p udp rest k sc v w1 Hp Hudp Hub Hrb Hwin H4 Hok Hkey Hhp Hiv)
    as (sc1 & w2 & E & Hok1 & Hkey1 & Hiv1 & _). fold dg in E. rewrite E.
  change (negb (0 =? IERR_OK)) with false. cbv iota.
  destruct (quic_extract_sni_decrypts (datagram sk eth hash net dg k) p sc1 (Z.of_nat (pn_offset p + length (i_pn p))) v w2
    (Nat.min (length (i_plain p)) PKT_SZ) Hp Hok1 Hkey1 Hiv1 H2 eq_refl ltac:(apply load_payload; lia))
    as (sc2 & w3 & E2 & _ & Hok2 & Hz & _ & Hpkt). rewrite E2.
  unfold parse_client_hello_extract_sni. destruct (so_pkt _ Hok2) as [Hpl2 Hpb2].
  assert (∃ r, s_pkt sc2 = frame h ++ r) as [r Hr].
  { rewrite Hpkt. unfold plain_page. rewrite Hplain, length_app. exists (drop (length (frame h)) (s_pkt sc2)).
    rewrite Hpkt. unfold plain_page. rewrite Hplain, length_app. rewrite <-(take_drop (length (frame h)) (take PKT_SZ _)) at 1. f_equal.
    rewrite take_take, Nat.min_l by lia. unfold PKT_SZ in *.
    rewrite take_app_le by (rewrite length_take, length_app; lia). rewrite take_take, Nat.min_l by lia. by apply take_app_length'. }
  assert (cursor (s_pkt sc2) 0 (frame h ++ r)) as C.
  { split_and!; [lia| |]; [by rewrite drop_0|by rewrite <-Hr]. }
  destruct (parse_client_hello_spec h (s_pkt sc2) r (Z.of_nat PKT_SZ) sc2 v w3 Hh C ltac:(lia)) as (w4 & E3 & _).
  rewrite E3, Hfind. unfold store_sni. destruct (Z.ltb_spec (Z.of_nat PKT_SZ) (pos + Z.of_nat SNI_SZ)); [lia|].
  destruct (get_sni_stored sc2 d Hok2 Hz Hd) as [El Es]. cbv zeta in El, Es. rewrite El, Es.
  change (IERR_OK =? IERR_OK) with true. destruct (Z.eqb_spec (Z.of_nat (length d)) 0); [lia|]. by eexists.
Qed.
End Initial.

Lemma lookup_host_range name d a : bytes_ok d → lookup_host name (hosts d) = Some a → 0 <= a < 256.
Proof.
  intros Hb. unfold hosts. generalize (seq 0 (Nat.min 8 (Z.to_nat (dis_bespoke_hostname_len d)))). intros l.
  induction l as [|i l IH]; [done|]. cbn [map lookup_host]. case_match; [|done]. intros [= <-].
  exact (load_range 1 d (120 + 64 * i) Hb).
Qed.

(** C9. End to end: a client's first flight reaches the application of its server name.
    For every Initial packet protected as RFC 9001 says with the keys of its connection
    id, whose CRYPTO frame holds a Client Hello with a server name extension among its
    first 32 (and within the 1024 bytes of the page), followed by anything and split by
    the kernel anywhere as long as the header window reaches the sample, the dissector
    derives the keys, removes header protection, decrypts, finds the extension and asks
    for a new flow of the application of the first configured host with that name, or of
    application 0. *)
Theorem server_name_routes {K : Kernel} {L : KernelLaws} p h tail udp rest d pos sk eth hash net k st gc app w :
  initial_ok p → hello_ok h → i_plain p = frame h ++ tail → (length (frame h) <= PKT_SZ)%nat →
  find_sni 32 (extensions_offset h) (ch_extensions h) = Some (pos, d) →
  1 <= Z.of_nat (length d) < 2 ^ 16 → pos + Z.of_nat SNI_SZ <= Z.of_nat PKT_SZ →
  length udp = 8%nat → bytes_ok udp → bytes_ok rest →
  Z.of_nat (pn_offset p) + 20 < header_window (udp ++ protected p ++ rest) k →
  (∀ n, is_Some (percpu_scratch n)) →
  dis_bespoke_digest (dis st) = 0xDEAD → 0 <= dis_max_apps (dis st) < 2 ^ 31 → bytes_ok (dis st) →
  ∃ w', logs_only w w' ∧
    dissector_cbpf (B := bespoke) (datagram sk eth hash net (udp ++ protected p ++ rest) k) st gc app w
    = routed st gc app (ToApp (default 0 (lookup_host (padded_name d) (hosts (dis st))))) w'.
Proof.
  intros Hp Hh Hplain Hframe Hfind Hd Hpos Hudp Hub Hrb Hwin Hpage Hdig Hmax Hdis.
  set (md := datagram sk eth hash net _ k).
  assert (∃ w', run_0xDEAD md st 0 w
    = (IERR_OK, NEW_FLOW (default 0 (lookup_host (padded_name d) (hosts (dis st)))), w')) as [w' E].
  { unfold run_0xDEAD, md. rewrite (parse_quic_fast_initial p h tail udp rest) by done.
    change (negb (IERR_OK =? IERR_OK)) with false. cbv iota zeta. set (w1 := if 3 <=? verbose st then _ else w).
    destruct (initial_packet_sni p h tail udp rest d pos k Hp Hh Hplain Hframe Hfind Hd Hpos Hudp Hub Hrb Hwin Hpage
      sk eth hash net (verbose st) w1) as [w2 ->].
    unfold dispatch_sni. rewrite match_sni_hosts, padded_sni by done.
    destruct (lookup_host _ _); by eexists. }
  exists w'. split; [by apply run_0xDEAD_kept in E as [? _]|].
  apply dissector_new_flow; [done|done| |done].
  destruct (lookup_host _ _) as [a|] eqn:Ea; [|cbn; lia]. by eapply lookup_host_range.
Qed.

(** An Initial packet with that Client Hello, to a group where the host is application 1. *)
Definition example_initial : initial :=
  mk_initial 0xC0 [0x83; 0x94; 0xc8; 0xf0; 0x3e; 0x51; 0x57; 0x08] [] [] 0 1 [1]
    (frame example_hello ++ zeros 20) (zeros 16).
Definition example_state : reuseport_storage :=
  set_dis (store (store (store (store (zeros DISSECTOR_SZ) 8 (le_bytes 4 2)) 12 (le_bytes 4 0xDEAD))
    116 (le_bytes 4 1)) 120 ([1; 0] ++ str_arg "test")) empty_state.

Lemma example_initial_ok : initial_ok example_initial.
Proof.
  split; try (split; vm_compute; congruence); try (vm_compute; reflexivity).
  - cbn. lia.
  - cbn. lia.
  - split_and!; [cbn; lia|cbn; lia|vm_compute; reflexivity].
  - split; [cbn; lia|vm_compute; reflexivity].
  - split_and!; by apply bytes_by_check.
Qed.
Lemma server_name_routes_witness :
  ∃ w', logs_only empty_world w' ∧
    dissector_cbpf (B := bespoke) (datagram (mk_bpf_sock 1 AF_INET 0 (0, 0, 0, 0) 443) ETH_P_IP 0 []
      (zeros 8 ++ protected example_initial ++ []) 40) example_state 7 8 empty_world
    = (IERR_BADRETURNVALUE, 7, 1, w').
Proof.
  pose proof (server_name_routes (K := good_kernel) example_initial example_hello (zeros 20) (zeros 8) [] example_sni
    (extensions_offset example_hello + 10) (mk_bpf_sock 1 AF_INET 0 (0, 0, 0, 0) 443) ETH_P_IP 0 [] 40 example_state 7 8
    empty_world example_initial_ok example_hello_ok eq_refl) as H.
  assert (default 0 (lookup_host (padded_name example_sni) (hosts (dis example_state))) = 1) as Ea by (vm_compute; reflexivity).
  rewrite Ea in H. apply H; clear H Ea.
  - vm_compute. lia.
  - vm_compute. reflexivity.
  - split; vm_compute; congruence.
  - vm_compute. congruence.
  - apply length_zeros.
  - apply bytes_ok_zeros.
  - constructor.
  - pose proof (length_protected example_initial example_initial_ok ltac:(vm_compute; lia)) as Hl.
    assert (pn_offset example_initial = 26%nat) as E by (rewrite pn_offset_eq; vm_compute; reflexivity). rewrite E in *.
    change (length (i_plain example_initial)) with 90%nat in Hl. change (length (i_pn example_initial)) with 1%nat in Hl.
    unfold header_window, MIN_QUIC_HDR_LINEAR. rewrite !length_app, length_zeros. change (length (@nil Z)) with 0%nat. lia.
  - intros n. by eexists.
  - vm_compute. reflexivity.
  - split; vm_compute; congruence.
  - by apply bytes_by_check.
Defined.
